(** * Workforce shift planning: scorers, validators, schedulers, shift merging

    A shallow embedding of the JavaScript sources of the repository:

    - [Solver]        the class [CodeBashSolver] of bah3.js (hour-by-hour
                      scoring simulation, schedule validation, greedy
                      schedule generation);
    - [RepValidator]  the class [PlanningValidator] of rep_validator.js
                      (day-by-day validation and scoring);
    - [Bah]           [mergeShifts] and the greedy loop of [createSchedule]
                      of bah.js;
    - [Bah2]          [generateSchedule] of bah2.js: the greedy loop and
                      the shift merging;
    - [Bah3]          [generateSimpleSchedule] and [mergeShifts] of the
                      first script of bah3.js;
    - [RunScheduler]  [runScheduler] of the second script of bah3.js;
    - [Sonnet]        [advancedSchedule] and [calculateScore] of sonnet.js;
    - [Part000]       the class [Scheduler] of part_000 ([scheduleDay],
                      [applyShifts], [generateSchedule]);
    - [ParseOutput]   the shift tokens read by rep_validator.js
                      ([parseInt], the constructor of [Shift]).

    Conventions.  JavaScript numbers that hold identifiers, hours, salaries,
    rates and training points are integers ([Z]); numbers that can be
    fractional (coverage, capacity, revenue, profit) are exact rationals
    ([Q]).  [Math.floor (a / 100)] on integers is [a / 100] on [Z].  A
    JavaScript object used as a dictionary is a [gmap]; where its keys are
    skill names, the members it inherits from [Object.prototype] are
    modelled too (see [Object_prototype] below).  A [Map] or [Set] whose
    iteration order is observable is an insertion-ordered list.  A
    statement that throws ([TypeError] on a property of [undefined], on a
    call of what is no function) makes the enclosing function return
    [None]; where a definition says so, [None] also stands for a number
    that would be [NaN] or for a value that is no number. *)

From Stdlib Require Import ZArith QArith Lia Lqa Ascii.
From stdpp Require Import gmap strings list pretty.

Local Open Scope Z_scope.

(** ** Loops and collections shared by the embeddings *)

(** Sequencing of statements that may throw. *)
Notation "'let?' p := e 'in' k" :=
  (match e with Some p => k | None => None end)
  (at level 10, p pattern, e at level 200, k at level 200, only parsing).

(** A [for ... of] loop whose body may throw. *)
Fixpoint foldM {A B} (f : B → A → option B) (b : B) (l : list A) : option B :=
  match l with
  | [] => Some b
  | x :: l => match f b x with Some b' => foldM f b' l | None => None end
  end.

(** [Array.prototype.filter] with a predicate that may throw. *)
Fixpoint filterM {A} (p : A → option bool) (l : list A) : option (list A) :=
  match l with
  | [] => Some []
  | x :: l =>
      match p x with
      | Some b =>
          match filterM p l with
          | Some r => Some (if b then x :: r else r)
          | None => None
          end
      | None => None
      end
  end.

(** [new Set(array)]: the distinct elements in order of first occurrence. *)
Definition Set_of (l : list Z) : list Z :=
  fold_left (λ acc x, if decide (x ∈ acc) then acc else acc ++ [x]) l [].

(** [Map.prototype.set] and [get] on an insertion-ordered map. *)
Definition Map_set {K V} `{EqDecision K} (k : K) (v : V) (m : list (K * V)) : list (K * V) :=
  if decide (k ∈ m.*1)
  then (λ kv, if decide (kv.1 = k) then (k, v) else kv) <$> m
  else m ++ [(k, v)].

Definition Map_get {K V} `{EqDecision K} (k : K) (m : list (K * V)) : option V :=
  snd <$> List.find (λ kv, bool_decide (kv.1 = k)) m.

(** [Array.prototype.sort] with a comparator: a stable sort that puts [a]
    before [b] when [compare a b < 0] and keeps the order of equal elements. *)
Fixpoint sort_insert {A} (compare : A → A → Z) (x : A) (l : list A) : list A :=
  match l with
  | [] => [x]
  | y :: l' => if decide (compare x y ≤ 0) then x :: l else y :: sort_insert compare x l'
  end.

Definition Array_sort {A} (compare : A → A → Z) (l : list A) : list A :=
  foldr (sort_insert compare) [] l.

(** The hours [h] visited by [for (let h = a; h < b; h++)]. *)
Definition hours (a b : Z) : list Z := seqZ a (b - a).

(** ** Plain objects keyed by skill name

    A plain object [{}] inherits the members of [Object.prototype].  For a
    key that names one of them and is no own property, [dict[key]] is that
    member: a function or, for [__proto__], the prototype object itself.
    It is truthy, so [dict[key] || 0] is the member and not 0; it is no
    number, so adding a number to it gives a string and comparing it with
    a number fails.  An assignment to [dict.__proto__] of a value that is
    no object is ignored, so [__proto__] is never an own property. *)
Definition Object_prototype : list string :=
  ["constructor"; "__defineGetter__"; "__defineSetter__"; "hasOwnProperty";
   "__lookupGetter__"; "__lookupSetter__"; "isPrototypeOf"; "propertyIsEnumerable";
   "toString"; "valueOf"; "__proto__"; "toLocaleString"].

Definition inherited (key : string) : bool := bool_decide (key ∈ Object_prototype).

(** Where the source keeps numbers in a plain object keyed by skill name,
    the [gmap] holds the own properties that are numbers.
    [Object_number dict key] is [dict[key] || 0] when that is a number and
    [None] when it is not: an inherited member, or a string stored by an
    earlier [Object_add]. *)
Definition Object_number (dict : gmap string Z) (key : string) : option Z :=
  if decide (key = "__proto__") then None
  else match dict !! key with
       | Some n => Some n
       | None => if inherited key then None else Some 0
       end.

(** [dict[key] = (dict[key] || 0) + n].  When [dict[key] || 0] is no
    number the sum is a string: it becomes an own property that is no
    number (or is dropped, for [__proto__]), and the key reads as no
    number afterwards just as it did before. *)
Definition Object_add (dict : gmap string Z) (key : string) (n : Z) : gmap string Z :=
  match Object_number dict key with
  | Some m => <[key := m + n]> dict
  | None => dict
  end.

(** [value >= bound], which fails on a value that is no number. *)
Definition Number_ge (value : option Z) (bound : Z) : bool :=
  match value with
  | Some v => bool_decide (bound ≤ v)
  | None => false
  end.

(** ** Numbers in template literals

    [`${n}`] writes an integer with all its digits below 10^21 in
    magnitude and in exponent form from there on: the first digit, the
    other digits up to the last one that is not 0 after a point, and
    [e+] with the decimal exponent.  (The digits are those of the integer,
    numbers being integers here.) *)
Fixpoint dropZeros (s : string) : string :=
  match s with
  | EmptyString => EmptyString
  | String c s' =>
      match dropZeros s' with
      | EmptyString => if decide (c = "0"%char) then EmptyString else String c EmptyString
      | r => String c r
      end
  end.

Definition exponentForm (n : Z) : string :=
  let digits := pretty (Z.abs n) in
  let mantissa :=
    match digits with
    | EmptyString => EmptyString
    | String c rest =>
        match dropZeros rest with
        | EmptyString => String c EmptyString
        | fraction => String c (String "."%char fraction)
        end
    end in
  (if decide (n < 0) then "-" else "") +:+ mantissa +:+ "e+"
  +:+ pretty (String.length digits - 1)%nat.

Definition Number_toString (n : Z) : string :=
  if decide (Z.abs n < 10 ^ 21) then pretty n else exponentForm n.

(** ** bah3.js: class CodeBashSolver *)

Module Solver.

Module Shift.
Record t := mk { employeeId : Z; start : Z; end_ : Z; skill : string }.

(** Formats the shift for the output file. *)
Definition toString (s : t) : string :=
  Number_toString (employeeId s) +:+ "-" +:+ Number_toString (start s) +:+ "-"
  +:+ Number_toString (end_ s) +:+ "-" +:+ skill s.
End Shift.

Module Day.
Record t := mk {
  id : Z; isOpen : bool; start : Z; end_ : Z;
  dailyRevenue : Z; requiredSkills : list string }.

Definition duration (d : t) : Z := if isOpen d then end_ d - start d else 0.

Definition totalRequiredSkillHours (d : t) : Z :=
  if isOpen d then duration d * Z.of_nat (length (requiredSkills d)) else 0.
End Day.

Module Employee.
Record t := mk {
  id : Z; maxHoursPerWeek : Z; salaryPerHour : Z;
  learningRate : Z; teachingRate : Z;
  knownSkills : gset string; vacationDays : gset Z }.
End Employee.

Module EmployeeState.
(** [weeklyHours] is keyed by week index; [trainingPoints] is a plain
    object keyed by skill name, of which the [gmap] holds the own
    properties that are numbers. *)
Record t := mk {
  weeklyHours : gmap Z Z;          (* week index -> hours *)
  trainingPoints : gmap string Z   (* skill -> points *) }.

Definition new : t := mk ∅ ∅.

Definition getWeekIndex (dayId : Z) : Z := (dayId - 1) / 7.

Definition getHoursThisWeek (st : t) (dayId : Z) : Z :=
  default 0 (weeklyHours st !! getWeekIndex dayId).

Definition addHour (st : t) (dayId : Z) : t :=
  let weekIndex := getWeekIndex dayId in
  mk (<[weekIndex := default 0 (weeklyHours st !! weekIndex) + 1]> (weeklyHours st))
     (trainingPoints st).

(** [this.trainingPoints[skill] || 0]; [None] when that is no number. *)
Definition getTrainingPoints (st : t) (skill : string) : option Z :=
  Object_number (trainingPoints st) skill.

Definition addTrainingPoints (st : t) (skill : string) (points : Z) : t :=
  mk (weeklyHours st) (Object_add (trainingPoints st) skill points).
End EmployeeState.

Record Organization := mkOrganization {
  overtimeModifierPercent : Z; fixedDailyCost : Z }.

(** The fields of a solver instance.  [employees] is a [Map] keyed by
    [Employee.id]; [parseInput] stores every employee under its own id. *)
Record t := mk {
  organization : Organization;
  days : list Day.t;
  employees : list Employee.t }.

Definition employees_get (this : t) (empId : Z) : option Employee.t :=
  List.find (λ e, bool_decide (Employee.id e = empId)) (employees this).

Definition employees_has (this : t) (empId : Z) : bool :=
  bool_decide (is_Some (employees_get this empId)).

(** *** calculateScore *)

(** The state of the simulation inside one day: the known skills of the
    cloned employees, the per-employee [EmployeeState], the promotions
    staged for the next hour and the two accumulators of the day. *)
Record Sim := mkSim {
  simEmployees : gmap Z (gset string);
  employeeStates : gmap Z EmployeeState.t;
  newSkillsLearned : list (Z * string);
  dailyPayroll : Z;
  achievedSkillHours : Q }.

(** [simEmployees.get(empId).knownSkills.has(skill)] *)
Definition knows (known : gmap Z (gset string)) (empId : Z) (skill : string) : option bool :=
  let? ks := known !! empId in Some (bool_decide (skill ∈ ks)).

(** 1. Promote employees who learned skills last hour. *)
Definition promote (sim : Sim) : option Sim :=
  let? known :=
    foldM (λ (known : gmap Z (gset string)) '(empId, skill),
             let? ks := known !! empId in Some (<[empId := ks ∪ {[skill]}]> known))
          (simEmployees sim) (newSkillsLearned sim) in
  Some (mkSim known (employeeStates sim) [] (dailyPayroll sim) (achievedSkillHours sim)).

Definition isActive (h : Z) (s : Shift.t) : bool :=
  bool_decide (Shift.start s ≤ h) && bool_decide (h + 0 < Shift.end_ s).

(** 2. The coverage one required skill obtains in the current hour. *)
Definition skillCoverage (known : gmap Z (gset string)) (activeShifts : list Shift.t)
    (skill : string) : option Q :=
  let shiftsForSkill := filter (λ s, Shift.skill s = skill) activeShifts in
  if decide (length shiftsForSkill = 0%nat) then Some 0%Q else
  let? trainedEmployees :=
    filterM (λ s, knows known (Shift.employeeId s) skill) shiftsForSkill in
  let? untrainedEmployees :=
    filterM (λ s, negb <$> knows known (Shift.employeeId s) skill) shiftsForSkill in
  Some (if decide (0 < length trainedEmployees)%nat then 1%Q
        else if decide (2 ≤ length untrainedEmployees)%nat then 1%Q
        else if decide (length untrainedEmployees = 1%nat) then (1 # 2)%Q
        else 0%Q).

Definition capacityStep (requiredSkills : list string) (activeShifts : list Shift.t)
    (sim : Sim) : option Sim :=
  let? achieved :=
    foldM (λ (achieved : Q) skill,
             let? c := skillCoverage (simEmployees sim) activeShifts skill in
             Some (achieved + c)%Q)
          (achievedSkillHours sim) requiredSkills in
  Some (mkSim (simEmployees sim) (employeeStates sim) (newSkillsLearned sim)
              (dailyPayroll sim) achieved).

(** 3. Payroll of the current hour. *)
Definition overtimePay (this : t) (employee : Employee.t) : Z :=
  Employee.salaryPerHour employee * overtimeModifierPercent (organization this) / 100.

Definition payEmployee (this : t) (dayId : Z) (sim : Sim) (empId : Z) : option Sim :=
  let? employee := employees_get this empId in
  let? state := employeeStates sim !! empId in
  let state := EmployeeState.addHour state dayId in
  let hoursThisWeek := EmployeeState.getHoursThisWeek state dayId in
  let pay := if decide (hoursThisWeek ≤ Employee.maxHoursPerWeek employee)
             then Employee.salaryPerHour employee
             else overtimePay this employee in
  Some (mkSim (simEmployees sim) (<[empId := state]> (employeeStates sim))
              (newSkillsLearned sim) (dailyPayroll sim + pay) (achievedSkillHours sim)).

Definition payrollStep (this : t) (dayId : Z) (activeEmployees : list Z) (sim : Sim)
    : option Sim :=
  foldM (payEmployee this dayId) sim activeEmployees.

(** 4. Training of the current hour. *)
Definition classify (this : t) (known : gmap Z (gset string))
    (acc : gmap string Z * list Shift.t) (shift : Shift.t)
    : option (gmap string Z * list Shift.t) :=
  let '(teachersBySkill, learners) := acc in
  let? ks := known !! Shift.employeeId shift in
  if decide (Shift.skill shift ∈ ks) then
    (* the teaching rate is read from the clone, a copy of the employee *)
    let? employee := employees_get this (Shift.employeeId shift) in
    let currentMax := default 0 (teachersBySkill !! Shift.skill shift) in
    if decide (currentMax < Employee.teachingRate employee)
    then Some (<[Shift.skill shift := Employee.teachingRate employee]> teachersBySkill, learners)
    else Some (teachersBySkill, learners)
  else Some (teachersBySkill, learners ++ [shift]).

Definition multiplierOf (teacherRate : option Z) : Z :=
  match teacherRate with
  | Some r => if decide (0 < r) then r else 1
  | None => 1
  end.

Definition teach (this : t) (teachersBySkill : gmap string Z) (sim : Sim)
    (learnerShift : Shift.t) : option Sim :=
  let? learner := employees_get this (Shift.employeeId learnerShift) in
  let? state := employeeStates sim !! Shift.employeeId learnerShift in
  let teacherRate := teachersBySkill !! Shift.skill learnerShift in
  let multiplier := multiplierOf teacherRate in
  let pointsGained := Employee.learningRate learner * multiplier in
  let? trained := knows (simEmployees sim) (Employee.id learner) (Shift.skill learnerShift) in
  if (trained : bool) then Some sim else
  let state := EmployeeState.addTrainingPoints state (Shift.skill learnerShift) pointsGained in
  let staged :=
    if Number_ge (EmployeeState.getTrainingPoints state (Shift.skill learnerShift)) 1000
    then Map_set (Employee.id learner) (Shift.skill learnerShift) (newSkillsLearned sim)
    else newSkillsLearned sim in
  Some (mkSim (simEmployees sim)
              (<[Shift.employeeId learnerShift := state]> (employeeStates sim))
              staged (dailyPayroll sim) (achievedSkillHours sim)).

Definition trainingStep (this : t) (activeShifts : list Shift.t) (sim : Sim) : option Sim :=
  let? (teachersBySkill, learners) :=
    foldM (classify this (simEmployees sim)) (∅, []) activeShifts in
  foldM (teach this teachersBySkill) sim learners.

(** One iteration of the hourly loop. *)
Definition simulateHour (this : t) (day : Day.t) (shifts : list Shift.t) (sim : Sim) (h : Z)
    : option Sim :=
  let? sim := promote sim in
  let activeShifts := filter (λ s, isActive h s) shifts in
  let activeEmployees := Set_of (Shift.employeeId <$> activeShifts) in
  let? sim := capacityStep (Day.requiredSkills day) activeShifts sim in
  let? sim := payrollStep this (Day.id day) activeEmployees sim in
  trainingStep this activeShifts sim.

Definition capacityPercent (day : Day.t) (achieved : Q) : Q :=
  if decide (0 < Day.totalRequiredSkillHours day)
  then (achieved / inject_Z (Day.totalRequiredSkillHours day))%Q
  else 0%Q.

Definition dailyProfit (this : t) (day : Day.t) (sim : Sim) : Q :=
  let revenue := (inject_Z (Day.dailyRevenue day)
                  * capacityPercent day (achievedSkillHours sim) ^ 2)%Q in
  (revenue - inject_Z (dailyPayroll sim) - inject_Z (fixedDailyCost (organization this)))%Q.

(** The state carried from one day to the next. *)
Record Run := mkRun {
  totalScore : Q;
  runEmployees : gmap Z (gset string);
  runStates : gmap Z EmployeeState.t }.

(** The simulation of the hours of one open day. *)
Definition simulateHours (this : t) (day : Day.t) (shifts : list Shift.t) (run : Run)
    : option Sim :=
  foldM (simulateHour this day shifts)
        (mkSim (runEmployees run) (runStates run) [] 0 0%Q)
        (hours (Day.start day) (Day.end_ day)).

Definition simulateDay (this : t) (schedule : gmap Z (list Shift.t)) (run : Run)
    (day : Day.t) : option Run :=
  let fixedCost := fixedDailyCost (organization this) in
  let shifts := default [] (schedule !! Day.id day) in
  if negb (Day.isOpen day)
  then Some (mkRun (totalScore run - inject_Z fixedCost)%Q (runEmployees run) (runStates run))
  else
    let? sim := simulateHours this day shifts run in
    Some (mkRun (totalScore run + dailyProfit this day sim)%Q
                (simEmployees sim) (employeeStates sim)).

Definition initialRun (this : t) : Run :=
  mkRun 0%Q
    (foldr (λ e m, <[Employee.id e := Employee.knownSkills e]> m) ∅ (employees this))
    (foldr (λ e m, <[Employee.id e := EmployeeState.new]> m) ∅ (employees this)).

Definition simulate (this : t) (schedule : gmap Z (list Shift.t)) : option Run :=
  foldM (simulateDay this schedule) (initialRun this) (days this).

Definition calculateScore (this : t) (schedule : gmap Z (list Shift.t)) : option Q :=
  totalScore <$> simulate this schedule.

(** *** validateSchedule *)

Record Validation := mkValidation { isValid : bool; errors : list string }.

Definition fault (message : string) (v : Validation) : Validation :=
  mkValidation false (errors v ++ [message]).

Definition faultIf (b : bool) (message : string) (v : Validation) : Validation :=
  if b then fault message v else v.

Definition overlaps (shift existing : Shift.t) : bool :=
  bool_decide (Z.max (Shift.start shift) (Shift.start existing)
               < Z.min (Shift.end_ shift) (Shift.end_ existing)).

Definition dayTag (day : Day.t) : string := "Day " +:+ Number_toString (Day.id day).

(** The checks of one shift; [employeeShifts] holds the earlier shifts of
    the day per employee. *)
Definition validateShift (this : t) (day : Day.t)
    (acc : Validation * gmap Z (list Shift.t)) (shift : Shift.t)
    : Validation * gmap Z (list Shift.t) :=
  let '(v, employeeShifts) := acc in
  match employees_get this (Shift.employeeId shift) with
  | None =>
      (* Rule: A shift references unknown employee ID. *)
      (fault (dayTag day +:+ ": Shift " +:+ Shift.toString shift
              +:+ " references unknown employee " +:+ Number_toString (Shift.employeeId shift)
              +:+ ".") v,
       employeeShifts)
  | Some employee =>
      (* Rule: Employee scheduled on a vacation day. *)
      let v := faultIf (bool_decide (Day.id day ∈ Employee.vacationDays employee))
                 (dayTag day +:+ ": Employee " +:+ Number_toString (Employee.id employee)
                  +:+ " scheduled on vacation.") v in
      (* Rule: Shift outside opening window. *)
      let v := faultIf (Day.isOpen day
                        && (bool_decide (Shift.start shift < Day.start day)
                            || bool_decide (Day.end_ day < Shift.end_ shift)))
                 (dayTag day +:+ ": Shift " +:+ Shift.toString shift
                  +:+ " is outside opening window [" +:+ Number_toString (Day.start day)
                  +:+ ", " +:+ Number_toString (Day.end_ day) +:+ ").") v in
      (* Rule: Shift on a closed day. *)
      let v := faultIf (negb (Day.isOpen day))
                 (dayTag day +:+ ": Shift " +:+ Shift.toString shift
                  +:+ " scheduled on closed day.") v in
      (* Rule: A shift with start >= end. *)
      let v := faultIf (bool_decide (Shift.end_ shift ≤ Shift.start shift))
                 (dayTag day +:+ ": Shift " +:+ Shift.toString shift
                  +:+ " has start >= end.") v in
      (* Rule: Overlapping shifts for same employee. *)
      let existingShifts := default [] (employeeShifts !! Employee.id employee) in
      let v := fold_left (λ v existing,
                            faultIf (overlaps shift existing)
                              (dayTag day +:+ ": Employee "
                               +:+ Number_toString (Employee.id employee)
                               +:+ " has overlapping shifts: " +:+ Shift.toString shift
                               +:+ " and " +:+ Shift.toString existing) v)
                         existingShifts v in
      (v, <[Employee.id employee := existingShifts ++ [shift]]> employeeShifts)
  end.

Definition validateDay (this : t) (schedule : gmap Z (list Shift.t))
    (v : Validation) (day : Day.t) : Validation :=
  match schedule !! Day.id day with
  | None => fault (dayTag day +:+ ": Missing day line in output.") v
  | Some shifts =>
      (* Rule: Closed day contains any shift tokens. *)
      let v := faultIf (negb (Day.isOpen day) && bool_decide (0 < length shifts)%nat)
                 (dayTag day +:+ " (Closed): Shifts are scheduled on a closed day.") v in
      (fold_left (validateShift this day) shifts (v, ∅)).1
  end.

(** The validation of a schedule: the verdict and the collected errors
    (of which the source prints the first ten). *)
Definition validation (this : t) (schedule : gmap Z (list Shift.t)) : Validation :=
  (* Rule: Number of lines == number of calendar days. *)
  let v := faultIf (bool_decide (size schedule ≠ length (days this)))
             ("Invalid line count: Expected " +:+ pretty (length (days this))
              +:+ ", got " +:+ pretty (size schedule))
             (mkValidation true []) in
  fold_left (validateDay this schedule) (days this) v.

Definition validateSchedule (this : t) (schedule : gmap Z (list Shift.t)) : bool :=
  isValid (validation this schedule).

(** Steps 3 and 4 of [run]: a schedule is scored only when it is valid. *)
Inductive Outcome :=
  | Aborted                      (* "Aborting due to invalid schedule." *)
  | Scored (score : option Q).

Definition validateThenScore (this : t) (schedule : gmap Z (list Shift.t)) : Outcome :=
  if negb (validateSchedule this schedule) then Aborted
  else Scored (calculateScore this schedule).

(** *** generateSchedule *)

(** 1. All employees available on the day, cheapest first. *)
Definition availableEmployees (this : t) (day : Day.t) : list Employee.t :=
  Array_sort (λ a b, Employee.salaryPerHour a - Employee.salaryPerHour b)
    (filter (λ employee, Day.id day ∉ Employee.vacationDays employee) (employees this)).

Definition wholeDay (day : Day.t) (skill : string) (emp : Employee.t) : Shift.t :=
  Shift.mk (Employee.id emp) (Day.start day) (Day.end_ day) skill.

(** The three strategies for one required skill; [assignedEmployeeIds]
    holds the employees that already have a shift on the day. *)
Definition coverSkill (day : Day.t) (available : list Employee.t)
    (acc : list Shift.t * gset Z) (skill : string) : list Shift.t * gset Z :=
  let '(dailyShifts, assignedEmployeeIds) := acc in
  let free := λ emp : Employee.t, bool_decide (Employee.id emp ∉ assignedEmployeeIds) in
  (* Strategy 1: Find 1 cheap SKILLED employee *)
  match List.find (λ emp, free emp && bool_decide (skill ∈ Employee.knownSkills emp))
                  available with
  | Some emp => (dailyShifts ++ [wholeDay day skill emp],
                 assignedEmployeeIds ∪ {[Employee.id emp]})
  | None =>
      (* Strategy 2: Find 2 cheap UNSKILLED employees *)
      match take 2 (List.filter free available) with
      | [emp1; emp2] =>
          (dailyShifts ++ [wholeDay day skill emp1; wholeDay day skill emp2],
           assignedEmployeeIds ∪ {[Employee.id emp1]} ∪ {[Employee.id emp2]})
      | _ =>
          (* Strategy 3 (Fallback): Find 1 cheap UNSKILLED employee *)
          match List.find free available with
          | Some emp => (dailyShifts ++ [wholeDay day skill emp],
                         assignedEmployeeIds ∪ {[Employee.id emp]})
          | None => (dailyShifts, assignedEmployeeIds)
          end
      end
  end.

Definition dailyShifts (this : t) (day : Day.t) : list Shift.t :=
  if negb (Day.isOpen day) then []
  else (fold_left (coverSkill day (availableEmployees this day)) (Day.requiredSkills day)
                  ([], ∅)).1.

(** The schedule as the [Map] from day ids to shifts, in insertion order. *)
Definition generateSchedule (this : t) : list (Z * list Shift.t) :=
  fold_left (λ schedule day, Map_set (Day.id day) (dailyShifts this day) schedule)
            (days this) [].

End Solver.

(** ** rep_validator.js: class PlanningValidator *)

Module RepValidator.

Record Organization := mkOrganization { overtimeMod : Z; fixedCost : Z }.

Module Day.
Record t := mk {
  id : Z; isClosed : bool; start : Z; end_ : Z; revenue : Z;
  requiredSkills : list string }.

(** The constructor stores [this.duration = this.end - this.start]. *)
Definition duration (d : t) : Z := end_ d - start d.

Definition totalSkillHours (d : t) : Z :=
  if isClosed d then 0 else duration d * Z.of_nat (length (requiredSkills d)).
End Day.

Module Employee.
Record t := mk {
  id : Z; maxHoursPerWeek : Z; salaryPerHour : Z;
  learningRate : Z; teachingRate : Z;
  initialSkills : gset string; vacationDays : gset Z }.
End Employee.

Module Shift.
Record t := mk { employeeId : Z; start : Z; end_ : Z; skill : string }.

Definition duration (s : t) : Z := end_ s - start s.

(** The constructor: a token whose duration is not positive is refused. *)
Definition new (employeeId start end_ : Z) (skill : string) : option t :=
  let s := mk employeeId start end_ skill in
  if decide (duration s ≤ 0) then None else Some s.
End Shift.

(** The fields of a validator.  [coverageMap[h][skill]] and
    [hourlyTeachers[h][skill]] are keyed below by the pair [(h, skill)].
    [isTrained] first replaces a missing [skillPoints[empId]] by [{}]; a
    missing entry is read here as the empty dictionary, which no access
    to [skillPoints] can tell apart.  [skillPoints[empId]] is a plain
    object keyed by skill name, of which the [gmap] holds the own
    properties (all numbers). *)
Record t := mk {
  organization : Organization;
  days : gmap Z Day.t;
  employees : gmap Z Employee.t;
  schedule : gmap Z (list Shift.t);
  skillPoints : gmap Z (gmap string Z);
  weeklyHours : gmap Z Z;
  totalProfit : Q;
  totalPayroll : Z;
  totalRevenuePotential : Z;
  isValid : bool;
  validationErrors : list string }.

Definition set_skillPoints (sp : gmap Z (gmap string Z)) (this : t) : t :=
  mk (organization this) (days this) (employees this) (schedule this) sp
     (weeklyHours this) (totalProfit this) (totalPayroll this)
     (totalRevenuePotential this) (isValid this) (validationErrors this).

Definition set_weeklyHours (wh : gmap Z Z) (this : t) : t :=
  mk (organization this) (days this) (employees this) (schedule this)
     (skillPoints this) wh (totalProfit this) (totalPayroll this)
     (totalRevenuePotential this) (isValid this) (validationErrors this).

Definition add_totals (profitD : Q) (payrollD revenue : Z) (this : t) : t :=
  mk (organization this) (days this) (employees this) (schedule this)
     (skillPoints this) (weeklyHours this)
     (totalProfit this + profitD)%Q (totalPayroll this + payrollD)
     (totalRevenuePotential this + revenue) (isValid this) (validationErrors this).

(** Records an error and flags the schedule as invalid. *)
Definition _logError (message : string) (this : t) : t :=
  mk (organization this) (days this) (employees this) (schedule this)
     (skillPoints this) (weeklyHours this) (totalProfit this) (totalPayroll this)
     (totalRevenuePotential this) false
     (if decide (message ∈ validationErrors this)
      then validationErrors this
      else validationErrors this ++ [message]).

(** [this.skillPoints[empId][skill] || 0] as a number.  A member
    inherited from [Object.prototype] is read as 0 here: [isTrained]
    compares it with 1000, which fails on it as on 0, and
    [updateTraining] reads the points of no skill that names one. *)
Definition points (this : t) (empId : Z) (skill : string) : Z :=
  default 0 (Object_number (default ∅ (skillPoints this !! empId)) skill).

Definition isTrained (this : t) (empId : Z) (skill : string) : bool :=
  bool_decide (1000 ≤ points this empId skill).

Definition overtimeRate (this : t) (employee : Employee.t) : Z :=
  Employee.salaryPerHour employee * overtimeMod (organization this) / 100.

Definition calculatePayroll (this : t) (empId shiftDuration : Z) : option (Z * t) :=
  let? employee := employees this !! empId in
  let weekly := default 0 (weeklyHours this !! empId) in
  let baseHoursRemaining := Employee.maxHoursPerWeek employee - weekly in
  let baseHours := Z.min shiftDuration (Z.max 0 baseHoursRemaining) in
  let overtimeHours := shiftDuration - baseHours in
  let cost := baseHours * Employee.salaryPerHour employee
              + overtimeHours * overtimeRate this employee in
  Some (cost, set_weeklyHours (<[empId := weekly + shiftDuration]> (weeklyHours this)) this).

(** The messages of the validity checks. *)
Definition msgNoEmployee (dayId empId : Z) : string :=
  "Day " +:+ Number_toString dayId +:+ ": Shift uses non-existent employee ID "
  +:+ Number_toString empId.

Definition msgVacation (dayId empId : Z) : string :=
  "Day " +:+ Number_toString dayId +:+ ": Employee " +:+ Number_toString empId
  +:+ " scheduled on vacation day.".

Definition msgOutside (dayId : Z) (shift : Shift.t) (day : Day.t) : string :=
  "Day " +:+ Number_toString dayId +:+ ": Shift " +:+ Number_toString (Shift.employeeId shift)
  +:+ "-" +:+ Number_toString (Shift.start shift) +:+ "-" +:+ Number_toString (Shift.end_ shift)
  +:+ " is outside store hours (" +:+ Number_toString (Day.start day) +:+ "-"
  +:+ Number_toString (Day.end_ day) +:+ ").".

Definition msgOverlap (dayId empId : Z) : string :=
  "Day " +:+ Number_toString dayId +:+ ": Employee " +:+ Number_toString empId
  +:+ " has overlapping shifts.".

(** The local variables of the first loop of [calculateCapacity]. *)
Record Scan := mkScan {
  scanThis : t;
  coverageMap : gmap (Z * string) (Z * Z);   (* [trained_count, untrained_count] *)
  employeeShiftsToday : gmap Z (list (Z * Z));
  payrollD : Z }.

Definition overlapsWith (shift : Shift.t) (interval : Z * Z) : bool :=
  bool_decide (Z.max (Shift.start shift) interval.1 < Z.min (Shift.end_ shift) interval.2).

(** The update of [coverageMap[h][skill]] for one hour of a shift.  On
    a skill that names a member of [Object.prototype] the cell
    [coverageMap[h][skill] || [0, 0]] is that member, never a pair of
    counts: the count is written on the member (as [NaN]) and the map
    gets no pair. *)
Definition countHour (isEmpTrained : bool) (skill : string)
    (cm : gmap (Z * string) (Z * Z)) (h : Z) : gmap (Z * string) (Z * Z) :=
  if inherited skill then cm else
  let c := default (0, 0) (cm !! (h, skill)) in
  <[(h, skill) := if isEmpTrained then (c.1 + 1, c.2) else (c.1, c.2 + 1)]> cm.

(** The three validity checks of a shift whose employee exists; [today]
    holds the intervals of the employee's earlier shifts of the day. *)
Definition validityChecks (dayId : Z) (day : Day.t) (emp : Employee.t)
    (today : list (Z * Z)) (shift : Shift.t) (this : t) : t :=
  (* Validity Check 1: Vacation *)
  let this := if decide (dayId ∈ Employee.vacationDays emp)
              then _logError (msgVacation dayId (Shift.employeeId shift)) this
              else this in
  (* Validity Check 2: Shift outside store hours *)
  let this := if decide (Shift.start shift < Day.start day ∨ Day.end_ day < Shift.end_ shift)
              then _logError (msgOutside dayId shift day) this
              else this in
  (* Validity Check 3: Overlapping shifts for same employee *)
  if existsb (overlapsWith shift) today
  then _logError (msgOverlap dayId (Shift.employeeId shift)) this
  else this.

Definition scanShift (dayId : Z) (day : Day.t) (sc : Scan) (shift : Shift.t) : option Scan :=
  let this := scanThis sc in
  match employees this !! Shift.employeeId shift with
  | None =>
      Some (mkScan (_logError (msgNoEmployee dayId (Shift.employeeId shift)) this)
                   (coverageMap sc) (employeeShiftsToday sc) (payrollD sc))
  | Some emp =>
      let today := default [] (employeeShiftsToday sc !! Shift.employeeId shift) in
      let this := validityChecks dayId day emp today shift this in
      let today := if existsb (overlapsWith shift) today then today
                   else today ++ [(Shift.start shift, Shift.end_ shift)] in
      (* Coverage Calculation & Payroll *)
      let? (cost, this) := calculatePayroll this (Shift.employeeId shift) (Shift.duration shift) in
      let isEmpTrained := isTrained this (Shift.employeeId shift) (Shift.skill shift) in
      Some (mkScan this
              (fold_left (countHour isEmpTrained (Shift.skill shift))
                         (hours (Shift.start shift) (Shift.end_ shift)) (coverageMap sc))
              (<[Shift.employeeId shift := today]> (employeeShiftsToday sc))
              (payrollD sc + cost))
  end.

(** The maximal teaching rate of the trained workers on [skill] at [h]. *)
Definition maxTeachingRate (this : t) (shifts : list Shift.t) (skill : string) (h : Z)
    : option Z :=
  foldM (λ maxRate shift,
           if bool_decide (Shift.skill shift = skill)
              && bool_decide (Shift.start shift ≤ h) && bool_decide (h < Shift.end_ shift)
              && isTrained this (Shift.employeeId shift) skill
           then let? employee := employees this !! Shift.employeeId shift in
                Some (Z.max maxRate (Employee.teachingRate employee))
           else Some maxRate)
        0 shifts.

(** The coverage of one required skill in one hour, from the two counts. *)
Definition hourlyCoverage (trainedCount untrainedCount : Z) : Q :=
  if decide (0 < trainedCount) then 1%Q
  else if decide (untrainedCount = 1) then (1 # 2)%Q
  else if decide (1 < untrainedCount) then 1%Q
  else 0%Q.

(** [coverageMap[h] && coverageMap[h][skill] ? coverageMap[h][skill] : [0, 0]].
    On a skill that names a member of [Object.prototype] the value can be
    that member, whose counts are [undefined] or [NaN]; the pair (0, 0)
    stands for them, since the three tests that read the counts
    ([trainedCount > 0], [untrainedCount === 1], [untrainedCount > 1])
    fail on them as they do on 0. *)
Definition hourCoverage (cm : gmap (Z * string) (Z * Z)) (h : Z) (skill : string) : Z * Z :=
  if inherited skill then (0, 0) else default (0, 0) (cm !! (h, skill)).

(** The coverage added to [achievedSkillHours] for [skill] at hour [h]. *)
Definition coverageAt (cm : gmap (Z * string) (Z * Z)) (h : Z) (skill : string) : Q :=
  hourlyCoverage (hourCoverage cm h skill).1 (hourCoverage cm h skill).2.

Definition coverHour (this : t) (shifts : list Shift.t) (cm : gmap (Z * string) (Z * Z))
    (skill : string) (acc : Q * gmap (Z * string) Z) (h : Z)
    : option (Q * gmap (Z * string) Z) :=
  let '(achievedSkillHours, hourlyTeachers) := acc in
  let trainedCount := (hourCoverage cm h skill).1 in
  let? hourlyTeachers :=
    if decide (0 < trainedCount)
    then let? maxRate := maxTeachingRate this shifts skill h in
         Some (<[(h, skill) := maxRate]> hourlyTeachers)
    else Some hourlyTeachers in
  Some ((achievedSkillHours + coverageAt cm h skill)%Q, hourlyTeachers).

(** The first loop of [calculateCapacity], over the shifts of the day. *)
Definition scanDay (this : t) (dayId : Z) (day : Day.t) (shifts : list Shift.t)
    : option Scan :=
  foldM (scanShift dayId day) (mkScan this ∅ ∅ 0) shifts.

(** The second loop, over the required skills and the opening hours. *)
Definition coverDay (this : t) (day : Day.t) (shifts : list Shift.t)
    (cm : gmap (Z * string) (Z * Z)) : option (Q * gmap (Z * string) Z) :=
  foldM (λ acc skill,
           foldM (coverHour this shifts cm skill) acc
                 (hours (Day.start day) (Day.end_ day)))
        (0%Q, ∅) (Day.requiredSkills day).

Record Metrics := mkMetrics {
  capacityD : Q; metricsPayrollD : Z; hourlyTeachers : gmap (Z * string) Z }.

(** Calculates the achieved capacity and total payroll for a day and
    runs the validity checks of the day. *)
Definition calculateCapacity (this : t) (dayId : Z) (shifts : list Shift.t)
    : option (Metrics * t) :=
  let? day := days this !! dayId in
  let? sc := scanDay this dayId day shifts in
  let this := scanThis sc in
  let? (achievedSkillHours, hourlyTeachers) := coverDay this day shifts (coverageMap sc) in
  let totalNeed := Day.totalSkillHours day in
  let capacityD := if decide (0 < totalNeed)
                   then (achievedSkillHours / inject_Z totalNeed)%Q else 0%Q in
  Some (mkMetrics capacityD (payrollD sc) hourlyTeachers, this).

(** A cell [empSkillHours[emp][skill]]: the array of the hours pushed,
    or, on a skill that names a member of [Object.prototype], the member
    the cell was initialised with ([cell || []] is the member). *)
Inductive HoursCell := Hours (hoursWorked : list Z) | Member.

(** The first loop of [updateTraining] for one shift.  [push] on a member
    of [Object.prototype] throws ([push] is not a function), so a shift of
    at least one hour on such a skill makes the loop throw.  The cell of
    [__proto__] is the prototype object and is never stored. *)
Definition pushHours (acc : list ((Z * string) * HoursCell)) (shift : Shift.t)
    : option (list ((Z * string) * HoursCell)) :=
  let key := (Shift.employeeId shift, Shift.skill shift) in
  let worked := hours (Shift.start shift) (Shift.end_ shift) in
  let cell := match Map_get key acc with
              | Some cell => cell
              | None => if inherited (Shift.skill shift) then Member else Hours []
              end in
  match cell with
  | Hours pushed => Some (Map_set key (Hours (pushed ++ worked)) acc)
  | Member =>
      match worked with
      | [] => Some (if decide (Shift.skill shift = "__proto__") then acc
                    else Map_set key Member acc)
      | _ :: _ => None
      end
  end.

(** The hours worked per employee and skill, [empSkillHours[emp][skill]],
    keyed by the pair.  The two [for ... in] loops of [updateTraining]
    update one cell of [skillPoints] per key and read no other cell, so
    the order in which they visit the keys does not show in the result;
    the keys are visited here in order of first occurrence. *)
Definition empSkillHours (shifts : list Shift.t) : option (list ((Z * string) * HoursCell)) :=
  foldM pushHours [] shifts.

(** The gain of one hour worked on [skill]. *)
Definition hourGain (employee : Employee.t) (hourlyTeachers : gmap (Z * string) Z)
    (skill : string) (h : Z) : Z :=
  let baseGain := Employee.learningRate employee in
  let teacherRate := default 0 (hourlyTeachers !! (h, skill)) in
  if decide (0 < teacherRate) then baseGain * teacherRate else baseGain.

(** The body of the second loop for one key.  [for (const h of cell)]
    throws on a cell that is no array. *)
Definition trainCell (hourlyTeachers : gmap (Z * string) Z) (this : t)
    (cell : (Z * string) * HoursCell) : option t :=
  let '((empId, skill), cell) := cell in
  let employee := employees this !! empId in
  (* Only apply learning if not already trained *)
  if isTrained this empId skill then Some this else
  let? hoursWorked := match cell with Hours pushed => Some pushed | Member => None end in
  let? totalGain :=
    foldM (λ totalGain h,
             let? employee := employee in
             Some (totalGain + hourGain employee hourlyTeachers skill h))
          0 hoursWorked in
  Some (set_skillPoints
          (<[empId := Object_add (default ∅ (skillPoints this !! empId)) skill totalGain]>
             (skillPoints this))
          this).

(** Updates employee skill points based on shifts and teaching bonuses. *)
Definition updateTraining (this : t) (dayId : Z) (shifts : list Shift.t)
    (hourlyTeachers : gmap (Z * string) Z) : option t :=
  let? cells := empSkillHours shifts in
  foldM (trainCell hourlyTeachers) this cells.

(** What the scorecard prints. *)
Inductive Report :=
  | ValidSchedule (totalProfit : Q) (totalPayroll totalRevenuePotential totalFixedCosts : Z)
  | InvalidSchedule (errors : list string).   (* "INVALID SCHEDULE (Score: 0)" *)

Definition reportedScore (r : Report) : Q :=
  match r with
  | ValidSchedule totalProfit _ _ _ => totalProfit
  | InvalidSchedule _ => 0%Q
  end.

(** 1. Weekly Hour Reset: [if (dayId % 7 === 0) this.weeklyHours = {}] *)
Definition weeklyReset (this : t) (dayId : Z) : t :=
  if decide (Z.rem dayId 7 = 0) then set_weeklyHours ∅ this else this.

(** One iteration of the loop over the days. *)
Definition scoreDay (this : t) (dayId : Z) : option t :=
  let? day := days this !! dayId in
  let shifts := default [] (schedule this !! dayId) in
  let this := weeklyReset this dayId in
  (* 2. Calculate Day Metrics & Run Checks *)
  if Day.isClosed day
  then Some (add_totals (- inject_Z (fixedCost (organization this))) 0 (Day.revenue day) this)
  else
    let? (metrics, this) := calculateCapacity this dayId shifts in
    let capacitySq := (capacityD metrics ^ 2)%Q in
    let profitD := (inject_Z (Day.revenue day) * capacitySq
                    - inject_Z (metricsPayrollD metrics)
                    - inject_Z (fixedCost (organization this)))%Q in
    let? this := updateTraining this dayId shifts (hourlyTeachers metrics) in
    Some (add_totals profitD (metricsPayrollD metrics) (Day.revenue day) this).

Definition dayIds (this : t) : list Z :=
  Array_sort (λ a b, a - b) (elements (dom (days this))).

(** Main loop: processes all days, checks validity and calculates the
    score.  The result is the final state and the scorecard, if one is
    printed. *)
Definition validateAndScore (this : t) : option (t * option Report) :=
  if negb (isValid this) then Some (this, None) else
  let? this := foldM scoreDay this (dayIds this) in
  Some (this,
        Some (if isValid this
              then ValidSchedule (totalProfit this) (totalPayroll this)
                     (totalRevenuePotential this)
                     (Z.of_nat (length (dayIds this)) * fixedCost (organization this))
              else InvalidSchedule (validationErrors this))).

End RepValidator.

(** ** Strings: [split] and [Number] *)

(** [str.split(sep)] for a one-character separator. *)
Fixpoint split (sep : ascii) (s : string) : list string :=
  match s with
  | EmptyString => [EmptyString]
  | String c s' =>
      if decide (c = sep) then EmptyString :: split sep s'
      else match split sep s' with
           | x :: r => String c x :: r
           | [] => [String c EmptyString]
           end
  end.

Definition digit (c : ascii) : option Z :=
  let n := Z.of_N (N_of_ascii c) in
  if decide (48 ≤ n ≤ 57) then Some (n - 48) else None.

Fixpoint Number_go (s : string) (acc : Z) : option Z :=
  match s with
  | EmptyString => Some acc
  | String c s' => match digit c with Some d => Number_go s' (10 * acc + d) | None => None end
  end.

(** [Number(str)] on the strings that reach it here, sequences of decimal
    digits: the number they denote, and 0 for the empty string.  [None]
    stands for [NaN]. *)
Definition Number (s : string) : option Z := Number_go s 0.

(** The key [`${employeeId}-${skill}`] of the grouping maps, and what
    [const [employeeId, skill] = key.split('-')] reads back from it. *)
Definition groupKey (employeeId : Z) (skill : string) : string :=
  pretty employeeId +:+ "-" +:+ skill.

Definition splitKey (key : string) : option (string * string) :=
  match split "-" key with
  | employeeId :: skill :: _ => Some (employeeId, skill)
  | _ => None
  end.

(** ** bah.js: mergeShifts *)

Module Bah.

Module Shift.
Record t := mk { employeeId : Z; start : Z; end_ : Z; skill : string; dayId : Z }.
End Shift.

Section Merge.
(** [String.prototype.localeCompare], which the host provides. *)
Variable localeCompare : string → string → Z.

(** Group and sort by employee, then skill, then start time. *)
Definition compareShifts (a b : Shift.t) : Z :=
  if decide (Shift.employeeId a ≠ Shift.employeeId b)
  then Shift.employeeId a - Shift.employeeId b
  else if decide (Shift.skill a ≠ Shift.skill b)
  then localeCompare (Shift.skill a) (Shift.skill b)
  else Shift.start a - Shift.start b.

Definition mergeStep (acc : list Shift.t * Shift.t) (nextShift : Shift.t)
    : list Shift.t * Shift.t :=
  let '(merged, currentShift) := acc in
  if bool_decide (Shift.employeeId currentShift = Shift.employeeId nextShift)
     && bool_decide (Shift.skill currentShift = Shift.skill nextShift)
     && bool_decide (Shift.end_ currentShift = Shift.start nextShift)
  then (* Merge: extend the end time *)
       (merged, Shift.mk (Shift.employeeId currentShift) (Shift.start currentShift)
                         (Shift.end_ nextShift) (Shift.skill currentShift)
                         (Shift.dayId currentShift))
  else (merged ++ [currentShift], nextShift).

(** Merges contiguous 1-hour shifts for the same employee and skill. *)
Definition mergeShifts (shifts : list Shift.t) : list Shift.t :=
  match Array_sort compareShifts shifts with
  | [] => []
  | first :: rest =>
      let '(merged, currentShift) := fold_left mergeStep rest ([], first) in
      merged ++ [currentShift]
  end.
End Merge.

(** *** createSchedule: the greedy loop of a day *)

Module Day.
Record t := mk {
  id : Z; is_open : bool; start : Z; end_ : Z; revenue : Z;
  requiredSkills : list string }.
End Day.

Module Employee.
Record t := mk {
  id : Z; maxHoursPerWeek : Z; salaryPerHour : Z;
  learningRate : Z; teachingRate : Z;
  skills : gset string; vacationDays : gset Z }.
End Employee.

(** The variables of the while loop: [coverage[h][skill]] is the pair
    [[is_fully_covered, employeeIdSet]]. *)
Record Greedy := mkGreedy {
  shifts : list Shift.t;
  scheduledHours : gmap Z (gset Z);
  coverage : gmap (Z * string) (bool * gset Z);
  attempts : Z }.

Definition MAX_SCHEDULE_ATTEMPTS : Z := 50000.

(** The slots of the day, hour by hour. *)
Definition slots (day : Day.t) : list (Z * string) :=
  h ← hours (Day.start day) (Day.end_ day);
  (λ skill, (h, skill)) <$> Day.requiredSkills day.

Definition initialGreedy (day : Day.t) : Greedy :=
  mkGreedy [] ∅ (fold_left (λ m slot, <[slot := (false, ∅)]> m) (slots day) ∅) 0.

Record Slot := mkSlot { hour : Z; slotSkill : option string; slotCoverage : Q }.

(** 1. Find the least covered hour/skill combination. *)
Definition leastCoveredSlot (day : Day.t) (g : Greedy) : Slot :=
  fold_left
    (λ least '(h, skill),
       match coverage g !! (h, skill) with
       | Some (false, ids) =>
           let currentCoverage :=
             ((if decide (0 < size ids)%nat then 1 # 2 else 0)
              + (if decide (2 ≤ size ids)%nat then 1 # 2 else 0))%Q in
           if negb (Qle_bool (slotCoverage least) currentCoverage)
           then mkSlot h (Some skill) currentCoverage
           else least
       | _ => least
       end)
    (slots day) (mkSlot (-1) None 1).

Definition isEmployeeScheduledAtHour (scheduledHours : gmap Z (gset Z)) (employeeId h : Z)
    : bool :=
  match scheduledHours !! employeeId with
  | Some hs => bool_decide (h ∈ hs)
  | None => false
  end.

(** The score (capacity benefit) of an employee on the slot. *)
Definition coverageValue (least : Slot) (isTrained : bool) : Q :=
  if isTrained then (1 - slotCoverage least)%Q
  else if Qeq_bool (slotCoverage least) (1 # 2) then (1 # 2)%Q
  else if Qeq_bool (slotCoverage least) 0 then (1 # 2)%Q
  else 0%Q.

(** 2. Find the best employee to fill this slot.  [bestScore] is [None]
    while it is [-Infinity]. *)
Definition bestShift (day : Day.t) (employees : list Employee.t) (g : Greedy) (least : Slot)
    : option (Employee.t * bool) * option Q :=
  fold_left
    (λ (best : option (Employee.t * bool) * option Q) emp,
       if bool_decide (Day.id day ∈ Employee.vacationDays emp) then best
       else if isEmployeeScheduledAtHour (scheduledHours g) (Employee.id emp) (hour least)
       then best
       else
         let isTrained :=
           match slotSkill least with
           | Some skill => bool_decide (skill ∈ Employee.skills emp)
           | None => false
           end in
         let value := coverageValue least isTrained in
         match best.2 with
         | Some bestScore =>
             if negb (Qle_bool value bestScore) then (Some (emp, isTrained), Some value)
             else best
         | None => (Some (emp, isTrained), Some value)
         end)
    employees (None, None).

Inductive Pass := Break | Thrown | Again (g : Greedy).

(** Found a profitable shift, now book it. *)
Definition book (day : Day.t) (g : Greedy) (least : Slot) (emp : Employee.t)
    (isTrained : bool) : Pass :=
  match slotSkill least with
  | None => Thrown
  | Some skill =>
      match coverage g !! (hour least, skill) with
      | None => Thrown
      | Some (full, ids) =>
          let ids := ids ∪ {[Employee.id emp]} in
          let full := if isTrained || bool_decide (2 ≤ size ids)%nat then true else full in
          Again (mkGreedy
                   (shifts g ++ [Shift.mk (Employee.id emp) (hour least) (hour least + 1)
                                          skill (Day.id day)])
                   (<[Employee.id emp :=
                        default ∅ (scheduledHours g !! Employee.id emp) ∪ {[hour least]}]>
                      (scheduledHours g))
                   (<[(hour least, skill) := (full, ids)]> (coverage g))
                   0)
      end
  end.

(** The body of the while loop, after [attempts++]. *)
Definition pass (day : Day.t) (employees : list Employee.t) (g : Greedy) : Pass :=
  let least := leastCoveredSlot day g in
  (* If all required slots are fully covered, stop trying to schedule *)
  if decide (hour least = -1) then Break else
  match bestShift day employees g least with
  | (Some (emp, isTrained), Some bestScore) =>
      if negb (Qle_bool bestScore 0) then book day g least emp isTrained else Break
  | _ => Break
  end.

Inductive Run := Done (g : Greedy) | Throws | Unfinished.

(** The while loop, run for at most [fuel] passes. *)
Fixpoint while (fuel : nat) (day : Day.t) (employees : list Employee.t) (g : Greedy) : Run :=
  if decide (attempts g < MAX_SCHEDULE_ATTEMPTS) then
    match fuel with
    | O => Unfinished
    | S fuel =>
        let g := mkGreedy (shifts g) (scheduledHours g) (coverage g) (attempts g + 1) in
        match pass day employees g with
        | Break => Done g
        | Thrown => Throws
        | Again g => while fuel day employees g
        end
    end
  else Done g.

End Bah.

(** ** bah3.js, first script: generateSimpleSchedule and its mergeShifts *)

Module Bah3.

Module Shift.
Record t := mk { employeeId : Z; start : Z; end_ : Z; skill : string }.
End Shift.

(** The [Map] from key to the start hours pushed under it. *)
Definition groupStarts (shifts : list Shift.t) : list (string * list Z) :=
  fold_left (λ map s,
               let key := groupKey (Shift.employeeId s) (Shift.skill s) in
               Map_set key (default [] (Map_get key map) ++ [Shift.start s]) map)
            shifts [].

(** The runs of consecutive hours in the sorted start hours. *)
Definition runStep (acc : list (Z * Z) * (Z * Z)) (start : Z) : list (Z * Z) * (Z * Z) :=
  let '(runs, (currentStart, currentEnd)) := acc in
  if decide (start = currentEnd) then (runs, (currentStart, start + 1))
  else (runs ++ [(currentStart, currentEnd)], (start, start + 1)).

Definition runsOf (starts : list Z) : list (Z * Z) :=
  match Array_sort (λ a b, a - b) starts with
  | [] => []
  | first :: rest =>
      let '(runs, current) := fold_left runStep rest ([], (first, first + 1)) in
      runs ++ [current]
  end.

(** The shifts pushed for one entry of the map.  [None] stands for an
    entry whose employee id would be [NaN] or whose skill [undefined]. *)
Definition mergeEntry (entry : string * list Z) : option (list Shift.t) :=
  let? (employeeId, skill) := splitKey entry.1 in
  let? employeeId := Number employeeId in
  Some ((λ run : Z * Z, Shift.mk employeeId run.1 run.2 skill) <$> runsOf entry.2).

Definition mergeShifts (shifts : list Shift.t) : option (list Shift.t) :=
  foldM (λ merged entry, let? l := mergeEntry entry in Some (merged ++ l))
        [] (groupStarts shifts).

(** *** generateSimpleSchedule *)

Module Day.
Record t := mk {
  dayId : Z; closed : bool; start : Z; end_ : Z;
  dailyRevenue : Z; requiredSkills : list string }.
End Day.

Module Employee.
Record t := mk {
  id : Z; maxHoursPerWeek : Z; salaryPerHour : Z;
  learningRate : Z; teachingRate : Z;
  skills : gset string; vacationDays : gset Z }.
End Employee.

Definition isScheduledThisHour (shifts : list Shift.t) (employee : Employee.t) (hour : Z)
    : bool :=
  existsb (λ shift, bool_decide (Shift.employeeId shift = Employee.id employee)
                    && bool_decide (Shift.start shift ≤ hour)
                    && bool_decide (hour < Shift.end_ shift)) shifts.

(** The worker found for a required skill in an hour: the first employee
    of the input who is not on vacation, is initially trained in the skill
    and is not scheduled in that hour. *)
Definition findWorker (day : Day.t) (employees : list Employee.t) (shifts : list Shift.t)
    (hour : Z) (requiredSkill : string) : option Employee.t :=
  List.find (λ employee,
               negb (bool_decide (Day.dayId day ∈ Employee.vacationDays employee))
               && bool_decide (requiredSkill ∈ Employee.skills employee)
               && negb (isScheduledThisHour shifts employee hour))
            employees.

Definition staffSkill (day : Day.t) (employees : list Employee.t) (hour : Z)
    (shifts : list Shift.t) (requiredSkill : string) : list Shift.t :=
  match findWorker day employees shifts hour requiredSkill with
  | Some employee =>
      shifts ++ [Shift.mk (Employee.id employee) hour (hour + 1) requiredSkill]
  | None => shifts
  end.

(** The one-hour shifts pushed for a day, before they are merged. *)
Definition hourShifts (day : Day.t) (employees : list Employee.t) : list Shift.t :=
  fold_left (λ shifts hour,
               fold_left (staffSkill day employees hour) (Day.requiredSkills day) shifts)
            (hours (Day.start day) (Day.end_ day)) [].

(** The shifts stored under the id of a day. *)
Definition scheduleOf (day : Day.t) (employees : list Employee.t) : option (list Shift.t) :=
  if Day.closed day then Some [] else
  if decide (Day.end_ day - Day.start day ≤ 0) then Some [] else
  mergeShifts (hourShifts day employees).

Definition generateSimpleSchedule (days : list Day.t) (employees : list Employee.t)
    : option (gmap Z (list Shift.t)) :=
  foldM (λ schedule day,
           let? shifts := scheduleOf day employees in
           Some (<[Day.dayId day := shifts]> schedule))
        ∅ days.

End Bah3.

(** ** bah2.js: generateSchedule, its shift merging first *)

Module Bah2.

Module Shift.
Record t := mk { employeeId : Z; start : Z; end_ : Z; skill : string; dayId : Z }.
End Shift.

Definition groupedShifts (shiftsForDay : list Shift.t) : list (string * list (Z * Z)) :=
  fold_left (λ map shift,
               let key := groupKey (Shift.employeeId shift) (Shift.skill shift) in
               Map_set key (default [] (Map_get key map)
                            ++ [(Shift.start shift, Shift.end_ shift)]) map)
            shiftsForDay [].

Definition mergeStep (acc : list (Z * Z) * (Z * Z)) (next : Z * Z)
    : list (Z * Z) * (Z * Z) :=
  let '(merged, current) := acc in
  if decide (next.1 = current.2) then (merged, (current.1, next.2))
  else (merged ++ [current], next).

(** Sort by start time and merge consecutive shifts. *)
Definition mergeBlocks (shifts : list (Z * Z)) : list (Z * Z) :=
  match Array_sort (λ a b : Z * Z, a.1 - b.1) shifts with
  | [] => []
  | first :: rest =>
      let '(merged, current) := fold_left mergeStep rest ([], first) in
      merged ++ [current]
  end.

(** The merged blocks of one entry, with the employee id and the skill
    read back from the key (both are strings here). *)
Definition mergedEntry (entry : string * list (Z * Z))
    : option (string * string * list (Z * Z)) :=
  let? (employeeId, skill) := splitKey entry.1 in
  Some (employeeId, skill, mergeBlocks entry.2).

Definition token (employeeId skill : string) (m : Z * Z) : string :=
  employeeId +:+ "-" +:+ pretty m.1 +:+ "-" +:+ pretty m.2 +:+ "-" +:+ skill.

Definition mergedEntries (shiftsForDay : list Shift.t)
    : option (list (string * string * list (Z * Z))) :=
  mapM mergedEntry (groupedShifts shiftsForDay).

Definition finalTokens (shiftsForDay : list Shift.t) : option (list string) :=
  let? entries := mergedEntries shiftsForDay in
  Some (concat ((λ e : string * string * list (Z * Z), token e.1.1 e.1.2 <$> e.2) <$> entries)).

(** *** generateSchedule: the greedy loop *)

Module Day.
Record t := mk {
  id : Z; is_open : bool; start : Z; end_ : Z; revenue : Z;
  required_skills : list string }.
End Day.

Module Employee.
Record t := mk {
  id : Z; max_hours_per_week : Z; salary_per_hour : Z;
  learning_rate : Z; teaching_rate : Z;
  skills : gset string; vacation_days : gset Z }.
End Employee.

(** The globals [parseInput] fills and [generateSchedule] only reads.
    [employees] is a [Map] keyed by the id of the employee it stores, in
    insertion order. *)
Record t := mk {
  OVERTIME_MODIFIER_PERCENT : Z;
  calendarDays : list Day.t;
  employees : list Employee.t }.

(** What [generateSchedule] updates: the [shifts] array and the [skills]
    set of every employee, by employee id, and the two tracking maps. *)
Record State := mkState {
  employeeShifts : gmap Z (list Shift.t);
  employeeSkills : gmap Z (gset string);
  employeeHoursWorked : gmap Z Z;
  employeeSkillPoints : gmap Z (gmap string Z) }.

Definition employees_get (this : t) (employeeId : Z) : option Employee.t :=
  List.find (λ e, bool_decide (Employee.id e = employeeId)) (employees this).

Definition shiftsOf (st : State) (employeeId : Z) : list Shift.t :=
  default [] (employeeShifts st !! employeeId).

(** Checks if an employee can work on a given day/hour. *)
Definition isEmployeeAvailable (this : t) (st : State) (employeeId dayId startHour endHour : Z)
    : option bool :=
  let? employee := employees_get this employeeId in
  if decide (dayId ∈ Employee.vacation_days employee) then Some false else
  let scheduledShifts := filter (λ s, Shift.dayId s = dayId) (shiftsOf st employeeId) in
  Some (negb (existsb (λ shift, bool_decide (startHour < Shift.end_ shift)
                                && bool_decide (Shift.start shift < endHour))
                      scheduledShifts)).

(** [hoursThisWeek < employee.max_hours_per_week], false on [undefined]. *)
Definition isOvertime (st : State) (employee : Employee.t) : bool :=
  match employeeHoursWorked st !! Employee.id employee with
  | Some hoursThisWeek => bool_decide (Employee.max_hours_per_week employee ≤ hoursThisWeek)
  | None => false
  end.

(** Calculates the cost for one hour for an employee, considering
    overtime. *)
Definition calculateHourlyCost (this : t) (st : State) (employeeId : Z) : option Z :=
  let? employee := employees_get this employeeId in
  match employeeHoursWorked st !! employeeId with
  | Some hoursThisWeek =>
      if decide (hoursThisWeek < Employee.max_hours_per_week employee)
      then Some (Employee.salary_per_hour employee)
      else Some (Employee.salary_per_hour employee * OVERTIME_MODIFIER_PERCENT this / 100)
  | None => Some (Employee.salary_per_hour employee * OVERTIME_MODIFIER_PERCENT this / 100)
  end.

(** Trained means skill points >= 1000. *)
Definition isTrained (st : State) (employeeId : Z) (skill : string) : option bool :=
  let? pointsMap := employeeSkillPoints st !! employeeId in
  Some (match pointsMap !! skill with
        | Some points => bool_decide (1000 ≤ points)
        | None => false
        end).

(** A candidate with what the comparator of the sort reads of it. *)
Record Candidate := mkCandidate {
  emp : Employee.t; trained : bool; overtime : bool; cost : Z }.

Definition candidateOf (this : t) (st : State) (skill : string) (employee : Employee.t)
    : option Candidate :=
  let? trained := isTrained st (Employee.id employee) skill in
  let? cost := calculateHourlyCost this st (Employee.id employee) in
  Some (mkCandidate employee trained (isOvertime st employee) cost).

(** Trained comes first, then base-hour employees, then the lowest
    hourly cost. *)
Definition compareCandidates (a b : Candidate) : Z :=
  if negb (eqb (trained a) (trained b)) then Z.b2z (trained b) - Z.b2z (trained a)
  else if negb (eqb (overtime a) (overtime b)) then Z.b2z (overtime a) - Z.b2z (overtime b)
  else cost a - cost b.

(** The available employees, sorted.  The comparator looks up the skill
    points of every candidate when there are two or more; with one
    candidate the same lookup follows the booking. *)
Definition availableEmployees (this : t) (st : State) (dayId hour : Z) (skill : string)
    : option (list Candidate) :=
  let? available :=
    filterM (λ e, isEmployeeAvailable this st (Employee.id e) dayId hour (hour + 1))
            (employees this) in
  let? candidates := mapM (candidateOf this st skill) available in
  Some (Array_sort compareCandidates candidates).

(** Check current coverage from already scheduled shifts. *)
Definition currentCoverage (st : State) (skill : string) (hourShifts : list Shift.t)
    : option Q :=
  foldM (λ (coverage : Q) shift,
           let? isEmpTrained := isTrained st (Shift.employeeId shift) skill in
           Some (coverage + (if isEmpTrained : bool then 1 else 1 # 2))%Q)
        0%Q hourShifts.

(** Find the max teaching rate of a co-scheduled trained employee. *)
Definition maxTeachingRate (this : t) (st : State) (skill : string)
    (hourShifts : list Shift.t) : option Z :=
  foldM (λ maxTeachingRate shift,
           let? teacher := employees_get this (Shift.employeeId shift) in
           let? trained := isTrained st (Employee.id teacher) skill in
           Some (if trained : bool
                 then Z.max maxTeachingRate (Employee.teaching_rate teacher)
                 else maxTeachingRate))
        1 hourShifts.

(** Update training points of the employee just booked. *)
Definition train (this : t) (st : State) (bestEmployee : Employee.t) (skill : string)
    (hourShifts : list Shift.t) : option State :=
  let? trained := isTrained st (Employee.id bestEmployee) skill in
  if trained : bool then Some st else
  let? pointsMap := employeeSkillPoints st !! Employee.id bestEmployee in
  let? hasTeacher :=
    foldM (λ (found : bool) s,
             if found then Some true else isTrained st (Shift.employeeId s) skill)
          false hourShifts in
  let? pointsGained :=
    if hasTeacher : bool
    then let? maxTeachingRate := maxTeachingRate this st skill hourShifts in
         Some (Employee.learning_rate bestEmployee * maxTeachingRate)
    else Some (Employee.learning_rate bestEmployee) in
  let points := default 0 (pointsMap !! skill) + pointsGained in
  let skills := default (Employee.skills bestEmployee)
                        (employeeSkills st !! Employee.id bestEmployee) in
  Some (mkState (employeeShifts st)
          (if decide (1000 ≤ points)
           then <[Employee.id bestEmployee := skills ∪ {[skill]}]> (employeeSkills st)
           else employeeSkills st)
          (employeeHoursWorked st)
          (<[Employee.id bestEmployee := <[skill := points]> pointsMap]>
             (employeeSkillPoints st))).

(** The body of the loop over the required skill-hours of a day.  The
    hours counter that is incremented is one [parseInput] has set. *)
Definition cover (this : t) (day : Day.t) (acc : list Shift.t * State) (req : Z * string)
    : option (list Shift.t * State) :=
  let '(shiftsForDay, st) := acc in
  let '(hour, skill) := req in
  let hourShifts :=
    filter (λ s, Shift.skill s = skill ∧ Shift.start s ≤ hour ∧ hour < Shift.end_ s)
           shiftsForDay in
  let? currentCoverage := currentCoverage st skill hourShifts in
  (* Only schedule if coverage is not full (less than 1.0) *)
  if negb (Qle_bool 1 currentCoverage) then
    let? availableEmployees := availableEmployees this st (Day.id day) hour skill in
    match availableEmployees with
    | [] => Some acc
    | best :: _ =>
        let bestEmployee := emp best in
        let newShift := Shift.mk (Employee.id bestEmployee) hour (hour + 1) skill (Day.id day) in
        let? hoursWorked := employeeHoursWorked st !! Employee.id bestEmployee in
        let st := mkState
                    (<[Employee.id bestEmployee :=
                         shiftsOf st (Employee.id bestEmployee) ++ [newShift]]>
                       (employeeShifts st))
                    (employeeSkills st)
                    (<[Employee.id bestEmployee := hoursWorked + 1]> (employeeHoursWorked st))
                    (employeeSkillPoints st) in
        let? st := train this st bestEmployee skill hourShifts in
        Some (shiftsForDay ++ [newShift], st)
    end
  else Some acc.

(** Identify all required skill-hours for the day. *)
Definition requiredSkillHours (day : Day.t) : list (Z * string) :=
  hour ← hours (Day.start day) (Day.end_ day);
  (λ skill, (hour, skill)) <$> Day.required_skills day.

(** Reset weekly hours for all employees at the start of a new week. *)
Definition weeklyReset (this : t) (dayId : Z) (st : State) : State :=
  if bool_decide (Z.rem (dayId - 1) 7 = 0) && bool_decide (1 < dayId)
  then fold_left
         (λ st empId,
            mkState (<[empId := filter (λ s, dayId ≤ Shift.dayId s) (shiftsOf st empId)]>
                       (employeeShifts st))
                    (employeeSkills st)
                    (<[empId := 0]> (employeeHoursWorked st))
                    (employeeSkillPoints st))
         (Employee.id <$> employees this) st
  else st.

(** The one-hour shifts of an open day and the state they leave. *)
Definition shiftsForDay (this : t) (day : Day.t) (st : State)
    : option (list Shift.t * State) :=
  foldM (cover this day) ([], st) (requiredSkillHours day).

Definition join (sep : string) (l : list string) : string :=
  match l with
  | [] => EmptyString
  | x :: l => fold_left (λ acc y, acc +:+ sep +:+ y) l x
  end.

Definition scheduleDay (this : t) (acc : list string * State) (day : Day.t)
    : option (list string * State) :=
  let '(outputLines, st) := acc in
  let st := weeklyReset this (Day.id day) st in
  if negb (Day.is_open day) then Some (outputLines ++ [pretty (Day.id day) +:+ " _"], st) else
  let? (shifts, st) := shiftsForDay this day st in
  let? tokens := finalTokens shifts in
  Some (outputLines ++ [match tokens with
                        | [] => pretty (Day.id day) +:+ " _"
                        | _ => pretty (Day.id day) +:+ " " +:+ join " " tokens
                        end], st).

(** The state [parseInput] leaves: no hours, trained skills at 1000. *)
Definition initialState (this : t) : State :=
  fold_left
    (λ st e,
       mkState (<[Employee.id e := []]> (employeeShifts st))
               (<[Employee.id e := Employee.skills e]> (employeeSkills st))
               (<[Employee.id e := 0]> (employeeHoursWorked st))
               (<[Employee.id e := gset_to_gmap 1000 (Employee.skills e)]>
                  (employeeSkillPoints st)))
    (employees this) (mkState ∅ ∅ ∅ ∅).

Definition generateSchedule (this : t) (st : State) : option (list string * State) :=
  foldM (scheduleDay this) ([], st) (calendarDays this).

End Bah2.

(** ** sonnet.js: advancedSchedule *)

Module Sonnet.

Module Day.
Record t := mk {
  id : Z; closed : bool; start : Z; end_ : Z; revenue : Z; skills : list string }.
End Day.

Module Employee.
Record t := mk {
  id : Z; maxHoursPerWeek : Z; salaryPerHour : Z;
  learningRate : Z; teachingRate : Z;
  skills : gset string; vacation : gset Z }.
End Employee.

Module Shift.
Record t := mk { employeeId : Z; start : Z; end_ : Z; skill : string }.
End Shift.

Record Input := mkInput {
  overtimeModifier : Z; fixedDailyCost : Z;
  days : list Day.t; employees : list Employee.t }.

Record DaySchedule := mkDaySchedule { dayId : Z; shifts : list Shift.t }.

(** [progress] is a plain object keyed by skill name, of which the [gmap]
    holds the own properties that are numbers. *)
Record EmpSkills := mkEmpSkills { trained : gset string; progress : gmap string Z }.

Record Candidate := mkCandidate {
  emp : Employee.t; score : Z; cost : Z; isTrained : bool; overtimeHours : Z }.

(** The trackers of [advancedSchedule].  The key [`${weekStart}-${emp.id}`]
    of [weeklyHours] is the pair of the two integers it renders. *)
Record Tracking := mkTracking {
  weeklyHours : gmap (Z * Z) Z;
  employeeSkills : gmap Z EmpSkills }.

Definition weekStart (day : Day.t) : Z := Day.id day / 7 * 7.

Definition find_employee (input : Input) (employeeId : Z) : option Employee.t :=
  List.find (λ e, bool_decide (Employee.id e = employeeId)) (employees input).

Definition candidateOf (input : Input) (day : Day.t) (skill : string) (tr : Tracking)
    (emp : Employee.t) : option Candidate :=
  let shiftHours := Day.end_ day - Day.start day in
  let hoursThisWeek := default 0 (weeklyHours tr !! (weekStart day, Employee.id emp)) in
  let overtimeHours :=
    Z.max 0 (hoursThisWeek + shiftHours - Employee.maxHoursPerWeek emp) in
  let baseHours := shiftHours - overtimeHours in
  let cost := baseHours * Employee.salaryPerHour emp
              + overtimeHours * (Employee.salaryPerHour emp * overtimeModifier input / 100) in
  let? empSkills := employeeSkills tr !! Employee.id emp in
  let isTrained := bool_decide (skill ∈ trained empSkills) in
  (* Heavy preference for trained, minimize overtime *)
  let score := (if isTrained then 1000000 else 100) - cost - overtimeHours * 5000 in
  Some (mkCandidate emp score cost isTrained overtimeHours).

Definition candidates (input : Input) (day : Day.t) (skill : string) (tr : Tracking)
    : option (list Candidate) :=
  mapM (candidateOf input day skill tr)
       (filter (λ emp, Day.id day ∉ Employee.vacation emp) (employees input)).

(** The assignment of one required skill: the best candidate takes the
    whole opening window. *)
Definition assignSkill (input : Input) (day : Day.t) (acc : list Shift.t * Tracking)
    (skill : string) : option (list Shift.t * Tracking) :=
  let '(shifts, tr) := acc in
  let? cs := candidates input day skill tr in
  match Array_sort (λ a b, score b - score a) cs with
  | [] => Some (shifts, tr)
  | best :: _ =>
      let key := (weekStart day, Employee.id (emp best)) in
      Some (shifts ++ [Shift.mk (Employee.id (emp best)) (Day.start day) (Day.end_ day) skill],
            mkTracking (<[key := default 0 (weeklyHours tr !! key)
                                 + (Day.end_ day - Day.start day)]> (weeklyHours tr))
                       (employeeSkills tr))
  end.

(** The teaching rate a learner on [shift] gets from the other shifts. *)
Definition teacherOf (input : Input) (tr : Tracking) (shift : Shift.t)
    (teachingRate : Z) (otherShift : Shift.t) : option Z :=
  if bool_decide (Shift.skill otherShift = Shift.skill shift)
     && bool_decide (Shift.employeeId otherShift ≠ Shift.employeeId shift)
  then let? otherEmpSkills := employeeSkills tr !! Shift.employeeId otherShift in
       if decide (Shift.skill shift ∈ trained otherEmpSkills)
       then let? teacher := find_employee input (Shift.employeeId otherShift) in
            Some (Z.max teachingRate (Employee.teachingRate teacher))
       else Some teachingRate
  else Some teachingRate.

(** Process training gains. *)
Definition trainShift (input : Input) (day : Day.t) (shifts : list Shift.t)
    (tr : Tracking) (shift : Shift.t) : option Tracking :=
  let? empSkills := employeeSkills tr !! Shift.employeeId shift in
  if decide (Shift.skill shift ∈ trained empSkills) then Some tr else
  let? emp := find_employee input (Shift.employeeId shift) in
  let? teachingRate := foldM (teacherOf input tr shift) 1 shifts in
  let gain := (Day.end_ day - Day.start day) * Employee.learningRate emp * teachingRate in
  let progress' := Object_add (progress empSkills) (Shift.skill shift) gain in
  let trained' := if Number_ge (Object_number progress' (Shift.skill shift)) 1000
                  then trained empSkills ∪ {[Shift.skill shift]}
                  else trained empSkills in
  Some (mkTracking (weeklyHours tr)
          (<[Shift.employeeId shift := mkEmpSkills trained' progress']> (employeeSkills tr))).

Definition scheduleDay (input : Input) (acc : list DaySchedule * Tracking) (day : Day.t)
    : option (list DaySchedule * Tracking) :=
  let '(schedule, tr) := acc in
  if Day.closed day then Some (schedule ++ [mkDaySchedule (Day.id day) []], tr) else
  let? (shifts, tr) := foldM (assignSkill input day) ([], tr) (Day.skills day) in
  let? tr := foldM (trainShift input day shifts) tr shifts in
  Some (schedule ++ [mkDaySchedule (Day.id day) shifts], tr).

Definition initialTracking (input : Input) : Tracking :=
  mkTracking ∅
    (fold_left (λ m emp, <[Employee.id emp := mkEmpSkills (Employee.skills emp) ∅]> m)
               (employees input) ∅).

Definition advancedSchedule (input : Input) : option (list DaySchedule) :=
  fst <$> foldM (scheduleDay input) ([], initialTracking input) (days input).

(** *** calculateScore *)

(** A JavaScript number that is a rational or [NaN]. *)
Inductive Num := Finite (q : Q) | NaN.

Definition Num_add (a b : Num) : Num :=
  match a, b with
  | Finite a, Finite b => Finite (a + b)
  | _, _ => NaN
  end.

(** The coverage of a skill in an hour before it is capped; the skills
    read are [emp.trainedSkills], the skills of the input. *)
Definition hourCoverage (input : Input) (shifts : list Shift.t) (skill : string) (hour : Z)
    : option Q :=
  let workersOnSkill :=
    filter (λ s, Shift.skill s = skill ∧ Shift.start s ≤ hour ∧ hour < Shift.end_ s) shifts in
  foldM (λ (hourCoverage : Q) shift,
           let? emp := find_employee input (Shift.employeeId shift) in
           Some (hourCoverage + (if decide (skill ∈ Employee.skills emp) then 1 else 1 # 2))%Q)
        0%Q workersOnSkill.

Definition coveredSkillHours (input : Input) (day : Day.t) (shifts : list Shift.t)
    : option Q :=
  foldM (λ covered skill,
           foldM (λ (covered : Q) hour,
                    let? hourCoverage := hourCoverage input shifts skill hour in
                    Some (covered + (if Qle_bool 1 hourCoverage then 1 else hourCoverage))%Q)
                 covered (hours (Day.start day) (Day.end_ day)))
        0%Q (Day.skills day).

(** The payroll of one shift and the weekly hours it leaves. *)
Definition payShift (input : Input) (day : Day.t) (acc : Z * gmap (Z * Z) Z)
    (shift : Shift.t) : option (Z * gmap (Z * Z) Z) :=
  let '(payroll, weeklyHours) := acc in
  let? emp := find_employee input (Shift.employeeId shift) in
  let shiftHours := Shift.end_ shift - Shift.start shift in
  let key := (weekStart day, Employee.id emp) in
  let hoursBeforeThisShift := default 0 (weeklyHours !! key) in
  let baseHours :=
    Z.max 0 (Z.min shiftHours (Employee.maxHoursPerWeek emp - hoursBeforeThisShift)) in
  let overtimeHours := shiftHours - baseHours in
  let cost := baseHours * Employee.salaryPerHour emp
              + overtimeHours * (Employee.salaryPerHour emp * overtimeModifier input / 100) in
  Some (payroll + cost, <[key := hoursBeforeThisShift + shiftHours]> weeklyHours).

(** One pass of the loop over the schedule; [day] is [days[i]], which is
    [None] when the schedule is longer than the calendar. *)
Definition scoreDay (input : Input) (acc : Num * gmap (Z * Z) Z)
    (entry : option Day.t * DaySchedule) : option (Num * gmap (Z * Z) Z) :=
  let '(totalScore, weeklyHours) := acc in
  let '(day, daySchedule) := entry in
  let? day := day in
  if Day.closed day
  then Some (Num_add totalScore (Finite (- inject_Z (fixedDailyCost input))), weeklyHours)
  else
    let requiredSkillHours :=
      (Day.end_ day - Day.start day) * Z.of_nat (length (Day.skills day)) in
    let? coveredSkillHours := coveredSkillHours input day (shifts daySchedule) in
    (* 0 / 0 is NaN; nothing is covered when nothing is required *)
    let revenue :=
      if decide (requiredSkillHours = 0) then NaN
      else Finite (inject_Z (Day.revenue day)
                   * (coveredSkillHours / inject_Z requiredSkillHours) ^ 2) in
    let? (payroll, weeklyHours) :=
      foldM (payShift input day) (0, weeklyHours) (shifts daySchedule) in
    let profit :=
      Num_add revenue (Finite (- inject_Z payroll - inject_Z (fixedDailyCost input))) in
    Some (Num_add totalScore profit, weeklyHours).

Definition calculateScore (input : Input) (schedule : list DaySchedule) : option Num :=
  fst <$> foldM (scoreDay input) (Finite 0, ∅)
                (imap (λ i daySchedule, (days input !! i, daySchedule)) schedule).

End Sonnet.

(** ** The vocabulary of the specification *)

(** What every variant records about a shift. *)
Class ShiftLike (A : Type) := {
  employeeOf : A → Z;
  startOf : A → Z;
  endOf : A → Z;
  skillOf : A → string }.

Global Instance Solver_ShiftLike : ShiftLike Solver.Shift.t :=
  {| employeeOf := Solver.Shift.employeeId; startOf := Solver.Shift.start;
     endOf := Solver.Shift.end_; skillOf := Solver.Shift.skill |}.

Global Instance RepValidator_ShiftLike : ShiftLike RepValidator.Shift.t :=
  {| employeeOf := RepValidator.Shift.employeeId; startOf := RepValidator.Shift.start;
     endOf := RepValidator.Shift.end_; skillOf := RepValidator.Shift.skill |}.

Global Instance Sonnet_ShiftLike : ShiftLike Sonnet.Shift.t :=
  {| employeeOf := Sonnet.Shift.employeeId; startOf := Sonnet.Shift.start;
     endOf := Sonnet.Shift.end_; skillOf := Sonnet.Shift.skill |}.

Global Instance Bah_ShiftLike : ShiftLike Bah.Shift.t :=
  {| employeeOf := Bah.Shift.employeeId; startOf := Bah.Shift.start;
     endOf := Bah.Shift.end_; skillOf := Bah.Shift.skill |}.

Global Instance Bah2_ShiftLike : ShiftLike Bah2.Shift.t :=
  {| employeeOf := Bah2.Shift.employeeId; startOf := Bah2.Shift.start;
     endOf := Bah2.Shift.end_; skillOf := Bah2.Shift.skill |}.

Global Instance Bah3_ShiftLike : ShiftLike Bah3.Shift.t :=
  {| employeeOf := Bah3.Shift.employeeId; startOf := Bah3.Shift.start;
     endOf := Bah3.Shift.end_; skillOf := Bah3.Shift.skill |}.

Section Vocabulary.
Context {A : Type} `{ShiftLike A}.

(** The shift is active at hour [h]: [start ≤ h < end]. *)
Definition activeAt (h : Z) (s : A) : Prop := startOf s ≤ h < endOf s.

(** The shift staffs [skill] at hour [h]. *)
Definition worksOn (h : Z) (skill : string) (s : A) : Prop :=
  activeAt h s ∧ skillOf s = skill.

Global Instance activeAt_dec h (s : A) : Decision (activeAt h s).
Proof. unfold activeAt. apply _. Defined.

Global Instance worksOn_dec h skill (s : A) : Decision (worksOn h skill s).
Proof. unfold worksOn. apply _. Defined.

(** The interval overlap test [max(s1,s2) < min(e1,e2)]. *)
Definition overlap (s1 s2 : A) : Prop :=
  Z.max (startOf s1) (startOf s2) < Z.min (endOf s1) (endOf s2).

(** No two shifts of the same employee overlap. *)
Fixpoint NoOverlap (shifts : list A) : Prop :=
  match shifts with
  | [] => True
  | s :: l => Forall (λ s', employeeOf s' = employeeOf s → ¬ overlap s s') l ∧ NoOverlap l
  end.

(** The workers active on [skill] at hour [h] whose training status is
    [status] ([true]: trained, [false]: untrained). *)
Definition workers (trained : Z → bool) (status : bool) (h : Z) (skill : string)
    (shifts : list A) : gset Z :=
  list_to_set (employeeOf <$>
               filter (λ s, worksOn h skill s ∧ trained (employeeOf s) = status) shifts).

(** The (employee, hour, skill) slots a list of shifts covers. *)
Definition covers (shifts : list A) (employee h : Z) (skill : string) : Prop :=
  ∃ s, s ∈ shifts ∧ employeeOf s = employee ∧ worksOn h skill s.

Definition singleHour (s : A) : Prop := endOf s = startOf s + 1.
End Vocabulary.

(** Coverage of one skill in one hour, as the specification words it. *)
Definition Coverage (trainedWorkers untrainedWorkers : nat) : Q :=
  if decide (1 ≤ trainedWorkers)%nat then 1%Q
  else if decide (2 ≤ untrainedWorkers)%nat then 1%Q
  else if decide (untrainedWorkers = 1%nat) then (1 # 2)%Q
  else 0%Q.

(** ** Scenarios *)

(** Scenario A: one open day 8-10 with revenue 1000 that requires
    "Register", one employee (40 hours a week, salary 10) trained in it,
    and one shift over the whole window.  The learning and teaching rates
    of the employee are left open. *)
Module ScenarioA.

Definition shift : Solver.Shift.t := Solver.Shift.mk 1 8 10 "Register".

Definition day : Solver.Day.t := Solver.Day.mk 1 true 8 10 1000 ["Register"].

Definition employee (learningRate teachingRate : Z) : Solver.Employee.t :=
  Solver.Employee.mk 1 40 10 learningRate teachingRate {["Register"]} ∅.

Definition solver (learningRate teachingRate : Z) : Solver.t :=
  Solver.mk (Solver.mkOrganization 50 100) [day] [employee learningRate teachingRate].

Definition schedule : gmap Z (list Solver.Shift.t) := {[1 := [shift]]}.

Definition vShift : RepValidator.Shift.t := RepValidator.Shift.mk 1 8 10 "Register".

Definition vDay : RepValidator.Day.t := RepValidator.Day.mk 1 false 8 10 1000 ["Register"].

Definition vEmployee (learningRate teachingRate : Z) : RepValidator.Employee.t :=
  RepValidator.Employee.mk 1 40 10 learningRate teachingRate {["Register"]} ∅.

(** The validator after [parseInput] and [parseOutput]. *)
Definition validator (learningRate teachingRate : Z) : RepValidator.t :=
  RepValidator.mk (RepValidator.mkOrganization 50 100) {[1 := vDay]}
    {[1 := vEmployee learningRate teachingRate]} {[1 := [vShift]]}
    {[1 := {["Register" := 1000]}]} ∅ 0 0 0 true [].

End ScenarioA.

(** A week boundary: days 7 and 8 are open from 8 to 9 and require
    "Register"; the one employee, trained, may work one hour a week at
    salary 10 (overtime modifier 50) and works the hour of each day. *)
Module ScenarioWeek.

Definition vDay (dayId : Z) : RepValidator.Day.t :=
  RepValidator.Day.mk dayId false 8 9 1000 ["Register"].

Definition validator : RepValidator.t :=
  RepValidator.mk (RepValidator.mkOrganization 50 100) {[7 := vDay 7; 8 := vDay 8]}
    {[1 := RepValidator.Employee.mk 1 1 10 1 1 {["Register"]} ∅]}
    {[7 := [RepValidator.Shift.mk 1 8 9 "Register"];
      8 := [RepValidator.Shift.mk 1 8 9 "Register"]]}
    {[1 := {["Register" := 1000]}]} ∅ 0 0 0 true [].

Definition solver : Solver.t :=
  Solver.mk (Solver.mkOrganization 50 100)
    [Solver.Day.mk 7 true 8 9 1000 ["Register"]; Solver.Day.mk 8 true 8 9 1000 ["Register"]]
    [Solver.Employee.mk 1 1 10 1 1 {["Register"]} ∅].

Definition schedule : gmap Z (list Solver.Shift.t) :=
  {[7 := [Solver.Shift.mk 1 8 9 "Register"]; 8 := [Solver.Shift.mk 1 8 9 "Register"]]}.

End ScenarioWeek.

(** ** Specification-level definitions used by the properties *)

(** The bill of one hour, as the specification words it: the base salary
    while the weekly counter before the hour is below the weekly maximum,
    the floored overtime rate from then on. *)
Definition hourBill (maxHoursPerWeek salaryPerHour overtimeModifierPercent counter : Z) : Z :=
  if decide (counter < maxHoursPerWeek) then salaryPerHour
  else salaryPerHour * overtimeModifierPercent / 100.

(** The bills of [n] consecutive hours that start at weekly counter [c]. *)
Definition hoursBill (maxHoursPerWeek salaryPerHour overtimeModifierPercent c n : Z) : Z :=
  foldr (λ k acc, hourBill maxHoursPerWeek salaryPerHour overtimeModifierPercent k + acc)
        0 (seqZ c n).

(** The training status [calculateScore] reads for a skill: whether the
    skill is in the known skills of the employee's clone. *)
Definition Solver_trained (known : gmap Z (gset string)) (skill : string) (empId : Z) : bool :=
  bool_decide (skill ∈ default ∅ (known !! empId)).

(** What [_logError] and [calculatePayroll] never touch. *)
Definition sameModel (a b : RepValidator.t) : Prop :=
  RepValidator.organization a = RepValidator.organization b
  ∧ RepValidator.days a = RepValidator.days b
  ∧ RepValidator.employees a = RepValidator.employees b
  ∧ RepValidator.schedule a = RepValidator.schedule b
  ∧ RepValidator.skillPoints a = RepValidator.skillPoints b.

(** The error list only grows, and a flagged schedule stays flagged. *)
Definition errorsGrow (a b : RepValidator.t) : Prop :=
  (∀ m, m ∈ RepValidator.validationErrors a → m ∈ RepValidator.validationErrors b)
  ∧ (RepValidator.isValid a = false → RepValidator.isValid b = false)
  ∧ (RepValidator.isValid b = true →
     RepValidator.validationErrors b = RepValidator.validationErrors a).

(** The shifts the first loop counts for [skill] at hour [h] with training
    status [status]: those whose employee exists. *)
Definition counted (this : RepValidator.t) (status : bool) (h : Z) (skill : string)
    (s : RepValidator.Shift.t) : Prop :=
  is_Some (RepValidator.employees this !! RepValidator.Shift.employeeId s)
  ∧ worksOn h skill s
  ∧ RepValidator.isTrained this (RepValidator.Shift.employeeId s) skill = status.

Global Instance counted_dec this status h skill s : Decision (counted this status h skill s).
Proof. unfold counted. apply _. Defined.


(** The teaching bonus of the implementation: the largest teaching rate
    among the trained workers on the skill when it is positive, else 1
    (no trained worker, or none with a positive rate). *)
Definition teacherBonus (rates : list Z) : Z :=
  let m := foldr Z.max 0 rates in
  if decide (0 < m) then m else 1.

Section TeacherRates.
Context {A : Type} `{ShiftLike A}.

(** The teaching rates of the trained workers active on [skill] at [h]. *)
Definition teacherRates (teachingRateOf : Z → Z) (trained : Z → bool) (h : Z)
    (skill : string) (shifts : list A) : list Z :=
  (λ s, teachingRateOf (employeeOf s))
  <$> filter (λ s, worksOn h skill s ∧ trained (employeeOf s) = true) shifts.
End TeacherRates.

(** The teaching rate [calculateScore] reads for an employee id. *)
Definition Solver_teachingRate (this : Solver.t) (empId : Z) : Z :=
  default 0 (Solver.Employee.teachingRate <$> Solver.employees_get this empId).

(** The training points of an employee in the simulation state. *)
Definition Solver_points (states : gmap Z Solver.EmployeeState.t) (empId : Z)
    (skill : string) : Z :=
  match states !! empId with
  | Some state => default 0 (Solver.EmployeeState.getTrainingPoints state skill)
  | None => 0
  end.

(** What the map [teachersBySkill] holds for a skill whose trained workers
    so far have the largest teaching rate [m] (0 when there is none). *)
Definition teacherEntry (entry : option Z) (m : Z) : Prop :=
  (entry = None ∧ m = 0) ∨ (entry = Some m ∧ 0 < m).

(** The teaching rates of the trained shifts of [l] on [skill]. *)
Definition trainedRates (this : Solver.t) (known : gmap Z (gset string)) (skill : string)
    (l : list Solver.Shift.t) : list Z :=
  (λ s, Solver_teachingRate this (Solver.Shift.employeeId s))
  <$> filter (λ s, Solver.Shift.skill s = skill
                   ∧ Solver_trained known skill (Solver.Shift.employeeId s) = true) l.

Definition untrainedShifts (known : gmap Z (gset string)) (l : list Solver.Shift.t)
    : list Solver.Shift.t :=
  filter (λ s, Solver_trained known (Solver.Shift.skill s) (Solver.Shift.employeeId s) = false) l.

Definition classified (this : Solver.t) (known : gmap Z (gset string))
    (pre : list Solver.Shift.t) (acc : gmap string Z * list Solver.Shift.t) : Prop :=
  acc.2 = untrainedShifts known pre
  ∧ ∀ skill, teacherEntry (acc.1 !! skill) (foldr Z.max 0 (trainedRates this known skill pre)).

(** The learning rate [calculateScore] reads for an employee id. *)
Definition Solver_learningRate (this : Solver.t) (empId : Z) : Z :=
  default 0 (Solver.Employee.learningRate <$> Solver.employees_get this empId).

(** A shift whose worker the training step can treat as a learner. *)
Definition learnerReady (this : Solver.t) (sim : Solver.Sim) (s : Solver.Shift.t) : Prop :=
  is_Some (Solver.employees_get this (Solver.Shift.employeeId s))
  ∧ is_Some (Solver.employeeStates sim !! Solver.Shift.employeeId s)
  ∧ is_Some (Solver.simEmployees sim !! Solver.Shift.employeeId s)
  ∧ Solver_trained (Solver.simEmployees sim) (Solver.Shift.skill s)
                   (Solver.Shift.employeeId s) = false.

(** What the loop over the learners does to the simulation state. *)
Definition taught (this : Solver.t) (T : gmap string Z) (L : list Solver.Shift.t)
    (sim sim' : Solver.Sim) : Prop :=
  Solver.simEmployees sim' = Solver.simEmployees sim
  ∧ Solver.dailyPayroll sim' = Solver.dailyPayroll sim
  ∧ Solver.achievedSkillHours sim' = Solver.achievedSkillHours sim
  ∧ (∀ s, s ∈ L →
       (inherited (Solver.Shift.skill s) = false →
        Solver_points (Solver.employeeStates sim') (Solver.Shift.employeeId s) (Solver.Shift.skill s)
        = Solver_points (Solver.employeeStates sim) (Solver.Shift.employeeId s) (Solver.Shift.skill s)
          + Solver_learningRate this (Solver.Shift.employeeId s)
            * Solver.multiplierOf (T !! Solver.Shift.skill s))
       ∧ (1000 ≤ Solver_points (Solver.employeeStates sim') (Solver.Shift.employeeId s)
                   (Solver.Shift.skill s) →
          Map_get (Solver.Shift.employeeId s) (Solver.newSkillsLearned sim')
          = Some (Solver.Shift.skill s)))
  ∧ (∀ e, e ∉ Solver.Shift.employeeId <$> L →
       Solver.employeeStates sim' !! e = Solver.employeeStates sim !! e
       ∧ Map_get e (Solver.newSkillsLearned sim') = Map_get e (Solver.newSkillsLearned sim))
  ∧ (∀ e, is_Some (Solver.employeeStates sim !! e) ↔ is_Some (Solver.employeeStates sim' !! e)).

(** The simulation state fits the solver: every employee has a clone and
    a state, and every staged promotion names an employee with a clone. *)
Definition Solver_wf (this : Solver.t) (sim : Solver.Sim) : Prop :=
  (∀ e, is_Some (Solver.employees_get this e) →
        is_Some (Solver.simEmployees sim !! e) ∧ is_Some (Solver.employeeStates sim !! e))
  ∧ (∀ e sk, (e, sk) ∈ Solver.newSkillsLearned sim → is_Some (Solver.simEmployees sim !! e)).

(** The shifts of a validated schedule: every employee exists. *)
Definition Solver_staffed (this : Solver.t) (shifts : list Solver.Shift.t) : Prop :=
  Forall (λ s, is_Some (Solver.employees_get this (Solver.Shift.employeeId s))) shifts.

(** The payroll loop changes weekly hours only. *)
Definition paid (sim sim' : Solver.Sim) : Prop :=
  Solver.simEmployees sim' = Solver.simEmployees sim
  ∧ Solver.newSkillsLearned sim' = Solver.newSkillsLearned sim
  ∧ Solver.achievedSkillHours sim' = Solver.achievedSkillHours sim
  ∧ (∀ e sk, Solver_points (Solver.employeeStates sim') e sk
             = Solver_points (Solver.employeeStates sim) e sk)
  ∧ (∀ e, is_Some (Solver.employeeStates sim' !! e) ↔ is_Some (Solver.employeeStates sim !! e)).

(** The teaching rate the validator reads for an employee id. *)
Definition RepValidator_teachingRate (this : RepValidator.t) (empId : Z) : Z :=
  default 0 (RepValidator.Employee.teachingRate <$> RepValidator.employees this !! empId).

(** The shifts of a day all name existing employees. *)
Definition RepValidator_staffed (this : RepValidator.t) (shifts : list RepValidator.Shift.t)
    : Prop :=
  Forall (λ s, is_Some (RepValidator.employees this !! RepValidator.Shift.employeeId s)) shifts.

(** The largest teaching rate among the trained workers on a skill in an
    hour, 0 when there is none. *)
Definition RepValidator_maxRate (this : RepValidator.t) (shifts : list RepValidator.Shift.t)
    (skill : string) (h : Z) : Z :=
  foldr Z.max 0
    (teacherRates (RepValidator_teachingRate this)
                  (λ e, RepValidator.isTrained this e skill) h skill shifts).

(** Every entry of [hourlyTeachers] is the largest teaching rate of a cell
    that has a trained worker. *)
Definition teachersOk (this : RepValidator.t) (shifts : list RepValidator.Shift.t)
    (cm : gmap (Z * string) (Z * Z)) (T : gmap (Z * string) Z) : Prop :=
  ∀ h skill v, T !! (h, skill) = Some v →
    v = RepValidator_maxRate this shifts skill h ∧ 0 < (RepValidator.hourCoverage cm h skill).1.

(** The cell was visited by the second loop. *)
Definition teacherSet (this : RepValidator.t) (shifts : list RepValidator.Shift.t)
    (cm : gmap (Z * string) (Z * Z)) (T : gmap (Z * string) Z) (h : Z) (skill : string) : Prop :=
  0 < (RepValidator.hourCoverage cm h skill).1 →
  T !! (h, skill) = Some (RepValidator_maxRate this shifts skill h).

(** The simulation state at the start of a day. *)
Definition Solver_dayStart (run : Solver.Run) : Solver.Sim :=
  Solver.mkSim (Solver.runEmployees run) (Solver.runStates run) [] 0 0%Q.

(** Scenario B: the day of scenario A staffed by two untrained employees,
    2 and 3 (salary 10, learning rate 1, teaching rate 1), who both work
    the whole window on "Register". *)
Module ScenarioB.

Definition shifts : list Solver.Shift.t :=
  [Solver.Shift.mk 2 8 10 "Register"; Solver.Shift.mk 3 8 10 "Register"].

Definition solver : Solver.t :=
  Solver.mk (Solver.mkOrganization 50 100) [ScenarioA.day]
    [Solver.Employee.mk 2 40 10 1 1 ∅ ∅; Solver.Employee.mk 3 40 10 1 1 ∅ ∅].

Definition vEmployee (id : Z) : RepValidator.Employee.t :=
  RepValidator.Employee.mk id 40 10 1 1 ∅ ∅.

Definition vShifts : list RepValidator.Shift.t :=
  [RepValidator.Shift.mk 2 8 10 "Register"; RepValidator.Shift.mk 3 8 10 "Register"].

Definition validator : RepValidator.t :=
  RepValidator.mk (RepValidator.mkOrganization 50 100) {[1 := ScenarioA.vDay]}
    {[2 := vEmployee 2; 3 := vEmployee 3]} {[1 := vShifts]} ∅ ∅ 0 0 0 true [].

End ScenarioB.

(** A teacher who teaches nothing: employee 1 is trained in "Register"
    and has teaching rate 0, employee 2 is untrained and has learning rate
    5; both work the hour 8-9 of a day that requires "Register". *)
Module ScenarioTeacher.

Definition day : Solver.Day.t := Solver.Day.mk 1 true 8 9 1000 ["Register"].

Definition shifts : list Solver.Shift.t :=
  [Solver.Shift.mk 1 8 9 "Register"; Solver.Shift.mk 2 8 9 "Register"].

Definition solver : Solver.t :=
  Solver.mk (Solver.mkOrganization 50 100) [day]
    [Solver.Employee.mk 1 40 10 1 0 {["Register"]} ∅; Solver.Employee.mk 2 40 10 5 1 ∅ ∅].

Definition vShifts : list RepValidator.Shift.t :=
  [RepValidator.Shift.mk 1 8 9 "Register"; RepValidator.Shift.mk 2 8 9 "Register"].

Definition validator : RepValidator.t :=
  RepValidator.mk (RepValidator.mkOrganization 50 100)
    {[1 := RepValidator.Day.mk 1 false 8 9 1000 ["Register"]]}
    {[1 := RepValidator.Employee.mk 1 40 10 1 0 {["Register"]} ∅;
      2 := RepValidator.Employee.mk 2 40 10 5 1 ∅ ∅]}
    {[1 := vShifts]} {[1 := {["Register" := 1000]}]} ∅ 0 0 0 true [].

End ScenarioTeacher.

(** A fast learner: the one employee is untrained, has learning rate 1000
    and works the whole window 8-10 of the day of scenario A alone. *)
Module ScenarioLearner.

Definition shifts : list Solver.Shift.t := [Solver.Shift.mk 1 8 10 "Register"].

Definition solver : Solver.t :=
  Solver.mk (Solver.mkOrganization 50 100) [ScenarioA.day]
    [Solver.Employee.mk 1 40 10 1000 1 ∅ ∅].

Definition vEmployee : RepValidator.Employee.t := RepValidator.Employee.mk 1 40 10 1000 1 ∅ ∅.

Definition validator : RepValidator.t :=
  RepValidator.mk (RepValidator.mkOrganization 50 100) {[1 := ScenarioA.vDay]}
    {[1 := vEmployee]} {[1 := [ScenarioA.vShift]]} ∅ ∅ 0 0 0 true [].

End ScenarioLearner.


(** What no step of [validateAndScore] changes: the parsed input. *)
Definition sameInput (a b : RepValidator.t) : Prop :=
  RepValidator.organization a = RepValidator.organization b
  ∧ RepValidator.days a = RepValidator.days b
  ∧ RepValidator.employees a = RepValidator.employees b
  ∧ RepValidator.schedule a = RepValidator.schedule b.

(** The violations [calculateCapacity] checks on the shifts of a day, each
    with the message it logs. *)
Inductive violation (this : RepValidator.t) (dayId : Z) (day : RepValidator.Day.t)
    (shifts : list RepValidator.Shift.t) : string → Prop :=
  | unknownEmployee s :
      s ∈ shifts →
      RepValidator.employees this !! RepValidator.Shift.employeeId s = None →
      violation this dayId day shifts
        (RepValidator.msgNoEmployee dayId (RepValidator.Shift.employeeId s))
  | onVacation s emp :
      s ∈ shifts →
      RepValidator.employees this !! RepValidator.Shift.employeeId s = Some emp →
      dayId ∈ RepValidator.Employee.vacationDays emp →
      violation this dayId day shifts
        (RepValidator.msgVacation dayId (RepValidator.Shift.employeeId s))
  | outsideWindow s :
      s ∈ shifts →
      is_Some (RepValidator.employees this !! RepValidator.Shift.employeeId s) →
      RepValidator.Shift.start s < RepValidator.Day.start day
      ∨ RepValidator.Day.end_ day < RepValidator.Shift.end_ s →
      violation this dayId day shifts (RepValidator.msgOutside dayId s day)
  | overlapping (i j : nat) s' s :
      (i < j)%nat → shifts !! i = Some s' → shifts !! j = Some s →
      RepValidator.Shift.employeeId s' = RepValidator.Shift.employeeId s →
      is_Some (RepValidator.employees this !! RepValidator.Shift.employeeId s) →
      RepValidator.overlapsWith s (RepValidator.Shift.start s', RepValidator.Shift.end_ s') = true →
      violation this dayId day shifts
        (RepValidator.msgOverlap dayId (RepValidator.Shift.employeeId s)).

(** The message is in the error list and the schedule is flagged. *)
Definition logged (m : string) (this : RepValidator.t) : Prop :=
  m ∈ RepValidator.validationErrors this ∧ RepValidator.isValid this = false.

(** The intervals kept in [employeeShiftsToday]: every earlier shift of an
    existing employee is in the list, unless an overlap of that employee
    is already logged. *)
Definition todayOk (this : RepValidator.t) (dayId : Z) (pre : list RepValidator.Shift.t)
    (sc : RepValidator.Scan) : Prop :=
  ∀ s, s ∈ pre →
    is_Some (RepValidator.employees this !! RepValidator.Shift.employeeId s) →
    (RepValidator.Shift.start s, RepValidator.Shift.end_ s)
      ∈ default [] (RepValidator.employeeShiftsToday sc !! RepValidator.Shift.employeeId s)
    ∨ logged (RepValidator.msgOverlap dayId (RepValidator.Shift.employeeId s))
             (RepValidator.scanThis sc).

(** The message is among the errors [validateSchedule] collected, and the
    verdict is "invalid". *)
Definition flagged (m : string) (v : Solver.Validation) : Prop :=
  m ∈ Solver.errors v ∧ Solver.isValid v = false.

(** The verdict never goes back to "valid" and no error is dropped. *)
Definition faultsGrow (v v' : Solver.Validation) : Prop :=
  (∀ m, m ∈ Solver.errors v → m ∈ Solver.errors v')
  ∧ (Solver.isValid v = false → Solver.isValid v' = false).

(** The message of the unknown-employee rule of [validateSchedule]. *)
Definition Solver_msgUnknownEmployee (day : Solver.Day.t) (shift : Solver.Shift.t) : string :=
  Solver.dayTag day +:+ ": Shift " +:+ Solver.Shift.toString shift
  +:+ " references unknown employee " +:+ Number_toString (Solver.Shift.employeeId shift)
  +:+ ".".

(** A skill nobody knows of: the day and the employee of scenario A; the
    employee works "Register" from 8 to 9 and then, from 9 to 10, a skill
    "Ghost" that no day requires and no employee has. *)
Module ScenarioGhost.

Definition shifts : list Solver.Shift.t :=
  [Solver.Shift.mk 1 8 9 "Register"; Solver.Shift.mk 1 9 10 "Ghost"].

Definition solver : Solver.t := ScenarioA.solver 1 1.

Definition schedule : gmap Z (list Solver.Shift.t) := {[1 := shifts]}.

Definition vShifts : list RepValidator.Shift.t :=
  [RepValidator.Shift.mk 1 8 9 "Register"; RepValidator.Shift.mk 1 9 10 "Ghost"].

Definition validator : RepValidator.t :=
  RepValidator.mk (RepValidator.mkOrganization 50 100) {[1 := ScenarioA.vDay]}
    {[1 := ScenarioA.vEmployee 1 1]} {[1 := vShifts]} {[1 := {["Register" := 1000]}]}
    ∅ 0 0 0 true [].

End ScenarioGhost.

(** A stranger: the schedule of scenario A with a second shift, of an
    employee 7 who is not in the input. *)
Module ScenarioStranger.

Definition stranger : Solver.Shift.t := Solver.Shift.mk 7 8 10 "Register".

Definition schedule : gmap Z (list Solver.Shift.t) := {[1 := [ScenarioA.shift; stranger]]}.

Definition vStranger : RepValidator.Shift.t := RepValidator.Shift.mk 7 8 10 "Register".

Definition validator : RepValidator.t :=
  RepValidator.mk (RepValidator.mkOrganization 50 100) {[1 := ScenarioA.vDay]}
    {[1 := ScenarioA.vEmployee 1 1]} {[1 := [ScenarioA.vShift; vStranger]]}
    {[1 := {["Register" := 1000]}]} ∅ 0 0 0 true [].

End ScenarioStranger.

(** The run of the validator printed no scorecard of a valid schedule:
    it threw, returned without a scorecard, or printed the scorecard of an
    invalid schedule. *)
Definition noValidScorecard (result : option (RepValidator.t * option RepValidator.Report))
    : Prop :=
  match result with
  | Some (_, Some (RepValidator.ValidSchedule _ _ _ _)) => False
  | _ => True
  end.

(** The schedule names existing employees only. *)
Definition RepValidator_scheduleStaffed (this : RepValidator.t) : Prop :=
  ∀ dayId shifts, RepValidator.schedule this !! dayId = Some shifts →
                  RepValidator_staffed this shifts.

(** The shifts are on ordinary skill names: none names a member of
    [Object.prototype]. *)
Definition ordinarySkills (shifts : list RepValidator.Shift.t) : Prop :=
  Forall (λ s, inherited (RepValidator.Shift.skill s) = false) shifts.

Definition RepValidator_scheduleOrdinary (this : RepValidator.t) : Prop :=
  ∀ dayId shifts, RepValidator.schedule this !! dayId = Some shifts → ordinarySkills shifts.

(** The hours an employee works on a skill in the shifts of a day, in the
    order of the shifts; an hour that two of the shifts hold comes twice. *)
Definition skillHours (shifts : list RepValidator.Shift.t) (empId : Z) (skill : string)
    : list Z :=
  filter (λ s, RepValidator.Shift.employeeId s = empId ∧ RepValidator.Shift.skill s = skill)
         shifts
  ≫= λ s, hours (RepValidator.Shift.start s) (RepValidator.Shift.end_ s).


(** The gain [updateTraining] adds for one hour worked by [empId]. *)
Definition RepValidator_gain (this : RepValidator.t) (hourlyTeachers : gmap (Z * string) Z)
    (empId : Z) (skill : string) (h : Z) : Z :=
  match RepValidator.employees this !! empId with
  | Some employee => RepValidator.hourGain employee hourlyTeachers skill h
  | None => 0
  end.

(** Adding the values [f x] over a list onto [a], in the order of the
    list. *)
Definition Qsum {A} (f : A → Q) (l : list A) (a : Q) : Q :=
  fold_left (λ acc x, (acc + f x)%Q) l a.

(** The weekly counter of an employee in the simulation of
    [calculateScore], for the block of [dayId]. *)
Definition Solver_counter (states : gmap Z Solver.EmployeeState.t) (dayId empId : Z) : Z :=
  match states !! empId with
  | Some state => Solver.EmployeeState.getHoursThisWeek state dayId
  | None => 0
  end.

(** The bill of one hour of an employee of the solver whose weekly
    counter before the hour is [counter]. *)
Definition Solver_bill (this : Solver.t) (empId counter : Z) : Z :=
  match Solver.employees_get this empId with
  | Some employee =>
      hourBill (Solver.Employee.maxHoursPerWeek employee)
               (Solver.Employee.salaryPerHour employee)
               (Solver.overtimeModifierPercent (Solver.organization this)) counter
  | None => 0
  end.

(** The coverage of a skill in an hour of [calculateScore], by the rule
    of the specification, from the workers that [known] holds trained. *)
Definition Solver_cover (known : gmap Z (gset string)) (shifts : list Solver.Shift.t)
    (h : Z) (skill : string) : Q :=
  Coverage (size (workers (Solver_trained known skill) true h skill shifts))
           (size (workers (Solver_trained known skill) false h skill shifts)).

(** The weekly counter the validator holds for an employee. *)
Definition RepValidator_counter (this : RepValidator.t) (empId : Z) : Z :=
  default 0 (RepValidator.weeklyHours this !! empId).

(** The bill of one hour of an employee of the validator whose weekly
    counter before the hour is [counter]. *)
Definition RepValidator_bill (this : RepValidator.t) (empId counter : Z) : Z :=
  match RepValidator.employees this !! empId with
  | Some employee =>
      hourBill (RepValidator.Employee.maxHoursPerWeek employee)
               (RepValidator.Employee.salaryPerHour employee)
               (RepValidator.overtimeMod (RepValidator.organization this)) counter
  | None => 0
  end.

(** The payroll rule of the specification applied to a sequence of hours
    worked, each named by its worker: an hour is billed at the counter the
    worker has before it, and the counter then grows by one. *)
Fixpoint billedHours (bill : Z → Z → Z) (counter : Z → Z) (workerHours : list Z) : Z :=
  match workerHours with
  | [] => 0
  | e :: rest =>
      bill e (counter e)
      + billedHours bill (λ e', if decide (e' = e) then counter e' + 1 else counter e') rest
  end.

(** The hours worked on a day, shift by shift, each named by its worker. *)
Definition workerHours (shifts : list RepValidator.Shift.t) : list Z :=
  shifts ≫= λ s, replicate (Z.to_nat (RepValidator.Shift.duration s))
                           (RepValidator.Shift.employeeId s).

(** The coverage of a skill in an hour of a day of the validator, by the
    rule of the specification, from the workers whose skill points make
    them trained in [this]. *)
Definition RepValidator_cover (this : RepValidator.t) (shifts : list RepValidator.Shift.t)
    (h : Z) (skill : string) : Q :=
  Coverage (size (workers (λ e, RepValidator.isTrained this e skill) true h skill shifts))
           (size (workers (λ e, RepValidator.isTrained this e skill) false h skill shifts)).

(** The cells of a day: every required skill with every opening hour. *)
Definition RepValidator_cells (day : RepValidator.Day.t) : list (string * Z) :=
  RepValidator.Day.requiredSkills day
  ≫= λ skill, (λ h, (skill, h)) <$> hours (RepValidator.Day.start day)
                                          (RepValidator.Day.end_ day).

(** The capacity of a day by the rule of the specification: the coverage
    of its cells over their number. *)
Definition RepValidator_capacity (this : RepValidator.t) (day : RepValidator.Day.t)
    (shifts : list RepValidator.Shift.t) : Q :=
  if decide (0 < RepValidator.Day.totalSkillHours day)
  then (Qsum (λ cell, RepValidator_cover this shifts cell.2 cell.1) (RepValidator_cells day) 0
        / inject_Z (RepValidator.Day.totalSkillHours day))%Q
  else 0%Q.

(** The totals the loop over the days accumulates. *)
Definition sameTotals (a b : RepValidator.t) : Prop :=
  RepValidator.totalProfit a = RepValidator.totalProfit b
  ∧ RepValidator.totalPayroll a = RepValidator.totalPayroll b
  ∧ RepValidator.totalRevenuePotential a = RepValidator.totalRevenuePotential b.

(** Scenario A with the skill named "constructor", the name of a member
    of [Object.prototype]: the day requires it, the employee is trained
    in it and works the whole window on it. *)
Module ScenarioConstructor.

Definition shift : Solver.Shift.t := Solver.Shift.mk 1 8 10 "constructor".

Definition day : Solver.Day.t := Solver.Day.mk 1 true 8 10 1000 ["constructor"].

Definition solver : Solver.t :=
  Solver.mk (Solver.mkOrganization 50 100) [day]
    [Solver.Employee.mk 1 40 10 1 1 {["constructor"]} ∅].

Definition schedule : gmap Z (list Solver.Shift.t) := {[1 := [shift]]}.

Definition vShift : RepValidator.Shift.t := RepValidator.Shift.mk 1 8 10 "constructor".

Definition vDay : RepValidator.Day.t := RepValidator.Day.mk 1 false 8 10 1000 ["constructor"].

(** The validator after [parseInput] and [parseOutput]. *)
Definition validator : RepValidator.t :=
  RepValidator.mk (RepValidator.mkOrganization 50 100) {[1 := vDay]}
    {[1 := RepValidator.Employee.mk 1 40 10 1 1 {["constructor"]} ∅]} {[1 := [vShift]]}
    {[1 := {["constructor" := 1000]}]} ∅ 0 0 0 true [].

End ScenarioConstructor.

(** An employee on vacation on day 1 who works two shifts that day:
    8 to 9 and 9 to 10 on "Register". *)
Module ScenarioVacation.

Definition vShifts : list RepValidator.Shift.t :=
  [RepValidator.Shift.mk 1 8 9 "Register"; RepValidator.Shift.mk 1 9 10 "Register"].

Definition vEmployee : RepValidator.Employee.t :=
  RepValidator.Employee.mk 1 40 10 1 1 {["Register"]} {[1]}.

Definition validator : RepValidator.t :=
  RepValidator.mk (RepValidator.mkOrganization 50 100) {[1 := ScenarioA.vDay]}
    {[1 := vEmployee]} {[1 := vShifts]} {[1 := {["Register" := 1000]}]} ∅ 0 0 0 true [].

End ScenarioVacation.

(** ** part_000: class Scheduler *)

Module Part000.

Module Day.
Record t := mk {
  id : Z; closed : bool; start : Z; end_ : Z; revenue : Z; skills : list string }.
End Day.

Module Employee.
Record t := mk {
  id : Z; maxHours : Z; salary : Z; learningRate : Z; teachingRate : Z;
  skills : gset string; vacationSet : gset Z }.
End Employee.

(** An entry of [employeeStates]; [hoursThisWeek] has one cell per day. *)
Record State := mkState {
  stateSkills : gset string;
  trainingProgress : gmap string Z;   (* the own properties that are numbers *)
  hoursThisWeek : list Z }.

Module Shift.
Record t := mk { empId : Z; empIdx : nat; start : Z; end_ : Z; skill : string }.
End Shift.

Record t := mk {
  overtimeModifier : Z;
  fixedDailyCost : Z;
  days : list Day.t;
  employees : list Employee.t;
  employeeStates : list State }.

Record Candidate := mkCandidate {
  emp : Employee.t; candidateIdx : nat; state : State; weekHours : Z; hourlyCost : Z }.

(** A candidate with the two fields the loop over the skills adds to its
    copy. *)
Record Ranked := mkRanked {
  candidate : Candidate; hasSkill : bool; effectiveHours : Z }.

(** The available employees.  [dayIdx] is an index of [days], for which
    [parseInput] creates the cells of [hoursThisWeek] and one state per
    employee.  Where the cell [hoursThisWeek[dayIdx]] is missing,
    [weekHours] is [undefined]: the candidate is built, but its
    [effectiveHours] are [NaN] for every skill and the filter
    [effectiveHours > 0] drops it each time, so it is left out here. *)
Definition candidateOf (this : t) (dayIdx : nat) (idx : nat) (emp : Employee.t)
    : option (option Candidate) :=
  if decide (Z.of_nat dayIdx ∈ Employee.vacationSet emp) then Some None else
  let? state := employeeStates this !! idx in
  match hoursThisWeek state !! dayIdx with None => Some None | Some weekHours =>
  let isOvertime := bool_decide (Employee.maxHours emp ≤ weekHours) in
  let hourlyCost := if isOvertime
                    then Employee.salary emp * overtimeModifier this / 100
                    else Employee.salary emp in
  Some (Some (mkCandidate emp idx state weekHours hourlyCost))
  end.

Definition candidates (this : t) (dayIdx : nat) : option (list Candidate) :=
  let? cs := mapM (λ '(idx, emp), candidateOf this dayIdx idx emp)
                  (imap (λ idx emp, (idx, emp)) (employees this)) in
  Some (omap id cs).

(** [[...new Set(day.skills)]] *)
Definition uniqueSkills (skills : list string) : list string :=
  fold_left (λ acc x, if decide (x ∈ acc) then acc else acc ++ [x]) skills [].

Definition compareRanked (a b : Ranked) : Z :=
  if negb (eqb (hasSkill a) (hasSkill b))
  then Z.b2z (hasSkill b) - Z.b2z (hasSkill a)
  else hourlyCost (candidate a) - hourlyCost (candidate b).

(** Sort candidates: skilled first, then by cost. *)
Definition sorted (cs : list Candidate) (hoursNeeded : Z) (skill : string) : list Ranked :=
  Array_sort compareRanked
    (filter (λ c, 0 < effectiveHours c)
       ((λ c, mkRanked c (bool_decide (skill ∈ stateSkills (state c)))
                       (Z.min hoursNeeded (40 - weekHours c))) <$> cs)).

(** Assign enough employees to cover this skill. *)
Definition assign (day : Day.t) (hoursNeeded : Z) (skill : string)
    (acc : list Shift.t * Q) (c : Ranked) : list Shift.t * Q :=
  let '(shifts, needsCoverage) := acc in
  if Qle_bool needsCoverage 0 then acc else
  let assignHours := Z.min hoursNeeded (effectiveHours c) in
  if decide (0 < assignHours)
  then (shifts ++ [Shift.mk (Employee.id (emp (candidate c))) (candidateIdx (candidate c))
                            (Day.start day) (Day.start day + assignHours) skill],
        (needsCoverage - (if hasSkill c then 1 else 1 # 2))%Q)
  else acc.

Definition scheduleDay (this : t) (dayIdx : nat) (day : Day.t) : option (list Shift.t) :=
  let? cs := candidates this dayIdx in
  let hoursNeeded := Day.end_ day - Day.start day in
  Some (fold_left
          (λ shifts skill,
             let skillCount := length (filter (λ s, s = skill) (Day.skills day)) in
             (fold_left (assign day hoursNeeded skill) (sorted cs hoursNeeded skill)
                        (shifts, inject_Z (Z.of_nat skillCount))).1)
          (uniqueSkills (Day.skills day)) []).

(** The states [parseInput] creates. *)
Definition initialStates (days : list Day.t) (employees : list Employee.t) : list State :=
  (λ emp, mkState (Employee.skills emp) ∅ (replicate (length days) 0)) <$> employees.

(** [Array.prototype.some] with a predicate that may throw. *)
Fixpoint Array_some {A} (p : A → option bool) (l : list A) : option bool :=
  match l with
  | [] => Some false
  | x :: l => let? b := p x in if b then Some true else Array_some p l
  end.

(** [Math.max(...rates)]; [None] stands for [-Infinity], of no rate. *)
Definition Math_max (rates : list Z) : option Z :=
  match rates with
  | [] => None
  | rate :: rates => Some (fold_left Z.max rates rate)
  end.

(** Check if there's a teacher: a trained employee on the same skill and
    the same hours. *)
Definition hasTeacher (states : list State) (shifts : list Shift.t) (shift : Shift.t)
    : option bool :=
  Array_some
    (λ s, if bool_decide (Shift.skill s = Shift.skill shift)
             && bool_decide (Shift.empIdx s ≠ Shift.empIdx shift)
          then let? state := states !! Shift.empIdx s in
               Some (bool_decide (Shift.skill shift ∈ stateSkills state)
                     && bool_decide (Shift.start s = Shift.start shift)
                     && bool_decide (Shift.end_ s = Shift.end_ shift))
          else Some false)
    shifts.

(** The rate is the largest teaching rate among the other shifts on the
    skill, whether their employees are trained or not. *)
Definition teacherRate (this : t) (states : list State) (shifts : list Shift.t)
    (shift : Shift.t) : option Z :=
  let? teacher := hasTeacher states shifts shift in
  if teacher : bool
  then let? rates :=
         mapM (λ s, Employee.teachingRate <$> employees this !! Shift.empIdx s)
              (filter (λ s, Shift.skill s = Shift.skill shift
                            ∧ Shift.empIdx s ≠ Shift.empIdx shift) shifts) in
       Math_max rates
  else Some 1.

(** [state.hoursThisWeek[d] += hours], on a cell that holds a number;
    [None] stands for the [NaN] the sum leaves in a missing cell. *)
Definition addHours (hours : Z) (cells : list Z) (d : nat) : option (list Z) :=
  let? old := cells !! d in
  Some (<[d := old + hours]> cells).

(** The days from [dayIdx] to the end of its week, or of the calendar. *)
Definition restOfWeek (this : t) (dayIdx : nat) : list nat :=
  let weekStart := (dayIdx / 7 * 7)%nat in
  seq dayIdx (Nat.min (length (days this)) (weekStart + 7) - dayIdx).

(** The body of the loop of [applyShifts] that updates the states: the
    weekly hours of the employee on the days left in the week, then the
    training. *)
Definition applyShift (this : t) (dayIdx : nat) (shifts : list Shift.t)
    (states : list State) (shift : Shift.t) : option (list State) :=
  let? state := states !! Shift.empIdx shift in
  let hours := Shift.end_ shift - Shift.start shift in
  let? cells := foldM (addHours hours) (hoursThisWeek state) (restOfWeek this dayIdx) in
  let state := mkState (stateSkills state) (trainingProgress state) cells in
  let states := <[Shift.empIdx shift := state]> states in
  if decide (Shift.skill shift ∈ stateSkills state) then Some states else
  let? teacherRate := teacherRate this states shifts shift in
  let? emp := employees this !! Shift.empIdx shift in
  let points := hours * Employee.learningRate emp * teacherRate in
  let progress := Object_add (trainingProgress state) (Shift.skill shift) points in
  let skills := if Number_ge (Object_number progress (Shift.skill shift)) 1000
                then stateSkills state ∪ {[Shift.skill shift]}
                else stateSkills state in
  Some (<[Shift.empIdx shift := mkState skills progress cells]> states).

(** [applyShifts]; the map [empHours] it fills first is not read. *)
Definition applyShifts (this : t) (dayIdx : nat) (shifts : list Shift.t)
    : option (list State) :=
  foldM (applyShift this dayIdx shifts) (employeeStates this) shifts.

Definition generateDay (acc : list (list Shift.t) * t) (entry : nat * Day.t)
    : option (list (list Shift.t) * t) :=
  let '(schedule, this) := acc in
  let '(dayIdx, day) := entry in
  if Day.closed day then Some (schedule ++ [[]], this) else
  let? shifts := scheduleDay this dayIdx day in
  let? states := applyShifts this dayIdx shifts in
  Some (schedule ++ [shifts],
        mk (overtimeModifier this) (fixedDailyCost this) (days this) (employees this) states).

(** [generateSchedule]: the schedule, one line per day, and the scheduler
    with the states it leaves. *)
Definition generateSchedule (this : t) : option (list (list Shift.t) * t) :=
  foldM generateDay ([], this) (imap (λ dayIdx day, (dayIdx, day)) (days this)).

End Part000.

Global Instance Part000_ShiftLike : ShiftLike Part000.Shift.t :=
  {| employeeOf := Part000.Shift.empId; startOf := Part000.Shift.start;
     endOf := Part000.Shift.end_; skillOf := Part000.Shift.skill |}.

(** One employee, two skills: day 1 is open from 8 to 10 and requires
    "Register" and "Stock"; the only employee, 1, has both skills, may
    work 40 hours a week and has no vacation. *)
Module ScenarioTwoSkills.

Definition sonnet : Sonnet.Input :=
  Sonnet.mkInput 50 100
    [Sonnet.Day.mk 1 false 8 10 1000 ["Register"; "Stock"]]
    [Sonnet.Employee.mk 1 40 10 1 1 {["Register"; "Stock"]} ∅].

Definition day : Part000.Day.t := Part000.Day.mk 1 false 8 10 1000 ["Register"; "Stock"].

Definition employee : Part000.Employee.t :=
  Part000.Employee.mk 1 40 10 1 1 {["Register"; "Stock"]} ∅.

Definition scheduler : Part000.t :=
  Part000.mk 50 100 [day] [employee] (Part000.initialStates [day] [employee]).

Definition solver : Solver.t :=
  Solver.mk (Solver.mkOrganization 50 100)
    [Solver.Day.mk 1 true 8 10 1000 ["Register"; "Stock"]]
    [Solver.Employee.mk 1 40 10 1 1 {["Register"; "Stock"]} ∅].

End ScenarioTwoSkills.

(** A shift [generateSchedule] may place on a day: it spans the opening
    window, on a required skill, for an employee who is not on vacation. *)
Definition wellPlaced (this : Solver.t) (day : Solver.Day.t) (s : Solver.Shift.t) : Prop :=
  Solver.Shift.start s = Solver.Day.start day
  ∧ Solver.Shift.end_ s = Solver.Day.end_ day
  ∧ Solver.Shift.skill s ∈ Solver.Day.requiredSkills day
  ∧ ∃ emp, emp ∈ Solver.employees this
           ∧ Solver.Employee.id emp = Solver.Shift.employeeId s
           ∧ Solver.Day.id day ∉ Solver.Employee.vacationDays emp.

(** The string has no hyphen. *)
Fixpoint noDash (s : string) : Prop :=
  match s with
  | EmptyString => True
  | String c s' => c ≠ "-"%char ∧ noDash s'
  end.

(** The grouping loop of bah2.js and bah3.js: every item is pushed on the
    array stored under its key. *)
Definition grouped {A V} (key : A → string) (val : A → V) (l : list A)
    : list (string * list V) :=
  fold_left (λ map s, Map_set (key s) (default [] (Map_get (key s) map) ++ [val s]) map) l [].

(** What the state of a merging loop reaches: the blocks already pushed
    and the current block. *)
Definition reaches {B} (C : B → Prop) (st : list B * B) : Prop :=
  (∃ m, m ∈ st.1 ∧ C m) ∨ C st.2.

(** The hour lies in the block [start, end). *)
Definition inBlock (h : Z) (b : Z * Z) : Prop := b.1 ≤ h < b.2.

(** The shift covers the slot (employee, hour, skill). *)
Definition onSlot {A} `{ShiftLike A} (employee h : Z) (skill : string) (s : A) : Prop :=
  employeeOf s = employee ∧ worksOn h skill s.

(** The shifts a merging step can take: employee ids that print as
    digits, and skill names without a hyphen, so that the key
    [`${employeeId}-${skill}`] can be split again. *)
Definition keyable {A} `{ShiftLike A} (s : A) : Prop :=
  0 ≤ employeeOf s ∧ noDash (skillOf s).

(** The slots the merged entries of bah2.js cover; an entry holds the
    employee id as the string read back from the key. *)
Definition Bah2_covers (entries : list (string * string * list (Z * Z)))
    (employee h : Z) (skill : string) : Prop :=
  ∃ entry, entry ∈ entries ∧ entry.1.1 = pretty employee ∧ entry.1.2 = skill
           ∧ ∃ m, m ∈ entry.2 ∧ inBlock h m.

(** A holiday: the day of [ScenarioTwoSkills], with id 1 and first in the
    calendar, and an employee whose vacation set holds day 1. *)
Module ScenarioHoliday.

Definition employee : Part000.Employee.t :=
  Part000.Employee.mk 1 40 10 1 1 {["Register"; "Stock"]} {[1]}.

Definition scheduler : Part000.t :=
  Part000.mk 50 100 [ScenarioTwoSkills.day] [employee]
    (Part000.initialStates [ScenarioTwoSkills.day] [employee]).

End ScenarioHoliday.

(** What [validateSchedule] asks of a shift of a day's line. *)
Definition Solver_shiftOk (this : Solver.t) (day : Solver.Day.t) (s : Solver.Shift.t) : Prop :=
  ∃ employee,
    Solver.employees_get this (Solver.Shift.employeeId s) = Some employee
    ∧ (Solver.Day.id day ∉ Solver.Employee.vacationDays employee)
    ∧ Solver.Day.isOpen day = true
    ∧ Solver.Day.start day ≤ Solver.Shift.start s
    ∧ Solver.Shift.end_ s ≤ Solver.Day.end_ day
    ∧ Solver.Shift.start s < Solver.Shift.end_ s.

(** What it asks of a day: the schedule has a line for it, whose shifts
    pass the checks and do not overlap per employee. *)
Definition Solver_dayOk (this : Solver.t) (schedule : gmap Z (list Solver.Shift.t))
    (day : Solver.Day.t) : Prop :=
  ∃ shifts, schedule !! Solver.Day.id day = Some shifts
            ∧ Forall (Solver_shiftOk this day) shifts ∧ NoOverlap shifts.

Definition Solver_scheduleOk (this : Solver.t) (schedule : gmap Z (list Solver.Shift.t))
    : Prop :=
  size schedule = length (Solver.days this) ∧ Forall (Solver_dayOk this schedule) (Solver.days this).

(** A check leaves the validation record as it was, or leaves it invalid
    with an error message. *)
Definition keptOrFaulted (v v' : Solver.Validation) : Prop :=
  v' = v ∨ (Solver.isValid v' = false ∧ Solver.errors v' ≠ []).

(** The input [generateSchedule] is written for: day ids and employee ids
    are unique and an open day opens before it closes. *)
Definition Solver_inputOk (this : Solver.t) : Prop :=
  NoDup (Solver.Day.id <$> Solver.days this)
  ∧ NoDup (Solver.Employee.id <$> Solver.employees this)
  ∧ Forall (λ day, Solver.Day.isOpen day = true → Solver.Day.start day < Solver.Day.end_ day)
           (Solver.days this).

(** Every employee has a clone and a state at the start of a day. *)
Definition Solver_runOk (this : Solver.t) (run : Solver.Run) : Prop :=
  Solver_wf this (Solver_dayStart run).

(** Every error of [b] that is not one of [a] satisfies [P], and [b] is
    flagged only if [a] is or some message satisfies [P]. *)
Definition errorsFrom (P : string → Prop) (a b : RepValidator.t) : Prop :=
  (∀ m, m ∈ RepValidator.validationErrors b → m ∈ RepValidator.validationErrors a ∨ P m)
  ∧ (RepValidator.isValid b = false → RepValidator.isValid a = false ∨ ∃ m, P m).

(** The intervals kept in [employeeShiftsToday] are those of earlier
    shifts of the employee. *)
Definition todayFrom (this : RepValidator.t) (pre : list RepValidator.Shift.t)
    (sc : RepValidator.Scan) : Prop :=
  ∀ e interval, interval ∈ default [] (RepValidator.employeeShiftsToday sc !! e) →
    ∃ s, s ∈ pre ∧ RepValidator.Shift.employeeId s = e
         ∧ interval = (RepValidator.Shift.start s, RepValidator.Shift.end_ s).

(** The message is that of a violation on some open day of the schedule. *)
Definition violated (this : RepValidator.t) (m : string) : Prop :=
  ∃ dayId day,
    RepValidator.days this !! dayId = Some day
    ∧ RepValidator.Day.isClosed day = false
    ∧ violation this dayId day (default [] (RepValidator.schedule this !! dayId)) m.

(** The shift cut to its first hour: what [mergeShifts] of bah3.js reads
    of a shift is its employee, its skill and its start. *)
Definition firstHour (s : Bah3.Shift.t) : Bah3.Shift.t :=
  Bah3.Shift.mk (Bah3.Shift.employeeId s) (Bah3.Shift.start s) (Bah3.Shift.start s + 1)
                (Bah3.Shift.skill s).

(** The sum of a weight over a list. *)
Definition total {X} (w : X → Z) (l : list X) : Z := foldr (λ x acc, w x + acc) 0 l.

(** The hours of a shift, at a rate per hour that depends on the employee
    and the skill (a salary, or 1 for one employee and 0 for the others). *)
Definition ratedHours {A} `{ShiftLike A} (rate : Z → string → Z) (s : A) : Z :=
  rate (employeeOf s) (skillOf s) * (endOf s - startOf s).

(** The rated hours of the merged entries of bah2.js; an entry holds the
    employee id as the string read back from the key. *)
Definition Bah2_ratedHours (rate : Z → string → Z)
    (entry : string * string * list (Z * Z)) : Z :=
  match Number entry.1.1 with
  | Some employee => rate employee entry.1.2 * total (λ m : Z * Z, m.2 - m.1) entry.2
  | None => 0
  end.

(** The employees [advancedSchedule] of sonnet.js can pick on a day. *)
Definition Sonnet_available (input : Sonnet.Input) (day : Sonnet.Day.t)
    : list Sonnet.Employee.t :=
  filter (λ emp, Sonnet.Day.id day ∉ Sonnet.Employee.vacation emp) (Sonnet.employees input).

(** What [advancedSchedule] pushes for a day: nothing on a closed day or
    when everybody is on vacation, else one shift per required skill, in
    order, over the whole opening window, by an employee who is not on
    vacation. *)
Definition Sonnet_scheduled (input : Sonnet.Input) (day : Sonnet.Day.t)
    (daySchedule : Sonnet.DaySchedule) : Prop :=
  Sonnet.dayId daySchedule = Sonnet.Day.id day
  ∧ Sonnet.Shift.skill <$> Sonnet.shifts daySchedule
    = (if Sonnet.Day.closed day then []
       else match Sonnet_available input day with
            | [] => []
            | _ => Sonnet.Day.skills day
            end)
  ∧ Forall (λ s, Sonnet.Shift.start s = Sonnet.Day.start day
                 ∧ Sonnet.Shift.end_ s = Sonnet.Day.end_ day
                 ∧ ∃ emp, emp ∈ Sonnet_available input day
                          ∧ Sonnet.Shift.employeeId s = Sonnet.Employee.id emp)
           (Sonnet.shifts daySchedule).

(** Every employee has an entry in [employeeSkills]. *)
Definition Sonnet_tracked (input : Sonnet.Input) (tr : Sonnet.Tracking) : Prop :=
  ∀ emp, emp ∈ Sonnet.employees input →
         is_Some (Sonnet.employeeSkills tr !! Sonnet.Employee.id emp).

(** The states as [parseInput] of part_000 shapes them: one state per
    employee, with one cell of weekly hours per day. *)
Definition Part000_statesShaped (this : Part000.t) (states : list Part000.State) : Prop :=
  length states = length (Part000.employees this)
  ∧ Forall (λ state, length (Part000.hoursThisWeek state) = length (Part000.days this)) states.

Definition Part000_shaped (this : Part000.t) : Prop :=
  Part000_statesShaped this (Part000.employeeStates this).

(** Where [scheduleDay] of part_000 puts a shift: it is held by the
    employee at its index, whose vacation set does not hold the index of
    the day; it starts when the day opens, ends by the time it closes, and
    is on a required skill. *)
Definition Part000_slot (this : Part000.t) (dayIdx : nat) (day : Part000.Day.t)
    (s : Part000.Shift.t) : Prop :=
  ∃ emp,
    Part000.employees this !! Part000.Shift.empIdx s = Some emp
    ∧ Part000.Shift.empId s = Part000.Employee.id emp
    ∧ (Z.of_nat dayIdx ∉ Part000.Employee.vacationSet emp)
    ∧ Part000.Shift.start s = Part000.Day.start day
    ∧ Part000.Shift.start s < Part000.Shift.end_ s
    ∧ Part000.Shift.end_ s ≤ Part000.Day.end_ day
    ∧ Part000.Shift.skill s ∈ Part000.Day.skills day.

(** The shift takes no more than the weekly hours of its employee leave
    of 40 hours. *)
Definition Part000_capped (this : Part000.t) (dayIdx : nat) (s : Part000.Shift.t) : Prop :=
  ∃ state weekHours,
    Part000.employeeStates this !! Part000.Shift.empIdx s = Some state
    ∧ Part000.hoursThisWeek state !! dayIdx = Some weekHours
    ∧ Part000.Shift.end_ s - Part000.Shift.start s ≤ 40 - weekHours.

(** No employee has two shifts on one skill. *)
Definition Part000_onePerSkill (shifts : list Part000.Shift.t) : Prop :=
  NoDup ((λ s, (Part000.Shift.skill s, Part000.Shift.empIdx s)) <$> shifts).

(** No state has lost a skill. *)
Definition Part000_grown (states states' : list Part000.State) : Prop :=
  Forall2 (λ state state', Part000.stateSkills state ⊆ Part000.stateSkills state')
          states states'.

(** The scheduler still holds the input it was given. *)
Definition Part000_sameInput (this that : Part000.t) : Prop :=
  Part000.overtimeModifier that = Part000.overtimeModifier this
  ∧ Part000.fixedDailyCost that = Part000.fixedDailyCost this
  ∧ Part000.days that = Part000.days this
  ∧ Part000.employees that = Part000.employees this.

(** The line [generateSchedule] of part_000 writes for a day. *)
Definition Part000_line (this : Part000.t) (dayIdx : nat) (day : Part000.Day.t)
    (shifts : list Part000.Shift.t) : Prop :=
  (Part000.Day.closed day = true → shifts = [])
  ∧ Forall (Part000_slot this dayIdx day) shifts
  ∧ Part000_onePerSkill shifts.

(** The candidate is the employee at its index, with the state and the
    weekly hours of the day. *)
Definition Part000_candidate (this : Part000.t) (dayIdx : nat) (c : Part000.Candidate) : Prop :=
  Part000.employees this !! Part000.candidateIdx c = Some (Part000.emp c)
  ∧ (Z.of_nat dayIdx ∉ Part000.Employee.vacationSet (Part000.emp c))
  ∧ Part000.employeeStates this !! Part000.candidateIdx c = Some (Part000.state c)
  ∧ Part000.hoursThisWeek (Part000.state c) !! dayIdx = Some (Part000.weekHours c).

(** ** rep_validator.js: the shift tokens of parseOutput *)
Module ParseOutput.

Definition code (c : ascii) : Z := Z.of_N (N_of_ascii c).

(** The white space [parseInt] skips, among the code units below 256:
    TAB, LF, VT, FF, CR, SP and NBSP. *)
Definition isWhiteSpace (c : ascii) : bool :=
  bool_decide (9 ≤ code c ≤ 13) || bool_decide (code c = 32) || bool_decide (code c = 160).

Fixpoint trimStart (s : string) : string :=
  match s with
  | String c s' => if isWhiteSpace c then trimStart s' else s
  | EmptyString => EmptyString
  end.

(** The value of a digit in radix 16. *)
Definition hexDigit (c : ascii) : option Z :=
  let n := code c in
  if decide (48 ≤ n ≤ 57) then Some (n - 48)
  else if decide (65 ≤ n ≤ 70) then Some (n - 55)
  else if decide (97 ≤ n ≤ 102) then Some (n - 87)
  else None.

(** The number the longest prefix of digits denotes; [acc] is [None] as
    long as no digit was read. *)
Fixpoint digits (digit : ascii → option Z) (radix : Z) (s : string) (acc : option Z)
    : option Z :=
  match s with
  | String c s' =>
      match digit c with
      | Some d => digits digit radix s' (Some (radix * default 0 acc + d))
      | None => acc
      end
  | EmptyString => acc
  end.

(** [parseInt(string)] without a radix; [None] stands for [NaN]. *)
Definition parseInt (s : string) : option Z :=
  let s := trimStart s in
  let '(sign, s) :=
    match s with
    | String c s' => if decide (code c = 45) then (-1, s')
                     else if decide (code c = 43) then (1, s')
                     else (1, s)
    | EmptyString => (1, s)
    end in
  let magnitude :=
    match s with
    | String c0 (String c1 s') =>
        if bool_decide (code c0 = 48) && (bool_decide (code c1 = 120) || bool_decide (code c1 = 88))
        then digits hexDigit 16 s' None
        else digits digit 10 s None
    | _ => digits digit 10 s None
    end in
  (λ n, sign * n) <$> magnitude.

(** The fields of a [Shift] of rep_validator.js as its constructor leaves
    them: a number that is [None] is [NaN], a skill that is [None] is
    [undefined]. *)
Record Shift := mkShift {
  employeeId : option Z; start : option Z; end_ : option Z; skill : option string }.

(** [new Shift(token)]; [None] when the constructor throws.  [parseInt]
    of a missing part is [parseInt(undefined)], which is [NaN], and a
    duration that is [NaN] is not [<= 0]. *)
Definition Shift_new (token : string) : option Shift :=
  let parts := split "-" token in
  let employeeId := parts !! 0%nat ≫= parseInt in
  let start := parts !! 1%nat ≫= parseInt in
  let end_ := parts !! 2%nat ≫= parseInt in
  let skill := parts !! 3%nat in
  let duration := match start, end_ with
                  | Some start, Some end_ => Some (end_ - start)
                  | _, _ => None
                  end in
  match duration with
  | Some duration => if decide (duration ≤ 0) then None
                     else Some (mkShift employeeId start end_ skill)
  | None => Some (mkShift employeeId start end_ skill)
  end.

End ParseOutput.

(** The employee can take the skill on the day in generateSimpleSchedule
    of bah3.js: not on vacation and initially trained. *)
Definition Bah3_qualified (day : Bah3.Day.t) (skill : string) (employee : Bah3.Employee.t)
    : Prop :=
  (Bah3.Day.dayId day ∉ Bah3.Employee.vacationDays employee)
  ∧ skill ∈ Bah3.Employee.skills employee.

(** The shift lies on a required slot of the day and is held by a
    qualified employee. *)
Definition Bah3_placed (day : Bah3.Day.t) (employees : list Bah3.Employee.t)
    (s : Bah3.Shift.t) : Prop :=
  Bah3.Day.start day ≤ Bah3.Shift.start s < Bah3.Day.end_ day
  ∧ Bah3.Shift.skill s ∈ Bah3.Day.requiredSkills day
  ∧ ∃ employee, employee ∈ employees
                ∧ Bah3.Employee.id employee = Bah3.Shift.employeeId s
                ∧ Bah3_qualified day (Bah3.Shift.skill s) employee.

(** The slot is settled: it is covered, or every qualified employee is
    at work in that hour. *)
Definition Bah3_settled (day : Bah3.Day.t) (employees : list Bah3.Employee.t)
    (shifts : list Bah3.Shift.t) (h : Z) (skill : string) : Prop :=
  (∃ e, covers shifts e h skill)
  ∨ ∀ employee, employee ∈ employees → Bah3_qualified day skill employee →
                ∃ skill', covers shifts (Bah3.Employee.id employee) h skill'.

(** What [generateSimpleSchedule] stores for a day: the shifts cover an
    (employee, hour, skill) slot only on an open day, inside its opening
    window, for a required skill and a qualified employee; no employee is
    on two skills in one hour; and every required slot is settled. *)
Definition Bah3_daySchedule (day : Bah3.Day.t) (employees : list Bah3.Employee.t)
    (shifts : list Bah3.Shift.t) : Prop :=
  (∀ e h skill, covers shifts e h skill →
     Bah3.Day.closed day = false
     ∧ Bah3.Day.start day ≤ h < Bah3.Day.end_ day
     ∧ skill ∈ Bah3.Day.requiredSkills day
     ∧ ∃ employee, employee ∈ employees ∧ Bah3.Employee.id employee = e
                   ∧ Bah3_qualified day skill employee)
  ∧ (∀ e h skill1 skill2,
       covers shifts e h skill1 → covers shifts e h skill2 → skill1 = skill2)
  ∧ (∀ h skill, Bah3.Day.closed day = false →
       Bah3.Day.start day ≤ h < Bah3.Day.end_ day →
       skill ∈ Bah3.Day.requiredSkills day →
       Bah3_settled day employees shifts h skill).

(** Every employee of bah2.js has an hours counter and a points map, as
    [parseInput] leaves them. *)
Definition Bah2_shaped (this : Bah2.t) (st : Bah2.State) : Prop :=
  ∀ e, e ∈ Bah2.employees this →
       is_Some (Bah2.employeeHoursWorked st !! Bah2.Employee.id e)
       ∧ is_Some (Bah2.employeeSkillPoints st !! Bah2.Employee.id e).

(** A one-hour shift booked on the day: inside the opening window, on a
    required skill, for an employee of the input who is not on vacation,
    and recorded in the [shifts] array of that employee. *)
Definition Bah2_booked (this : Bah2.t) (day : Bah2.Day.t) (st : Bah2.State)
    (s : Bah2.Shift.t) : Prop :=
  singleHour s
  ∧ Bah2.Shift.dayId s = Bah2.Day.id day
  ∧ Bah2.Day.start day ≤ Bah2.Shift.start s < Bah2.Day.end_ day
  ∧ Bah2.Shift.skill s ∈ Bah2.Day.required_skills day
  ∧ (∃ employee, employee ∈ Bah2.employees this
                 ∧ Bah2.employees_get this (Bah2.Shift.employeeId s) = Some employee
                 ∧ Bah2.Employee.id employee = Bah2.Shift.employeeId s
                 ∧ Bah2.Day.id day ∉ Bah2.Employee.vacation_days employee)
  ∧ s ∈ Bah2.shiftsOf st (Bah2.Shift.employeeId s).

(** The skill points of an employee, 0 when there are none. *)
Definition Bah2_points (st : Bah2.State) (employeeId : Z) (skill : string) : Z :=
  default 0 (Bah2.employeeSkillPoints st !! employeeId ≫= λ pointsMap, pointsMap !! skill).

(** The employee is free on the day in the hour. *)
Definition Bah2_free (this : Bah2.t) (st : Bah2.State) (dayId hour : Z) (e : Bah2.Employee.t)
    : Prop :=
  (∃ e', Bah2.employees_get this (Bah2.Employee.id e) = Some e'
         ∧ dayId ∉ Bah2.Employee.vacation_days e')
  ∧ ∀ s, s ∈ Bah2.shiftsOf st (Bah2.Employee.id e) → Bah2.Shift.dayId s = dayId →
         ¬ (Bah2.Shift.start s ≤ hour < Bah2.Shift.end_ s).

(** What one pass of the loop over the required skill-hours does: nothing,
    or it books one employee for the hour, whose points for the skill grow
    by the learning rate when the employee is not trained. *)
Definition Bah2_step (this : Bah2.t) (day : Bah2.Day.t) (hour : Z) (skill : string)
    (shifts : list Bah2.Shift.t) (st : Bah2.State)
    (shifts' : list Bah2.Shift.t) (st' : Bah2.State) : Prop :=
  (shifts' = shifts ∧ st' = st)
  ∨ ∃ best trained,
      best ∈ Bah2.employees this
      ∧ shifts' = shifts ++ [Bah2.Shift.mk (Bah2.Employee.id best) hour (hour + 1) skill
                                            (Bah2.Day.id day)]
      ∧ Bah2.isTrained st (Bah2.Employee.id best) skill = Some trained
      ∧ Bah2_points st' (Bah2.Employee.id best) skill
        = Bah2_points st (Bah2.Employee.id best) skill
          + (if trained : bool then 0 else Bah2.Employee.learning_rate best)
      ∧ ∀ e k, (e, k) ≠ (Bah2.Employee.id best, skill) →
               Bah2_points st' e k = Bah2_points st e k.

(** An open day of sonnet.js on which no skill-hour is required. *)
Definition Sonnet_idle (day : Sonnet.Day.t) : Prop :=
  Sonnet.Day.closed day = false
  ∧ (Sonnet.Day.end_ day - Sonnet.Day.start day)
    * Z.of_nat (length (Sonnet.Day.skills day)) = 0.

(** ** bah3.js, second script: runScheduler *)
Module RunScheduler.

Module Day.
(** [requiredSlots] maps the key [`${hour}-${skill}`] to a count, in
    insertion order. *)
Record t := mk {
  day_id : Z; open : bool; start : Z; end_ : Z;
  requiredSlots : list (string * Z) }.
End Day.

Module Employee.
Record t := mk {
  id : Z; maxHoursPerWeek : Z; salaryPerHour : Z;
  skills : gset string; vacationDays : gset Z }.
End Employee.

Module Shift.
Record t := mk { employee_id : Z; start : Z; end_ : Z; skill : string }.
End Shift.

(** [days] is keyed by day id.  [employees] holds the employees in the
    order in which [for (const empId in employees)] visits them, each
    under its own id. *)
Record Data := mkData {
  days : gmap Z Day.t;
  employees : list Employee.t }.

(** [parseInt(string, 10)]; [None] stands for [NaN]. *)
Definition parseInt10 (s : string) : option Z :=
  let s := ParseOutput.trimStart s in
  let '(sign, s) :=
    match s with
    | String c s' => if decide (ParseOutput.code c = 45) then (-1, s')
                     else if decide (ParseOutput.code c = 43) then (1, s')
                     else (1, s)
    | EmptyString => (1, s)
    end in
  (λ n, sign * n) <$> ParseOutput.digits digit 10 s None.

(** Convert requiredSlots into a list of required 1-hour shifts.  [None]
    stands for a slot whose hour would be [NaN] or whose skill
    [undefined]. *)
Definition requiredShifts (day : Day.t) : option (list (Z * string)) :=
  let? slots :=
    mapM (λ '(hourSkill, count),
            let? (hour, skill) := splitKey hourSkill in
            let? hour := parseInt10 hour in
            Some (replicate (Z.to_nat count) (hour, skill)))
         (Day.requiredSlots day) in
  (* Sort shifts to prioritize coverage based on time *)
  Some (Array_sort (λ a b : Z * string, a.1 - b.1) (concat slots)).

Definition isAlreadyScheduled (dailyShifts : list Shift.t) (employee : Employee.t) (hour : Z)
    : bool :=
  existsb (λ shift, bool_decide (Shift.employee_id shift = Employee.id employee)
                    && bool_decide (Shift.start shift ≤ hour)
                    && bool_decide (hour < Shift.end_ shift)) dailyShifts.

(** Constraints check: skill match, vacation, weekly max hours (a counter
    that is [undefined] passes), daily conflict. *)
Definition eligible (dayId : Z) (employeeHours : gmap Z Z) (dailyShifts : list Shift.t)
    (hour : Z) (skill : string) (employee : Employee.t) : bool :=
  bool_decide (skill ∈ Employee.skills employee)
  && negb (bool_decide (dayId ∈ Employee.vacationDays employee))
  && negb (match employeeHours !! Employee.id employee with
           | Some h => bool_decide (Employee.maxHoursPerWeek employee ≤ h)
           | None => false
           end)
  && negb (isAlreadyScheduled dailyShifts employee hour).

(** Find the best single employee (cheapest, qualified, available): the
    first one at the lowest salary. *)
Definition bestEmployee (data : Data) (dayId : Z) (employeeHours : gmap Z Z)
    (dailyShifts : list Shift.t) (hour : Z) (skill : string) : option Employee.t :=
  fold_left (λ best employee,
               if eligible dayId employeeHours dailyShifts hour skill employee
               then match best with
                    | Some b => if decide (Employee.salaryPerHour employee
                                            < Employee.salaryPerHour b)
                                then Some employee else best
                    | None => Some employee
                    end
               else best)
            (employees data) None.

(** Merge consecutive shifts for the same employee/skill: the last shift
    that satisfies [P] is extended by [f]. *)
Fixpoint extendLast (P : Shift.t → bool) (f : Shift.t → Shift.t) (l : list Shift.t)
    : option (list Shift.t) :=
  match l with
  | [] => None
  | s :: l' =>
      match extendLast P f l' with
      | Some l'' => Some (s :: l'')
      | None => if P s then Some (f s :: l') else None
      end
  end.

(** The greedy assignment of one required shift.  The hours counter that
    is incremented is one the scheduler has initialised. *)
Definition assign (data : Data) (dayId : Z) (acc : list Shift.t * gmap Z Z)
    (shiftReq : Z * string) : option (list Shift.t * gmap Z Z) :=
  let '(dailyShifts, employeeHours) := acc in
  let '(hour, skill) := shiftReq in
  match bestEmployee data dayId employeeHours dailyShifts hour skill with
  | None => Some acc
  | Some best =>
      let merged :=
        extendLast (λ lastShift,
                      bool_decide (Shift.employee_id lastShift = Employee.id best)
                      && bool_decide (Shift.end_ lastShift = hour)
                      && bool_decide (Shift.skill lastShift = skill))
                   (λ lastShift, Shift.mk (Shift.employee_id lastShift) (Shift.start lastShift)
                                          (hour + 1) (Shift.skill lastShift))
                   dailyShifts in
      let dailyShifts :=
        default (dailyShifts ++ [Shift.mk (Employee.id best) hour (hour + 1) skill]) merged in
      let? worked := employeeHours !! Employee.id best in
      Some (dailyShifts, <[Employee.id best := worked + 1]> employeeHours)
  end.

Definition token (s : Shift.t) : string :=
  pretty (Shift.employee_id s) +:+ "-" +:+ pretty (Shift.start s) +:+ "-"
  +:+ pretty (Shift.end_ s) +:+ "-" +:+ Shift.skill s.

(** Reset employee hours counter weekly (every 7 days, starting from day
    0). *)
Definition weeklyReset (dayId : Z) (employeeHours : gmap Z Z) : gmap Z Z :=
  if decide (Z.rem dayId 7 = 0) then (λ _, 0) <$> employeeHours else employeeHours.

(** The shifts of an open day and the counters they leave. *)
Definition dailyShifts (data : Data) (day : Day.t) (dayId : Z) (employeeHours : gmap Z Z)
    : option (list Shift.t * gmap Z Z) :=
  let? required := requiredShifts day in
  foldM (assign data dayId) ([], employeeHours) required.

Definition scheduleDay (data : Data) (acc : list string * gmap Z Z) (dayId : Z)
    : option (list string * gmap Z Z) :=
  let '(lines, employeeHours) := acc in
  let? day := days data !! dayId in
  let employeeHours := weeklyReset dayId employeeHours in
  if negb (Day.open day) then Some (lines ++ [pretty dayId +:+ "_"], employeeHours) else
  let? (shifts, employeeHours) := dailyShifts data day dayId employeeHours in
  Some (lines ++ [match shifts with
                  | [] => pretty dayId +:+ "_"
                  | _ => pretty dayId +:+ " " +:+ Bah2.join " " (token <$> shifts)
                  end], employeeHours).

Definition sortedDayIds (data : Data) : list Z :=
  Array_sort (λ a b, a - b) (elements (dom (days data))).

(** The lines of the final output, and the hours counters at the end. *)
Definition runScheduler (data : Data) : option (list string * gmap Z Z) :=
  let employeeHours :=
    fold_left (λ hours e, <[Employee.id e := 0]> hours) (employees data) ∅ in
  foldM (scheduleDay data) ([], employeeHours) (sortedDayIds data).

End RunScheduler.

Global Instance RunScheduler_ShiftLike : ShiftLike RunScheduler.Shift.t :=
  {| employeeOf := RunScheduler.Shift.employee_id; startOf := RunScheduler.Shift.start;
     endOf := RunScheduler.Shift.end_; skillOf := RunScheduler.Shift.skill |}.

(** The hours an employee works in a list of shifts. *)
Definition workedHours {A} `{ShiftLike A} (employee : Z) (shifts : list A) : Z :=
  total (ratedHours (λ e _, if decide (e = employee) then 1 else 0)) shifts.

(** The keys of [requiredSlots] as [parseInput] writes them, with hours
    that are not negative and skills without a hyphen. *)
Definition RunScheduler_keyed (day : RunScheduler.Day.t) : Prop :=
  Forall (λ slot : string * Z,
            ∃ hour skill, slot.1 = groupKey hour skill ∧ 0 ≤ hour ∧ noDash skill)
         (RunScheduler.Day.requiredSlots day).

(** The slot is required on the day. *)
Definition RunScheduler_required (day : RunScheduler.Day.t) (hour : Z) (skill : string)
    : Prop :=
  ∃ count, (groupKey hour skill, count) ∈ RunScheduler.Day.requiredSlots day ∧ 0 < count.

(** The employee can take the skill on the day. *)
Definition RunScheduler_qualified (dayId : Z) (skill : string)
    (employee : RunScheduler.Employee.t) : Prop :=
  skill ∈ RunScheduler.Employee.skills employee
  ∧ dayId ∉ RunScheduler.Employee.vacationDays employee.

(** What the loop over the required shifts keeps, from the hours counters
    [hours0] at its start. *)
Definition RunScheduler_inv (data : RunScheduler.Data) (day : RunScheduler.Day.t) (dayId : Z)
    (hours0 : gmap Z Z) (acc : list RunScheduler.Shift.t * gmap Z Z) : Prop :=
  NoOverlap acc.1
  ∧ Forall (λ s, RunScheduler.Shift.start s < RunScheduler.Shift.end_ s) acc.1
  ∧ (∀ s, s ∈ acc.1 →
       (∃ emp, emp ∈ RunScheduler.employees data
               ∧ RunScheduler.Employee.id emp = RunScheduler.Shift.employee_id s
               ∧ RunScheduler_qualified dayId (RunScheduler.Shift.skill s) emp)
       ∧ ∀ h, activeAt h s → RunScheduler_required day h (RunScheduler.Shift.skill s))
  ∧ (∀ emp, emp ∈ RunScheduler.employees data →
       ∃ h0, hours0 !! RunScheduler.Employee.id emp = Some h0
             ∧ acc.2 !! RunScheduler.Employee.id emp
               = Some (h0 + workedHours (RunScheduler.Employee.id emp) acc.1)
             ∧ h0 + workedHours (RunScheduler.Employee.id emp) acc.1
               ≤ Z.max h0 (RunScheduler.Employee.maxHoursPerWeek emp)).

(** Every employee has a counter, between 0 and the weekly maximum. *)
Definition RunScheduler_capped (data : RunScheduler.Data) (hours : gmap Z Z) : Prop :=
  ∀ emp, emp ∈ RunScheduler.employees data →
         ∃ h, hours !! RunScheduler.Employee.id emp = Some h
              ∧ 0 ≤ h ≤ Z.max 0 (RunScheduler.Employee.maxHoursPerWeek emp).

(** A one-hour shift booked by createSchedule of bah.js on the day:
    inside the opening window, on a required skill, for an employee of
    the input who is not on vacation. *)
Definition Bah_booked (day : Bah.Day.t) (employees : list Bah.Employee.t) (s : Bah.Shift.t)
    : Prop :=
  singleHour s
  ∧ Bah.Shift.dayId s = Bah.Day.id day
  ∧ Bah.Day.start day ≤ Bah.Shift.start s < Bah.Day.end_ day
  ∧ Bah.Shift.skill s ∈ Bah.Day.requiredSkills day
  ∧ ∃ emp, emp ∈ employees ∧ Bah.Employee.id emp = Bah.Shift.employeeId s
           ∧ Bah.Day.id day ∉ Bah.Employee.vacationDays emp.

(** The employee cannot take the hour: on vacation that day, or already
    holding a shift that starts at the hour. *)
Definition Bah_busy (day : Bah.Day.t) (shifts : list Bah.Shift.t) (h : Z)
    (emp : Bah.Employee.t) : Prop :=
  Bah.Day.id day ∈ Bah.Employee.vacationDays emp
  ∨ ∃ s, s ∈ shifts ∧ Bah.Shift.employeeId s = Bah.Employee.id emp ∧ Bah.Shift.start s = h.

(** How the while loop is left: every slot of the day has a worker, or
    some slot is in an hour no employee can take. *)
Definition Bah_exit (day : Bah.Day.t) (employees : list Bah.Employee.t)
    (shifts : list Bah.Shift.t) : Prop :=
  (∀ h skill, (h, skill) ∈ Bah.slots day → ∃ e, covers shifts e h skill)
  ∨ ∃ h skill, (h, skill) ∈ Bah.slots day
               ∧ ∀ emp, emp ∈ employees → Bah_busy day shifts h emp.

(** The cell [coverage[h][skill]] against the shifts pushed so far. *)
Definition Bah_cell (g : Bah.Greedy) (slot : Z * string) : Prop :=
  ∃ full ids, Bah.coverage g !! slot = Some (full, ids)
    ∧ (∀ e, e ∈ ids ↔ covers (Bah.shifts g) e slot.1 slot.2)
    ∧ (full = false → (size ids < 2)%nat)
    ∧ (full = true → ∃ e, e ∈ ids).

(** What holds of the variables of the while loop at its head. *)
Definition Bah_inv (day : Bah.Day.t) (employees : list Bah.Employee.t) (g : Bah.Greedy)
    : Prop :=
  Forall (Bah_booked day employees) (Bah.shifts g)
  ∧ NoOverlap (Bah.shifts g)
  ∧ NoDup ((λ s, (Bah.Shift.employeeId s, Bah.Shift.start s)) <$> Bah.shifts g)
  ∧ (∀ e h, Bah.isEmployeeScheduledAtHour (Bah.scheduledHours g) e h = true
            ↔ ∃ s, s ∈ Bah.shifts g ∧ Bah.Shift.employeeId s = e ∧ Bah.Shift.start s = h)
  ∧ (∀ slot, slot ∈ Bah.slots day → Bah_cell g slot).

(** * Properties *)

(** ** Loops and collections *)

Lemma foldM_app {A B} (f : B → A → option B) (b : B) (l1 l2 : list A) :
  foldM f b (l1 ++ l2) = match foldM f b l1 with Some b' => foldM f b' l2 | None => None end.
Proof.
  revert b. induction l1 as [|x l1 IH]; intros b; simpl; [done|].
  destruct (f b x); [apply IH | done].
Qed.

(** An invariant kept by every iteration is kept by the loop. *)
Lemma foldM_invariant {A B} (P : B → Prop) (f : B → A → option B) (l : list A) (b b' : B) :
  (∀ b x b', x ∈ l → P b → f b x = Some b' → P b') →
  P b → foldM f b l = Some b' → P b'.
Proof.
  revert b. induction l as [|x l IH]; intros b Hstep Hb Hfold; simpl in Hfold.
  - by inversion Hfold; subst.
  - destruct (f b x) as [b1|] eqn:Hf; [|done].
    apply (IH b1); [|by eapply Hstep; [left|..]|done].
    intros b2 y b3 Hy. apply Hstep. by right.
Qed.

(** A loop whose iterations cannot throw on states satisfying an invariant
    does not throw. *)
Lemma foldM_total {A B} (P : B → Prop) (f : B → A → option B) (l : list A) (b : B) :
  (∀ b x, x ∈ l → P b → ∃ b', f b x = Some b' ∧ P b') →
  P b → ∃ b', foldM f b l = Some b' ∧ P b'.
Proof.
  revert b. induction l as [|x l IH]; intros b Hstep Hb; simpl.
  - by exists b.
  - destruct (Hstep b x) as (b1 & -> & Hb1); [by left|done|].
    apply IH; [|done]. intros b2 y Hy. apply Hstep. by right.
Qed.

Lemma filterM_Some {A} (p : A → option bool) (q : A → bool) (l : list A) :
  (∀ x, x ∈ l → p x = Some (q x)) → filterM p l = Some (filter (λ x, q x = true) l).
Proof.
  induction l as [|x l IH]; intros Hp; simpl; [done|].
  rewrite (Hp x) by left. rewrite IH by (intros y Hy; apply Hp; by right).
  rewrite filter_cons. by destruct (q x); case_decide.
Qed.

Lemma sort_insert_Permutation {A} (compare : A → A → Z) (x : A) (l : list A) :
  sort_insert compare x l ≡ₚ x :: l.
Proof.
  induction l as [|y l IH]; simpl; [done|].
  case_decide; [done|]. rewrite IH. apply Permutation_swap.
Qed.

Lemma Array_sort_Permutation {A} (compare : A → A → Z) (l : list A) :
  Array_sort compare l ≡ₚ l.
Proof.
  induction l as [|x l IH]; simpl; [done|].
  rewrite sort_insert_Permutation. by rewrite IH.
Qed.

(** ** Plain objects keyed by skill name *)

Lemma inherited_proto : inherited "__proto__" = true.
Proof. reflexivity. Qed.

Lemma Object_number_ordinary (dict : gmap string Z) (key : string) :
  inherited key = false → Object_number dict key = Some (default 0 (dict !! key)).
Proof.
  intros Hkey. unfold Object_number.
  destruct (decide (key = "__proto__")) as [->|_]; [by rewrite inherited_proto in Hkey|].
  rewrite Hkey. by destruct (dict !! key).
Qed.

Lemma Object_add_ordinary (dict : gmap string Z) (key : string) (n : Z) :
  inherited key = false → Object_add dict key n = <[key := default 0 (dict !! key) + n]> dict.
Proof. intros Hkey. unfold Object_add. by rewrite Object_number_ordinary. Qed.

Lemma Object_number_add (dict : gmap string Z) (key : string) (n : Z) :
  Object_number (Object_add dict key n) key = (λ m, m + n) <$> Object_number dict key.
Proof.
  unfold Object_add. destruct (Object_number dict key) as [m|] eqn:Hm; [|by rewrite Hm].
  unfold Object_number in *. destruct (decide (key = "__proto__")); [done|].
  by rewrite lookup_insert_eq.
Qed.

Lemma Object_number_add_ne (dict : gmap string Z) (key key' : string) (n : Z) :
  key' ≠ key → Object_number (Object_add dict key n) key' = Object_number dict key'.
Proof.
  intros Hne. unfold Object_add. destruct (Object_number dict key); [|done].
  unfold Object_number. by rewrite lookup_insert_ne.
Qed.

Lemma Number_ge_default (value : option Z) (bound : Z) :
  0 < bound → Number_ge value bound = bool_decide (bound ≤ default 0 value).
Proof.
  intros Hb. destruct value as [v|]; simpl; [done|].
  symmetry. apply bool_decide_eq_false. lia.
Qed.

(** ** Weekly blocks and payroll *)

Lemma hoursBill_closed_form (m sal ot c : Z) (n : nat) :
  foldr (λ k acc, hourBill m sal ot k + acc) 0 (seqZ c (Z.of_nat n))
  = Z.min (Z.of_nat n) (Z.max 0 (m - c)) * sal
    + (Z.of_nat n - Z.min (Z.of_nat n) (Z.max 0 (m - c))) * (sal * ot / 100).
Proof.
  revert c. induction n as [|n IH]; intros c.
  - simpl. lia.
  - rewrite Nat2Z.inj_succ, seqZ_cons by lia. simpl.
    replace (Z.pred (Z.succ (Z.of_nat n))) with (Z.of_nat n) by lia.
    rewrite IH. unfold hourBill. set (o := sal * ot / 100).
    case_decide.
    + replace (Z.min (Z.succ (Z.of_nat n)) (Z.max 0 (m - c)))
        with (1 + Z.min (Z.of_nat n) (Z.max 0 (m - Z.succ c))) by lia.
      lia.
    + replace (Z.min (Z.succ (Z.of_nat n)) (Z.max 0 (m - c))) with 0 by lia.
      replace (Z.min (Z.of_nat n) (Z.max 0 (m - Z.succ c))) with 0 by lia.
      lia.
Qed.

Lemma Solver_payEmployee_spec (this : Solver.t) (dayId : Z) (sim : Solver.Sim)
    (empId : Z) (employee : Solver.Employee.t) (state : Solver.EmployeeState.t) :
  Solver.employees_get this empId = Some employee →
  Solver.employeeStates sim !! empId = Some state →
  ∃ sim',
    Solver.payEmployee this dayId sim empId = Some sim'
    ∧ Solver.dailyPayroll sim'
      = Solver.dailyPayroll sim
        + hourBill (Solver.Employee.maxHoursPerWeek employee)
                   (Solver.Employee.salaryPerHour employee)
                   (Solver.overtimeModifierPercent (Solver.organization this))
                   (Solver.EmployeeState.getHoursThisWeek state dayId)
    ∧ Solver.employeeStates sim'
      = <[empId := Solver.EmployeeState.addHour state dayId]> (Solver.employeeStates sim)
    ∧ Solver.EmployeeState.getHoursThisWeek (Solver.EmployeeState.addHour state dayId) dayId
      = Solver.EmployeeState.getHoursThisWeek state dayId + 1
    ∧ Solver.simEmployees sim' = Solver.simEmployees sim
    ∧ Solver.newSkillsLearned sim' = Solver.newSkillsLearned sim
    ∧ Solver.achievedSkillHours sim' = Solver.achievedSkillHours sim.
Proof.
  intros Hemp Hst. unfold Solver.payEmployee. rewrite Hemp, Hst.
  eexists. split; [done|]. simpl.
  assert (Solver.EmployeeState.getHoursThisWeek (Solver.EmployeeState.addHour state dayId) dayId
          = Solver.EmployeeState.getHoursThisWeek state dayId + 1) as Hcnt.
  { unfold Solver.EmployeeState.getHoursThisWeek, Solver.EmployeeState.addHour. simpl.
    by rewrite lookup_insert_eq. }
  rewrite Hcnt. split_and!; try done.
  unfold hourBill, Solver.overtimePay. f_equal.
  repeat case_decide; (done || lia).
Qed.

Lemma RepValidator_calculatePayroll_spec (this : RepValidator.t) (empId d : Z)
    (employee : RepValidator.Employee.t) :
  RepValidator.employees this !! empId = Some employee →
  0 ≤ d →
  ∃ this',
    RepValidator.calculatePayroll this empId d
    = Some (hoursBill (RepValidator.Employee.maxHoursPerWeek employee)
                      (RepValidator.Employee.salaryPerHour employee)
                      (RepValidator.overtimeMod (RepValidator.organization this))
                      (default 0 (RepValidator.weeklyHours this !! empId)) d,
            this')
    ∧ default 0 (RepValidator.weeklyHours this' !! empId)
      = default 0 (RepValidator.weeklyHours this !! empId) + d.
Proof.
  intros Hemp Hd. unfold RepValidator.calculatePayroll. rewrite Hemp.
  eexists. split.
  - do 2 f_equal. unfold hoursBill.
    rewrite <-(Z2Nat.id d) by done. rewrite hoursBill_closed_form.
    unfold RepValidator.overtimeRate. lia.
  - simpl. by rewrite lookup_insert_eq.
Qed.

(** ** Workers and shifts *)

Section WorkersFacts.
Context {A : Type} `{ShiftLike A}.

(** Two shifts active in the same hour overlap. *)
Lemma activeAt_overlap h (s1 s2 : A) : activeAt h s1 → activeAt h s2 → overlap s1 s2.
Proof. unfold activeAt, overlap. lia. Qed.

(** In a schedule without overlaps the shifts active in one hour belong
    to distinct employees. *)
Lemma NoOverlap_NoDup (P : A → Prop) `{∀ s, Decision (P s)} h (shifts : list A) :
  NoOverlap shifts → (∀ s, P s → activeAt h s) →
  NoDup (employeeOf <$> filter P shifts).
Proof.
  intros Hno HP. induction shifts as [|s l IH]; simpl; [constructor|].
  destruct Hno as [Hs Hl]. rewrite filter_cons. case_decide as HPs; [|by apply IH].
  rewrite fmap_cons. constructor; [|by apply IH].
  intros Hin. apply list_elem_of_fmap in Hin as (s' & Heq & Hin').
  apply list_elem_of_filter in Hin' as [HPs' Hin'].
  rewrite Forall_forall in Hs. apply (Hs s' Hin'); [done|].
  eapply activeAt_overlap; eauto.
Qed.

Lemma workers_size (trained : Z → bool) status h skill (shifts : list A) :
  NoOverlap shifts →
  size (workers trained status h skill shifts)
  = length (filter (λ s, worksOn h skill s ∧ trained (employeeOf s) = status) shifts).
Proof.
  intros Hno. unfold workers. rewrite size_list_to_set.
  - by rewrite length_fmap.
  - apply (NoOverlap_NoDup _ h); [done|]. by intros s [[? _] _].
Qed.
End WorkersFacts.

Lemma Coverage_values (t u : nat) :
  (Coverage t u = 0%Q ∨ Coverage t u = (1 # 2)%Q ∨ Coverage t u = 1%Q)
  ∧ (Coverage t u <= 1)%Q.
Proof.
  unfold Coverage. repeat case_decide; split; auto; by compute.
Qed.

(** ** Coverage in [Solver.calculateScore] *)

Lemma Solver_knows_trained (known : gmap Z (gset string)) (skill : string) (empId : Z) :
  is_Some (known !! empId) →
  Solver.knows known empId skill = Some (Solver_trained known skill empId).
Proof.
  intros [ks Hks]. unfold Solver.knows, Solver_trained. by rewrite Hks.
Qed.

Lemma Solver_isActive_activeAt (h : Z) (s : Solver.Shift.t) :
  Solver.isActive h s = true ↔ activeAt h s.
Proof.
  unfold Solver.isActive, activeAt. simpl.
  rewrite andb_true_iff, !bool_decide_eq_true. lia.
Qed.

(** The shifts [skillCoverage] counts as trained (or untrained) are the
    shifts of the day that staff the skill in that hour with that status. *)
Lemma Solver_counted_shifts (known : gmap Z (gset string)) (status : bool)
    (shifts : list Solver.Shift.t) (h : Z) (skill : string) :
  filter (λ s, (if status then Solver_trained known skill (Solver.Shift.employeeId s)
                else negb (Solver_trained known skill (Solver.Shift.employeeId s))) = true)
         (filter (λ s, Solver.Shift.skill s = skill)
                 (filter (λ s, Solver.isActive h s) shifts))
  = filter (λ s, worksOn h skill s ∧ Solver_trained known skill (employeeOf s) = status) shifts.
Proof.
  rewrite !list_filter_filter. apply list_filter_iff. intros s.
  unfold worksOn. rewrite <-Solver_isActive_activeAt. simpl.
  destruct status, (Solver_trained known skill (Solver.Shift.employeeId s));
    simpl; rewrite Is_true_true; intuition congruence.
Qed.


Lemma filter_split_length {A} (P Q R : A → Prop)
    `{∀ x, Decision (P x)} `{∀ x, Decision (Q x)} `{∀ x, Decision (R x)} (l : list A) :
  (∀ x, P x ↔ Q x ∨ R x) → (∀ x, Q x → R x → False) →
  length (filter P l) = (length (filter Q l) + length (filter R l))%nat.
Proof.
  intros Hiff Hdisj. induction l as [|x l IH]; [done|].
  rewrite !filter_cons.
  destruct (decide (P x)) as [HP|HP], (decide (Q x)) as [HQ|HQ], (decide (R x)) as [HR|HR];
    simpl; rewrite ?IH; try lia.
  - destruct (Hdisj x HQ HR).
  - apply Hiff in HP. tauto.
  - destruct HP. apply Hiff. tauto.
  - destruct HP. apply Hiff. tauto.
  - destruct HP. apply Hiff. tauto.
Qed.

Lemma Solver_skillCoverage_spec (known : gmap Z (gset string))
    (shifts : list Solver.Shift.t) (h : Z) (skill : string) :
  (∀ s, s ∈ shifts → is_Some (known !! Solver.Shift.employeeId s)) →
  NoOverlap shifts →
  Solver.skillCoverage known (filter (λ s, Solver.isActive h s) shifts) skill
  = Some (Coverage (size (workers (Solver_trained known skill) true h skill shifts))
                   (size (workers (Solver_trained known skill) false h skill shifts))).
Proof.
  intros Hknown Hno. unfold Solver.skillCoverage.
  set (forSkill := filter (λ s, Solver.Shift.skill s = skill) _).
  assert (∀ s, s ∈ forSkill → is_Some (known !! Solver.Shift.employeeId s)) as Hk.
  { intros s Hs. apply Hknown. unfold forSkill in Hs.
    apply list_elem_of_filter in Hs as [_ Hs]. by apply list_elem_of_filter in Hs as [_ Hs]. }
  rewrite (filterM_Some _ (λ s, Solver_trained known skill (Solver.Shift.employeeId s)))
    by (intros s Hs; by apply Solver_knows_trained, Hk).
  assert (filterM (λ s : Solver.Shift.t,
                     negb <$> Solver.knows known (Solver.Shift.employeeId s) skill) forSkill
          = Some (filter (λ s, negb (Solver_trained known skill (Solver.Shift.employeeId s))
                               = true) forSkill)) as ->.
  { apply filterM_Some. intros s Hs.
    by rewrite (Solver_knows_trained known skill _ (Hk s Hs)). }
  pose proof (Solver_counted_shifts known true shifts h skill) as Ht.
  pose proof (Solver_counted_shifts known false shifts h skill) as Hu.
  cbv beta iota in Ht, Hu. fold forSkill in Ht, Hu. rewrite Ht, Hu.
  rewrite !workers_size by done.
  set (t := length (filter (λ s, worksOn h skill s ∧ _ = true) shifts)).
  set (u := length (filter (λ s, worksOn h skill s ∧ _ = false) shifts)).
  assert (length forSkill = (t + u)%nat) as Hlen.
  { unfold forSkill, t, u. rewrite list_filter_filter.
    apply filter_split_length.
    - intros s. unfold worksOn. rewrite <-Solver_isActive_activeAt. simpl.
      rewrite Is_true_true.
      destruct (Solver_trained known skill (Solver.Shift.employeeId s)); intuition congruence.
    - intros s [_ ?] [_ ?]. congruence. }
  unfold Coverage. rewrite Hlen.
  repeat case_decide; try done; lia.
Qed.

(** ** The first loop of [RepValidator.calculateCapacity] *)

Lemma sameModel_refl a : sameModel a a.
Proof. by repeat split. Qed.

Lemma sameModel_trans a b c : sameModel a b → sameModel b c → sameModel a c.
Proof. unfold sameModel. intuition congruence. Qed.

Lemma errorsGrow_refl a : errorsGrow a a.
Proof. by repeat split. Qed.

Lemma errorsGrow_trans a b c : errorsGrow a b → errorsGrow b c → errorsGrow a c.
Proof.
  intros (H1 & H2 & H3) (H4 & H5 & H6). split_and!; [naive_solver..|].
  intros Hc. rewrite H6 by done. apply H3.
  destruct (RepValidator.isValid b) eqn:Hb; [done|]. rewrite H5 in Hc; done.
Qed.

Lemma logError_sameModel m this : sameModel this (RepValidator._logError m this).
Proof. by repeat split. Qed.

Lemma logError_errorsGrow m this : errorsGrow this (RepValidator._logError m this).
Proof.
  split_and!; simpl; [|done..].
  intros m' Hm'. case_decide; [done|]. apply elem_of_app. by left.
Qed.

Lemma logError_logged m this :
  m ∈ RepValidator.validationErrors (RepValidator._logError m this)
  ∧ RepValidator.isValid (RepValidator._logError m this) = false.
Proof.
  split; [|done]. simpl. case_decide; [done|]. apply elem_of_app. right. by left.
Qed.

Lemma isTrained_sameModel a b empId skill :
  sameModel a b → RepValidator.isTrained b empId skill = RepValidator.isTrained a empId skill.
Proof.
  intros (_ & _ & _ & _ & Hsp). unfold RepValidator.isTrained, RepValidator.points.
  by rewrite Hsp.
Qed.

(** How one shift changes the counts of an (hour, skill) cell. *)
Lemma countHour_fold (b : bool) (sk : string) (n : nat) (a : Z)
    (cm : gmap (Z * string) (Z * Z)) (h' : Z) (sk' : string) :
  RepValidator.hourCoverage
    (fold_left (RepValidator.countHour b sk) (seqZ a (Z.of_nat n)) cm) h' sk'
  = let c := RepValidator.hourCoverage cm h' sk' in
    if decide (sk = sk' ∧ inherited sk = false ∧ a ≤ h' < a + Z.of_nat n)
    then (if b then (c.1 + 1, c.2) else (c.1, c.2 + 1))
    else c.
Proof.
  destruct (inherited sk') eqn:Hsk'.
  { unfold RepValidator.hourCoverage. rewrite Hsk'. simpl.
    case_decide as Hc; [|done]. destruct Hc as (-> & Hsk & _). congruence. }
  destruct (inherited sk) eqn:Hsk.
  { assert (∀ l, fold_left (RepValidator.countHour b sk) l cm = cm) as ->.
    { induction l as [|x l IHl]; [done|]. simpl. unfold RepValidator.countHour at 2.
      by rewrite Hsk. }
    simpl. case_decide as Hc; [|done]. by destruct Hc as (_ & ? & _). }
  revert a cm. induction n as [|n IH]; intros a cm.
  - simpl. case_decide; [lia|done].
  - rewrite Nat2Z.inj_succ, seqZ_cons by lia. simpl fold_left.
    replace (Z.pred (Z.succ (Z.of_nat n))) with (Z.of_nat n) by lia.
    rewrite IH. unfold RepValidator.hourCoverage, RepValidator.countHour.
    rewrite Hsk, Hsk'. simpl.
    destruct (decide ((a, sk) = (h', sk'))) as [[= -> ->]|Hne].
    + rewrite lookup_insert_eq. simpl.
      repeat case_decide; try lia; try done; intuition lia.
    + rewrite lookup_insert_ne by done.
      repeat case_decide; try done; try (destruct Hne; f_equal; intuition lia);
        intuition lia.
Qed.

Lemma countHour_hours (b : bool) (s : RepValidator.Shift.t)
    (cm : gmap (Z * string) (Z * Z)) (h : Z) (sk : string) :
  RepValidator.hourCoverage
    (fold_left (RepValidator.countHour b (RepValidator.Shift.skill s))
               (hours (RepValidator.Shift.start s) (RepValidator.Shift.end_ s)) cm) h sk
  = let c := RepValidator.hourCoverage cm h sk in
    if decide (worksOn h sk s ∧ inherited sk = false)
    then (if b then (c.1 + 1, c.2) else (c.1, c.2 + 1))
    else c.
Proof.
  unfold hours, worksOn, activeAt. simpl.
  destruct (decide (RepValidator.Shift.start s ≤ RepValidator.Shift.end_ s)) as [Hle|Hgt].
  - rewrite <-(Z2Nat.id (_ - _)) by lia. rewrite countHour_fold. simpl.
    repeat case_decide; try done.
    + destruct H0. destruct H as (Heq & Hin & ?). split; [split; [lia|done]|congruence].
    + destruct H. destruct H0 as [[[? ?] Heq] Hin]. split; [done|]. split; [congruence|lia].
  - rewrite seqZ_nil by lia. simpl. case_decide; [lia|done].
Qed.

Lemma validityChecks_sameModel dayId day emp today shift this :
  sameModel this (RepValidator.validityChecks dayId day emp today shift this).
Proof.
  unfold RepValidator.validityChecks.
  repeat case_decide; destruct (existsb _ today);
    repeat (eapply sameModel_trans; [|apply logError_sameModel]); apply sameModel_refl.
Qed.

Lemma validityChecks_errorsGrow dayId day emp today shift this :
  errorsGrow this (RepValidator.validityChecks dayId day emp today shift this).
Proof.
  unfold RepValidator.validityChecks.
  repeat case_decide; destruct (existsb _ today);
    repeat (eapply errorsGrow_trans; [|apply logError_errorsGrow]); apply errorsGrow_refl.
Qed.

Lemma validityChecks_weeklyHours dayId day emp today shift this :
  RepValidator.weeklyHours (RepValidator.validityChecks dayId day emp today shift this)
  = RepValidator.weeklyHours this.
Proof.
  unfold RepValidator.validityChecks. repeat case_decide; by destruct (existsb _ today).
Qed.

(** Every failed check leaves its message in the error list. *)
Lemma validityChecks_logged dayId day emp today shift this :
  let this' := RepValidator.validityChecks dayId day emp today shift this in
  (dayId ∈ RepValidator.Employee.vacationDays emp →
   RepValidator.msgVacation dayId (RepValidator.Shift.employeeId shift)
     ∈ RepValidator.validationErrors this' ∧ RepValidator.isValid this' = false)
  ∧ (RepValidator.Shift.start shift < RepValidator.Day.start day
     ∨ RepValidator.Day.end_ day < RepValidator.Shift.end_ shift →
     RepValidator.msgOutside dayId shift day ∈ RepValidator.validationErrors this'
     ∧ RepValidator.isValid this' = false)
  ∧ (existsb (RepValidator.overlapsWith shift) today = true →
     RepValidator.msgOverlap dayId (RepValidator.Shift.employeeId shift)
       ∈ RepValidator.validationErrors this' ∧ RepValidator.isValid this' = false).
Proof.
  unfold RepValidator.validityChecks.
  set (m1 := RepValidator.msgVacation _ _). set (m2 := RepValidator.msgOutside _ _ _).
  set (m3 := RepValidator.msgOverlap _ _).
  set (t1 := if decide (dayId ∈ _) then _ else this).
  set (t2 := if decide (_ ∨ _) then _ else t1).
  set (t3 := if existsb _ today then _ else t2). simpl.
  assert (errorsGrow t1 t2) as G12.
  { unfold t2. case_decide; [apply logError_errorsGrow|apply errorsGrow_refl]. }
  assert (errorsGrow t2 t3) as G23.
  { unfold t3. destruct (existsb _ today); [apply logError_errorsGrow|apply errorsGrow_refl]. }
  pose proof (errorsGrow_trans _ _ _ G12 G23) as G13.
  split_and!.
  - intros Hv. assert (m1 ∈ RepValidator.validationErrors t1 ∧ RepValidator.isValid t1 = false)
      as [Hm Hi]. { unfold t1. rewrite decide_True by done. apply logError_logged. }
    destruct G13 as (Hin & Hval & _). auto.
  - intros Ho. assert (m2 ∈ RepValidator.validationErrors t2 ∧ RepValidator.isValid t2 = false)
      as [Hm Hi]. { unfold t2. rewrite decide_True by done. apply logError_logged. }
    destruct G23 as (Hin & Hval & _). auto.
  - intros Ho. unfold t3. rewrite Ho. apply logError_logged.
Qed.

(** A schedule that passes the three checks leaves the validator as it was. *)
Lemma validityChecks_clean dayId day emp today shift this :
  dayId ∉ RepValidator.Employee.vacationDays emp →
  ¬ (RepValidator.Shift.start shift < RepValidator.Day.start day
     ∨ RepValidator.Day.end_ day < RepValidator.Shift.end_ shift) →
  existsb (RepValidator.overlapsWith shift) today = false →
  RepValidator.validityChecks dayId day emp today shift this = this.
Proof.
  intros H1 H2 H3. unfold RepValidator.validityChecks.
  by rewrite decide_False, decide_False, H3 by done.
Qed.

Lemma scanShift_unknown dayId day sc shift :
  RepValidator.employees (RepValidator.scanThis sc) !! RepValidator.Shift.employeeId shift = None →
  RepValidator.scanShift dayId day sc shift
  = Some (RepValidator.mkScan
            (RepValidator._logError
               (RepValidator.msgNoEmployee dayId (RepValidator.Shift.employeeId shift))
               (RepValidator.scanThis sc))
            (RepValidator.coverageMap sc) (RepValidator.employeeShiftsToday sc)
            (RepValidator.payrollD sc)).
Proof. intros Hnone. unfold RepValidator.scanShift. by rewrite Hnone. Qed.

Lemma scanShift_known dayId day sc shift emp :
  let this := RepValidator.scanThis sc in
  let e := RepValidator.Shift.employeeId shift in
  let today := default [] (RepValidator.employeeShiftsToday sc !! e) in
  let checked := RepValidator.validityChecks dayId day emp today shift this in
  RepValidator.employees this !! e = Some emp →
  RepValidator.scanShift dayId day sc shift
  = Some (RepValidator.mkScan
            (RepValidator.set_weeklyHours
               (<[e := default 0 (RepValidator.weeklyHours this !! e)
                       + RepValidator.Shift.duration shift]> (RepValidator.weeklyHours this))
               checked)
            (fold_left (RepValidator.countHour
                          (RepValidator.isTrained this e (RepValidator.Shift.skill shift))
                          (RepValidator.Shift.skill shift))
                       (hours (RepValidator.Shift.start shift) (RepValidator.Shift.end_ shift))
                       (RepValidator.coverageMap sc))
            (<[e := if existsb (RepValidator.overlapsWith shift) today then today
                    else today ++ [(RepValidator.Shift.start shift, RepValidator.Shift.end_ shift)]]>
               (RepValidator.employeeShiftsToday sc))
            (RepValidator.payrollD sc
             + (Z.min (RepValidator.Shift.duration shift)
                      (Z.max 0 (RepValidator.Employee.maxHoursPerWeek emp
                                - default 0 (RepValidator.weeklyHours this !! e)))
                * RepValidator.Employee.salaryPerHour emp
                + (RepValidator.Shift.duration shift
                   - Z.min (RepValidator.Shift.duration shift)
                           (Z.max 0 (RepValidator.Employee.maxHoursPerWeek emp
                                     - default 0 (RepValidator.weeklyHours this !! e))))
                  * RepValidator.overtimeRate this emp))).
Proof.
  intros this e today checked Hemp. unfold RepValidator.scanShift.
  fold this e. rewrite Hemp. fold today. fold checked.
  pose proof (validityChecks_sameModel dayId day emp today shift this) as Hsame.
  fold checked in Hsame. destruct Hsame as (Horg & _ & Hemps & _ & Hsp).
  pose proof (validityChecks_weeklyHours dayId day emp today shift this) as Hwh.
  fold checked in Hwh.
  unfold RepValidator.calculatePayroll. rewrite <-Hemps, Hemp, Hwh.
  do 2 f_equal.
  - unfold RepValidator.isTrained, RepValidator.points. simpl. by rewrite <-Hsp.
  - unfold RepValidator.overtimeRate. by rewrite <-Horg.
Qed.

(** An invariant that speaks about the elements already visited. *)
Lemma foldM_prefix_invariant {A B} (P : list A → B → Prop) (f : B → A → option B)
    (l : list A) (b b' : B) :
  P [] b →
  (∀ pre x b b1, P pre b → f b x = Some b1 → P (pre ++ [x]) b1) →
  foldM f b l = Some b' → P l b'.
Proof.
  intros Hb Hstep.
  cut (∀ pre b, P pre b → foldM f b l = Some b' → P (pre ++ l) b').
  { intros Hgen. apply (Hgen [] b Hb). }
  induction l as [|x l IH]; intros pre b0 Hpre Hfold; simpl in Hfold.
  - inversion Hfold; subst. by rewrite app_nil_r.
  - destruct (f b0 x) as [b1|] eqn:Hf; [|done].
    rewrite cons_middle, app_assoc. apply (IH _ b1); [|done]. by eapply Hstep.
Qed.

Lemma scanShift_total dayId day sc shift :
  is_Some (RepValidator.scanShift dayId day sc shift).
Proof.
  destruct (RepValidator.employees (RepValidator.scanThis sc)
              !! RepValidator.Shift.employeeId shift) as [emp|] eqn:Hemp.
  - rewrite (scanShift_known _ _ _ _ emp) by done. by eexists.
  - rewrite scanShift_unknown by done. by eexists.
Qed.

(** The first loop never throws. *)
Lemma scanDay_total this dayId day shifts :
  is_Some (RepValidator.scanDay this dayId day shifts).
Proof.
  unfold RepValidator.scanDay.
  destruct (foldM_total (λ _, True) (RepValidator.scanShift dayId day) shifts
              (RepValidator.mkScan this ∅ ∅ 0)) as (sc & Hsc & _); [|done|by eexists].
  intros sc shift _ _. destruct (scanShift_total dayId day sc shift) as [sc' Hsc'].
  by exists sc'.
Qed.

Lemma scanShift_sameModel dayId day sc shift sc' :
  RepValidator.scanShift dayId day sc shift = Some sc' →
  sameModel (RepValidator.scanThis sc) (RepValidator.scanThis sc')
  ∧ errorsGrow (RepValidator.scanThis sc) (RepValidator.scanThis sc').
Proof.
  destruct (RepValidator.employees (RepValidator.scanThis sc)
              !! RepValidator.Shift.employeeId shift) as [emp|] eqn:Hemp.
  - rewrite (scanShift_known _ _ _ _ emp) by done. intros [= <-]. simpl.
    split.
    + eapply sameModel_trans; [apply (validityChecks_sameModel dayId day emp)|].
      by repeat split.
    + eapply errorsGrow_trans; [apply (validityChecks_errorsGrow dayId day emp)|].
      by repeat split.
  - rewrite scanShift_unknown by done. intros [= <-]. simpl.
    split; [apply logError_sameModel|apply logError_errorsGrow].
Qed.

Lemma scanDay_sameModel this dayId day shifts sc :
  RepValidator.scanDay this dayId day shifts = Some sc →
  sameModel this (RepValidator.scanThis sc) ∧ errorsGrow this (RepValidator.scanThis sc).
Proof.
  unfold RepValidator.scanDay.
  apply (foldM_invariant
           (λ sc, sameModel this (RepValidator.scanThis sc)
                  ∧ errorsGrow this (RepValidator.scanThis sc))).
  - intros sc0 shift sc1 _ [Hs Hg] Hstep.
    apply scanShift_sameModel in Hstep as [Hs' Hg'].
    split; [by eapply sameModel_trans|by eapply errorsGrow_trans].
  - split; [apply sameModel_refl|apply errorsGrow_refl].
Qed.

Lemma scanDay_counts this dayId day shifts sc h skill :
  inherited skill = false →
  RepValidator.scanDay this dayId day shifts = Some sc →
  RepValidator.hourCoverage (RepValidator.coverageMap sc) h skill
  = (Z.of_nat (length (filter (counted this true h skill) shifts)),
     Z.of_nat (length (filter (counted this false h skill) shifts))).
Proof.
  intros Hord. unfold RepValidator.scanDay.
  apply (foldM_prefix_invariant
           (λ pre sc, sameModel this (RepValidator.scanThis sc)
              ∧ RepValidator.hourCoverage (RepValidator.coverageMap sc) h skill
                = (Z.of_nat (length (filter (counted this true h skill) pre)),
                   Z.of_nat (length (filter (counted this false h skill) pre))))
           _ shifts _ sc).
  - split; [apply sameModel_refl|]. unfold RepValidator.hourCoverage. by rewrite Hord.
  - intros pre s sc0 sc1 [Hsame Hcnt] Hstep.
    split.
    { apply scanShift_sameModel in Hstep as [Hs _]. by eapply sameModel_trans. }
    rewrite !filter_app, !length_app, !Nat2Z.inj_add.
    assert (RepValidator.employees (RepValidator.scanThis sc0) = RepValidator.employees this)
      as Hemps by (symmetry; apply Hsame).
    rewrite !filter_cons, !filter_nil.
    destruct (RepValidator.employees this !! RepValidator.Shift.employeeId s) as [emp|] eqn:Hemp.
    + rewrite (scanShift_known _ _ _ _ emp) in Hstep by (by rewrite Hemps).
      injection Hstep as <-. simpl. rewrite countHour_hours, Hcnt. simpl.
      assert (∀ T (x y : T),
                (if decide (worksOn h skill s ∧ inherited skill = false) then x else y)
                = if decide (worksOn h skill s) then x else y) as ->
        by (intros; repeat case_decide; try done; tauto).
      rewrite (isTrained_sameModel this) by done.
      assert (is_Some (RepValidator.employees this !! RepValidator.Shift.employeeId s))
        as Hsome by (by rewrite Hemp).
      destruct (decide (worksOn h skill s)) as [Hw|Hw].
      * assert (RepValidator.Shift.skill s = skill) as Hsk by apply Hw. rewrite Hsk.
        destruct (RepValidator.isTrained this (RepValidator.Shift.employeeId s) skill) eqn:Ht;
          destruct (decide (counted this true h skill s)) as [C1|C1];
          destruct (decide (counted this false h skill s)) as [C2|C2];
          simpl; try (f_equal; lia); exfalso; unfold counted in *;
          rewrite ?Ht in *; intuition congruence.
      * destruct (decide (counted this true h skill s)) as [C1|C1];
          destruct (decide (counted this false h skill s)) as [C2|C2];
          simpl; try (f_equal; lia); exfalso; unfold counted in *; intuition congruence.
    + rewrite scanShift_unknown in Hstep by (by rewrite Hemps).
      injection Hstep as <-. simpl. rewrite Hcnt.
      destruct (decide (counted this true h skill s)) as [C1|C1];
        destruct (decide (counted this false h skill s)) as [C2|C2];
        simpl; try (f_equal; lia); exfalso; unfold counted in *; rewrite Hemp in *;
        destruct C1 as [[? ?] _] || destruct C2 as [[? ?] _]; done.
Qed.

Lemma filter_ext_in {A} (P Q : A → Prop) `{∀ x, Decision (P x)} `{∀ x, Decision (Q x)}
    (l : list A) :
  (∀ x, x ∈ l → P x ↔ Q x) → filter P l = filter Q l.
Proof.
  induction l as [|x l IH]; intros Hiff; [done|].
  rewrite !filter_cons. rewrite IH by (intros y Hy; apply Hiff; by right).
  destruct (decide (P x)) as [HP|HP], (decide (Q x)) as [HQ|HQ]; try done;
    exfalso; apply (Hiff x) in HP || apply (Hiff x) in HQ; done || by left.
Qed.

Lemma hourlyCoverage_Coverage (t u : nat) :
  RepValidator.hourlyCoverage (Z.of_nat t) (Z.of_nat u) = Coverage t u.
Proof.
  unfold RepValidator.hourlyCoverage, Coverage. repeat case_decide; try done; lia.
Qed.

Lemma RepValidator_coverage_spec this dayId day shifts sc h skill :
  inherited skill = false →
  RepValidator.scanDay this dayId day shifts = Some sc →
  (∀ s, s ∈ shifts → is_Some (RepValidator.employees this !! RepValidator.Shift.employeeId s)) →
  NoOverlap shifts →
  RepValidator.coverageAt (RepValidator.coverageMap sc) h skill
  = Coverage
      (size (workers (λ e, RepValidator.isTrained this e skill) true h skill shifts))
      (size (workers (λ e, RepValidator.isTrained this e skill) false h skill shifts)).
Proof.
  intros Hord Hscan Hknown Hno. unfold RepValidator.coverageAt.
  rewrite (scanDay_counts this dayId day shifts sc) by done. simpl.
  rewrite hourlyCoverage_Coverage, !workers_size by done.
  f_equal; f_equal; apply filter_ext_in; intros s Hs; unfold counted; simpl;
    specialize (Hknown s Hs); tauto.
Qed.

(** C3 fails on [validateAndScore]: the hour worked on day 7 is still in
    the weekly counter when day 8 is processed (nothing is reset before
    day 8), so the hour of day 8 is billed at the overtime rate: the
    payroll of the two days is 10 + 5 instead of 10 + 10. *)
Lemma weekly_blocks_counterexample :
  ∃ st7 st8,
    RepValidator.scoreDay ScenarioWeek.validator 7 = Some st7
    ∧ RepValidator.weeklyHours (RepValidator.weeklyReset st7 8) !! 1 = Some 1
    ∧ RepValidator.scoreDay st7 8 = Some st8
    ∧ RepValidator.totalPayroll st8 = 15.
Proof.
  eexists _, _. split; [vm_compute; reflexivity|].
  split; [vm_compute; reflexivity|].
  split; [vm_compute; reflexivity|].
  vm_compute. reflexivity.
Qed.

(** C6. Scenario A, whatever the learning and teaching rates of the
    employee: both scorers find coverage 1 in both hours, capacity 1,
    payroll 20 and the day profit 1000 * 1 - 20 - 100 = 880, which is also
    the total score. *)
Theorem scenario_A (learningRate teachingRate : Z) :
  let solver := ScenarioA.solver learningRate teachingRate in
  let validator := ScenarioA.validator learningRate teachingRate in
  (∃ sim score,
     Solver.simulateHours solver ScenarioA.day [ScenarioA.shift] (Solver.initialRun solver)
     = Some sim
     ∧ Solver.skillCoverage (Solver.runEmployees (Solver.initialRun solver))
         (filter (λ s, Solver.isActive 8 s) [ScenarioA.shift]) "Register" = Some 1%Q
     ∧ Solver.skillCoverage (Solver.runEmployees (Solver.initialRun solver))
         (filter (λ s, Solver.isActive 9 s) [ScenarioA.shift]) "Register" = Some 1%Q
     ∧ (Solver.capacityPercent ScenarioA.day (Solver.achievedSkillHours sim) == 1)%Q
     ∧ Solver.dailyPayroll sim = 20
     ∧ (Solver.dailyProfit solver ScenarioA.day sim == 880)%Q
     ∧ Solver.calculateScore solver ScenarioA.schedule = Some score
     ∧ (score == 880)%Q)
  ∧ (∃ sc metrics v v' profit,
       RepValidator.scanDay validator 1 ScenarioA.vDay [ScenarioA.vShift] = Some sc
       ∧ RepValidator.coverageAt (RepValidator.coverageMap sc) 8 "Register" = 1%Q
       ∧ RepValidator.coverageAt (RepValidator.coverageMap sc) 9 "Register" = 1%Q
       ∧ RepValidator.calculateCapacity validator 1 [ScenarioA.vShift] = Some (metrics, v)
       ∧ (RepValidator.capacityD metrics == 1)%Q
       ∧ RepValidator.metricsPayrollD metrics = 20
       ∧ RepValidator.validateAndScore validator
         = Some (v', Some (RepValidator.ValidSchedule profit 20 1000 100))
       ∧ (profit == 880)%Q).
Proof.
  intros solver validator. subst solver validator.
  destruct teachingRate as [|p|p].
  all: split;
    [ eexists _, _;
      split; [vm_compute; reflexivity|];
      split; [vm_compute; reflexivity|];
      split; [vm_compute; reflexivity|];
      split; [reflexivity|];
      split; [reflexivity|];
      split; [reflexivity|];
      split; [vm_compute; reflexivity|];
      reflexivity
    | eexists _, _, _, _, _;
      split; [vm_compute; reflexivity|];
      split; [vm_compute; reflexivity|];
      split; [vm_compute; reflexivity|];
      split; [vm_compute; reflexivity|];
      split; [reflexivity|];
      split; [reflexivity|];
      split; [vm_compute; reflexivity|];
      reflexivity ].
Qed.

(** ** Training in [Solver.calculateScore] *)

Lemma Solver_employees_get_id this empId employee :
  Solver.employees_get this empId = Some employee → Solver.Employee.id employee = empId.
Proof.
  unfold Solver.employees_get. intros Hfind.
  apply find_some in Hfind as [_ Hid]. by apply bool_decide_eq_true in Hid.
Qed.

Lemma max0_nonneg (l : list Z) : 0 ≤ foldr Z.max 0 l.
Proof. induction l as [|x l IH]; simpl; lia. Qed.

Lemma max0_app (l1 l2 : list Z) :
  foldr Z.max 0 (l1 ++ l2) = Z.max (foldr Z.max 0 l1) (foldr Z.max 0 l2).
Proof.
  induction l1 as [|x l1 IH]; simpl.
  - pose proof (max0_nonneg l2). lia.
  - rewrite IH. lia.
Qed.

Lemma teacherEntry_multiplier entry rates :
  teacherEntry entry (foldr Z.max 0 rates) →
  Solver.multiplierOf entry = teacherBonus rates
  ∧ default 0 entry = foldr Z.max 0 rates.
Proof.
  unfold teacherBonus. intros [[-> Hm]|[-> Hm]]; simpl.
  - rewrite Hm. by rewrite decide_False by lia.
  - by rewrite !decide_True by done.
Qed.

Lemma classify_step this known pre acc s :
  is_Some (known !! Solver.Shift.employeeId s) →
  is_Some (Solver.employees_get this (Solver.Shift.employeeId s)) →
  classified this known pre acc →
  ∃ acc', Solver.classify this known acc s = Some acc'
          ∧ classified this known (pre ++ [s]) acc'.
Proof.
  intros [ks Hks] [employee Hemp] [HL HT]. destruct acc as [T L]. simpl in *.
  unfold Solver.classify. rewrite Hks.
  assert (Solver_trained known (Solver.Shift.skill s) (Solver.Shift.employeeId s)
          = bool_decide (Solver.Shift.skill s ∈ ks)) as Htr.
  { unfold Solver_trained. by rewrite Hks. }
  assert (Solver_teachingRate this (Solver.Shift.employeeId s)
          = Solver.Employee.teachingRate employee) as Hrate.
  { unfold Solver_teachingRate. by rewrite Hemp. }
  assert (∀ skill, skill ≠ Solver.Shift.skill s →
            trainedRates this known skill (pre ++ [s]) = trainedRates this known skill pre)
    as Hother.
  { intros skill Hne. unfold trainedRates. rewrite filter_app, filter_cons, filter_nil.
    rewrite decide_False by (intros [? _]; done). by rewrite app_nil_r. }
  case_decide as Hin.
  - (* a trained worker: a potential teacher *)
    rewrite Hemp.
    assert (trainedRates this known (Solver.Shift.skill s) (pre ++ [s])
            = trainedRates this known (Solver.Shift.skill s) pre
              ++ [Solver.Employee.teachingRate employee]) as Hsame.
    { unfold trainedRates. rewrite filter_app, filter_cons, filter_nil.
      rewrite decide_True by (split; [done|]; rewrite Htr; by apply bool_decide_eq_true).
      by rewrite fmap_app, fmap_cons, Hrate. }
    assert (untrainedShifts known (pre ++ [s]) = untrainedShifts known pre) as HL'.
    { unfold untrainedShifts. rewrite filter_app, filter_cons, filter_nil.
      rewrite decide_False; [by rewrite app_nil_r|].
      rewrite Htr. rewrite bool_decide_eq_false. tauto. }
    pose proof (HT (Solver.Shift.skill s)) as Hentry.
    apply teacherEntry_multiplier in Hentry as [_ Hcur]. rewrite Hcur.
    set (m := foldr Z.max 0 (trainedRates this known (Solver.Shift.skill s) pre)) in *.
    pose proof (max0_nonneg (trainedRates this known (Solver.Shift.skill s) pre)) as Hm0.
    fold m in Hm0.
    destruct (decide (m < Solver.Employee.teachingRate employee)) as [Hgt|Hgt];
      eexists; (split; [reflexivity|]); (split; simpl; [by rewrite HL'|]).
    + intros skill. destruct (decide (skill = Solver.Shift.skill s)) as [->|Hne].
      * rewrite lookup_insert_eq, Hsame, max0_app. simpl. fold m. right. split; [f_equal|]; lia.
      * rewrite lookup_insert_ne by done. rewrite Hother by done. apply HT.
    + intros skill. destruct (decide (skill = Solver.Shift.skill s)) as [->|Hne].
      * rewrite Hsame, max0_app. simpl. fold m.
        replace (m `max` (Solver.Employee.teachingRate employee `max` 0)) with m by lia.
        apply HT.
      * rewrite Hother by done. apply HT.
  - (* a learner *)
    eexists. split; [reflexivity|]. split; simpl.
    + unfold untrainedShifts. rewrite filter_app, filter_cons, filter_nil.
      rewrite decide_True; [by rewrite HL|].
      rewrite Htr. by rewrite bool_decide_eq_false.
    + intros skill. unfold trainedRates. rewrite filter_app, filter_cons, filter_nil.
      rewrite decide_False; [rewrite app_nil_r; apply HT|].
      intros [Hsk Ht]. rewrite <-Hsk, Htr in Ht. apply bool_decide_eq_true in Ht. done.
Qed.

Lemma classify_fold this known active pre acc :
  Forall (λ s, is_Some (known !! Solver.Shift.employeeId s)
               ∧ is_Some (Solver.employees_get this (Solver.Shift.employeeId s))) active →
  classified this known pre acc →
  ∃ acc', foldM (Solver.classify this known) acc active = Some acc'
          ∧ classified this known (pre ++ active) acc'.
Proof.
  revert pre acc. induction active as [|s l IH]; intros pre acc Hok Hinv; simpl.
  - exists acc. by rewrite app_nil_r.
  - apply Forall_cons in Hok as [[Hk He] Hok].
    destruct (classify_step this known pre acc s Hk He Hinv) as (acc1 & -> & Hinv1).
    rewrite cons_middle, app_assoc. by apply IH.
Qed.

(** ** Insertion-ordered maps *)

Lemma Map_get_set_eq {K V} `{EqDecision K} (k : K) (v : V) (m : list (K * V)) :
  Map_get k (Map_set k v m) = Some v.
Proof.
  unfold Map_get, Map_set. case_decide as Hin.
  - induction m as [|[k' v'] m IH]; [by apply elem_of_nil in Hin|].
    simpl. destruct (decide (k' = k)) as [->|Hne]; simpl.
    + by rewrite bool_decide_eq_true_2.
    + rewrite bool_decide_eq_false_2 by done. apply IH.
      simpl in Hin. apply elem_of_cons in Hin as [?|?]; [congruence|done].
  - induction m as [|[k' v'] m IH]; simpl.
    + by rewrite bool_decide_eq_true_2.
    + simpl in Hin. apply not_elem_of_cons in Hin as [Hne Hin].
      rewrite bool_decide_eq_false_2 by done. by apply IH.
Qed.

Lemma Map_get_set_ne {K V} `{EqDecision K} (k k' : K) (v : V) (m : list (K * V)) :
  k' ≠ k → Map_get k' (Map_set k v m) = Map_get k' m.
Proof.
  intros Hne. unfold Map_get, Map_set. case_decide as Hin; clear Hin.
  - induction m as [|[k1 v1] m IH]; [done|]. simpl.
    destruct (decide (k1 = k)) as [->|Hne1]; simpl.
    + rewrite !bool_decide_eq_false_2 by done. apply IH.
    + destruct (decide (k1 = k')) as [->|Hne2].
      * by rewrite !bool_decide_eq_true_2.
      * rewrite !bool_decide_eq_false_2 by done. apply IH.
  - induction m as [|[k1 v1] m IH]; simpl.
    + by rewrite bool_decide_eq_false_2.
    + destruct (decide (k1 = k')) as [->|Hne2].
      * by rewrite !bool_decide_eq_true_2.
      * rewrite !bool_decide_eq_false_2 by done. apply IH.
Qed.

Lemma Map_get_elem_of {K V} `{EqDecision K} (k : K) (v : V) (m : list (K * V)) :
  Map_get k m = Some v → (k, v) ∈ m.
Proof.
  unfold Map_get. intros Hget.
  destruct (List.find _ m) as [[k' v']|] eqn:Hfind; [|done].
  apply find_some in Hfind as [Hin Hk]. apply bool_decide_eq_true in Hk.
  simpl in *. injection Hget as <-. subst. by apply list_elem_of_In.
Qed.

(** ** The learners of an hour *)

Lemma teach_learner this T sim ls learner st :
  Solver.employees_get this (Solver.Shift.employeeId ls) = Some learner →
  Solver.employeeStates sim !! Solver.Shift.employeeId ls = Some st →
  is_Some (Solver.simEmployees sim !! Solver.Shift.employeeId ls) →
  Solver_trained (Solver.simEmployees sim) (Solver.Shift.skill ls)
                 (Solver.Shift.employeeId ls) = false →
  let st' := Solver.EmployeeState.addTrainingPoints st (Solver.Shift.skill ls)
               (Solver.Employee.learningRate learner
                * Solver.multiplierOf (T !! Solver.Shift.skill ls)) in
  Solver.teach this T sim ls
  = Some (Solver.mkSim (Solver.simEmployees sim)
            (<[Solver.Shift.employeeId ls := st']> (Solver.employeeStates sim))
            (if Number_ge (Solver.EmployeeState.getTrainingPoints st' (Solver.Shift.skill ls)) 1000
             then Map_set (Solver.Shift.employeeId ls) (Solver.Shift.skill ls)
                          (Solver.newSkillsLearned sim)
             else Solver.newSkillsLearned sim)
            (Solver.dailyPayroll sim) (Solver.achievedSkillHours sim)).
Proof.
  intros Hemp Hst Hknown Huntrained st'. unfold Solver.teach.
  rewrite Hemp, Hst. rewrite (Solver_employees_get_id _ _ _ Hemp).
  rewrite (Solver_knows_trained _ _ _ Hknown), Huntrained. done.
Qed.

Lemma getTrainingPoints_add st skill points :
  Solver.EmployeeState.getTrainingPoints
    (Solver.EmployeeState.addTrainingPoints st skill points) skill
  = (λ m, m + points) <$> Solver.EmployeeState.getTrainingPoints st skill.
Proof.
  unfold Solver.EmployeeState.getTrainingPoints, Solver.EmployeeState.addTrainingPoints.
  simpl. apply Object_number_add.
Qed.

Lemma teach_fold this T L sim :
  NoDup (Solver.Shift.employeeId <$> L) →
  Forall (learnerReady this sim) L →
  ∃ sim', foldM (Solver.teach this T) sim L = Some sim' ∧ taught this T L sim sim'.
Proof.
  revert sim. induction L as [|s L IH]; intros sim Hnd Hready; simpl.
  - exists sim. split; [done|]. split_and!; try done. intros s Hs. by apply elem_of_nil in Hs.
  - rewrite fmap_cons in Hnd. apply NoDup_cons in Hnd as [Hnotin Hnd].
    apply Forall_cons in Hready as [(Hemp & Hst & Hk & Hu) Hready].
    destruct Hemp as [learner Hemp]. destruct Hst as [st Hst].
    rewrite (teach_learner this T sim s learner st) by done.
    set (e := Solver.Shift.employeeId s) in *. set (sk := Solver.Shift.skill s) in *.
    set (st' := Solver.EmployeeState.addTrainingPoints st sk _).
    set (sim1 := Solver.mkSim _ _ _ _ _).
    assert (Forall (learnerReady this sim1) L) as Hready1.
    { rewrite Forall_forall in Hready. apply Forall_forall. intros s' Hs'.
      destruct (Hready s' Hs') as (H1 & H2 & H3 & H4).
      assert (Solver.Shift.employeeId s' ≠ e) as Hne.
      { intros Heq. apply Hnotin. rewrite <-Heq. by apply list_elem_of_fmap_2. }
      split_and!; try done. unfold sim1. simpl. by rewrite lookup_insert_ne. }
    destruct (IH sim1 Hnd Hready1) as (sim' & Hfold & Hk' & Hp' & Ha' & HL & Hout & Hdom).
    exists sim'. split; [done|].
    destruct (Hout e Hnotin) as [Hste Hmape].
    assert (Solver.employeeStates sim' !! e = Some st') as Hst'.
    { rewrite Hste. unfold sim1. simpl. by rewrite lookup_insert_eq. }
    assert (inherited sk = false →
            Solver_points (Solver.employeeStates sim') e sk
            = Solver_points (Solver.employeeStates sim) e sk
              + Solver_learningRate this e * Solver.multiplierOf (T !! sk)) as Hpts.
    { intros Hord. unfold Solver_points, Solver_learningRate. rewrite Hst', Hst, Hemp. simpl.
      unfold st'. rewrite getTrainingPoints_add.
      unfold Solver.EmployeeState.getTrainingPoints.
      by rewrite Object_number_ordinary. }
    split_and!; try done.
    + intros s' Hs'. apply elem_of_cons in Hs' as [->|Hs'].
      * fold e sk. split; [done|]. intros Hge. rewrite Hmape. unfold sim1. simpl.
        rewrite Number_ge_default by lia.
        rewrite bool_decide_eq_true_2; [apply Map_get_set_eq|].
        unfold Solver_points in Hge. by rewrite Hst' in Hge.
      * destruct (HL s' Hs') as [Hps Hstg]. split; [|done]. intros Hord. rewrite (Hps Hord).
        assert (Solver.Shift.employeeId s' ≠ e) as Hne.
        { intros Heq. apply Hnotin. rewrite <-Heq. by apply list_elem_of_fmap_2. }
        f_equal. unfold Solver_points, sim1. simpl. by rewrite lookup_insert_ne.
    + intros e' He'. rewrite fmap_cons in He'. apply not_elem_of_cons in He' as [Hne He'].
      destruct (Hout e' He') as [-> ->]. unfold sim1. simpl.
      rewrite lookup_insert_ne by done. split; [done|].
      destruct (Number_ge _ _); [by apply Map_get_set_ne|done].
    + intros e'. rewrite <-Hdom. unfold sim1. simpl.
      destruct (decide (e' = e)) as [->|Hne].
      * rewrite lookup_insert_eq, Hst. split; by eexists.
      * by rewrite lookup_insert_ne.
Qed.

(** ** The steps of an hour *)

Lemma promote_fold (pending : list (Z * string)) (known : gmap Z (gset string)) :
  (∀ e sk, (e, sk) ∈ pending → is_Some (known !! e)) →
  ∃ known',
    foldM (λ (known : gmap Z (gset string)) '(empId, skill),
             match known !! empId with
             | Some ks => Some (<[empId := ks ∪ {[skill]}]> known)
             | None => None
             end) known pending = Some known'
    ∧ (∀ e, is_Some (known' !! e) ↔ is_Some (known !! e))
    ∧ (∀ e sk, sk ∈ default ∅ (known' !! e)
               ↔ sk ∈ default ∅ (known !! e) ∨ (e, sk) ∈ pending).
Proof.
  revert known. induction pending as [|[e0 sk0] pending IH]; intros known Hdom; simpl.
  - exists known. split; [done|]. split; [done|]. intros e sk.
    rewrite elem_of_nil. tauto.
  - destruct (Hdom e0 sk0) as [ks Hks]; [by left|]. rewrite Hks.
    destruct (IH (<[e0 := ks ∪ {[sk0]}]> known)) as (known' & Hfold & Hd & Hin).
    { intros e sk Hp. destruct (decide (e = e0)) as [->|Hne].
      - rewrite lookup_insert_eq. by eexists.
      - rewrite lookup_insert_ne by done. apply (Hdom e sk). by right. }
    exists known'. split; [done|]. split.
    + intros e. rewrite Hd. destruct (decide (e = e0)) as [->|Hne].
      * rewrite lookup_insert_eq, Hks. split; by eexists.
      * by rewrite lookup_insert_ne.
    + intros e sk. rewrite Hin, elem_of_cons.
      destruct (decide (e = e0)) as [->|Hne].
      * rewrite lookup_insert_eq, Hks. simpl. rewrite elem_of_union, elem_of_singleton.
        split; [intros [[?| ->]|?]|intros [?|[ [= ->] |?]]]; auto.
      * rewrite lookup_insert_ne by done. split; [intros [?|?]|intros [?|[ [= -> ->] |?]]]; auto.
        done.
Qed.

Lemma promote_spec this sim :
  Solver_wf this sim →
  ∃ sim0,
    Solver.promote sim = Some sim0
    ∧ Solver_wf this sim0
    ∧ Solver.employeeStates sim0 = Solver.employeeStates sim
    ∧ Solver.newSkillsLearned sim0 = []
    ∧ Solver.dailyPayroll sim0 = Solver.dailyPayroll sim
    ∧ Solver.achievedSkillHours sim0 = Solver.achievedSkillHours sim
    ∧ (∀ e sk, Solver_trained (Solver.simEmployees sim0) sk e = true
               ↔ Solver_trained (Solver.simEmployees sim) sk e = true
                 ∨ (e, sk) ∈ Solver.newSkillsLearned sim).
Proof.
  intros [Hwf1 Hwf2]. unfold Solver.promote.
  destruct (promote_fold (Solver.newSkillsLearned sim) (Solver.simEmployees sim) Hwf2)
    as (known' & -> & Hd & Hin).
  eexists. split; [done|]. simpl. split_and!; try done.
  - split; simpl.
    + intros e He. destruct (Hwf1 e He) as [H1 H2]. split; [by apply Hd|done].
    + intros e sk Hp. by apply elem_of_nil in Hp.
  - intros e sk. unfold Solver_trained. rewrite !bool_decide_eq_true. apply Hin.
Qed.

Lemma capacityStep_spec this requiredSkills shifts h sim :
  Solver_wf this sim → Solver_staffed this shifts → NoOverlap shifts →
  ∃ achieved,
    Solver.capacityStep requiredSkills (filter (λ s, Solver.isActive h s) shifts) sim
    = Some (Solver.mkSim (Solver.simEmployees sim) (Solver.employeeStates sim)
              (Solver.newSkillsLearned sim) (Solver.dailyPayroll sim) achieved).
Proof.
  intros [Hwf _] Hstaffed Hno. unfold Solver.capacityStep.
  destruct (foldM_total (λ _, True)
              (λ (achieved : Q) skill,
                 match Solver.skillCoverage (Solver.simEmployees sim)
                         (filter (λ s, Solver.isActive h s) shifts) skill with
                 | Some c => Some (achieved + c)%Q
                 | None => None
                 end) requiredSkills (Solver.achievedSkillHours sim))
    as (achieved & -> & _); [|done|by eexists].
  intros achieved skill _ _. rewrite Solver_skillCoverage_spec; [by eexists|..|done].
  intros s Hs. unfold Solver_staffed in Hstaffed. rewrite Forall_forall in Hstaffed.
  by apply Hwf, Hstaffed.
Qed.

Lemma elem_of_Set_of (l : list Z) (x : Z) : x ∈ Set_of l ↔ x ∈ l.
Proof.
  unfold Set_of.
  cut (∀ acc, x ∈ fold_left (λ acc x, if decide (x ∈ acc) then acc else acc ++ [x]) l acc
              ↔ x ∈ acc ∨ x ∈ l).
  { intros Hgen. rewrite Hgen, elem_of_nil. tauto. }
  induction l as [|y l IH]; intros acc; simpl.
  - rewrite elem_of_nil. tauto.
  - rewrite IH, elem_of_cons. case_decide as Hy.
    + split; [tauto|]. intros [?|[->|?]]; auto.
    + rewrite elem_of_app, list_elem_of_singleton. tauto.
Qed.

Lemma payrollStep_spec this dayId (ids : list Z) sim :
  (∀ e, e ∈ ids → is_Some (Solver.employees_get this e)
                  ∧ is_Some (Solver.employeeStates sim !! e)) →
  ∃ sim', Solver.payrollStep this dayId ids sim = Some sim' ∧ paid sim sim'.
Proof.
  unfold Solver.payrollStep. intros Hids.
  destruct (foldM_total
              (λ sim', paid sim sim') (Solver.payEmployee this dayId) ids sim)
    as (sim' & Hfold & Hpaid); [| |by exists sim'].
  - intros sim1 e He (Hk & Hn & Ha & Hp & Hd).
    destruct (Hids e He) as [[employee Hemp] Hst].
    apply Hd in Hst as [st Hst].
    destruct (Solver_payEmployee_spec this dayId sim1 e employee st Hemp Hst)
      as (sim2 & Hpay & _ & Hstates & _ & Hk2 & Hn2 & Ha2).
    exists sim2. split; [done|]. split_and!; try congruence.
    + intros e' sk. rewrite <-Hp. unfold Solver_points. rewrite Hstates.
      destruct (decide (e' = e)) as [->|Hne].
      * by rewrite lookup_insert_eq, Hst.
      * by rewrite lookup_insert_ne.
    + intros e'. rewrite <-Hd, Hstates. destruct (decide (e' = e)) as [->|Hne].
      * rewrite lookup_insert_eq, Hst. split; by eexists.
      * by rewrite lookup_insert_ne.
  - by split_and!.
Qed.

Lemma elem_of_Map_set {K V} `{EqDecision K} (k k' : K) (v v' : V) (m : list (K * V)) :
  (k', v') ∈ Map_set k v m → (k', v') ∈ m ∨ (k' = k ∧ v' = v).
Proof.
  unfold Map_set. case_decide as Hin.
  - intros Hel. apply list_elem_of_fmap in Hel as ([k1 v1] & Heq & Hel).
    simpl in Heq. case_decide as Hk; [|left; congruence].
    right. by injection Heq as -> ->.
  - rewrite elem_of_app, list_elem_of_singleton. intros [?|[= -> ->]]; auto.
Qed.

Lemma teach_staged this T sim ls sim' e sk :
  Solver.teach this T sim ls = Some sim' →
  (e, sk) ∈ Solver.newSkillsLearned sim' →
  (e, sk) ∈ Solver.newSkillsLearned sim ∨ is_Some (Solver.employees_get this e).
Proof.
  unfold Solver.teach.
  destruct (Solver.employees_get this (Solver.Shift.employeeId ls)) as [learner|] eqn:Hemp;
    [|done].
  destruct (Solver.employeeStates sim !! Solver.Shift.employeeId ls) as [st|]; [|done].
  destruct (Solver.knows _ _ _) as [[|]|]; [by intros [= <-]; left| |done].
  intros [= <-]. simpl. destruct (Number_ge _ _); [|by left].
  intros Hel. apply elem_of_Map_set in Hel as [?|[-> _]]; [by left|right].
  rewrite (Solver_employees_get_id _ _ _ Hemp). by eexists.
Qed.

Lemma trainedRates_active this known skill h shifts :
  trainedRates this known skill (filter (λ s, Solver.isActive h s) shifts)
  = teacherRates (Solver_teachingRate this) (Solver_trained known skill) h skill shifts.
Proof.
  unfold trainedRates, teacherRates. f_equal. rewrite list_filter_filter.
  apply list_filter_iff. intros s. unfold worksOn. rewrite <-Solver_isActive_activeAt.
  simpl. rewrite Is_true_true. tauto.
Qed.

(** One hour of the simulation, on the shifts of a validated schedule: it
    does not throw, the known skills it leaves are those the promotions at
    its start produced, and every untrained worker active in the hour
    gains the learning rate times the teaching bonus, the promotion being
    staged when the points reach 1000. *)
Lemma simulateHour_spec this day shifts sim h :
  Solver_wf this sim → Solver_staffed this shifts → NoOverlap shifts →
  ∃ sim0 sim1,
    Solver.promote sim = Some sim0
    ∧ Solver.simulateHour this day shifts sim h = Some sim1
    ∧ Solver_wf this sim1
    ∧ Solver.simEmployees sim1 = Solver.simEmployees sim0
    ∧ (∀ e sk, Solver_trained (Solver.simEmployees sim0) sk e = true
               ↔ Solver_trained (Solver.simEmployees sim) sk e = true
                 ∨ (e, sk) ∈ Solver.newSkillsLearned sim)
    ∧ (∀ s, s ∈ shifts → activeAt h s →
         Solver_trained (Solver.simEmployees sim0) (Solver.Shift.skill s)
                        (Solver.Shift.employeeId s) = false →
         (inherited (Solver.Shift.skill s) = false →
          Solver_points (Solver.employeeStates sim1) (Solver.Shift.employeeId s)
                        (Solver.Shift.skill s)
          = Solver_points (Solver.employeeStates sim) (Solver.Shift.employeeId s)
                          (Solver.Shift.skill s)
            + Solver_learningRate this (Solver.Shift.employeeId s)
              * teacherBonus
                  (teacherRates (Solver_teachingRate this)
                     (Solver_trained (Solver.simEmployees sim0) (Solver.Shift.skill s))
                     h (Solver.Shift.skill s) shifts))
         ∧ (1000 ≤ Solver_points (Solver.employeeStates sim1) (Solver.Shift.employeeId s)
                     (Solver.Shift.skill s) →
            Map_get (Solver.Shift.employeeId s) (Solver.newSkillsLearned sim1)
            = Some (Solver.Shift.skill s)))
    ∧ (∃ simA,
         Solver.capacityStep (Solver.Day.requiredSkills day)
           (filter (λ s, Solver.isActive h s) shifts) sim0 = Some simA
         ∧ Solver.achievedSkillHours sim1 = Solver.achievedSkillHours simA).
Proof.
  intros Hwf Hstaffed Hno.
  destruct (promote_spec this sim Hwf) as (sim0 & Hprom & Hwf0 & Hst0 & Hnl0 & Hp0 & Ha0 & Htr0).
  exists sim0. unfold Solver.simulateHour. rewrite Hprom.
  set (active := filter (λ s, Solver.isActive h s) shifts).
  destruct (capacityStep_spec this (Solver.Day.requiredSkills day) shifts h sim0
              Hwf0 Hstaffed Hno) as (achieved & Hcap).
  fold active in Hcap. rewrite Hcap.
  set (simA := Solver.mkSim _ _ _ _ achieved).
  pose proof Hstaffed as Hstaffed'. unfold Solver_staffed in Hstaffed'.
  rewrite Forall_forall in Hstaffed'.
  assert (∀ s, s ∈ active → s ∈ shifts ∧ activeAt h s) as Hactive.
  { intros s Hs. unfold active in Hs. apply list_elem_of_filter in Hs as [Ha Hs].
    split; [done|]. apply Solver_isActive_activeAt. by apply Is_true_true. }
  destruct (payrollStep_spec this (Solver.Day.id day)
              (Set_of (Solver.Shift.employeeId <$> active)) simA)
    as (simB & Hpay & Hk & Hn & Hach & Hpts & Hdom).
  { intros e He. apply elem_of_Set_of, list_elem_of_fmap in He as (s & -> & Hs).
    destruct (Hactive s Hs) as [Hs' _]. split; [by apply Hstaffed'|].
    by apply Hwf0, Hstaffed'. }
  rewrite Hpay. unfold Solver.trainingStep.
  set (known := Solver.simEmployees simB).
  assert (known = Solver.simEmployees sim0) as Hknown by (unfold known; by rewrite Hk).
  destruct (classify_fold this known active [] (∅, [])) as ([T L] & Hcl & HL & HT).
  { apply Forall_forall. intros s Hs. destruct (Hactive s Hs) as [Hs' _].
    split; [|by apply Hstaffed']. rewrite Hknown. by apply Hwf0, Hstaffed'. }
  { split; [done|]. intros skill. left. split; [apply lookup_empty|done]. }
  rewrite Hcl. simpl in HL, HT. rewrite HL.
  destruct (teach_fold this T (untrainedShifts known active) simB)
    as (sim1 & Hteach & Hk1 & Hp1 & Ha1 & Hgain & Hout & Hdom1).
  { unfold untrainedShifts, active. rewrite list_filter_filter.
    apply (NoOverlap_NoDup
             (λ a, Solver_trained known (Solver.Shift.skill a) (Solver.Shift.employeeId a) = false
                   ∧ Solver.isActive h a) h shifts Hno).
    intros s [_ Ha]. apply Solver_isActive_activeAt. by apply Is_true_true. }
  { apply Forall_forall. intros s Hs. unfold untrainedShifts in Hs.
    apply list_elem_of_filter in Hs as [Hu Hs]. destruct (Hactive s Hs) as [Hs' _].
    pose proof (Hstaffed' s Hs') as Hemp. destruct Hwf0 as [Hwf0 _].
    destruct (Hwf0 _ Hemp) as [Hclone Hstate].
    split_and!; [done| |by fold known; rewrite Hknown|done].
    apply Hdom. done. }
  exists sim1. split; [done|]. split; [done|].
  split.
  { split.
    - intros e He. destruct Hwf0 as [Hwf0 _]. destruct (Hwf0 e He) as [Hc Hs].
      split; [by rewrite Hk1, Hk|]. apply Hdom1, Hdom. done.
    - intros e sk Hel. rewrite Hk1, Hk.
      assert (∀ p : Z * string, p ∈ Solver.newSkillsLearned sim1 →
                p ∈ Solver.newSkillsLearned simB ∨ is_Some (Solver.employees_get this p.1))
        as Hstaged.
      { apply (foldM_invariant
                 (λ sim', ∀ p : Z * string, p ∈ Solver.newSkillsLearned sim' →
                    p ∈ Solver.newSkillsLearned simB ∨ is_Some (Solver.employees_get this p.1))
                 (Solver.teach this T) (untrainedShifts known active) simB sim1);
          [|by left|done].
        intros sim2 ls sim3 _ IH Hstep [e' sk'] Hel'.
        apply (teach_staged _ _ _ _ _ e' sk' Hstep) in Hel' as [Hel'|Hel'];
          [by apply IH|by right]. }
      destruct (Hstaged (e, sk) Hel) as [Hold|Hnew].
      + rewrite Hn in Hold. simpl in Hold. rewrite Hnl0 in Hold. by apply elem_of_nil in Hold.
      + destruct Hwf0 as [Hwf0 _]. by apply Hwf0. }
  split; [by rewrite Hk1, Hk|]. split; [done|].
  split; [|exists simA; split; [done|]; by rewrite Ha1, Hach].
  intros s Hs Hact Huntr.
  assert (s ∈ untrainedShifts known active) as HsL.
  { unfold untrainedShifts, active. apply list_elem_of_filter. split; [by rewrite Hknown|].
    apply list_elem_of_filter. split; [|done].
    apply Is_true_true. by apply Solver_isActive_activeAt. }
  destruct (Hgain s HsL) as [Hg Hs1000]. split; [|done]. intros Hord.
  rewrite (Hg Hord), Hpts. simpl. rewrite Hst0. f_equal. f_equal.
  destruct (teacherEntry_multiplier _ _ (HT (Solver.Shift.skill s))) as [-> _].
  unfold active. by rewrite trainedRates_active, Hknown.
Qed.

(** ** The second loop of [RepValidator.calculateCapacity] *)

Lemma maxTeachingRate_fold this skill h (l : list RepValidator.Shift.t) (m0 : Z) :
  0 ≤ m0 →
  RepValidator_staffed this l →
  foldM (λ maxRate shift,
           if bool_decide (RepValidator.Shift.skill shift = skill)
              && bool_decide (RepValidator.Shift.start shift ≤ h)
              && bool_decide (h < RepValidator.Shift.end_ shift)
              && RepValidator.isTrained this (RepValidator.Shift.employeeId shift) skill
           then match RepValidator.employees this !! RepValidator.Shift.employeeId shift with
                | Some employee => Some (Z.max maxRate (RepValidator.Employee.teachingRate employee))
                | None => None
                end
           else Some maxRate) m0 l
  = Some (Z.max m0 (RepValidator_maxRate this l skill h)).
Proof.
  unfold RepValidator_maxRate, teacherRates.
  revert m0. induction l as [|s l IH]; intros m0 Hm0 Hst.
  - simpl. f_equal. lia.
  - apply Forall_cons in Hst as [[employee Hemp] Hst]. cbn [foldM].
    rewrite filter_cons.
    destruct (decide (worksOn h skill s
                      ∧ RepValidator.isTrained this (employeeOf s) skill = true)) as [Hc|Hc].
    + destruct Hc as [[[H1 H2] H3] H4].
      change (employeeOf s) with (RepValidator.Shift.employeeId s) in *.
      change (startOf s) with (RepValidator.Shift.start s) in H1.
      change (endOf s) with (RepValidator.Shift.end_ s) in H2.
      change (skillOf s) with (RepValidator.Shift.skill s) in H3.
      rewrite !bool_decide_eq_true_2 by done. rewrite H4. cbn [andb].
      rewrite Hemp, IH by (done || lia). f_equal. rewrite fmap_cons. cbn [foldr].
      assert (RepValidator_teachingRate this (employeeOf s)
              = RepValidator.Employee.teachingRate employee) as ->.
      { unfold RepValidator_teachingRate. simpl. by rewrite Hemp. }
      lia.
    + destruct (bool_decide _ && bool_decide _ && bool_decide _ && _) eqn:Hb;
        [|by rewrite IH].
      destruct Hc. rewrite !andb_true_iff, !bool_decide_eq_true in Hb.
      unfold worksOn, activeAt. simpl. tauto.
Qed.

Lemma maxTeachingRate_spec this shifts skill h :
  RepValidator_staffed this shifts →
  RepValidator.maxTeachingRate this shifts skill h
  = Some (RepValidator_maxRate this shifts skill h).
Proof.
  intros Hst. unfold RepValidator.maxTeachingRate.
  rewrite maxTeachingRate_fold by done. f_equal.
  unfold RepValidator_maxRate.
  pose proof (max0_nonneg (teacherRates (RepValidator_teachingRate this)
                             (λ e, RepValidator.isTrained this e skill) h skill shifts)).
  lia.
Qed.

Lemma coverHour_spec this shifts cm skill acc h :
  RepValidator_staffed this shifts →
  teachersOk this shifts cm acc.2 →
  ∃ acc', RepValidator.coverHour this shifts cm skill acc h = Some acc'
          ∧ acc'.1 = (acc.1 + RepValidator.coverageAt cm h skill)%Q
          ∧ teachersOk this shifts cm acc'.2
          ∧ teacherSet this shifts cm acc'.2 h skill
          ∧ (∀ h' skill', teacherSet this shifts cm acc.2 h' skill' →
                          teacherSet this shifts cm acc'.2 h' skill').
Proof.
  intros Hst Hok. destruct acc as [a T]. unfold RepValidator.coverHour. simpl in *.
  case_decide as Htc.
  - rewrite maxTeachingRate_spec by done. eexists. split; [reflexivity|]. simpl.
    split_and!; [done|..].
    + intros h' skill' v. destruct (decide ((h, skill) = (h', skill'))) as [[= <- <-]|Hne].
      * rewrite lookup_insert_eq. by intros [= <-].
      * rewrite lookup_insert_ne by done. apply Hok.
    + intros _. by rewrite lookup_insert_eq.
    + intros h' skill' Hset Hpos.
      destruct (decide ((h, skill) = (h', skill'))) as [[= <- <-]|Hne].
      * by rewrite lookup_insert_eq.
      * rewrite lookup_insert_ne by done. by apply Hset.
  - eexists. split; [reflexivity|]. simpl. split_and!; try done.
    intros Hpos. done.
Qed.

Lemma coverDay_spec this day shifts cm :
  RepValidator_staffed this shifts →
  ∃ achieved T,
    RepValidator.coverDay this day shifts cm = Some (achieved, T)
    ∧ teachersOk this shifts cm T
    ∧ ∀ skill h, skill ∈ RepValidator.Day.requiredSkills day →
                 h ∈ hours (RepValidator.Day.start day) (RepValidator.Day.end_ day) →
                 teacherSet this shifts cm T h skill.
Proof.
  intros Hst. unfold RepValidator.coverDay.
  set (hs := hours (RepValidator.Day.start day) (RepValidator.Day.end_ day)).
  (* the loop over the hours, for one skill *)
  assert (∀ skill (l : list Z) acc,
            teachersOk this shifts cm acc.2 →
            ∃ acc', foldM (RepValidator.coverHour this shifts cm skill) acc l = Some acc'
                    ∧ teachersOk this shifts cm acc'.2
                    ∧ (∀ h, h ∈ l → teacherSet this shifts cm acc'.2 h skill)
                    ∧ (∀ h' skill', teacherSet this shifts cm acc.2 h' skill' →
                                    teacherSet this shifts cm acc'.2 h' skill')) as Hhours.
  { intros skill l. induction l as [|h l IH]; intros acc Hok; simpl.
    - exists acc. split_and!; try done. intros h Hh. by apply elem_of_nil in Hh.
    - destruct (coverHour_spec this shifts cm skill acc h Hst Hok)
        as (acc1 & -> & _ & Hok1 & Hset1 & Hkeep1).
      destruct (IH acc1 Hok1) as (acc' & Hfold & Hok' & Hset' & Hkeep').
      exists acc'. split_and!; try done.
      + intros h' Hh'. apply elem_of_cons in Hh' as [->|Hh']; [by apply Hkeep'|by apply Hset'].
      + intros h' skill' Hs. by apply Hkeep', Hkeep1. }
  cut (∀ (skills : list string) acc,
         teachersOk this shifts cm acc.2 →
         ∃ acc', foldM (λ acc skill, foldM (RepValidator.coverHour this shifts cm skill) acc hs)
                       acc skills = Some acc'
                 ∧ teachersOk this shifts cm acc'.2
                 ∧ (∀ skill h, skill ∈ skills → h ∈ hs → teacherSet this shifts cm acc'.2 h skill)
                 ∧ (∀ h' skill', teacherSet this shifts cm acc.2 h' skill' →
                                 teacherSet this shifts cm acc'.2 h' skill')).
  { intros Hskills.
    destruct (Hskills (RepValidator.Day.requiredSkills day) (0%Q, ∅))
      as ([achieved T] & Hfold & Hok & Hset & _).
    { intros h skill v. simpl. by rewrite lookup_empty. }
    exists achieved, T. by split_and!. }
  intros skills. induction skills as [|skill skills IH]; intros acc Hok; simpl.
  - exists acc. split_and!; try done. intros skill h Hs. by apply elem_of_nil in Hs.
  - destruct (Hhours skill hs acc Hok) as (acc1 & -> & Hok1 & Hset1 & Hkeep1).
    destruct (IH acc1 Hok1) as (acc' & Hfold & Hok' & Hset' & Hkeep').
    exists acc'. split_and!; try done.
    + intros skill' h Hs Hh. apply elem_of_cons in Hs as [->|Hs].
      * by apply Hkeep', Hset1.
      * by apply Hset'.
    + intros h' skill' Hs. by apply Hkeep', Hkeep1.
Qed.

Lemma maxRate_sameModel a b shifts skill h :
  sameModel a b → RepValidator_maxRate b shifts skill h = RepValidator_maxRate a shifts skill h.
Proof.
  intros Hsame. unfold RepValidator_maxRate, teacherRates. f_equal.
  destruct Hsame as (_ & _ & Hemps & _ & Hsp).
  assert (∀ e, RepValidator.isTrained b e skill = RepValidator.isTrained a e skill) as Htr.
  { intros e. unfold RepValidator.isTrained, RepValidator.points. by rewrite Hsp. }
  assert (∀ e, RepValidator_teachingRate b e = RepValidator_teachingRate a e) as Hrate.
  { intros e. unfold RepValidator_teachingRate. by rewrite Hemps. }
  rewrite (list_filter_iff _ (λ s, worksOn h skill s
                                   ∧ RepValidator.isTrained a (employeeOf s) skill = true))
    by (intros s; by rewrite Htr).
  apply list_fmap_ext. intros _ s _. apply Hrate.
Qed.

(** [calculateCapacity] on the shifts of a day whose employees exist: it
    does not throw, it leaves the model and the skill points untouched, and
    [hourlyTeachers] holds, for every required skill and opening hour, the
    largest teaching rate among the trained workers of the cell. *)
Lemma calculateCapacity_spec this dayId day shifts :
  RepValidator.days this !! dayId = Some day →
  RepValidator_staffed this shifts →
  ∃ metrics this' sc,
    RepValidator.calculateCapacity this dayId shifts = Some (metrics, this')
    ∧ RepValidator.scanDay this dayId day shifts = Some sc
    ∧ this' = RepValidator.scanThis sc
    ∧ RepValidator.metricsPayrollD metrics = RepValidator.payrollD sc
    ∧ sameModel this this' ∧ errorsGrow this this'
    ∧ ∀ skill h, skill ∈ RepValidator.Day.requiredSkills day →
                 RepValidator.Day.start day ≤ h < RepValidator.Day.end_ day →
                 inherited skill = false →
                 default 0 (RepValidator.hourlyTeachers metrics !! (h, skill))
                 = RepValidator_maxRate this shifts skill h.
Proof.
  intros Hday Hst. unfold RepValidator.calculateCapacity. rewrite Hday.
  destruct (scanDay_total this dayId day shifts) as [sc Hsc]. rewrite Hsc.
  destruct (scanDay_sameModel _ _ _ _ _ Hsc) as [Hsame Hgrow].
  assert (RepValidator_staffed (RepValidator.scanThis sc) shifts) as Hst'.
  { unfold RepValidator_staffed in *. destruct Hsame as (_ & _ & <- & _). done. }
  destruct (coverDay_spec (RepValidator.scanThis sc) day shifts (RepValidator.coverageMap sc) Hst')
    as (achieved & T & -> & Hok & Hset).
  eexists _, _, sc. split; [reflexivity|]. simpl. split_and!; try done.
  intros skill h Hskill Hh Hord.
  rewrite <-(maxRate_sameModel this (RepValidator.scanThis sc)) by done.
  destruct (decide (0 < (RepValidator.hourCoverage (RepValidator.coverageMap sc) h skill).1))
    as [Hpos|Hzero].
  - rewrite Hset; [done|done| |done]. unfold hours. apply elem_of_seqZ. lia.
  - destruct (T !! (h, skill)) as [v|] eqn:HT.
    { destruct (Hok h skill v HT) as [_ Hpos]. done. }
    simpl. rewrite (maxRate_sameModel this (RepValidator.scanThis sc)) by done.
    rewrite (scanDay_counts this dayId day shifts sc) in Hzero by done. simpl in Hzero.
    assert (filter (counted this true h skill) shifts = []) as Hnil.
    { apply length_zero_iff_nil. lia. }
    unfold RepValidator_maxRate, teacherRates.
    rewrite (filter_ext_in _ (counted this true h skill)); [by rewrite Hnil|].
    intros s Hs. unfold counted. unfold RepValidator_staffed in Hst.
    rewrite Forall_forall in Hst. specialize (Hst s Hs). simpl. tauto.
Qed.


Lemma initial_wf this : Solver_wf this (Solver_dayStart (Solver.initialRun this)).
Proof.
  split; [|intros e sk Hel; by apply elem_of_nil in Hel].
  intros e [employee Hemp]. simpl.
  pose proof (Solver_employees_get_id _ _ _ Hemp) as Hid.
  unfold Solver.employees_get in Hemp. apply find_some in Hemp as [Hin _].
  apply list_elem_of_In in Hin. revert Hin. generalize (Solver.employees this).
  intros l. induction l as [|x l IH]; intros Hin; [by apply elem_of_nil in Hin|].
  simpl. destruct (decide (Solver.Employee.id x = e)) as [<-|Hne].
  - rewrite !lookup_insert_eq. split; by eexists.
  - rewrite !lookup_insert_ne by done. apply IH.
    apply elem_of_cons in Hin as [->|Hin]; [done|done].
Qed.



Lemma logged_errorsGrow m a b : errorsGrow a b → logged m a → logged m b.
Proof. intros (H1 & H2 & _) [Hm Hv]. split; auto. Qed.

Lemma violation_snoc this dayId day pre x m :
  violation this dayId day (pre ++ [x]) m →
  violation this dayId day pre m
  ∨ (RepValidator.employees this !! RepValidator.Shift.employeeId x = None
     ∧ m = RepValidator.msgNoEmployee dayId (RepValidator.Shift.employeeId x))
  ∨ (∃ emp, RepValidator.employees this !! RepValidator.Shift.employeeId x = Some emp
            ∧ ((dayId ∈ RepValidator.Employee.vacationDays emp
                ∧ m = RepValidator.msgVacation dayId (RepValidator.Shift.employeeId x))
               ∨ ((RepValidator.Shift.start x < RepValidator.Day.start day
                   ∨ RepValidator.Day.end_ day < RepValidator.Shift.end_ x)
                  ∧ m = RepValidator.msgOutside dayId x day)
               ∨ (∃ s', s' ∈ pre
                        ∧ RepValidator.Shift.employeeId s' = RepValidator.Shift.employeeId x
                        ∧ RepValidator.overlapsWith x
                            (RepValidator.Shift.start s', RepValidator.Shift.end_ s') = true
                        ∧ m = RepValidator.msgOverlap dayId (RepValidator.Shift.employeeId x)))).
Proof.
  intros Hv. inversion Hv as [s Hs Hnone|s emp Hs Hemp Hvac|s Hs [emp Hemp] Hout
                              |i j s' s Hij Hi Hj Heq [emp Hemp] Hov]; subst.
  - apply elem_of_app in Hs as [Hs|Hs%list_elem_of_singleton];
      [left; by apply unknownEmployee|subst].
    right; left. done.
  - apply elem_of_app in Hs as [Hs|Hs%list_elem_of_singleton];
      [left; by apply (onVacation _ _ _ _ s emp)|subst].
    right; right. exists emp. split; [done|]. left. done.
  - apply elem_of_app in Hs as [Hs|Hs%list_elem_of_singleton];
      [left; by apply outsideWindow|subst].
    right; right. exists emp. split; [done|]. right; left. done.
  - destruct (decide (j < length pre)%nat) as [Hlt|Hge].
    + left. rewrite lookup_app_l in Hi by lia. rewrite lookup_app_l in Hj by lia.
      by apply (overlapping _ _ _ _ i j s' s).
    + pose proof (lookup_lt_Some _ _ _ Hj) as Hjl. rewrite length_app in Hjl. simpl in Hjl.
      assert (j = length pre) as -> by lia.
      rewrite lookup_app_l in Hi by lia.
      rewrite lookup_app_r, Nat.sub_diag in Hj by lia. simpl in Hj. injection Hj as ->.
      right; right. exists emp. split; [done|]. right; right.
      exists s'. split_and!; try done. by eapply list_elem_of_lookup_2.
Qed.

Lemma violation_mono this dayId day pre x m :
  violation this dayId day pre m → violation this dayId day (pre ++ [x]) m.
Proof.
  intros Hv. inversion Hv as [s Hs Hnone|s emp Hs Hemp Hvac|s Hs Hemp Hout
                              |i j s' s Hij Hi Hj Heq Hemp Hov]; subst.
  - apply unknownEmployee; [apply elem_of_app; by left|done].
  - apply (onVacation _ _ _ _ s emp); [apply elem_of_app; by left|done..].
  - apply outsideWindow; [apply elem_of_app; by left|done..].
  - apply (overlapping _ _ _ _ i j s' s); try done.
    + rewrite lookup_app_l; [done|]. by eapply lookup_lt_Some.
    + rewrite lookup_app_l; [done|]. by eapply lookup_lt_Some.
Qed.

Lemma existsb_overlapsWith shift today interval :
  interval ∈ today → RepValidator.overlapsWith shift interval = true →
  existsb (RepValidator.overlapsWith shift) today = true.
Proof.
  intros Hin Hov. apply existsb_exists. exists interval. split; [|done].
  by apply list_elem_of_In.
Qed.

(** The first loop logs every violation of the shifts it has visited. *)
Lemma scanShift_logged this dayId day pre sc x sc1 :
  sameModel this (RepValidator.scanThis sc) →
  (∀ m, violation this dayId day pre m → logged m (RepValidator.scanThis sc)) →
  todayOk this dayId pre sc →
  RepValidator.scanShift dayId day sc x = Some sc1 →
  (∀ m, violation this dayId day (pre ++ [x]) m → logged m (RepValidator.scanThis sc1))
  ∧ todayOk this dayId (pre ++ [x]) sc1.
Proof.
  intros Hsame Hlog Htoday Hstep.
  destruct (scanShift_sameModel _ _ _ _ _ Hstep) as [Hsame1 Hgrow1].
  assert (RepValidator.employees (RepValidator.scanThis sc) = RepValidator.employees this)
    as Hemps by (symmetry; apply Hsame).
  destruct (RepValidator.employees this !! RepValidator.Shift.employeeId x) as [emp|] eqn:Hx.
  - rewrite (scanShift_known _ _ _ _ emp) in Hstep by (by rewrite Hemps).
    injection Hstep as <-.
    set (e := RepValidator.Shift.employeeId x) in *.
    set (today := default [] (RepValidator.employeeShiftsToday sc !! e)) in *.
    pose proof (validityChecks_logged dayId day emp today x (RepValidator.scanThis sc))
      as (Hvac & Hout & Hovl). fold e in Hvac, Hovl.
    set (checked := RepValidator.validityChecks dayId day emp today x (RepValidator.scanThis sc))
      in *.
    assert (∀ m, logged m checked →
                 logged m (RepValidator.set_weeklyHours
                             (<[e := default 0 (RepValidator.weeklyHours
                                                  (RepValidator.scanThis sc) !! e)
                                     + RepValidator.Shift.duration x]>
                                (RepValidator.weeklyHours (RepValidator.scanThis sc))) checked))
      as Hset by (intros m Hm; exact Hm).
    assert (∀ s', s' ∈ pre → RepValidator.Shift.employeeId s' = e →
              RepValidator.overlapsWith x
                (RepValidator.Shift.start s', RepValidator.Shift.end_ s') = true →
              logged (RepValidator.msgOverlap dayId e) checked) as Hover.
    { intros s' Hs' Heq Hov.
      destruct (Htoday s' Hs') as [Hin|Hl].
      - rewrite Heq. by rewrite Hx.
      - rewrite Heq in Hin. apply Hovl. by eapply existsb_overlapsWith.
      - rewrite Heq in Hl. eapply logged_errorsGrow; [|exact Hl].
        apply validityChecks_errorsGrow. }
    split.
    + intros m Hm. simpl. apply Hset.
      apply violation_snoc in Hm as [Hm|[[Hnone _]|(emp' & Hemp' & Hm)]].
      * eapply logged_errorsGrow; [apply validityChecks_errorsGrow|]. by apply Hlog.
      * fold e in Hnone. congruence.
      * fold e in Hemp'. assert (emp' = emp) as -> by congruence.
        destruct Hm as [[Hv ->]|[[Ho ->]|(s' & Hs' & Heq & Hov & ->)]].
        -- by apply Hvac.
        -- by apply Hout.
        -- by apply (Hover s').
    + intros s Hs Hsome. simpl.
      apply elem_of_app in Hs as [Hs|Hs%list_elem_of_singleton].
      * destruct (Htoday s Hs Hsome) as [Hin|Hl].
        -- left. destruct (decide (RepValidator.Shift.employeeId s = e)) as [Heq|Hne].
           ++ rewrite Heq, lookup_insert_eq. simpl. rewrite Heq in Hin. fold today in Hin.
              destruct (existsb _ today); [done|]. apply elem_of_app. by left.
           ++ by rewrite lookup_insert_ne.
        -- right. apply Hset. eapply logged_errorsGrow; [|exact Hl].
           apply validityChecks_errorsGrow.
      * subst s. fold e. rewrite lookup_insert_eq. simpl.
        destruct (existsb (RepValidator.overlapsWith x) today) eqn:Hex.
        -- right. apply Hset. by apply Hovl.
        -- left. apply elem_of_app. right. by left.
  - rewrite scanShift_unknown in Hstep by (by rewrite Hemps). injection Hstep as <-.
    split.
    + intros m Hm. simpl.
      apply violation_snoc in Hm as [Hm|[[_ ->]|(emp' & Hemp' & _)]].
      * eapply logged_errorsGrow; [apply logError_errorsGrow|]. by apply Hlog.
      * apply logError_logged.
      * congruence.
    + intros s Hs Hsome. simpl.
      apply elem_of_app in Hs as [Hs|Hs%list_elem_of_singleton].
      * destruct (Htoday s Hs Hsome) as [Hin|Hl]; [by left|right].
        eapply logged_errorsGrow; [apply logError_errorsGrow|done].
      * subst s. rewrite Hx in Hsome. by destruct Hsome.
Qed.

Lemma scanDay_logged this dayId day shifts sc m :
  RepValidator.scanDay this dayId day shifts = Some sc →
  violation this dayId day shifts m → logged m (RepValidator.scanThis sc).
Proof.
  intros Hscan. revert m.
  cut ((∀ m, violation this dayId day shifts m → logged m (RepValidator.scanThis sc))
       ∧ todayOk this dayId shifts sc ∧ sameModel this (RepValidator.scanThis sc)).
  { intros [H _]. exact H. }
  revert Hscan. unfold RepValidator.scanDay.
  apply (foldM_prefix_invariant
           (λ pre sc, (∀ m, violation this dayId day pre m → logged m (RepValidator.scanThis sc))
                      ∧ todayOk this dayId pre sc
                      ∧ sameModel this (RepValidator.scanThis sc))).
  - split_and!.
    + intros m Hm. exfalso.
      inversion Hm as [s Hs ?|s emp Hs ? ?|s Hs ? ?|i j s' s ? Hi ? ? ? ?]; subst;
        try (by apply elem_of_nil in Hs). by rewrite lookup_nil in Hi.
    + intros s Hs. by apply elem_of_nil in Hs.
    + apply sameModel_refl.
  - intros pre x sc0 sc1 (Hlog & Htoday & Hsame) Hstep.
    destruct (scanShift_logged this dayId day pre sc0 x sc1 Hsame Hlog Htoday Hstep) as [H1 H2].
    split_and!; [done..|].
    eapply sameModel_trans; [done|]. by apply scanShift_sameModel in Hstep as [? _].
Qed.

(** ** The loop over the days of [RepValidator.validateAndScore] *)

Lemma sameInput_refl a : sameInput a a.
Proof. by repeat split. Qed.

Lemma sameInput_trans a b c : sameInput a b → sameInput b c → sameInput a c.
Proof. unfold sameInput. intuition congruence. Qed.

Lemma sameModel_sameInput a b : sameModel a b → sameInput a b.
Proof. unfold sameModel, sameInput. tauto. Qed.

Lemma violation_sameInput a b dayId day shifts m :
  sameInput a b → violation a dayId day shifts m → violation b dayId day shifts m.
Proof.
  intros (_ & _ & Hemps & _) Hv.
  inversion Hv as [s Hs Hnone|s emp Hs Hemp Hvac|s Hs Hemp Hout
                   |i j s' s Hij Hi Hj Heq Hemp Hov]; subst; rewrite Hemps in *.
  - by apply unknownEmployee.
  - by apply (onVacation _ _ _ _ s emp).
  - by apply outsideWindow.
  - by apply (overlapping _ _ _ _ i j s' s).
Qed.

(** The training of a day changes skill points only. *)
Lemma trainCell_frame T this cell this' :
  RepValidator.trainCell T this cell = Some this' →
  sameInput this this'
  ∧ RepValidator.validationErrors this' = RepValidator.validationErrors this
  ∧ RepValidator.isValid this' = RepValidator.isValid this.
Proof.
  destruct cell as [[empId skill] [hoursWorked|]]; unfold RepValidator.trainCell;
    (destruct (RepValidator.isTrained this empId skill);
     [intros [= <-]; split; [apply sameInput_refl|done]|]); [|done].
  simpl. destruct (foldM _ 0 hoursWorked) as [totalGain|]; [|done].
  intros [= <-]. by repeat split.
Qed.

Lemma updateTraining_frame this dayId shifts T this' :
  RepValidator.updateTraining this dayId shifts T = Some this' →
  sameInput this this'
  ∧ RepValidator.validationErrors this' = RepValidator.validationErrors this
  ∧ RepValidator.isValid this' = RepValidator.isValid this.
Proof.
  unfold RepValidator.updateTraining.
  destruct (RepValidator.empSkillHours shifts) as [cells|]; [simpl|done].
  apply (foldM_invariant
           (λ t, sameInput this t
                 ∧ RepValidator.validationErrors t = RepValidator.validationErrors this
                 ∧ RepValidator.isValid t = RepValidator.isValid this)).
  - intros t cell t' _ (H1 & H2 & H3) Hstep.
    apply trainCell_frame in Hstep as (H4 & H5 & H6).
    split_and!; [by eapply sameInput_trans|congruence..].
  - split; [apply sameInput_refl|done].
Qed.

Lemma weeklyReset_frame this dayId :
  sameModel this (RepValidator.weeklyReset this dayId)
  ∧ RepValidator.validationErrors (RepValidator.weeklyReset this dayId)
    = RepValidator.validationErrors this
  ∧ RepValidator.isValid (RepValidator.weeklyReset this dayId) = RepValidator.isValid this.
Proof. unfold RepValidator.weeklyReset. case_decide; by repeat split. Qed.

(** What one iteration of the loop over the days does to the error list:
    on an open day it is the error list left by the first loop of
    [calculateCapacity]. *)
Lemma scoreDay_inv this dayId this' :
  RepValidator.scoreDay this dayId = Some this' →
  ∃ day, RepValidator.days this !! dayId = Some day
    ∧ sameInput this this'
    ∧ if RepValidator.Day.isClosed day
      then RepValidator.validationErrors this' = RepValidator.validationErrors this
           ∧ RepValidator.isValid this' = RepValidator.isValid this
      else ∃ sc, RepValidator.scanDay (RepValidator.weeklyReset this dayId) dayId day
                   (default [] (RepValidator.schedule this !! dayId)) = Some sc
                 ∧ RepValidator.validationErrors this'
                   = RepValidator.validationErrors (RepValidator.scanThis sc)
                 ∧ RepValidator.isValid this' = RepValidator.isValid (RepValidator.scanThis sc).
Proof.
  unfold RepValidator.scoreDay.
  destruct (RepValidator.days this !! dayId) as [day|] eqn:Hday; [|done].
  destruct (weeklyReset_frame this dayId) as (Hsame & Herr & Hval).
  intros Hstep. exists day. split; [done|].
  destruct (RepValidator.Day.isClosed day).
  - injection Hstep as <-. simpl. split_and!; [|done..].
    eapply sameInput_trans; [apply sameModel_sameInput, Hsame|]. by repeat split.
  - destruct (RepValidator.calculateCapacity _ dayId _) as [[metrics this1]|] eqn:Hcap; [|done].
    destruct (RepValidator.updateTraining this1 dayId _ _) as [this2|] eqn:Hup; [|done].
    injection Hstep as <-.
    unfold RepValidator.calculateCapacity in Hcap.
    assert (RepValidator.days (RepValidator.weeklyReset this dayId) !! dayId = Some day) as Hday'.
    { destruct Hsame as (_ & <- & _). done. }
    rewrite Hday' in Hcap.
    destruct (RepValidator.scanDay _ dayId day _) as [sc|] eqn:Hscan; [|done].
    destruct (RepValidator.coverDay _ day _ _) as [[achieved T]|]; [|done].
    injection Hcap as <- <-.
    apply updateTraining_frame in Hup as (Hin & Herr2 & Hval2).
    apply scanDay_sameModel in Hscan as Hsc. destruct Hsc as [Hsame1 _].
    split.
    + eapply sameInput_trans; [apply sameModel_sameInput, Hsame|].
      eapply sameInput_trans; [apply sameModel_sameInput, Hsame1|].
      eapply sameInput_trans; [exact Hin|]. by repeat split.
    + exists sc. simpl. by split_and!.
Qed.

Lemma scoreDay_errorsGrow this dayId this' :
  RepValidator.scoreDay this dayId = Some this' →
  sameInput this this' ∧ errorsGrow this this'.
Proof.
  intros Hstep. apply scoreDay_inv in Hstep as (day & Hday & Hin & Herr).
  split; [done|]. destruct (RepValidator.Day.isClosed day).
  - destruct Herr as [He Hv]. unfold errorsGrow. rewrite He, Hv. by repeat split.
  - destruct Herr as (sc & Hscan & He & Hv).
    apply scanDay_sameModel in Hscan as [_ (G1 & G2 & G3)].
    destruct (weeklyReset_frame this dayId) as (_ & Herr & Hval).
    unfold errorsGrow. rewrite He, Hv. rewrite Herr, Hval in *. by repeat split.
Qed.

Lemma scoreDays_errorsGrow this l this' :
  foldM RepValidator.scoreDay this l = Some this' →
  sameInput this this' ∧ errorsGrow this this'.
Proof.
  apply (foldM_invariant (λ t, sameInput this t ∧ errorsGrow this t)).
  - intros t d t' _ [H1 H2] Hstep. apply scoreDay_errorsGrow in Hstep as [H3 H4].
    split; [by eapply sameInput_trans|by eapply errorsGrow_trans].
  - split; [apply sameInput_refl|apply errorsGrow_refl].
Qed.

(** A violation on an open day is logged by the iteration of that day. *)
Lemma scoreDay_logged this dayId day this' m :
  RepValidator.days this !! dayId = Some day →
  RepValidator.Day.isClosed day = false →
  violation this dayId day (default [] (RepValidator.schedule this !! dayId)) m →
  RepValidator.scoreDay this dayId = Some this' →
  logged m this'.
Proof.
  intros Hday Hopen Hv Hstep.
  apply scoreDay_inv in Hstep as (day' & Hday' & Hin & Herr).
  assert (day' = day) as -> by congruence. rewrite Hopen in Herr.
  destruct Herr as (sc & Hscan & He & Hval).
  destruct (weeklyReset_frame this dayId) as (Hsame & _).
  eapply scanDay_logged in Hscan as [Hm Hf].
  - split; [by rewrite He|by rewrite Hval].
  - eapply violation_sameInput; [apply sameModel_sameInput, Hsame|done].
Qed.

Lemma elem_of_dayIds this dayId :
  dayId ∈ RepValidator.dayIds this ↔ is_Some (RepValidator.days this !! dayId).
Proof.
  unfold RepValidator.dayIds. rewrite Array_sort_Permutation, elem_of_elements.
  apply elem_of_dom.
Qed.

(** A violation on an open day is in the error list at the end of the
    loop over the days, and the schedule is flagged. *)
Lemma scoreDays_logged this this' dayId day m :
  RepValidator.days this !! dayId = Some day →
  RepValidator.Day.isClosed day = false →
  violation this dayId day (default [] (RepValidator.schedule this !! dayId)) m →
  foldM RepValidator.scoreDay this (RepValidator.dayIds this) = Some this' →
  logged m this'.
Proof.
  intros Hday Hopen Hv Hfold.
  assert (dayId ∈ RepValidator.dayIds this) as Hel by (apply elem_of_dayIds; by eexists).
  apply list_elem_of_split in Hel as (l1 & l2 & Hl). rewrite Hl in Hfold.
  rewrite foldM_app in Hfold.
  destruct (foldM RepValidator.scoreDay this l1) as [t1|] eqn:H1; [|done].
  simpl in Hfold.
  destruct (RepValidator.scoreDay t1 dayId) as [t2|] eqn:H2; [|done].
  apply scoreDays_errorsGrow in H1 as [Hin1 _].
  apply scoreDays_errorsGrow in Hfold as [_ Hgrow].
  eapply logged_errorsGrow; [exact Hgrow|].
  pose proof Hin1 as (_ & Hdays & _ & Hsched).
  eapply (scoreDay_logged t1 dayId day); [by rewrite <-Hdays|done| |done].
  rewrite <-Hsched. by eapply violation_sameInput.
Qed.

(** ** [Solver.validateSchedule] *)

Lemma faultsGrow_refl v : faultsGrow v v.
Proof. by split. Qed.

Lemma faultsGrow_trans a b c : faultsGrow a b → faultsGrow b c → faultsGrow a c.
Proof. intros [H1 H2] [H3 H4]. split; auto. Qed.

Lemma fault_flagged m v : flagged m (Solver.fault m v).
Proof. split; [|done]. simpl. apply elem_of_app. right. by left. Qed.

Lemma fault_faultsGrow m v : faultsGrow v (Solver.fault m v).
Proof. split; [|done]. intros m' Hm'. simpl. apply elem_of_app. by left. Qed.

Lemma faultIf_faultsGrow b m v : faultsGrow v (Solver.faultIf b m v).
Proof. destruct b; [apply fault_faultsGrow|apply faultsGrow_refl]. Qed.

Lemma flagged_faultsGrow m v v' : faultsGrow v v' → flagged m v → flagged m v'.
Proof. intros [H1 H2] [H3 H4]. split; auto. Qed.

Lemma fold_faultsGrow {A} (f : Solver.Validation → A → Solver.Validation) (l : list A) v :
  (∀ v x, faultsGrow v (f v x)) → faultsGrow v (fold_left f l v).
Proof.
  intros Hf. revert v. induction l as [|x l IH]; intros v; simpl.
  - apply faultsGrow_refl.
  - eapply faultsGrow_trans; [apply Hf|apply IH].
Qed.

Lemma validateShift_faultsGrow this day acc shift :
  faultsGrow acc.1 (Solver.validateShift this day acc shift).1.
Proof.
  destruct acc as [v es]. unfold Solver.validateShift.
  destruct (Solver.employees_get this (Solver.Shift.employeeId shift)) as [employee|]; simpl.
  - eapply faultsGrow_trans; [|apply fold_faultsGrow; intros; apply faultIf_faultsGrow].
    repeat (eapply faultsGrow_trans; [|apply faultIf_faultsGrow]). apply faultsGrow_refl.
  - apply fault_faultsGrow.
Qed.

Lemma validateShifts_faultsGrow this day shifts acc :
  faultsGrow acc.1 (fold_left (Solver.validateShift this day) shifts acc).1.
Proof.
  revert acc. induction shifts as [|s shifts IH]; intros acc; simpl.
  - apply faultsGrow_refl.
  - eapply faultsGrow_trans; [apply validateShift_faultsGrow|apply IH].
Qed.

Lemma validateDay_faultsGrow this schedule v day :
  faultsGrow v (Solver.validateDay this schedule v day).
Proof.
  unfold Solver.validateDay. destruct (schedule !! Solver.Day.id day) as [shifts|].
  - eapply faultsGrow_trans; [apply faultIf_faultsGrow|].
    apply (validateShifts_faultsGrow this day shifts (_, ∅)).
  - apply fault_faultsGrow.
Qed.

(** A shift of an unknown employee is reported by the day that holds it. *)
Lemma validateDay_unknown this schedule v day shifts s :
  schedule !! Solver.Day.id day = Some shifts → s ∈ shifts →
  Solver.employees_get this (Solver.Shift.employeeId s) = None →
  flagged (Solver_msgUnknownEmployee day s) (Solver.validateDay this schedule v day).
Proof.
  intros Hsched Hs Hnone. unfold Solver.validateDay. rewrite Hsched.
  apply list_elem_of_split in Hs as (l1 & l2 & ->).
  rewrite fold_left_app. simpl.
  eapply flagged_faultsGrow; [apply validateShifts_faultsGrow|].
  destruct (fold_left _ l1 _) as [v1 es1]. unfold Solver.validateShift.
  rewrite Hnone. simpl. apply fault_flagged.
Qed.

Lemma validation_flagged this schedule day m :
  day ∈ Solver.days this →
  (∀ v, flagged m (Solver.validateDay this schedule v day)) →
  flagged m (Solver.validation this schedule).
Proof.
  intros Hday Hm. unfold Solver.validation.
  apply list_elem_of_split in Hday as (l1 & l2 & ->).
  rewrite fold_left_app. simpl.
  eapply flagged_faultsGrow; [|apply Hm].
  apply fold_faultsGrow. intros. apply validateDay_faultsGrow.
Qed.

(** A schedule with a line for a day that is not in the calendar has the
    wrong number of lines or misses the line of a calendar day. *)
Lemma validation_unknown_day this (schedule : gmap Z (list Solver.Shift.t)) d :
  NoDup (Solver.Day.id <$> Solver.days this) →
  is_Some (schedule !! d) → d ∉ Solver.Day.id <$> Solver.days this →
  Solver.isValid (Solver.validation this schedule) = false.
Proof.
  intros Hnd Hd Hnot. unfold Solver.validation.
  destruct (decide (size schedule = length (Solver.days this))) as [Hsize|Hsize].
  - assert (∃ day, day ∈ Solver.days this ∧ schedule !! Solver.Day.id day = None)
      as (day & Hday & Hmiss).
    { destruct (decide (Forall (λ day, is_Some (schedule !! Solver.Day.id day))
                               (Solver.days this))) as [Hall|Hex].
      - exfalso. rewrite Forall_forall in Hall.
        assert (list_to_set (Solver.Day.id <$> Solver.days this) ⊆ dom schedule) as Hsub.
        { intros x Hx. apply elem_of_list_to_set, list_elem_of_fmap in Hx as (day & -> & Hday).
          apply elem_of_dom. by apply Hall. }
        assert (size (list_to_set (Solver.Day.id <$> Solver.days this) : gset Z)
                = size (dom schedule)) as Hsz.
        { rewrite size_list_to_set, length_fmap, size_dom by done. lia. }
        assert (list_to_set (Solver.Day.id <$> Solver.days this) = dom schedule) as Heq.
        { apply set_subseteq_size_eq; [done|]. lia. }
        apply Hnot. apply (elem_of_list_to_set (C := gset Z)). rewrite Heq.
        by apply elem_of_dom.
      - apply not_Forall_Exists in Hex; [|apply _].
        apply Exists_exists in Hex as (day & Hday & Hnone).
        exists day. split; [done|]. by apply eq_None_not_Some. }
    apply (validation_flagged this schedule day
             (Solver.dayTag day +:+ ": Missing day line in output.")) in Hday as [_ Hf].
    + exact Hf.
    + intros v. unfold Solver.validateDay. rewrite Hmiss. apply fault_flagged.
  - rewrite bool_decide_true by done. simpl.
    apply fold_faultsGrow; [intros; apply validateDay_faultsGrow|done].
Qed.

Lemma validateAndScore_noValidScorecard this dayId day m :
  RepValidator.days this !! dayId = Some day →
  RepValidator.Day.isClosed day = false →
  violation this dayId day (default [] (RepValidator.schedule this !! dayId)) m →
  noValidScorecard (RepValidator.validateAndScore this).
Proof.
  intros Hday Hopen Hv. unfold RepValidator.validateAndScore.
  destruct (RepValidator.isValid this); simpl; [|done].
  destruct (foldM _ this _) as [this'|] eqn:Hfold; simpl; [|done].
  destruct (scoreDays_logged this this' dayId day m Hday Hopen Hv Hfold) as [_ Hf].
  by rewrite Hf.
Qed.

(** C8, as the code has it, for employees and days.  A shift of an
    employee who is not in the input makes [validateSchedule] record the
    error and return false, so that [run] aborts before it scores; so does
    a schedule line for a day that is not in the calendar.  In the
    validator the first loop of [calculateCapacity] records the error and
    flags the schedule, and [validateAndScore] prints no scorecard of a
    valid schedule. *)
Theorem unknown_reference
    (solver : Solver.t) (schedule : gmap Z (list Solver.Shift.t))
    (validator : RepValidator.t) :
  (∀ day shifts s,
     day ∈ Solver.days solver → schedule !! Solver.Day.id day = Some shifts → s ∈ shifts →
     Solver.employees_get solver (Solver.Shift.employeeId s) = None →
     Solver_msgUnknownEmployee day s ∈ Solver.errors (Solver.validation solver schedule)
     ∧ Solver.validateSchedule solver schedule = false
     ∧ Solver.validateThenScore solver schedule = Solver.Aborted)
  ∧ (∀ d, NoDup (Solver.Day.id <$> Solver.days solver) →
          is_Some (schedule !! d) → d ∉ Solver.Day.id <$> Solver.days solver →
          Solver.validateSchedule solver schedule = false
          ∧ Solver.validateThenScore solver schedule = Solver.Aborted)
  ∧ (∀ dayId day shifts s,
       RepValidator.days validator !! dayId = Some day → s ∈ shifts →
       RepValidator.employees validator !! RepValidator.Shift.employeeId s = None →
       (∃ sc, RepValidator.scanDay validator dayId day shifts = Some sc
              ∧ logged (RepValidator.msgNoEmployee dayId (RepValidator.Shift.employeeId s))
                       (RepValidator.scanThis sc)
              ∧ ∀ metrics validator',
                  RepValidator.calculateCapacity validator dayId shifts
                  = Some (metrics, validator') →
                  validator' = RepValidator.scanThis sc)
       ∧ (RepValidator.Day.isClosed day = false →
          RepValidator.schedule validator !! dayId = Some shifts →
          noValidScorecard (RepValidator.validateAndScore validator))).
Proof.
  split_and!.
  - intros day shifts s Hday Hsched Hs Hnone.
    assert (flagged (Solver_msgUnknownEmployee day s) (Solver.validation solver schedule))
      as [Hm Hf].
    { apply (validation_flagged solver schedule day); [done|].
      intros v. by apply (validateDay_unknown solver schedule v day shifts s). }
    unfold Solver.validateThenScore, Solver.validateSchedule. rewrite Hf. done.
  - intros d Hnd Hd Hnot.
    pose proof (validation_unknown_day solver schedule d Hnd Hd Hnot) as Hf.
    unfold Solver.validateThenScore, Solver.validateSchedule. rewrite Hf. done.
  - intros dayId day shifts s Hday Hs Hnone.
    assert (violation validator dayId day shifts
              (RepValidator.msgNoEmployee dayId (RepValidator.Shift.employeeId s))) as Hv.
    { by apply unknownEmployee. }
    split.
    + destruct (scanDay_total validator dayId day shifts) as [sc Hsc].
      exists sc. split; [done|]. split; [by eapply scanDay_logged|].
      intros metrics validator' Hcap. unfold RepValidator.calculateCapacity in Hcap.
      rewrite Hday, Hsc in Hcap.
      destruct (RepValidator.coverDay _ day shifts _) as [[achieved T]|]; [|done].
      by injection Hcap as _ <-.
    + intros Hopen Hsched.
      apply (validateAndScore_noValidScorecard validator dayId day
               (RepValidator.msgNoEmployee dayId (RepValidator.Shift.employeeId s)));
        [done..|]. by rewrite Hsched.
Qed.

Lemma unknown_reference_witness :
  ("Day 1: Shift 7-8-10-Register references unknown employee 7."
     ∈ Solver.errors (Solver.validation (ScenarioA.solver 1 1) ScenarioStranger.schedule)
   ∧ Solver.validateSchedule (ScenarioA.solver 1 1) ScenarioStranger.schedule = false
   ∧ Solver.validateThenScore (ScenarioA.solver 1 1) ScenarioStranger.schedule = Solver.Aborted)
  ∧ Solver.validateThenScore (ScenarioA.solver 1 1) {[1 := [ScenarioA.shift]; 9 := []]}
    = Solver.Aborted
  ∧ (∃ sc, RepValidator.scanDay ScenarioStranger.validator 1 ScenarioA.vDay
             [ScenarioA.vShift; ScenarioStranger.vStranger] = Some sc
           ∧ logged "Day 1: Shift uses non-existent employee ID 7" (RepValidator.scanThis sc))
  ∧ noValidScorecard (RepValidator.validateAndScore ScenarioStranger.validator).
Proof.
  destruct (unknown_reference (ScenarioA.solver 1 1) ScenarioStranger.schedule
              ScenarioStranger.validator) as (H1 & _ & H3).
  destruct (unknown_reference (ScenarioA.solver 1 1) {[1 := [ScenarioA.shift]; 9 := []]}
              ScenarioStranger.validator) as (_ & H2 & _).
  split; [|split; [|split]].
  - apply (H1 ScenarioA.day [ScenarioA.shift; ScenarioStranger.stranger]
              ScenarioStranger.stranger).
    + left.
    + reflexivity.
    + right. left.
    + reflexivity.
  - apply (H2 9).
    + apply NoDup_singleton.
    + eexists. reflexivity.
    + intros Hel. apply list_elem_of_singleton in Hel. discriminate Hel.
  - destruct (H3 1 ScenarioA.vDay [ScenarioA.vShift; ScenarioStranger.vStranger]
                ScenarioStranger.vStranger) as [(sc & Hsc & Hlog & _) _].
    + reflexivity.
    + right. left.
    + reflexivity.
    + exists sc. split; [exact Hsc|exact Hlog].
  - destruct (H3 1 ScenarioA.vDay [ScenarioA.vShift; ScenarioStranger.vStranger]
                ScenarioStranger.vStranger) as [_ Hno].
    + reflexivity.
    + right. left.
    + reflexivity.
    + apply Hno; reflexivity.
Defined.

(** C8 fails for skills: no skill name is checked against the input.  The
    shift on "Ghost", a skill that no day requires and no employee has, is
    accepted by [validateSchedule] without an error, and both programs
    score the schedule: the hour is billed and the score is 130. *)
Lemma unknown_reference_counterexample :
  Solver.validation ScenarioGhost.solver ScenarioGhost.schedule = Solver.mkValidation true []
  ∧ (∃ score, Solver.validateThenScore ScenarioGhost.solver ScenarioGhost.schedule
              = Solver.Scored (Some score) ∧ (score == 130)%Q)
  ∧ (∃ validator' profit,
       RepValidator.validateAndScore ScenarioGhost.validator
       = Some (validator', Some (RepValidator.ValidSchedule profit 20 1000 100))
       ∧ (profit == 130)%Q
       ∧ RepValidator.validationErrors validator' = []).
Proof.
  split; [vm_compute; reflexivity|]. split.
  - eexists. split; [vm_compute; reflexivity|]. vm_compute. reflexivity.
  - eexists _, _. split; [vm_compute; reflexivity|]. split; vm_compute; reflexivity.
Qed.

(** ** [RepValidator.validateAndScore] does not throw on a staffed schedule *)

Lemma Map_get_None {K V} `{EqDecision K} (k : K) (m : list (K * V)) :
  Map_get k m = None ↔ k ∉ m.*1.
Proof.
  unfold Map_get. induction m as [|[k' v'] m IH]; simpl.
  - split; [intros _; apply not_elem_of_nil|done].
  - destruct (decide (k' = k)) as [->|Hne].
    + rewrite bool_decide_eq_true_2 by done. simpl. split; [done|].
      intros Hk. destruct Hk. by left.
    + rewrite bool_decide_eq_false_2 by done. rewrite IH, not_elem_of_cons.
      split; [by intros ?; split; [congruence|]|by intros [_ ?]].
Qed.

Lemma Map_set_keys {K V} `{EqDecision K} (k : K) (v : V) (m : list (K * V)) :
  (Map_set k v m).*1 = if decide (k ∈ m.*1) then m.*1 else m.*1 ++ [k].
Proof.
  unfold Map_set. case_decide as Hin.
  - clear Hin. induction m as [|[k' v'] m IH]; [done|]. rewrite !fmap_cons. cbn [fst].
    rewrite IH. by case_decide; subst.
  - by rewrite fmap_app.
Qed.

(** An entry of the map after [set]: the new one under its key, the old
    ones under the other keys. *)
Lemma elem_of_Map_set_inv {K V} `{EqDecision K} (k k' : K) (v v' : V) (m : list (K * V)) :
  (k', v') ∈ Map_set k v m → (k' ≠ k ∧ (k', v') ∈ m) ∨ (k' = k ∧ v' = v).
Proof.
  unfold Map_set. case_decide as Hin.
  - intros Hel. apply list_elem_of_fmap in Hel as ([k1 v1] & Heq & Hel).
    simpl in Heq. case_decide as Hk; [right; by injection Heq as -> ->|].
    injection Heq as -> ->. by left.
  - rewrite elem_of_app, list_elem_of_singleton. intros [?|[= -> ->]]; [|by right].
    left. split; [|done]. intros ->. apply Hin. apply list_elem_of_fmap. by exists (k, v').
Qed.

Lemma Map_set_NoDup {K V} `{EqDecision K} (k : K) (v : V) (m : list (K * V)) :
  NoDup m.*1 → NoDup (Map_set k v m).*1.
Proof.
  intros Hnd. rewrite Map_set_keys. case_decide as Hin; [done|].
  apply NoDup_app. split_and!; [done| |apply NoDup_singleton].
  intros x Hx Hx'%list_elem_of_singleton. by subst.
Qed.

Lemma foldM_sum {A} (g : A → Z) (l : list A) (a : Z) :
  foldM (λ acc x, Some (acc + g x)) a l = Some (a + total g l).
Proof.
  revert a. induction l as [|x l IH]; intros a; simpl; [f_equal; lia|].
  rewrite IH. f_equal. lia.
Qed.

Lemma skillHours_snoc shifts x e sk :
  skillHours (shifts ++ [x]) e sk
  = skillHours shifts e sk
    ++ (if decide (RepValidator.Shift.employeeId x = e ∧ RepValidator.Shift.skill x = sk)
        then hours (RepValidator.Shift.start x) (RepValidator.Shift.end_ x) else []).
Proof.
  unfold skillHours. rewrite filter_app, bind_app. f_equal.
  rewrite filter_cons, filter_nil. case_decide; [|done]. simpl. by rewrite app_nil_r.
Qed.

(** The first loop of [updateTraining] on shifts with ordinary skill
    names: it does not throw, and the cell of an employee and a skill
    holds the hours of their shifts. *)
Lemma empSkillHours_spec shifts :
  ordinarySkills shifts →
  ∃ cells, RepValidator.empSkillHours shifts = Some cells
    ∧ NoDup cells.*1
    ∧ (∀ e sk c, ((e, sk), c) ∈ cells →
         c = RepValidator.Hours (skillHours shifts e sk)
         ∧ ∃ s, s ∈ shifts ∧ RepValidator.Shift.employeeId s = e
                ∧ RepValidator.Shift.skill s = sk)
    ∧ (∀ e sk, (e, sk) ∉ cells.*1 → skillHours shifts e sk = []).
Proof.
  unfold RepValidator.empSkillHours.
  induction shifts as [|x l IH] using rev_ind; intros Hord.
  - exists []. split_and!; [done|constructor| |done]. by intros ??? ?%elem_of_nil.
  - unfold ordinarySkills in Hord. rewrite Forall_app, Forall_singleton in Hord.
    destruct Hord as [Hl Hx].
    destruct (IH Hl) as (cells & Hcells & Hnd & Hin & Hout).
    rewrite foldM_app, Hcells. cbn [foldM]. unfold RepValidator.pushHours.
    set (key := (RepValidator.Shift.employeeId x, RepValidator.Shift.skill x)).
    set (worked := hours (RepValidator.Shift.start x) (RepValidator.Shift.end_ x)).
    assert (∃ pushed,
              match Map_get key cells with
              | Some cell => cell
              | None => if inherited (RepValidator.Shift.skill x)
                        then RepValidator.Member else RepValidator.Hours []
              end = RepValidator.Hours pushed
              ∧ pushed = skillHours l (RepValidator.Shift.employeeId x)
                           (RepValidator.Shift.skill x)) as (pushed & -> & Hpushed).
    { destruct (Map_get key cells) as [cell|] eqn:Hget.
      - apply Map_get_elem_of, Hin in Hget as [-> _]. by eexists.
      - exists []. rewrite Hx. split; [done|]. symmetry. apply Hout. by apply Map_get_None. }
    eexists. split; [done|]. split_and!.
    + by apply Map_set_NoDup.
    + intros e sk c [[Hne Hel]|[[= -> ->] ->]]%elem_of_Map_set_inv.
      * destruct (Hin e sk c Hel) as (-> & s & Hs & He & Hsk). split.
        -- rewrite skillHours_snoc, decide_False, app_nil_r; [done|].
           intros [<- <-]. by apply Hne.
        -- exists s. split; [|done]. apply elem_of_app. by left.
      * split.
        -- by rewrite skillHours_snoc, decide_True, Hpushed.
        -- exists x. split; [|done]. apply elem_of_app. right. by left.
    + intros e sk Hnot. rewrite Map_set_keys in Hnot.
      rewrite skillHours_snoc.
      assert (((e, sk) ∉ cells.*1) ∧ ((e, sk) ≠ key)) as [Hc Hk].
      { case_decide as Hkin.
        - split; [done|]. intros Heq. apply Hnot. by rewrite Heq.
        - apply not_elem_of_app in Hnot as [? Hk]. split; [done|].
          intros Heq. apply Hk. rewrite Heq. by left. }
      rewrite (Hout e sk Hc), decide_False; [done|]. intros [<- <-]. by apply Hk.
Qed.

Lemma trainCell_spec T this e sk hs employee :
  RepValidator.employees this !! e = Some employee →
  inherited sk = false →
  ∃ this', RepValidator.trainCell T this ((e, sk), RepValidator.Hours hs) = Some this'
    ∧ RepValidator.points this' e sk
      = (if RepValidator.isTrained this e sk then RepValidator.points this e sk
         else RepValidator.points this e sk + total (RepValidator.hourGain employee T sk) hs)
    ∧ ∀ e' sk', (e', sk') ≠ (e, sk) →
        RepValidator.points this' e' sk' = RepValidator.points this e' sk'.
Proof.
  intros Hemp Hord. unfold RepValidator.trainCell. rewrite Hemp.
  destruct (RepValidator.isTrained this e sk); [by eexists|].
  cbn beta iota. rewrite foldM_sum. eexists. split; [done|].
  unfold RepValidator.points. simpl. split.
  - rewrite lookup_insert_eq. simpl. rewrite Object_number_add.
    rewrite !Object_number_ordinary by done. simpl. lia.
  - intros e' sk' Hne. destruct (decide (e' = e)) as [->|He]; [|by rewrite lookup_insert_ne].
    rewrite lookup_insert_eq. simpl. rewrite Object_number_add_ne; [done|]. congruence.
Qed.

Lemma trainCell_weeklyHours T this cell this' :
  RepValidator.trainCell T this cell = Some this' →
  RepValidator.weeklyHours this' = RepValidator.weeklyHours this.
Proof.
  destruct cell as [[empId skill] [hoursWorked|]]; unfold RepValidator.trainCell;
    (destruct (RepValidator.isTrained this empId skill); [by intros [= <-]|]); [|done].
  simpl. destruct (foldM _ 0 hoursWorked) as [totalGain|]; [|done].
  by intros [= <-].
Qed.

(** The second loop of [updateTraining] over cells of known employees and
    ordinary skills. *)
Lemma trainCells_spec T cells this :
  NoDup cells.*1 →
  (∀ e sk c, ((e, sk), c) ∈ cells →
     is_Some (RepValidator.employees this !! e) ∧ inherited sk = false
     ∧ ∃ hs, c = RepValidator.Hours hs) →
  ∃ this', foldM (RepValidator.trainCell T) this cells = Some this'
    ∧ (∀ e sk hs, ((e, sk), RepValidator.Hours hs) ∈ cells →
         RepValidator.points this' e sk
         = if RepValidator.isTrained this e sk then RepValidator.points this e sk
           else RepValidator.points this e sk + total (RepValidator_gain this T e sk) hs)
    ∧ (∀ e sk, (e, sk) ∉ cells.*1 →
         RepValidator.points this' e sk = RepValidator.points this e sk).
Proof.
  revert this. induction cells as [|[[e0 sk0] c0] cells IH]; intros this Hnd Hcells.
  - exists this. split_and!; [done| |done]. by intros ??? ?%elem_of_nil.
  - rewrite fmap_cons in Hnd. apply NoDup_cons in Hnd as [Hfresh Hnd]. cbn [fst] in Hfresh.
    destruct (Hcells e0 sk0 c0) as ([employee Hemp] & Hord & hs0 & ->); [by left|].
    destruct (trainCell_spec T this e0 sk0 hs0 employee Hemp Hord) as (this1 & Hstep & Hp & Hother).
    pose proof (trainCell_frame _ _ _ _ Hstep) as [(_ & _ & Hemps & _) _].
    destruct (IH this1 Hnd) as (this' & Hfold & Hin & Hout).
    { intros e sk c Hel. rewrite <-Hemps. apply Hcells. by right. }
    exists this'. cbn [foldM]. rewrite Hstep. split; [done|]. split.
    + intros e sk hs [[= -> -> ->]|Hel]%elem_of_cons.
      * rewrite Hout by done. rewrite Hp. unfold RepValidator_gain. by rewrite Hemp.
      * assert ((e, sk) ≠ (e0, sk0)) as Hne.
        { intros [= -> ->]. apply Hfresh. apply list_elem_of_fmap. by eexists (_, _). }
        rewrite (Hin e sk hs Hel). unfold RepValidator.isTrained.
        rewrite (Hother e sk Hne). unfold RepValidator_gain. by rewrite Hemps.
    + intros e sk Hnot. rewrite fmap_cons in Hnot. apply not_elem_of_cons in Hnot as [Hne Hnot].
      rewrite (Hout e sk Hnot). by apply Hother.
Qed.

(** [updateTraining] on a day whose shifts name existing employees and
    ordinary skills: an employee who is not trained in a skill gains, for
    every hour of every shift on it, the gain of that hour; the points of
    a trained employee stay. *)
Lemma updateTraining_spec this dayId shifts T :
  RepValidator_staffed this shifts → ordinarySkills shifts →
  ∃ this', RepValidator.updateTraining this dayId shifts T = Some this'
    ∧ ∀ e sk,
        RepValidator.points this' e sk
        = if RepValidator.isTrained this e sk then RepValidator.points this e sk
          else RepValidator.points this e sk
               + total (RepValidator_gain this T e sk) (skillHours shifts e sk).
Proof.
  intros Hst Hord. unfold RepValidator.updateTraining.
  destruct (empSkillHours_spec shifts Hord) as (cells & -> & Hnd & Hin & Hout).
  unfold RepValidator_staffed in Hst. unfold ordinarySkills in Hord.
  rewrite Forall_forall in Hst, Hord.
  destruct (trainCells_spec T cells this Hnd) as (this' & Hfold & Hcell & Hrest).
  { intros e sk c Hel. destruct (Hin e sk c Hel) as (-> & s & Hs & <- & <-).
    split_and!; [by apply Hst|by apply Hord|by eexists]. }
  exists this'. split; [done|]. intros e sk.
  destruct (decide ((e, sk) ∈ cells.*1)) as [Hk|Hk].
  - apply list_elem_of_fmap in Hk as ([[e' sk'] c] & [= <- <-] & Hel).
    destruct (Hin e sk c Hel) as (-> & _). by apply Hcell.
  - rewrite (Hrest e sk Hk), (Hout e sk Hk). simpl. destruct (RepValidator.isTrained _ _ _); lia.
Qed.

Lemma updateTraining_weeklyHours this dayId shifts T this' :
  RepValidator.updateTraining this dayId shifts T = Some this' →
  RepValidator.weeklyHours this' = RepValidator.weeklyHours this.
Proof.
  unfold RepValidator.updateTraining.
  destruct (RepValidator.empSkillHours shifts) as [cells|]; [simpl|done].
  apply (foldM_invariant (λ t, RepValidator.weeklyHours t = RepValidator.weeklyHours this));
    [|done].
  intros t cell t' _ Ht Hstep. apply trainCell_weeklyHours in Hstep. congruence.
Qed.

Lemma updateTraining_total this dayId shifts T :
  RepValidator_staffed this shifts → ordinarySkills shifts →
  is_Some (RepValidator.updateTraining this dayId shifts T).
Proof.
  intros Hst Hord. destruct (updateTraining_spec this dayId shifts T Hst Hord) as (t & -> & _).
  by eexists.
Qed.

Lemma scoreDay_total this dayId :
  is_Some (RepValidator.days this !! dayId) →
  RepValidator_scheduleStaffed this →
  RepValidator_scheduleOrdinary this →
  is_Some (RepValidator.scoreDay this dayId).
Proof.
  intros [day Hday] Hst Hord. unfold RepValidator.scoreDay. rewrite Hday.
  destruct (RepValidator.Day.isClosed day); [by eexists|].
  destruct (weeklyReset_frame this dayId) as (Hsame & _).
  set (shifts := default [] (RepValidator.schedule this !! dayId)).
  assert (RepValidator_staffed this shifts ∧ ordinarySkills shifts) as [Hshifts Hskills].
  { unfold shifts. destruct (RepValidator.schedule this !! dayId) as [l|] eqn:Hl; simpl.
    - split; [by eapply Hst|by eapply Hord].
    - split; constructor. }
  destruct (calculateCapacity_spec (RepValidator.weeklyReset this dayId) dayId day shifts)
    as (metrics & this1 & sc & -> & _ & _ & _ & Hsame1 & _).
  { destruct Hsame as (_ & <- & _). done. }
  { unfold RepValidator_staffed in *. destruct Hsame as (_ & _ & <- & _). done. }
  destruct (updateTraining_total this1 dayId shifts (RepValidator.hourlyTeachers metrics))
    as [this2 ->]; [|done|by eexists].
  unfold RepValidator_staffed in *.
  destruct Hsame as (_ & _ & Hemps & _). destruct Hsame1 as (_ & _ & <- & _).
  by rewrite <-Hemps.
Qed.

(** On a schedule that parsed without an error and names existing
    employees and ordinary skills only, [validateAndScore] runs through
    all days and prints a scorecard. *)
Lemma validateAndScore_total this :
  RepValidator.isValid this = true →
  RepValidator_scheduleStaffed this →
  RepValidator_scheduleOrdinary this →
  ∃ this' report, RepValidator.validateAndScore this = Some (this', Some report).
Proof.
  intros Hvalid Hst Hord. unfold RepValidator.validateAndScore. rewrite Hvalid. simpl.
  destruct (foldM_total (λ t, sameInput this t) RepValidator.scoreDay
              (RepValidator.dayIds this) this) as (t & -> & _);
    [|apply sameInput_refl|by eexists _, _].
  intros t d Hd Hin.
  destruct (scoreDay_total t d) as [t' Ht'].
  - apply elem_of_dayIds in Hd. by destruct Hin as (_ & <- & _).
  - intros dayId shifts Hsched. destruct Hin as (_ & _ & Hemps & Hs).
    unfold RepValidator_staffed. rewrite <-Hemps. apply (Hst dayId). by rewrite Hs.
  - intros dayId shifts Hsched. destruct Hin as (_ & _ & _ & Hs).
    apply (Hord dayId). by rewrite Hs.
  - exists t'. split; [done|]. eapply sameInput_trans; [done|].
    by apply scoreDay_errorsGrow in Ht' as [? _].
Qed.

(** [_logError] keeps the error list free of duplicates. *)
Lemma logError_NoDup m this :
  NoDup (RepValidator.validationErrors this) →
  NoDup (RepValidator.validationErrors (RepValidator._logError m this)).
Proof.
  intros Hnd. simpl. case_decide as Hin; [done|].
  apply NoDup_app. split_and!; [done| |apply NoDup_singleton].
  intros x Hx Hx'. apply list_elem_of_singleton in Hx'. by subst.
Qed.

Lemma validityChecks_NoDup dayId day emp today shift this :
  NoDup (RepValidator.validationErrors this) →
  NoDup (RepValidator.validationErrors
           (RepValidator.validityChecks dayId day emp today shift this)).
Proof.
  intros Hnd. unfold RepValidator.validityChecks.
  repeat case_decide; destruct (existsb _ today); repeat apply logError_NoDup; done.
Qed.

Lemma scanDay_NoDup this dayId day shifts sc :
  RepValidator.scanDay this dayId day shifts = Some sc →
  NoDup (RepValidator.validationErrors this) →
  NoDup (RepValidator.validationErrors (RepValidator.scanThis sc)).
Proof.
  intros Hscan Hnd. revert Hscan. unfold RepValidator.scanDay.
  apply (foldM_invariant
           (λ sc, NoDup (RepValidator.validationErrors (RepValidator.scanThis sc))));
    [|done].
  intros sc0 shift sc1 _ Hnd0.
  destruct (RepValidator.employees (RepValidator.scanThis sc0)
              !! RepValidator.Shift.employeeId shift) as [emp|] eqn:Hemp.
  - rewrite (scanShift_known _ _ _ _ emp) by done. intros [= <-]. simpl.
    by apply validityChecks_NoDup.
  - rewrite scanShift_unknown by done. intros [= <-].
    by apply logError_NoDup.
Qed.

Lemma scoreDays_NoDup this l this' :
  foldM RepValidator.scoreDay this l = Some this' →
  NoDup (RepValidator.validationErrors this) →
  NoDup (RepValidator.validationErrors this').
Proof.
  intros Hfold Hnd. revert Hfold.
  apply (foldM_invariant (λ t, NoDup (RepValidator.validationErrors t))); [|done].
  intros t d t' _ Hnd0 Hstep.
  apply scoreDay_inv in Hstep as (day & _ & _ & Herr).
  destruct (RepValidator.Day.isClosed day).
  - destruct Herr as [-> _]. done.
  - destruct Herr as (sc & Hscan & -> & _).
    eapply scanDay_NoDup; [done|].
    by destruct (weeklyReset_frame t d) as (_ & -> & _).
Qed.

(** C9, as the code has it.  On a schedule that parsed without an error
    and names existing employees only, on skills none of which is named
    like a member of [Object.prototype], [validateAndScore] visits every
    day and prints a scorecard; the message of every violation it checks
    on an open day (an employee scheduled on a vacation day, a shift
    outside the store hours, two overlapping shifts of one employee) is in
    the error list, each message once, and a schedule with such a
    violation gets the scorecard of an invalid schedule, whose score is 0,
    with these errors. *)
Theorem violations_reported (this : RepValidator.t) :
  RepValidator.isValid this = true →
  RepValidator_scheduleStaffed this →
  RepValidator_scheduleOrdinary this →
  ∃ this' report,
    RepValidator.validateAndScore this = Some (this', Some report)
    ∧ (NoDup (RepValidator.validationErrors this) →
       NoDup (RepValidator.validationErrors this'))
    ∧ ∀ dayId day m,
        RepValidator.days this !! dayId = Some day →
        RepValidator.Day.isClosed day = false →
        violation this dayId day (default [] (RepValidator.schedule this !! dayId)) m →
        m ∈ RepValidator.validationErrors this'
        ∧ report = RepValidator.InvalidSchedule (RepValidator.validationErrors this')
        ∧ RepValidator.reportedScore report = 0%Q.
Proof.
  intros Hvalid Hst Hord.
  destruct (validateAndScore_total this Hvalid Hst Hord) as (this' & report & Hrun).
  exists this', report. split; [done|].
  unfold RepValidator.validateAndScore in Hrun. rewrite Hvalid in Hrun. simpl in Hrun.
  destruct (foldM _ this _) as [t|] eqn:Hfold; [|done]. injection Hrun as <- <-.
  split.
  - intros Hnd. by eapply scoreDays_NoDup.
  - intros dayId day m Hday Hopen Hv.
    destruct (scoreDays_logged this t dayId day m Hday Hopen Hv Hfold) as [Hm Hf].
    rewrite Hf. done.
Qed.

Lemma violations_reported_witness :
  ∃ validator',
    RepValidator.validateAndScore ScenarioVacation.validator
    = Some (validator',
            Some (RepValidator.InvalidSchedule (RepValidator.validationErrors validator')))
    ∧ "Day 1: Employee 1 scheduled on vacation day."
        ∈ RepValidator.validationErrors validator'.
Proof.
  destruct (violations_reported ScenarioVacation.validator) as (v' & report & Hrun & _ & Hall).
  - reflexivity.
  - intros dayId shifts Hsched.
    destruct (decide (dayId = 1)) as [->|Hne].
    + vm_compute in Hsched. injection Hsched as <-.
      constructor; [vm_compute; eexists; reflexivity|].
      constructor; [vm_compute; eexists; reflexivity|constructor].
    + unfold ScenarioVacation.validator in Hsched. simpl in Hsched.
      rewrite lookup_singleton_ne in Hsched by done. discriminate Hsched.
  - intros dayId shifts Hsched.
    destruct (decide (dayId = 1)) as [->|Hne].
    + vm_compute in Hsched. injection Hsched as <-.
      constructor; [reflexivity|]. constructor; [reflexivity|constructor].
    + unfold ScenarioVacation.validator in Hsched. simpl in Hsched.
      rewrite lookup_singleton_ne in Hsched by done. discriminate Hsched.
  - destruct (Hall 1 ScenarioA.vDay "Day 1: Employee 1 scheduled on vacation day.")
      as (Hm & Hr & _).
    + reflexivity.
    + reflexivity.
    + apply (onVacation ScenarioVacation.validator 1 ScenarioA.vDay _
               (RepValidator.Shift.mk 1 8 9 "Register") ScenarioVacation.vEmployee).
      * left.
      * reflexivity.
      * vm_compute. reflexivity.
    + exists v'. split; [by rewrite Hrun, Hr|exact Hm].
Defined.

(** C9 fails on the number of reports: [_logError] drops a message that
    is already in the list.  Both shifts of the employee of
    [ScenarioVacation] fall on a vacation day, two violations, and the
    scorecard lists one error.  A schedule that was flagged while it was
    parsed (here: shifts on a closed day) is not scored, and
    [validateAndScore] returns before it prints a scorecard. *)
Lemma violations_reported_counterexample :
  (∃ validator',
     length (filter (λ s, 1 ∈ RepValidator.Employee.vacationDays ScenarioVacation.vEmployee
                          ∧ RepValidator.Shift.employeeId s = 1)
                    ScenarioVacation.vShifts) = 2%nat
     ∧ RepValidator.validateAndScore ScenarioVacation.validator
       = Some (validator',
               Some (RepValidator.InvalidSchedule
                       ["Day 1: Employee 1 scheduled on vacation day."])))
  ∧ (let flaggedAtParse :=
       RepValidator._logError "Day 1 is closed but has shifts assigned."
         (RepValidator.mk (RepValidator.mkOrganization 50 100)
            {[1 := RepValidator.Day.mk 1 true 0 0 0 []]} {[1 := ScenarioA.vEmployee 1 1]}
            {[1 := []]} {[1 := {["Register" := 1000]}]} ∅ 0 0 0 true []) in
     RepValidator.validateAndScore flaggedAtParse = Some (flaggedAtParse, None)).
Proof.
  split.
  - eexists. split; [vm_compute; reflexivity|]. vm_compute. reflexivity.
  - vm_compute. reflexivity.
Qed.

(** ** The greedy schedulers *)

Lemma NoDup_fmap_filter {A B} (f : A → B) (p : A → bool) (l : list A) :
  NoDup (f <$> l) → NoDup (f <$> List.filter p l).
Proof.
  induction l as [|x l IH]; simpl; [done|].
  intros [Hx Hl]%NoDup_cons. destruct (p x); [|by apply IH].
  simpl. apply NoDup_cons. split; [|by apply IH].
  intros Hin. apply Hx. apply list_elem_of_fmap in Hin as (y & -> & Hy).
  apply list_elem_of_fmap. exists y. split; [done|].
  apply list_elem_of_In. apply list_elem_of_In, filter_In in Hy. tauto.
Qed.

(** Shifts of pairwise different employees do not overlap. *)
Lemma NoDup_NoOverlap {A} `{ShiftLike A} (shifts : list A) :
  NoDup (employeeOf <$> shifts) → NoOverlap shifts.
Proof.
  induction shifts as [|s l IH]; simpl; [done|].
  intros [Hs Hl]%NoDup_cons. split; [|by apply IH].
  apply Forall_forall. intros s' Hs' Heq. destruct Hs.
  apply list_elem_of_fmap. by exists s'.
Qed.

Lemma availableEmployees_spec this day emp :
  emp ∈ Solver.availableEmployees this day
  ↔ emp ∈ Solver.employees this ∧ Solver.Day.id day ∉ Solver.Employee.vacationDays emp.
Proof.
  unfold Solver.availableEmployees. rewrite Array_sort_Permutation.
  rewrite list_elem_of_filter. tauto.
Qed.

Lemma availableEmployees_NoDup this day :
  NoDup (Solver.Employee.id <$> Solver.employees this) →
  NoDup (Solver.Employee.id <$> Solver.availableEmployees this day).
Proof.
  intros Hnd. unfold Solver.availableEmployees. rewrite Array_sort_Permutation.
  eapply sublist_NoDup; [exact Hnd|apply fmap_sublist, sublist_filter].
Qed.

(** One required skill adds whole-day shifts of employees who have no
    shift on the day yet. *)
Lemma coverSkill_spec this day skill shifts assigned :
  NoDup (Solver.Employee.id <$> Solver.employees this) →
  skill ∈ Solver.Day.requiredSkills day →
  Forall (wellPlaced this day) shifts →
  (∀ s, s ∈ shifts → Solver.Shift.employeeId s ∈ assigned) →
  NoDup (Solver.Shift.employeeId <$> shifts) →
  let acc := Solver.coverSkill day (Solver.availableEmployees this day) (shifts, assigned) skill in
  Forall (wellPlaced this day) acc.1
  ∧ (∀ s, s ∈ acc.1 → Solver.Shift.employeeId s ∈ acc.2)
  ∧ NoDup (Solver.Shift.employeeId <$> acc.1).
Proof.
  intros Hnd Hskill Hwp Hass Hids.
  set (available := Solver.availableEmployees this day).
  assert (∀ emp, emp ∈ available → wellPlaced this day (Solver.wholeDay day skill emp))
    as Hplace.
  { intros emp [Hemp Hvac]%availableEmployees_spec.
    split; [done|]. split; [done|]. split; [done|]. exists emp. by split_and!. }
  assert (∀ emp, Solver.Employee.id emp ∉ assigned →
            Solver.Employee.id emp ∉ Solver.Shift.employeeId <$> shifts) as Hfresh.
  { intros emp Hfree Hin. apply list_elem_of_fmap in Hin as (s & Heq & Hs).
    apply Hfree. rewrite Heq. by apply Hass. }
  assert (∀ emp, emp ∈ available → Solver.Employee.id emp ∉ assigned →
            Forall (wellPlaced this day) (shifts ++ [Solver.wholeDay day skill emp])
            ∧ (∀ s, s ∈ shifts ++ [Solver.wholeDay day skill emp] →
                    Solver.Shift.employeeId s ∈ assigned ∪ {[Solver.Employee.id emp]})
            ∧ NoDup (Solver.Shift.employeeId <$> shifts ++ [Solver.wholeDay day skill emp]))
    as Hone.
  { intros emp Hemp Hfree. split_and!.
    - apply Forall_app. split; [done|]. constructor; [by apply Hplace|constructor].
    - intros s [Hs|Hs%list_elem_of_singleton]%elem_of_app.
      + apply elem_of_union_l. by apply Hass.
      + subst s. apply elem_of_union_r. simpl. by apply elem_of_singleton.
    - rewrite fmap_app. apply NoDup_app. split_and!; [done| |apply NoDup_singleton].
      intros x Hx Hx'%list_elem_of_singleton. subst x. by apply (Hfresh emp). }
  unfold Solver.coverSkill. fold available.
  destruct (List.find _ available) as [emp|] eqn:Hfind1.
  { apply find_some in Hfind1 as [Hin Hp]. simpl in Hp. apply andb_true_iff in Hp as [Hfree _].
    apply bool_decide_eq_true in Hfree. apply Hone; [by apply list_elem_of_In|done]. }
  destruct (take 2 (List.filter _ available)) as [|emp1 [|emp2 [|emp3 rest]]] eqn:Htake.
  1,2,4: destruct (List.find (λ emp : Solver.Employee.t,
                                bool_decide (Solver.Employee.id emp ∉ assigned)) available)
           as [emp|] eqn:Hfind3;
    [apply find_some in Hfind3 as [Hin Hfree]; apply bool_decide_eq_true in Hfree;
     apply Hone; [by apply list_elem_of_In|done]
    |simpl; done].
  simpl.
  set (free := λ emp : Solver.Employee.t, bool_decide (Solver.Employee.id emp ∉ assigned)) in *.
  assert (∃ rest, List.filter free available = emp1 :: emp2 :: rest) as [rest Hfilter].
  { destruct (List.filter free available) as [|a [|b l]]; try done.
    simpl in Htake. injection Htake as -> ->. by eexists. }
  assert (emp1 ∈ available ∧ Solver.Employee.id emp1 ∉ assigned) as [Hin1 Hfree1].
  { assert (In emp1 (List.filter free available)) as Hin by (rewrite Hfilter; by left).
    apply filter_In in Hin as [Hin Hf]. apply bool_decide_eq_true in Hf.
    split; [by apply list_elem_of_In|done]. }
  assert (emp2 ∈ available ∧ Solver.Employee.id emp2 ∉ assigned) as [Hin2 Hfree2].
  { assert (In emp2 (List.filter free available)) as Hin by (rewrite Hfilter; right; by left).
    apply filter_In in Hin as [Hin Hf]. apply bool_decide_eq_true in Hf.
    split; [by apply list_elem_of_In|done]. }
  assert (Solver.Employee.id emp1 ≠ Solver.Employee.id emp2) as Hne.
  { pose proof (NoDup_fmap_filter Solver.Employee.id free available
                  (availableEmployees_NoDup this day Hnd)) as Hnd2.
    rewrite Hfilter in Hnd2. simpl in Hnd2. apply NoDup_cons in Hnd2 as [Hnot _].
    intros Heq. apply Hnot. rewrite Heq. left. }
  split_and!.
  - apply Forall_app. split; [done|].
    constructor; [by apply Hplace|]. constructor; [by apply Hplace|constructor].
  - intros s [Hs|Hs]%elem_of_app.
    + apply elem_of_union_l, elem_of_union_l. by apply Hass.
    + apply elem_of_cons in Hs as [->|Hs%list_elem_of_singleton].
      * apply elem_of_union_l, elem_of_union_r. simpl. by apply elem_of_singleton.
      * subst s. apply elem_of_union_r. simpl. by apply elem_of_singleton.
  - rewrite fmap_app. apply NoDup_app. split_and!; [done| |].
    + intros x Hx Hx'. simpl in Hx'.
      apply elem_of_cons in Hx' as [->|Hx'%list_elem_of_singleton].
      * by apply (Hfresh emp1).
      * subst x. by apply (Hfresh emp2).
    + simpl. apply NoDup_cons. split; [|apply NoDup_singleton].
      intros Hel%list_elem_of_singleton. done.
Qed.

(** The sibling scheduler keeps the promise: the shifts [generateSchedule]
    of bah3.js places on a day are structurally valid. *)
Lemma dailyShifts_valid this day :
  NoDup (Solver.Employee.id <$> Solver.employees this) →
  (Solver.Day.isOpen day = false → Solver.dailyShifts this day = [])
  ∧ Forall (wellPlaced this day) (Solver.dailyShifts this day)
  ∧ NoOverlap (Solver.dailyShifts this day).
Proof.
  intros Hnd. unfold Solver.dailyShifts.
  destruct (Solver.Day.isOpen day); simpl; [|by split_and!].
  split; [done|].
  cut (∀ skills acc,
         (∀ skill, skill ∈ skills → skill ∈ Solver.Day.requiredSkills day) →
         Forall (wellPlaced this day) acc.1 →
         (∀ s, s ∈ acc.1 → Solver.Shift.employeeId s ∈ acc.2) →
         NoDup (Solver.Shift.employeeId <$> acc.1) →
         let acc' := fold_left (Solver.coverSkill day (Solver.availableEmployees this day))
                               skills acc in
         Forall (wellPlaced this day) acc'.1 ∧ NoDup (Solver.Shift.employeeId <$> acc'.1)).
  { intros Hgen.
    destruct (Hgen (Solver.Day.requiredSkills day) ([], ∅)) as [H1 H2]; simpl; try done.
    - intros s Hs. by apply elem_of_nil in Hs.
    - constructor.
    - split; [done|]. by apply (NoDup_NoOverlap (A := Solver.Shift.t)). }
  induction skills as [|skill skills IH]; intros [shifts assigned] Hsk Hwp Hass Hids; simpl.
  - done.
  - simpl in *.
    destruct (coverSkill_spec this day skill shifts assigned Hnd) as (H1 & H2 & H3);
      [apply Hsk; by left|done..|].
    apply IH; [|done..]. intros sk Hin. apply Hsk. by right.
Qed.

(** C7 at the input of [ScenarioTwoSkills].  [advancedSchedule] of
    sonnet.js and [scheduleDay] of part_000 pick the best candidate for
    every required skill anew and give the only employee two shifts over
    the same hours 8 to 10, one per skill: shifts of one employee that
    overlap, which [validateSchedule] rejects.  [generateSchedule] of
    bah3.js, which tracks the employees already assigned on the day, gives
    the employee one shift and leaves the second skill uncovered.
    [scheduleDay] of part_000 moreover looks up the index of the day, not
    its id, in the vacation set, and schedules the employee of
    [ScenarioHoliday] on the vacation day 1. *)
Theorem greedy_overlap :
  let sonnetShifts := [Sonnet.Shift.mk 1 8 10 "Register"; Sonnet.Shift.mk 1 8 10 "Stock"] in
  let partShifts := [Part000.Shift.mk 1 0 8 10 "Register"; Part000.Shift.mk 1 0 8 10 "Stock"] in
  Sonnet.advancedSchedule ScenarioTwoSkills.sonnet
  = Some [Sonnet.mkDaySchedule 1 sonnetShifts]
  ∧ ¬ NoOverlap sonnetShifts
  ∧ Part000.scheduleDay ScenarioTwoSkills.scheduler 0 ScenarioTwoSkills.day = Some partShifts
  ∧ ¬ NoOverlap partShifts
  ∧ Solver.validateSchedule ScenarioTwoSkills.solver
      {[1 := [Solver.Shift.mk 1 8 10 "Register"; Solver.Shift.mk 1 8 10 "Stock"]]} = false
  ∧ Solver.generateSchedule ScenarioTwoSkills.solver
    = [(1, [Solver.Shift.mk 1 8 10 "Register"])]
  ∧ Solver.validateSchedule ScenarioTwoSkills.solver
      (list_to_map (Solver.generateSchedule ScenarioTwoSkills.solver)) = true
  ∧ Part000.Day.id ScenarioTwoSkills.day ∈ Part000.Employee.vacationSet ScenarioHoliday.employee
  ∧ Part000.scheduleDay ScenarioHoliday.scheduler 0 ScenarioTwoSkills.day = Some partShifts.
Proof.
  simpl. split_and!; [..|vm_compute; reflexivity|vm_compute; reflexivity].
  - vm_compute. reflexivity.
  - intros [Hno _]. apply Forall_cons in Hno as [Hno _]. apply Hno; [reflexivity|].
    unfold overlap. simpl. lia.
  - vm_compute. reflexivity.
  - intros [Hno _]. apply Forall_cons in Hno as [Hno _]. apply Hno; [reflexivity|].
    unfold overlap. simpl. lia.
  - vm_compute. reflexivity.
  - vm_compute. reflexivity.
  - vm_compute. reflexivity.
Qed.

(** ** Keys of the grouping maps *)

Lemma split_noDash s : noDash s → split "-" s = [s].
Proof.
  induction s as [|c s IH]; [done|].
  intros [Hc Hs]. cbn [split]. destruct (decide (c = "-"%char)) as [|_]; [done|].
  by rewrite IH.
Qed.

Lemma split_app s1 s2 :
  noDash s1 → split "-" (s1 +:+ String "-" s2) = s1 :: split "-" s2.
Proof.
  induction s1 as [|c s1 IH].
  - intros _. change ("" +:+ String "-" s2) with (String "-" s2). cbn [split].
    destruct (decide ("-"%char = "-"%char)) as [_|]; done.
  - intros [Hc Hs].
    change (String c s1 +:+ String "-" s2) with (String c (s1 +:+ String "-" s2)).
    cbn [split]. destruct (decide (c = "-"%char)) as [|_]; [done|]. by rewrite IH.
Qed.

Lemma noDash_app s1 s2 : noDash s1 → noDash s2 → noDash (s1 +:+ s2).
Proof. induction s1 as [|c s1 IH]; simpl; [done|]. intros [??] ?. auto. Qed.

Lemma string_app_assoc (s1 s2 s3 : string) : (s1 +:+ s2) +:+ s3 = s1 +:+ (s2 +:+ s3).
Proof.
  induction s1 as [|c s1 IH]; [done|].
  change (String c ((s1 +:+ s2) +:+ s3) = String c (s1 +:+ (s2 +:+ s3))). by f_equal.
Qed.

Lemma string_app_length (s1 s2 : string) :
  String.length (s1 +:+ s2) = (String.length s1 + String.length s2)%nat.
Proof.
  induction s1 as [|c s1 IH]; [done|].
  change (S (String.length (s1 +:+ s2)) = S (String.length s1 + String.length s2)).
  by f_equal.
Qed.

Lemma digit_pretty_N_char (x : N) :
  (x < 10)%N → digit (pretty_N_char x) = Some (Z.of_N x) ∧ pretty_N_char x ≠ "-"%char.
Proof.
  intros Hx.
  assert (x = 0 ∨ x = 1 ∨ x = 2 ∨ x = 3 ∨ x = 4 ∨ x = 5 ∨ x = 6 ∨ x = 7 ∨ x = 8 ∨ x = 9)%N
    as Hcases by lia.
  repeat (destruct Hcases as [->|Hcases]); try subst x; by split.
Qed.

(** [pretty_N_go x s] puts the decimal digits of [x] in front of [s]. *)
Lemma pretty_N_go_digits (x : N) (s : string) :
  ∃ d, pretty_N_go x s = d +:+ s
       ∧ noDash d
       ∧ ∀ t acc, Number_go (d +:+ t) acc
                  = Number_go t (acc * 10 ^ Z.of_nat (String.length d) + Z.of_N x).
Proof.
  revert s. induction (N.lt_wf_0 x) as [x _ IH]; intros s.
  destruct (decide (x = 0)%N) as [->|Hpos].
  - exists "". rewrite pretty_N_go_0. split; [done|]. split; [done|].
    intros t acc. simpl. f_equal. lia.
  - rewrite pretty_N_go_step by lia.
    destruct (IH (x `div` 10)%N) with (s := String (pretty_N_char (x `mod` 10)) s)
      as (d & Hd & Hnd & Hnum).
    { apply N.div_lt; lia. }
    destruct (digit_pretty_N_char (x `mod` 10)) as [Hdig Hchar].
    { apply N.mod_lt. lia. }
    exists (d +:+ String (pretty_N_char (x `mod` 10)) "").
    split_and!.
    + rewrite Hd. by rewrite string_app_assoc.
    + apply noDash_app; [done|]. by split.
    + intros t acc. rewrite string_app_assoc. simpl. rewrite Hnum. simpl.
      rewrite Hdig. f_equal.
      rewrite string_app_length. simpl.
      rewrite Nat2Z.inj_add, Z.pow_add_r by lia.
      pose proof (N.div_mod x 10 ltac:(lia)) as Hdm.
      assert (Z.of_N x = 10 * Z.of_N (x `div` 10) + Z.of_N (x `mod` 10)) as -> by lia.
      change (10 ^ Z.of_nat 1) with 10. lia.
Qed.

Lemma Number_pretty (e : Z) : 0 ≤ e → Number (pretty e) = Some e ∧ noDash (pretty e).
Proof.
  intros He. destruct e as [|p|p]; [done| |lia].
  unfold pretty, pretty_Z, pretty, pretty_positive, pretty, pretty_N.
  rewrite decide_False by done.
  destruct (pretty_N_go_digits (N.pos p) "") as (d & Hd & Hnd & Hnum).
  rewrite Hd. split.
  - unfold Number. rewrite Hnum. simpl. done.
  - apply noDash_app; done.
Qed.

Lemma splitKey_groupKey (e : Z) (skill : string) :
  0 ≤ e → noDash skill → splitKey (groupKey e skill) = Some (pretty e, skill).
Proof.
  intros He Hsk. unfold splitKey, groupKey.
  destruct (Number_pretty e He) as [_ Hnd].
  change (pretty e +:+ "-" +:+ skill) with (pretty e +:+ String "-" skill).
  rewrite split_app, split_noDash by done. done.
Qed.

(** ** Grouping by key *)

Section Grouped.
Context {A V : Type} (key : A → string) (val : A → V).

Lemma grouped_snoc (l : list A) (x : A) :
  grouped key val (l ++ [x])
  = Map_set (key x) (default [] (Map_get (key x) (grouped key val l)) ++ [val x])
            (grouped key val l).
Proof. unfold grouped. by rewrite fold_left_app. Qed.

(** Every item is found under its key. *)
Lemma grouped_complete (l : list A) (s : A) :
  s ∈ l → ∃ vs, Map_get (key s) (grouped key val l) = Some vs ∧ val s ∈ vs.
Proof.
  induction l as [|x l IH] using rev_ind; [by intros ?%elem_of_nil|].
  rewrite grouped_snoc. intros [Hs|Hs%list_elem_of_singleton]%elem_of_app.
  - destruct (IH Hs) as (vs & Hget & Hin).
    destruct (decide (key s = key x)) as [Heq|Hne].
    + rewrite Heq, Map_get_set_eq. eexists. split; [done|].
      rewrite <-Heq, Hget. simpl. apply elem_of_app. by left.
    + rewrite Map_get_set_ne by done. by exists vs.
  - subst s. rewrite Map_get_set_eq. eexists. split; [done|].
    apply elem_of_app. right. by left.
Qed.

(** Every entry has the key of an item, and holds values of items with
    that key only. *)
Lemma grouped_sound (l : list A) (k : string) (vs : list V) :
  (k, vs) ∈ grouped key val l →
  (∃ s, s ∈ l ∧ key s = k) ∧ ∀ v, v ∈ vs → ∃ s, s ∈ l ∧ key s = k ∧ val s = v.
Proof.
  revert k vs. induction l as [|x l IH] using rev_ind; intros k vs.
  { by intros ?%elem_of_nil. }
  rewrite grouped_snoc. intros [Hel|[-> ->]]%elem_of_Map_set.
  - destruct (IH k vs Hel) as [(s & Hs & Hk) Hvs]. split.
    + exists s. split; [apply elem_of_app; by left|done].
    + intros v Hv. destruct (Hvs v Hv) as (s' & Hs' & Hk' & Hv').
      exists s'. split; [apply elem_of_app; by left|done].
  - split.
    + exists x. split; [apply elem_of_app; right; by left|done].
    + intros v [Hv|Hv%list_elem_of_singleton]%elem_of_app.
      * destruct (Map_get (key x) (grouped key val l)) as [old|] eqn:Hget;
          [|by apply elem_of_nil in Hv].
        apply Map_get_elem_of in Hget. destruct (IH _ _ Hget) as [_ Hvs].
        destruct (Hvs v Hv) as (s' & Hs' & Hk' & Hv').
        exists s'. split; [apply elem_of_app; by left|done].
      * subst v. exists x. split; [apply elem_of_app; right; by left|done].
Qed.
End Grouped.

Lemma groupStarts_grouped shifts :
  Bah3.groupStarts shifts
  = grouped (λ s, groupKey (Bah3.Shift.employeeId s) (Bah3.Shift.skill s))
            Bah3.Shift.start shifts.
Proof. reflexivity. Qed.

Lemma groupedShifts_grouped shifts :
  Bah2.groupedShifts shifts
  = grouped (λ s, groupKey (Bah2.Shift.employeeId s) (Bah2.Shift.skill s))
            (λ s, (Bah2.Shift.start s, Bah2.Shift.end_ s)) shifts.
Proof. reflexivity. Qed.

(** ** Merging loops *)

Section MergeFold.
Context {A B : Type} (step : list B * B → A → list B * B).
Context (C : B → Prop) (I : A → Prop) (GoodB : B → Prop) (GoodA : A → Prop).
Hypothesis step_ok : ∀ merged current x,
  GoodB current → GoodA x →
  GoodB (step (merged, current) x).2
  ∧ (reaches C (step (merged, current) x) ↔ reaches C (merged, current) ∨ I x).

Lemma mergeFold_reaches (l : list A) (st : list B * B) :
  GoodB st.2 → Forall GoodA l →
  GoodB (fold_left step l st).2
  ∧ (reaches C (fold_left step l st) ↔ reaches C st ∨ ∃ x, x ∈ l ∧ I x).
Proof.
  revert st. induction l as [|x l IH]; intros [merged current] Hgood Hl; simpl.
  - split; [done|]. split; [by left|]. intros [?|(x & Hx & _)]; [done|].
    by apply elem_of_nil in Hx.
  - apply Forall_cons in Hl as [Hx Hl].
    destruct (step_ok merged current x Hgood Hx) as [Hgood' Hstep].
    destruct (step (merged, current) x) as [merged' current'] eqn:Hst.
    destruct (IH (merged', current') Hgood' Hl) as [Hg Hreach].
    split; [done|]. rewrite Hreach, Hstep. split.
    + intros [[?|?]|(y & Hy & HI)]; [by left|right; exists x; split; [left|done]|].
      right. exists y. split; [by right|done].
    + intros [?|(y & [->|Hy]%elem_of_cons & HI)]; [by left; left|by left; right|].
      right. by exists y.
Qed.

(** The blocks a merging loop returns: [merged.push(current)] at the end. *)
Lemma mergeFold_result (l : list A) (first : B) :
  GoodB first → Forall GoodA l →
  let '(merged, current) := fold_left step l ([], first) in
  (∃ m, m ∈ merged ++ [current] ∧ C m) ↔ C first ∨ ∃ x, x ∈ l ∧ I x.
Proof.
  intros Hfirst Hl.
  destruct (mergeFold_reaches l ([], first) Hfirst Hl) as [_ Hreach].
  destruct (fold_left step l ([], first)) as [merged current].
  transitivity (reaches C (merged, current)).
  - unfold reaches. simpl. split.
    + intros (m & [Hm|Hm%list_elem_of_singleton]%elem_of_app & HC);
        [left; by exists m|right; by subst].
    + intros [(m & Hm & HC)|HC].
      * exists m. split; [apply elem_of_app; by left|done].
      * exists current. split; [apply elem_of_app; right; by left|done].
  - rewrite Hreach. unfold reaches. simpl. split.
    + intros [[(m & Hm & _)|?]|?]; [by apply elem_of_nil in Hm|by left|by right].
    + intros [?|?]; [left; by right|by right].
Qed.
End MergeFold.

Lemma runStep_ok (h : Z) (merged : list (Z * Z)) (current : Z * Z) (x : Z) :
  current.1 < current.2 → True →
  (Bah3.runStep (merged, current) x).2.1 < (Bah3.runStep (merged, current) x).2.2
  ∧ (reaches (inBlock h) (Bah3.runStep (merged, current) x)
     ↔ reaches (inBlock h) (merged, current) ∨ x = h).
Proof.
  destruct current as [cs ce]. simpl. intros Hgood _.
  unfold Bah3.runStep, reaches, inBlock.
  destruct (decide (x = ce)) as [->|Hne]; simpl.
  - split; [lia|]. split.
    + intros [?|?]; [by left; left|].
      destruct (decide (h = ce)); [right; lia|left; right; lia].
    + intros [[?|?]|?]; [by left|right; lia|right; lia].
  - split; [lia|]. split.
    + intros [(m & [Hm|Hm%list_elem_of_singleton]%elem_of_app & HC)|?].
      * left; left. by exists m.
      * left; right. by subst.
      * right; lia.
    + intros [[(m & Hm & HC)|?]|?].
      * left. exists m. split; [apply elem_of_app; by left|done].
      * left. exists (cs, ce). split; [apply elem_of_app; right; by left|done].
      * right; simpl; lia.
Qed.

(** The runs of bah3.js cover the hours that start a one-hour shift. *)
Lemma runsOf_spec (starts : list Z) (h : Z) :
  (∃ run, run ∈ Bah3.runsOf starts ∧ inBlock h run) ↔ h ∈ starts.
Proof.
  unfold Bah3.runsOf.
  assert (h ∈ starts ↔ h ∈ Array_sort (λ a b, a - b) starts) as ->
    by (by rewrite Array_sort_Permutation).
  destruct (Array_sort _ starts) as [|first rest].
  { split; [by intros (? & ?%elem_of_nil & _)|by intros ?%elem_of_nil]. }
  pose proof (mergeFold_result Bah3.runStep (inBlock h) (λ x, x = h)
                (λ run, run.1 < run.2) (λ _, True) (runStep_ok h)
                rest (first, first + 1)) as Hres.
  destruct (fold_left Bah3.runStep rest ([], (first, first + 1))) as [runs current].
  rewrite Hres; [|simpl; lia|by apply Forall_true].
  unfold inBlock. simpl. split.
  - intros [?|(x & Hx & ->)]; [|by right].
    assert (h = first) as -> by lia. left.
  - intros [->|Hh]%elem_of_cons; [left; lia|right; by exists h].
Qed.

Lemma Bah2_mergeStep_ok (h : Z) (merged : list (Z * Z)) (current next : Z * Z) :
  current.1 ≤ current.2 → next.1 ≤ next.2 →
  (Bah2.mergeStep (merged, current) next).2.1 ≤ (Bah2.mergeStep (merged, current) next).2.2
  ∧ (reaches (inBlock h) (Bah2.mergeStep (merged, current) next)
     ↔ reaches (inBlock h) (merged, current) ∨ inBlock h next).
Proof.
  destruct current as [cs ce], next as [ns ne]. simpl. intros Hc Hn.
  unfold Bah2.mergeStep, reaches, inBlock. simpl.
  destruct (decide (ns = ce)) as [->|Hne]; simpl.
  - split; [lia|]. split.
    + intros [?|?]; [by left; left|].
      destruct (decide (h < ce)); [left; right; lia|right; lia].
    + intros [[?|?]|?]; [by left|right; lia|right; lia].
  - split; [lia|]. split.
    + intros [(m & [Hm|Hm%list_elem_of_singleton]%elem_of_app & HC)|?].
      * left; left. by exists m.
      * left; right. by subst.
      * by right.
    + intros [[(m & Hm & HC)|?]|?].
      * left. exists m. split; [apply elem_of_app; by left|done].
      * left. exists (cs, ce). split; [apply elem_of_app; right; by left|done].
      * by right.
Qed.

(** The merged blocks of bah2.js cover the hours of the blocks. *)
Lemma mergeBlocks_spec (blocks : list (Z * Z)) (h : Z) :
  Forall (λ b, b.1 ≤ b.2) blocks →
  (∃ m, m ∈ Bah2.mergeBlocks blocks ∧ inBlock h m) ↔ ∃ b, b ∈ blocks ∧ inBlock h b.
Proof.
  intros Hgood. unfold Bah2.mergeBlocks.
  pose proof (Array_sort_Permutation (λ a b : Z * Z, a.1 - b.1) blocks) as Hperm.
  assert ((∃ b, b ∈ blocks ∧ inBlock h b)
          ↔ ∃ b, b ∈ Array_sort (λ a b : Z * Z, a.1 - b.1) blocks ∧ inBlock h b) as ->.
  { by setoid_rewrite Hperm. }
  rewrite <-Hperm in Hgood.
  destruct (Array_sort _ blocks) as [|first rest].
  { split; by intros (? & ?%elem_of_nil & _). }
  apply Forall_cons in Hgood as [Hfirst Hrest].
  pose proof (mergeFold_result Bah2.mergeStep (inBlock h) (inBlock h)
                (λ b, b.1 ≤ b.2) (λ b, b.1 ≤ b.2) (Bah2_mergeStep_ok h)
                rest first Hfirst Hrest) as Hres.
  destruct (fold_left Bah2.mergeStep rest ([], first)) as [merged current].
  rewrite Hres. split.
  - intros [?|(x & Hx & HI)]; [exists first; split; [left|done]|].
    exists x. split; [by right|done].
  - intros (x & [->|Hx]%elem_of_cons & HI); [by left|right; by exists x].
Qed.

Section BahMerge.
Variable localeCompare : string → string → Z.

Lemma Bah_mergeStep_ok (e h : Z) (sk : string) (merged : list Bah.Shift.t)
    (current next : Bah.Shift.t) :
  Bah.Shift.start current ≤ Bah.Shift.end_ current →
  Bah.Shift.start next ≤ Bah.Shift.end_ next →
  Bah.Shift.start (Bah.mergeStep (merged, current) next).2
    ≤ Bah.Shift.end_ (Bah.mergeStep (merged, current) next).2
  ∧ (reaches (onSlot e h sk) (Bah.mergeStep (merged, current) next)
     ↔ reaches (onSlot e h sk) (merged, current) ∨ onSlot e h sk next).
Proof.
  intros Hc Hn. unfold Bah.mergeStep.
  destruct (bool_decide (Bah.Shift.employeeId current = Bah.Shift.employeeId next)
            && bool_decide (Bah.Shift.skill current = Bah.Shift.skill next)
            && bool_decide (Bah.Shift.end_ current = Bah.Shift.start next)) eqn:Hmerge.
  - apply andb_true_iff in Hmerge as [Hmerge He%bool_decide_eq_true].
    apply andb_true_iff in Hmerge as [Hid%bool_decide_eq_true Hsk%bool_decide_eq_true].
    unfold reaches, onSlot, worksOn, activeAt. simpl. split; [lia|].
    rewrite <-Hid, <-Hsk. split.
    + intros [?|(Heq & Hact & Hskill)]; [by left; left|].
      destruct (decide (h < Bah.Shift.end_ current)).
      * left; right. split_and!; [done|lia..|done].
      * right. split_and!; [done|lia..|done].
    + intros [[?|(Heq & Hact & Hskill)]|(Heq & Hact & Hskill)]; [by left|right..];
        split_and!; try done; lia.
  - unfold reaches. simpl. split; [done|]. split.
    + intros [(m & [Hm|Hm%list_elem_of_singleton]%elem_of_app & HC)|?].
      * left; left. by exists m.
      * left; right. by subst.
      * by right.
    + intros [[(m & Hm & HC)|?]|?].
      * left. exists m. split; [apply elem_of_app; by left|done].
      * left. exists current. split; [apply elem_of_app; right; by left|done].
      * by right.
Qed.

(** [mergeShifts] of bah.js covers the slots the shifts cover. *)
Lemma Bah_mergeShifts_spec (shifts : list Bah.Shift.t) (e h : Z) (sk : string) :
  Forall (λ s, Bah.Shift.start s ≤ Bah.Shift.end_ s) shifts →
  covers (Bah.mergeShifts localeCompare shifts) e h sk ↔ covers shifts e h sk.
Proof.
  intros Hgood. unfold Bah.mergeShifts, covers.
  pose proof (Array_sort_Permutation (Bah.compareShifts localeCompare) shifts) as Hperm.
  assert ((∃ s, s ∈ shifts ∧ employeeOf s = e ∧ worksOn h sk s)
          ↔ ∃ s, s ∈ Array_sort (Bah.compareShifts localeCompare) shifts
                 ∧ employeeOf s = e ∧ worksOn h sk s) as ->.
  { by setoid_rewrite Hperm. }
  rewrite <-Hperm in Hgood.
  destruct (Array_sort _ shifts) as [|first rest].
  { split; by intros (? & ?%elem_of_nil & _). }
  apply Forall_cons in Hgood as [Hfirst Hrest].
  pose proof (mergeFold_result Bah.mergeStep (onSlot e h sk) (onSlot e h sk)
                (λ s, Bah.Shift.start s ≤ Bah.Shift.end_ s)
                (λ s, Bah.Shift.start s ≤ Bah.Shift.end_ s) (Bah_mergeStep_ok e h sk)
                rest first Hfirst Hrest) as Hres.
  destruct (fold_left Bah.mergeStep rest ([], first)) as [merged current].
  unfold onSlot in Hres. rewrite Hres. split.
  - intros [?|(x & Hx & HI)]; [exists first; split; [left|done]|].
    exists x. split; [by right|done].
  - intros (x & [->|Hx]%elem_of_cons & HI); [by left|right; by exists x].
Qed.
End BahMerge.

(** ** Merging preserves coverage *)

Lemma groupKey_inj e1 sk1 e2 sk2 :
  0 ≤ e1 → noDash sk1 → 0 ≤ e2 → noDash sk2 →
  groupKey e1 sk1 = groupKey e2 sk2 → e1 = e2 ∧ sk1 = sk2.
Proof.
  intros He1 Hs1 He2 Hs2 Heq.
  pose proof (splitKey_groupKey e1 sk1 He1 Hs1) as H1.
  pose proof (splitKey_groupKey e2 sk2 He2 Hs2) as H2.
  rewrite Heq, H2 in H1. injection H1 as Hp ->. split; [|done].
  symmetry. by apply (inj pretty).
Qed.

Lemma foldM_concat {A B} (f : A → option (list B)) (l : list A) (acc : list B) :
  (∀ x, x ∈ l → is_Some (f x)) →
  ∃ r, foldM (λ merged entry, let? l := f entry in Some (merged ++ l)) acc l = Some r
       ∧ ∀ y, y ∈ r ↔ y ∈ acc ∨ ∃ x ys, x ∈ l ∧ f x = Some ys ∧ y ∈ ys.
Proof.
  revert acc. induction l as [|x l IH]; intros acc Hf; simpl.
  - exists acc. split; [done|]. intros y. split; [by left|].
    intros [?|(x & ys & Hx%elem_of_nil & _)]; done.
  - destruct (Hf x) as [ys Hys]; [left|]. rewrite Hys.
    destruct (IH (acc ++ ys)) as (r & -> & Hr); [intros z Hz; apply Hf; by right|].
    exists r. split; [done|]. intros y. rewrite Hr, elem_of_app. split.
    + intros [[?|?]|(z & zs & Hz & Hfz & Hy)]; [by left|right..].
      * exists x, ys. split; [left|done].
      * exists z, zs. split; [by right|done].
    + intros [?|(z & zs & [->|Hz]%elem_of_cons & Hfz & Hy)]; [by left; left| |].
      * left; right. congruence.
      * right. by exists z, zs.
Qed.

(** [mergeShifts] of bah3.js returns, and covers the slots the one-hour
    shifts cover. *)
Lemma Bah3_mergeShifts_spec (shifts : list Bah3.Shift.t) :
  Forall singleHour shifts → Forall keyable shifts →
  ∃ merged, Bah3.mergeShifts shifts = Some merged
            ∧ ∀ e h sk, covers merged e h sk ↔ covers shifts e h sk.
Proof.
  intros Hsingle Hkey. rewrite Forall_forall in Hsingle, Hkey.
  set (key := λ s, groupKey (Bah3.Shift.employeeId s) (Bah3.Shift.skill s)).
  assert (∀ k starts, (k, starts) ∈ Bah3.groupStarts shifts →
            ∃ s, s ∈ shifts ∧ k = key s
                 ∧ Bah3.mergeEntry (k, starts)
                   = Some ((λ run : Z * Z, Bah3.Shift.mk (Bah3.Shift.employeeId s) run.1 run.2
                                             (Bah3.Shift.skill s)) <$> Bah3.runsOf starts))
    as Hentry.
  { intros k starts Hel. rewrite groupStarts_grouped in Hel.
    apply grouped_sound in Hel as [(s & Hs & Hk) _]. exists s. split; [done|].
    split; [done|]. destruct (Hkey s Hs) as [He Hsk]. simpl in He, Hsk.
    unfold Bah3.mergeEntry. simpl. rewrite <-Hk.
    rewrite splitKey_groupKey by done.
    destruct (Number_pretty _ He) as [-> _]. done. }
  destruct (foldM_concat Bah3.mergeEntry (Bah3.groupStarts shifts) []) as (merged & Hm & Hin).
  { intros [k starts] Hel. destruct (Hentry k starts Hel) as (s & _ & _ & ->). by eexists. }
  exists merged. split; [exact Hm|]. intros e h sk. unfold covers. split.
  - intros (m & Hmem & He & Hact & Hskill).
    apply Hin in Hmem as [Hmem%elem_of_nil|([k starts] & ys & Hel & Hys & Hy)]; [done|].
    destruct (Hentry k starts Hel) as (s & Hs & Hk & Hme).
    rewrite Hme in Hys. injection Hys as <-.
    apply list_elem_of_fmap in Hy as (run & -> & Hrun).
    simpl in He, Hact, Hskill. unfold activeAt in Hact. simpl in Hact.
    assert (h ∈ starts) as Hh by (apply runsOf_spec; by exists run).
    rewrite groupStarts_grouped in Hel.
    apply grouped_sound in Hel as [_ Hvals].
    destruct (Hvals h Hh) as (s' & Hs' & Hk' & Hstart).
    exists s'. split; [done|].
    destruct (Hkey s Hs) as [He1 Hsk1]. destruct (Hkey s' Hs') as [He2 Hsk2].
    simpl in He1, Hsk1, He2, Hsk2.
    rewrite Hk in Hk'. apply groupKey_inj in Hk' as [Hid Hskeq]; try done.
    pose proof (Hsingle s' Hs') as Hone. unfold singleHour in Hone. simpl in Hone.
    unfold worksOn, activeAt. cbn [employeeOf startOf endOf skillOf Bah3_ShiftLike].
    split; [congruence|]. split; [lia|congruence].
  - intros (s & Hs & He & Hact & Hskill).
    destruct (grouped_complete key Bah3.Shift.start shifts s Hs) as (starts & Hget & Hstart).
    apply Map_get_elem_of in Hget. rewrite <-groupStarts_grouped in Hget.
    destruct (Hentry _ _ Hget) as (s' & Hs' & Hk & Hme).
    destruct (Hkey s Hs) as [He1 Hsk1]. destruct (Hkey s' Hs') as [He2 Hsk2].
    simpl in He1, Hsk1, He2, Hsk2.
    apply groupKey_inj in Hk as [Hid Hskeq]; try done.
    pose proof (Hsingle s Hs) as Hone. unfold singleHour in Hone. simpl in Hone.
    unfold activeAt in Hact. simpl in Hact, He, Hskill.
    assert (h = Bah3.Shift.start s) as -> by lia.
    apply runsOf_spec in Hstart as (run & Hrun & Hblock).
    exists (Bah3.Shift.mk (Bah3.Shift.employeeId s') run.1 run.2 (Bah3.Shift.skill s')).
    split.
    + apply Hin. right. eexists (key s, starts), _. split; [done|]. split; [exact Hme|].
      apply list_elem_of_fmap. by exists run.
    + unfold worksOn. cbn [employeeOf startOf endOf skillOf Bah3_ShiftLike] in *.
      simpl. split; [congruence|]. split; [exact Hblock|congruence].
Qed.

Lemma Forall2_elem_of_l {A B} (R : A → B → Prop) (l : list A) (k : list B) (x : A) :
  Forall2 R l k → x ∈ l → ∃ y, y ∈ k ∧ R x y.
Proof.
  intros HF. induction HF as [|a b l k HR HF IH]; [by intros ?%elem_of_nil|].
  intros [->|Hx]%elem_of_cons.
  - exists b. split; [left|done].
  - destruct (IH Hx) as (y & Hy & HRy). exists y. split; [by right|done].
Qed.

Lemma Forall2_elem_of_r {A B} (R : A → B → Prop) (l : list A) (k : list B) (y : B) :
  Forall2 R l k → y ∈ k → ∃ x, x ∈ l ∧ R x y.
Proof.
  intros HF. induction HF as [|a b l k HR HF IH]; [by intros ?%elem_of_nil|].
  intros [->|Hy]%elem_of_cons.
  - exists a. split; [left|done].
  - destruct (IH Hy) as (x & Hx & HRx). exists x. split; [by right|done].
Qed.

(** The merging at the end of [generateSchedule] of bah2.js returns, and
    its entries cover the slots the one-hour shifts cover. *)
Lemma Bah2_mergedEntries_spec (shifts : list Bah2.Shift.t) :
  Forall singleHour shifts → Forall keyable shifts →
  ∃ entries, Bah2.mergedEntries shifts = Some entries
             ∧ ∀ e h sk, Bah2_covers entries e h sk ↔ covers shifts e h sk.
Proof.
  intros Hsingle Hkey. rewrite Forall_forall in Hsingle, Hkey.
  set (key := λ s, groupKey (Bah2.Shift.employeeId s) (Bah2.Shift.skill s)).
  set (val := λ s, (Bah2.Shift.start s, Bah2.Shift.end_ s)).
  assert (∀ k blocks, (k, blocks) ∈ Bah2.groupedShifts shifts →
            (∃ s, s ∈ shifts ∧ k = key s
                  ∧ Bah2.mergedEntry (k, blocks)
                    = Some (pretty (Bah2.Shift.employeeId s), Bah2.Shift.skill s,
                            Bah2.mergeBlocks blocks))
            ∧ Forall (λ b, b.1 ≤ b.2) blocks
            ∧ ∀ b, b ∈ blocks → ∃ s, s ∈ shifts ∧ key s = k ∧ val s = b) as Hentry.
  { intros k blocks Hel. rewrite groupedShifts_grouped in Hel.
    apply grouped_sound in Hel as [(s & Hs & Hk) Hvals]. split_and!.
    - exists s. split; [done|]. split; [done|].
      destruct (Hkey s Hs) as [He Hsk]. simpl in He, Hsk.
      unfold Bah2.mergedEntry. simpl. rewrite <-Hk.
      by rewrite splitKey_groupKey by done.
    - apply Forall_forall. intros b Hb. destruct (Hvals b Hb) as (s' & Hs' & _ & <-).
      pose proof (Hsingle s' Hs') as Hone. unfold singleHour in Hone. simpl in Hone.
      simpl. lia.
    - exact Hvals. }
  destruct (Bah2.mergedEntries shifts) as [entries|] eqn:Hmap.
  2: { exfalso. unfold Bah2.mergedEntries in Hmap.
       assert (is_Some (mapM Bah2.mergedEntry (Bah2.groupedShifts shifts))) as [? Hsome];
         [|congruence].
       apply mapM_is_Some, Forall_forall. intros [k blocks] Hel.
       destruct (Hentry k blocks Hel) as [(s & _ & _ & Hme) _].
       unfold compose. rewrite Hme. by eexists. }
  exists entries. split; [done|].
  unfold Bah2.mergedEntries in Hmap. apply mapM_Some in Hmap.
  intros e h sk. unfold Bah2_covers, covers. split.
  - intros (entry & Hentries & Hid & Hskill & m & Hm & Hblock).
    destruct (Forall2_elem_of_r _ _ _ entry Hmap Hentries) as ([k blocks] & Hel & Hme).
    destruct (Hentry k blocks Hel) as [(s & Hs & Hk & Hme') [Hgood Hvals]].
    rewrite Hme' in Hme. injection Hme as <-. simpl in Hid, Hskill, Hm.
    apply (inj pretty) in Hid.
    destruct (proj1 (mergeBlocks_spec blocks h Hgood)) as (b & Hb & Hbh); [by exists m|].
    destruct (Hvals b Hb) as (s' & Hs' & Hk' & <-).
    rewrite Hk in Hk'.
    destruct (Hkey s Hs) as [He1 Hsk1]. destruct (Hkey s' Hs') as [He2 Hsk2].
    simpl in He1, Hsk1, He2, Hsk2.
    apply groupKey_inj in Hk' as [Hid' Hskeq]; try done.
    exists s'. split; [done|].
    unfold worksOn, activeAt. cbn [employeeOf startOf endOf skillOf Bah2_ShiftLike].
    unfold inBlock, val in Hbh. simpl in Hbh. split; [congruence|]. split; [lia|congruence].
  - intros (s & Hs & He & Hact & Hskill).
    unfold activeAt in Hact. cbn [employeeOf startOf endOf skillOf Bah2_ShiftLike] in *.
    destruct (grouped_complete key val shifts s Hs) as (blocks & Hget & Hval).
    apply Map_get_elem_of in Hget. rewrite <-groupedShifts_grouped in Hget.
    destruct (Hentry _ _ Hget) as [(s' & Hs' & Hk & Hme) [Hgood _]].
    destruct (Hkey s Hs) as [He1 Hsk1]. destruct (Hkey s' Hs') as [He2 Hsk2].
    simpl in He1, Hsk1, He2, Hsk2.
    apply groupKey_inj in Hk as [Hid Hskeq]; try done.
    destruct (Forall2_elem_of_l _ _ _ (key s, blocks) Hmap Hget) as (entry & Hentries & Hme').
    rewrite Hme in Hme'. injection Hme' as <-.
    eexists. split; [exact Hentries|]. simpl.
    split; [congruence|]. split; [congruence|].
    apply mergeBlocks_spec; [done|]. exists (val s). split; [done|].
    unfold inBlock, val. simpl. lia.
Qed.

(** C10, as the code has it.  On one-hour shifts whose employee ids are
    non-negative and whose skill names have no hyphen (for bah.js: on all
    one-hour shifts), the three merging steps return and
    cover exactly the (employee, hour, skill) slots the shifts cover:
    [mergeShifts] of bah.js (for any [localeCompare]), the merging at the
    end of [generateSchedule] of bah2.js, and [mergeShifts] of bah3.js. *)
Theorem merge_preserves_coverage
    (localeCompare : string → string → Z)
    (shifts : list Bah.Shift.t) (shiftsForDay : list Bah2.Shift.t)
    (hourShifts : list Bah3.Shift.t) :
  Forall singleHour shifts →
  Forall singleHour shiftsForDay → Forall keyable shiftsForDay →
  Forall singleHour hourShifts → Forall keyable hourShifts →
  (∀ e h sk, covers (Bah.mergeShifts localeCompare shifts) e h sk ↔ covers shifts e h sk)
  ∧ (∃ entries, Bah2.mergedEntries shiftsForDay = Some entries
                ∧ ∀ e h sk, Bah2_covers entries e h sk ↔ covers shiftsForDay e h sk)
  ∧ (∃ merged, Bah3.mergeShifts hourShifts = Some merged
               ∧ ∀ e h sk, covers merged e h sk ↔ covers hourShifts e h sk).
Proof.
  intros H1 H2 K2 H3 K3. split_and!.
  - intros e h sk. apply Bah_mergeShifts_spec.
    eapply Forall_impl; [exact H1|]. intros s Hs. unfold singleHour in Hs. simpl in Hs. lia.
  - by apply Bah2_mergedEntries_spec.
  - by apply Bah3_mergeShifts_spec.
Qed.

Lemma merge_preserves_coverage_witness :
  covers (Bah.mergeShifts (λ a b, if decide (a = b) then 0 else 1)
            [Bah.Shift.mk 1 9 10 "Register" 1; Bah.Shift.mk 1 8 9 "Register" 1])
         1 9 "Register"
  ∧ (∃ entries,
       Bah2.mergedEntries [Bah2.Shift.mk 1 8 9 "Register" 1; Bah2.Shift.mk 1 9 10 "Register" 1]
       = Some entries ∧ Bah2_covers entries 1 9 "Register")
  ∧ (∃ merged,
       Bah3.mergeShifts [Bah3.Shift.mk 1 8 9 "Register"; Bah3.Shift.mk 1 9 10 "Register"]
       = Some merged ∧ covers merged 1 9 "Register").
Proof.
  assert (noDash "Register") as Hnd.
  { simpl. repeat split; intros Heq; discriminate Heq. }
  destruct (merge_preserves_coverage (λ a b, if decide (a = b) then 0 else 1)
              [Bah.Shift.mk 1 9 10 "Register" 1; Bah.Shift.mk 1 8 9 "Register" 1]
              [Bah2.Shift.mk 1 8 9 "Register" 1; Bah2.Shift.mk 1 9 10 "Register" 1]
              [Bah3.Shift.mk 1 8 9 "Register"; Bah3.Shift.mk 1 9 10 "Register"])
    as (H1 & (entries & He & H2) & (merged & Hm & H3)).
  - constructor; [reflexivity|]. constructor; [reflexivity|constructor].
  - constructor; [reflexivity|]. constructor; [reflexivity|constructor].
  - constructor; [split; [simpl; lia|exact Hnd]|].
    constructor; [split; [simpl; lia|exact Hnd]|constructor].
  - constructor; [reflexivity|]. constructor; [reflexivity|constructor].
  - constructor; [split; [simpl; lia|exact Hnd]|].
    constructor; [split; [simpl; lia|exact Hnd]|constructor].
  - split; [|split].
    + apply H1. exists (Bah.Shift.mk 1 9 10 "Register" 1).
      split; [left|]. split; [reflexivity|]. split; [|reflexivity].
      unfold activeAt. simpl. lia.
    + exists entries. split; [exact He|]. apply H2.
      exists (Bah2.Shift.mk 1 9 10 "Register" 1).
      split; [right; left|]. split; [reflexivity|]. split; [|reflexivity].
      unfold activeAt. simpl. lia.
    + exists merged. split; [exact Hm|]. apply H3.
      exists (Bah3.Shift.mk 1 9 10 "Register").
      split; [right; left|]. split; [reflexivity|]. split; [|reflexivity].
      unfold activeAt. simpl. lia.
Defined.

(** C10 fails on identifiers the key [`${employeeId}-${skill}`] cannot
    hold.  The one-hour shift of employee 1 on "Cash-Desk" covers the slot
    (1, 8, "Cash-Desk"); after the merging of bah2.js and of bah3.js the
    key is split at its first two hyphens, the skill is "Cash", the slot
    is no longer covered and the slot (1, 8, "Cash") is.  A negative
    employee id is lost the same way: the shift of employee -1 comes back
    as a shift of employee 0 on the skill "1". *)
Lemma merge_preserves_coverage_counterexample :
  singleHour (Bah3.Shift.mk 1 8 9 "Cash-Desk")
  ∧ covers [Bah3.Shift.mk 1 8 9 "Cash-Desk"] 1 8 "Cash-Desk"
  ∧ (∃ merged,
       Bah3.mergeShifts [Bah3.Shift.mk 1 8 9 "Cash-Desk"] = Some merged
       ∧ ¬ covers merged 1 8 "Cash-Desk"
       ∧ covers merged 1 8 "Cash"
       ∧ ¬ covers [Bah3.Shift.mk 1 8 9 "Cash-Desk"] 1 8 "Cash")
  ∧ (∃ entries,
       Bah2.mergedEntries [Bah2.Shift.mk 1 8 9 "Cash-Desk" 1] = Some entries
       ∧ covers [Bah2.Shift.mk 1 8 9 "Cash-Desk" 1] 1 8 "Cash-Desk"
       ∧ ¬ Bah2_covers entries 1 8 "Cash-Desk"
       ∧ Bah2_covers entries 1 8 "Cash")
  ∧ Bah3.mergeShifts [Bah3.Shift.mk (-1) 8 9 "Register"] = Some [Bah3.Shift.mk 0 8 9 "1"].
Proof.
  split; [reflexivity|].
  split.
  { eexists. split; [left|]. split; [reflexivity|]. split; [|reflexivity].
    unfold activeAt. simpl. lia. }
  split.
  { eexists. split; [vm_compute; reflexivity|]. split_and!.
    - intros (s & Hs & _ & _ & Hsk). apply list_elem_of_singleton in Hs. subst s.
      simpl in Hsk. discriminate Hsk.
    - eexists. split; [left|]. split; [reflexivity|]. split; [|reflexivity].
      unfold activeAt. simpl. lia.
    - intros (s & Hs & _ & _ & Hsk). apply list_elem_of_singleton in Hs. subst s.
      simpl in Hsk. discriminate Hsk. }
  split.
  { eexists. split; [vm_compute; reflexivity|]. split_and!.
    - eexists. split; [left|]. split; [reflexivity|]. split; [|reflexivity].
      unfold activeAt. simpl. lia.
    - intros (entry & Hentry & _ & Hsk & _). apply list_elem_of_singleton in Hentry.
      subst entry. simpl in Hsk. discriminate Hsk.
    - eexists. split; [left|]. split; [reflexivity|]. split; [reflexivity|].
      exists (8, 9). split; [left|]. unfold inBlock. simpl. lia. }
  vm_compute. reflexivity.
Qed.

(** ** What [Solver.validateSchedule] accepts *)
Lemma NoOverlap_snoc {A} `{ShiftLike A} (pre : list A) (x : A) :
  NoOverlap (pre ++ [x])
  ↔ NoOverlap pre ∧ Forall (λ s, employeeOf s = employeeOf x → ¬ overlap x s) pre.
Proof.
  induction pre as [|s pre IH]; simpl.
  - split; [intros _; split; [done|constructor]|intros _; split; [constructor|done]].
  - rewrite IH, Forall_app, (Forall_cons _ s pre), Forall_singleton.
    assert (overlap x s ↔ overlap s x) as Hsym.
    { unfold overlap. by rewrite (Z.max_comm (startOf x)), (Z.min_comm (endOf x)). }
    split.
    + intros [[H1 H2] [H3 H4]]. split_and!; try done.
      intros Heq Hov. apply H2; [done|]. by apply Hsym.
    + intros [[H1 H2] [H3 H4]]. split_and!; try done.
      intros Heq Hov. apply H3; [done|]. by apply Hsym.
Qed.

Lemma faultIf_valid b m v :
  Solver.isValid (Solver.faultIf b m v) = true ↔ b = false ∧ Solver.isValid v = true.
Proof. destruct b; simpl; intuition congruence. Qed.

Lemma faultIf_fold_valid {A} (p : A → bool) (m : A → string) (l : list A) v :
  Solver.isValid (fold_left (λ v x, Solver.faultIf (p x) (m x) v) l v) = true
  ↔ Solver.isValid v = true ∧ Forall (λ x, p x = false) l.
Proof.
  revert v. induction l as [|x l IH]; intros v; simpl.
  - split; [intros ?; split; [done|constructor]|tauto].
  - rewrite IH, faultIf_valid, Forall_cons. tauto.
Qed.

(** The verdict after one shift, and the shifts remembered per employee. *)
Lemma validateShift_valid this day v es s :
  let r := Solver.validateShift this day (v, es) s in
  (Solver.isValid r.1 = true
   ↔ Solver.isValid v = true ∧ Solver_shiftOk this day s
     ∧ Forall (λ existing, ¬ overlap s existing)
              (default [] (es !! Solver.Shift.employeeId s)))
  ∧ (∀ e, default [] (r.2 !! e)
          = default [] (es !! e)
            ++ (if decide (Solver.Shift.employeeId s = e
                           ∧ is_Some (Solver.employees_get this (Solver.Shift.employeeId s)))
                then [s] else [])).
Proof.
  unfold Solver.validateShift, Solver_shiftOk.
  destruct (Solver.employees_get this (Solver.Shift.employeeId s)) as [employee|] eqn:Hemp;
    simpl.
  - pose proof (Solver_employees_get_id _ _ _ Hemp) as Hid. rewrite Hid. split.
    + rewrite faultIf_fold_valid, !faultIf_valid.
      assert (Forall (λ x, Solver.overlaps s x = false)
                     (default [] (es !! Solver.Shift.employeeId s))
              ↔ Forall (λ existing, ¬ overlap s existing)
                       (default [] (es !! Solver.Shift.employeeId s))) as ->.
      { apply Forall_iff. intros x. unfold Solver.overlaps, overlap. simpl.
        by rewrite bool_decide_eq_false. }
      destruct (Solver.Day.isOpen day) eqn:Hopen; simpl.
      * rewrite orb_false_iff, !bool_decide_eq_false. split.
        -- intros [(Hse & _ & Hwin & Hvac & Hv) Hex].
           split; [done|]. split; [|done]. exists employee. split_and!; try done; lia.
        -- intros (Hv & (emp & [= <-] & Hvac & _ & H1 & H2 & H3) & Hex).
           split; [|done]. split_and!; try done; lia.
      * split; [intros [(_ & ? & _) _]; done|].
        intros (_ & (emp & _ & _ & ? & _) & _). done.
    + intros e. destruct (decide (Solver.Shift.employeeId s = e)) as [<-|Hne].
      * rewrite lookup_insert_eq. simpl. rewrite decide_True; [done|]. split; [done|by eexists].
      * rewrite lookup_insert_ne by done. rewrite decide_False by tauto. by rewrite app_nil_r.
  - split.
    + split; [done|]. intros (_ & (emp & Hemp' & _) & _). done.
    + intros e. rewrite decide_False; [by rewrite app_nil_r|]. intros [_ [? ?]]. done.
Qed.

Lemma validateShifts_valid this day shifts v :
  Solver.isValid (fold_left (Solver.validateShift this day) shifts (v, ∅)).1 = true
  ↔ Solver.isValid v = true ∧ Forall (Solver_shiftOk this day) shifts ∧ NoOverlap shifts.
Proof.
  set (known := λ s : Solver.Shift.t,
         is_Some (Solver.employees_get this (Solver.Shift.employeeId s))).
  assert (∀ pre acc,
            (Solver.isValid acc.1 = true
             ↔ Solver.isValid v = true ∧ Forall (Solver_shiftOk this day) pre ∧ NoOverlap pre) →
            (∀ e, default [] (acc.2 !! e)
                  = filter (λ s, Solver.Shift.employeeId s = e ∧ known s) pre) →
            ∀ l, let r := fold_left (Solver.validateShift this day) l acc in
                 Solver.isValid r.1 = true
                 ↔ Solver.isValid v = true ∧ Forall (Solver_shiftOk this day) (pre ++ l)
                   ∧ NoOverlap (pre ++ l)) as Hgen.
  { intros pre acc Hv Hes l. revert pre acc Hv Hes.
    induction l as [|x l IH]; intros pre [v1 es] Hv Hes; simpl.
    - by rewrite app_nil_r.
    - rewrite cons_middle, app_assoc. apply IH.
      + destruct (validateShift_valid this day v1 es x) as [Hval _]. simpl in Hval.
        rewrite Hval. simpl in Hv. rewrite Hv, Forall_app, Forall_singleton, NoOverlap_snoc.
        simpl in Hes. rewrite (Hes (Solver.Shift.employeeId x)).
        split.
        * intros ((Hv0 & Hpre & Hno) & Hok & Hex). split_and!; try done.
          apply Forall_forall. intros s Hs Heq.
          rewrite Forall_forall in Hex. apply Hex.
          apply list_elem_of_filter. split; [|done]. split; [done|].
          rewrite Forall_forall in Hpre. destruct (Hpre s Hs) as (emp & Hemp & _).
          unfold known. by eexists.
        * intros (Hv0 & (Hpre & Hok) & Hno & Hex). split_and!; try done.
          apply Forall_forall. intros s [[Heq _] Hs]%list_elem_of_filter.
          rewrite Forall_forall in Hex. by apply Hex.
      + intros e. destruct (validateShift_valid this day v1 es x) as [_ Hes'].
        simpl in Hes'. rewrite Hes'. simpl in Hes. rewrite Hes, filter_app. f_equal. }
  specialize (Hgen [] (v, ∅)). simpl in Hgen. apply Hgen.
  - split; [intros ?; split_and!; [done|constructor|done]|tauto].
  - intros e. by rewrite lookup_empty.
Qed.

Lemma validateDay_valid this schedule v day :
  Solver.isValid (Solver.validateDay this schedule v day) = true
  ↔ Solver.isValid v = true ∧ Solver_dayOk this schedule day.
Proof.
  unfold Solver.validateDay, Solver_dayOk.
  destruct (schedule !! Solver.Day.id day) as [shifts|] eqn:Hsched.
  - rewrite validateShifts_valid, faultIf_valid. split.
    + intros ((_ & Hv) & Hok & Hno). split; [done|]. by exists shifts.
    + intros (Hv & shifts' & [= <-] & Hok & Hno). split_and!; try done.
      destruct (Solver.Day.isOpen day) eqn:Hopen; [done|]. simpl.
      apply bool_decide_eq_false. destruct shifts as [|s l]; [simpl; lia|].
      apply Forall_cons in Hok as [(emp & _ & _ & Hopen' & _) _]. congruence.
  - simpl. split; [done|]. intros (_ & shifts & ? & _). done.
Qed.

Lemma validateDays_valid this schedule days v :
  Solver.isValid (fold_left (Solver.validateDay this schedule) days v) = true
  ↔ Solver.isValid v = true ∧ Forall (Solver_dayOk this schedule) days.
Proof.
  revert v. induction days as [|day days IH]; intros v; simpl.
  - split; [intros ?; split; [done|constructor]|tauto].
  - rewrite IH, validateDay_valid, Forall_cons. tauto.
Qed.

Lemma keptOrFaulted_trans a b c : keptOrFaulted a b → keptOrFaulted b c → keptOrFaulted a c.
Proof. intros [->|?] [->|?]; [by left|by right..]. Qed.

Lemma faultIf_keptOrFaulted b m v : keptOrFaulted v (Solver.faultIf b m v).
Proof.
  destruct b; [right|by left]. split; [done|]. simpl.
  intros Hnil. by apply app_eq_nil in Hnil as [_ ?].
Qed.

Lemma fold_keptOrFaulted {A} (f : Solver.Validation → A → Solver.Validation) (l : list A) v :
  (∀ v x, keptOrFaulted v (f v x)) → keptOrFaulted v (fold_left f l v).
Proof.
  intros Hf. revert v. induction l as [|x l IH]; intros v; simpl; [by left|].
  eapply keptOrFaulted_trans; [apply Hf|apply IH].
Qed.

Lemma validateShift_keptOrFaulted this day acc shift :
  keptOrFaulted acc.1 (Solver.validateShift this day acc shift).1.
Proof.
  destruct acc as [v es]. unfold Solver.validateShift.
  destruct (Solver.employees_get this (Solver.Shift.employeeId shift)) as [employee|]; simpl.
  - eapply keptOrFaulted_trans;
      [|apply fold_keptOrFaulted; intros; apply faultIf_keptOrFaulted].
    repeat (eapply keptOrFaulted_trans; [|apply faultIf_keptOrFaulted]). by left.
  - apply (faultIf_keptOrFaulted true).
Qed.

Lemma validateDay_keptOrFaulted this schedule v day :
  keptOrFaulted v (Solver.validateDay this schedule v day).
Proof.
  unfold Solver.validateDay. destruct (schedule !! Solver.Day.id day) as [shifts|].
  - assert (∀ acc, keptOrFaulted acc.1 (fold_left (Solver.validateShift this day) shifts acc).1)
      as Hgen.
    { induction shifts as [|s l IH]; intros acc; simpl; [by left|].
      eapply keptOrFaulted_trans; [apply validateShift_keptOrFaulted|apply IH]. }
    eapply keptOrFaulted_trans; [|apply (Hgen (_, ∅))]. apply faultIf_keptOrFaulted.
  - apply (faultIf_keptOrFaulted true).
Qed.

Lemma validation_valid this schedule :
  Solver.validateSchedule this schedule = true ↔ Solver_scheduleOk this schedule.
Proof.
  unfold Solver.validateSchedule, Solver.validation, Solver_scheduleOk.
  rewrite validateDays_valid, faultIf_valid, bool_decide_eq_false. simpl.
  split; [intros [[Hsize _] Hdays]|intros [Hsize Hdays]]; split; try done.
  - destruct (decide (size schedule = length (Solver.days this))); [done|].
    by destruct Hsize.
  - split; [|done]. intros Hne. done.
Qed.

(** X1.  [validateSchedule] accepts a schedule exactly when it has as many
    lines as the calendar has days and, for every day of the calendar, a
    line whose shifts name existing employees who are not on vacation
    that day, lie on an open day within its opening window with
    [start < end], and do not overlap per employee; and exactly then it
    collects no error message. *)
Theorem validateSchedule_spec (this : Solver.t) (schedule : gmap Z (list Solver.Shift.t)) :
  (Solver.validateSchedule this schedule = true ↔ Solver_scheduleOk this schedule)
  ∧ (Solver.validateSchedule this schedule = true
     ↔ Solver.errors (Solver.validation this schedule) = []).
Proof.
  split; [apply validation_valid|].
  - unfold Solver.validateSchedule, Solver.validation.
    assert (keptOrFaulted (Solver.mkValidation true [])
              (fold_left (Solver.validateDay this schedule) (Solver.days this)
                 (Solver.faultIf (bool_decide (size schedule ≠ length (Solver.days this)))
                    ("Invalid line count: Expected " +:+ pretty (length (Solver.days this))
                     +:+ ", got " +:+ pretty (size schedule))
                    (Solver.mkValidation true [])))) as [->|[Hf Herr]].
    { eapply keptOrFaulted_trans; [apply faultIf_keptOrFaulted|].
      apply fold_keptOrFaulted. intros. apply validateDay_keptOrFaulted. }
    + done.
    + rewrite Hf. split; [done|]. intros Hnil. done.
Qed.

(** ** [run]: generate, validate, score *)
Lemma Map_set_fresh {K V} `{EqDecision K} (k : K) (v : V) (m : list (K * V)) :
  k ∉ m.*1 → Map_set k v m = m ++ [(k, v)].
Proof. intros Hk. unfold Map_set. by rewrite decide_False. Qed.

Lemma generateSchedule_fmap this :
  NoDup (Solver.Day.id <$> Solver.days this) →
  Solver.generateSchedule this
  = (λ day, (Solver.Day.id day, Solver.dailyShifts this day)) <$> Solver.days this.
Proof.
  unfold Solver.generateSchedule. generalize (Solver.days this). intros days.
  induction days as [|day days IH] using rev_ind; [done|].
  rewrite fmap_app, NoDup_app. intros (Hnd & Hfresh & _).
  rewrite fold_left_app. simpl. rewrite IH by done. rewrite fmap_app. simpl.
  apply Map_set_fresh. rewrite <-list_fmap_compose. intros Hin.
  apply (Hfresh (Solver.Day.id day)); [done|]. left.
Qed.

Lemma employees_get_elem_of this employee :
  NoDup (Solver.Employee.id <$> Solver.employees this) →
  employee ∈ Solver.employees this →
  Solver.employees_get this (Solver.Employee.id employee) = Some employee.
Proof.
  unfold Solver.employees_get. generalize (Solver.employees this). intros l.
  induction l as [|x l IH]; [by intros _ ?%elem_of_nil|].
  simpl. intros [Hx Hnd]%NoDup_cons [->|Hin]%elem_of_cons.
  - by rewrite bool_decide_true.
  - rewrite bool_decide_false; [by apply IH|].
    intros Heq. apply Hx. rewrite Heq. apply list_elem_of_fmap. by exists employee.
Qed.

(** The schedule [generateSchedule] returns passes every check. *)
Lemma generateSchedule_scheduleOk this :
  Solver_inputOk this →
  Solver_scheduleOk this (list_to_map (Solver.generateSchedule this)).
Proof.
  intros (Hdays & Hemps & Hopen). rewrite generateSchedule_fmap by done.
  set (line := λ day, (Solver.Day.id day, Solver.dailyShifts this day)).
  assert (NoDup (line <$> Solver.days this).*1) as Hnd.
  { by rewrite <-list_fmap_compose. }
  split.
  - rewrite map_size_list_to_map by done. by rewrite length_fmap.
  - apply Forall_forall. intros day Hday. exists (Solver.dailyShifts this day).
    destruct (dailyShifts_valid this day Hemps) as (Hclosed & Hplaced & Hno).
    split_and!; [|  |done].
    + apply elem_of_list_to_map_1; [done|]. apply list_elem_of_fmap. by exists day.
    + apply Forall_forall. intros s Hs. rewrite Forall_forall in Hplaced.
      destruct (Hplaced s Hs) as (Hstart & Hend & _ & emp & Hemp & Hid & Hvac). exists emp.
      assert (Solver.Day.isOpen day = true) as Hisopen.
      { destruct (Solver.Day.isOpen day) eqn:Ho; [done|].
        rewrite Hclosed in Hs by done. by apply elem_of_nil in Hs. }
      rewrite Forall_forall in Hopen. specialize (Hopen day Hday Hisopen).
      rewrite <-Hid, employees_get_elem_of by done.
      split_and!; try done; lia.
Qed.

(** One simulated hour keeps the clones and states of all employees. *)
Lemma simulateHours_runOk this day shifts sim (hs : list Z) :
  Solver_wf this sim → Solver_staffed this shifts → NoOverlap shifts →
  ∃ sim', foldM (Solver.simulateHour this day shifts) sim hs = Some sim' ∧ Solver_wf this sim'.
Proof.
  intros Hwf Hst Hno.
  apply (foldM_total (Solver_wf this)); [|done].
  intros sim0 h _ Hwf0.
  destruct (simulateHour_spec this day shifts sim0 h Hwf0 Hst Hno)
    as (_ & sim1 & _ & Hsim & Hwf1 & _).
  by exists sim1.
Qed.

Lemma simulateDay_runOk this schedule run day :
  Solver_runOk this run → Solver_dayOk this schedule day →
  ∃ run', Solver.simulateDay this schedule run day = Some run' ∧ Solver_runOk this run'.
Proof.
  intros Hrun (shifts & Hsched & Hok & Hno). unfold Solver.simulateDay. rewrite Hsched. simpl.
  destruct (Solver.Day.isOpen day); simpl.
  - destruct (simulateHours_runOk this day shifts (Solver_dayStart run)
                (hours (Solver.Day.start day) (Solver.Day.end_ day)))
      as (sim & Hsim & Hwf); [done| |done|].
    { eapply Forall_impl; [exact Hok|]. intros s (emp & Hemp & _). by eexists. }
    unfold Solver.simulateHours. unfold Solver_dayStart in Hsim. rewrite Hsim.
    eexists. split; [done|]. destruct Hwf as [Hwf _].
    split; [exact Hwf|]. intros e sk Hel. by apply elem_of_nil in Hel.
  - eexists. split; [done|]. exact Hrun.
Qed.

(** A schedule that passes [validateSchedule] is scored: the simulation
    does not throw. *)
Lemma scheduleOk_scored this schedule :
  Solver_scheduleOk this schedule → is_Some (Solver.calculateScore this schedule).
Proof.
  intros [_ Hdays]. unfold Solver.calculateScore, Solver.simulate.
  destruct (foldM_total (Solver_runOk this) (Solver.simulateDay this schedule)
              (Solver.days this) (Solver.initialRun this)) as (run & -> & _).
  - intros run day Hday Hrun. rewrite Forall_forall in Hdays.
    by apply simulateDay_runOk; [|apply Hdays].
  - apply initial_wf.
  - by eexists.
Qed.

(** X2.  On an input whose day ids and employee ids are unique and whose
    open days open before they close, [run] does not abort: the schedule
    [generateSchedule] returns passes [validateSchedule], and
    [calculateScore] returns a score for it. *)
Theorem run_scores (this : Solver.t) :
  Solver_inputOk this →
  Solver.validateSchedule this (list_to_map (Solver.generateSchedule this)) = true
  ∧ ∃ score, Solver.validateThenScore this (list_to_map (Solver.generateSchedule this))
             = Solver.Scored (Some score).
Proof.
  intros Hinput.
  pose proof (generateSchedule_scheduleOk this Hinput) as Hok.
  pose proof (proj2 (validation_valid this _) Hok) as Hvalid.
  split; [exact Hvalid|].
  destruct (scheduleOk_scored this _ Hok) as [score Hscore].
  exists score. unfold Solver.validateThenScore. by rewrite Hvalid, Hscore.
Qed.

Lemma run_scores_witness :
  ∃ score, Solver.validateThenScore ScenarioTwoSkills.solver
             (list_to_map (Solver.generateSchedule ScenarioTwoSkills.solver))
           = Solver.Scored (Some score).
Proof.
  apply (run_scores ScenarioTwoSkills.solver).
  split; [|split].
  - apply NoDup_singleton.
  - apply NoDup_singleton.
  - constructor; [simpl; lia|constructor].
Defined.

(** X3.  [calculateScore] never throws on a schedule [validateSchedule]
    has accepted: steps 3 and 4 of [run] abort or produce a score. *)
Theorem validated_schedule_scores (this : Solver.t) (schedule : gmap Z (list Solver.Shift.t)) :
  Solver.validateThenScore this schedule = Solver.Aborted
  ∧ Solver.validateSchedule this schedule = false
  ∨ ∃ score, Solver.validateThenScore this schedule = Solver.Scored (Some score)
             ∧ Solver.calculateScore this schedule = Some score
             ∧ Solver.validateSchedule this schedule = true.
Proof.
  unfold Solver.validateThenScore.
  destruct (Solver.validateSchedule this schedule) eqn:Hvalid; simpl; [right|by left].
  apply validation_valid in Hvalid.
  destruct (scheduleOk_scored this schedule Hvalid) as [score Hscore].
  exists score. by rewrite Hscore.
Qed.

(** ** No false alarm in [RepValidator.calculateCapacity] *)
Lemma errorsFrom_refl P a : errorsFrom P a a.
Proof. split; [by left|by left]. Qed.

Lemma errorsFrom_trans P a b c : errorsFrom P a b → errorsFrom P b c → errorsFrom P a c.
Proof.
  intros [H1 H2] [H3 H4]. split.
  - intros m Hm. destruct (H3 m Hm) as [?|?]; [by apply H1|by right].
  - intros Hc. destruct (H4 Hc) as [?|?]; [by apply H2|by right].
Qed.

Lemma errorsFrom_weaken (P Q : string → Prop) a b :
  (∀ m, P m → Q m) → errorsFrom P a b → errorsFrom Q a b.
Proof.
  intros HPQ [H1 H2]. split.
  - intros m Hm. destruct (H1 m Hm); [by left|right; by apply HPQ].
  - intros Hb. destruct (H2 Hb) as [?|[m ?]]; [by left|right; exists m; by apply HPQ].
Qed.

Lemma logError_errorsFrom (P : string → Prop) m this :
  P m → errorsFrom P this (RepValidator._logError m this).
Proof.
  intros HP. split.
  - intros m'. simpl. case_decide; [by left|].
    intros [?|Heq%list_elem_of_singleton]%elem_of_app; [by left|subst; by right].
  - intros _. right. by exists m.
Qed.

Lemma logErrorIf_errorsFrom (P : string → Prop) (c : Prop) `{Decision c} m this :
  (c → P m) →
  errorsFrom P this (if decide c then RepValidator._logError m this else this).
Proof.
  intros HP. case_decide; [apply logError_errorsFrom; auto|apply errorsFrom_refl].
Qed.

Lemma validityChecks_errorsFrom (P : string → Prop) dayId day emp today shift this :
  (dayId ∈ RepValidator.Employee.vacationDays emp →
   P (RepValidator.msgVacation dayId (RepValidator.Shift.employeeId shift))) →
  (RepValidator.Shift.start shift < RepValidator.Day.start day
   ∨ RepValidator.Day.end_ day < RepValidator.Shift.end_ shift →
   P (RepValidator.msgOutside dayId shift day)) →
  (existsb (RepValidator.overlapsWith shift) today = true →
   P (RepValidator.msgOverlap dayId (RepValidator.Shift.employeeId shift))) →
  errorsFrom P this (RepValidator.validityChecks dayId day emp today shift this).
Proof.
  intros H1 H2 H3. unfold RepValidator.validityChecks.
  eapply errorsFrom_trans; [apply (logErrorIf_errorsFrom P _ _ this H1)|].
  eapply errorsFrom_trans; [apply (logErrorIf_errorsFrom P _ _ _ H2)|].
  destruct (existsb _ today); [apply logError_errorsFrom; auto|apply errorsFrom_refl].
Qed.

(** The first loop logs nothing but the violations of the shifts visited. *)
Lemma scanShift_errorsFrom this dayId day pre sc x sc1 :
  sameModel this (RepValidator.scanThis sc) →
  todayFrom this pre sc →
  RepValidator.scanShift dayId day sc x = Some sc1 →
  errorsFrom (violation this dayId day (pre ++ [x]))
             (RepValidator.scanThis sc) (RepValidator.scanThis sc1)
  ∧ todayFrom this (pre ++ [x]) sc1.
Proof.
  intros Hsame Htoday Hstep.
  assert (RepValidator.employees (RepValidator.scanThis sc) = RepValidator.employees this)
    as Hemps by (symmetry; apply Hsame).
  assert (x ∈ pre ++ [x]) as Hx by (apply elem_of_app; right; left).
  destruct (RepValidator.employees this !! RepValidator.Shift.employeeId x) as [emp|] eqn:Hemp.
  - rewrite (scanShift_known _ _ _ _ emp) in Hstep by (by rewrite Hemps).
    injection Hstep as <-. simpl.
    set (e := RepValidator.Shift.employeeId x) in *.
    set (today := default [] (RepValidator.employeeShiftsToday sc !! e)) in *.
    split.
    + assert (errorsFrom (violation this dayId day (pre ++ [x])) (RepValidator.scanThis sc)
                (RepValidator.validityChecks dayId day emp today x (RepValidator.scanThis sc)))
        as [H1 H2]; [|by split].
      apply validityChecks_errorsFrom.
      * intros Hvac. by apply (onVacation _ _ _ _ x emp).
      * intros Hout. apply outsideWindow; [done| |done]. by eexists.
      * intros Hex. apply existsb_exists in Hex as (interval & Hin & Hov).
        apply list_elem_of_In in Hin.
        destruct (Htoday e interval Hin) as (s' & Hs' & He & ->).
        apply list_elem_of_lookup in Hs' as [i Hi].
        apply (overlapping _ _ _ _ i (length pre) s' x);
          [by eapply lookup_lt_Some
          |rewrite lookup_app_l; [done|by eapply lookup_lt_Some]
          |rewrite lookup_app_r, Nat.sub_diag by lia; done
          |done
          |by eexists
          |done].
    + unfold todayFrom. simpl. intros e' interval. destruct (decide (e' = e)) as [->|Hne].
      * rewrite lookup_insert_eq. simpl. intros Hin.
        assert (interval ∈ today
                ∨ interval = (RepValidator.Shift.start x, RepValidator.Shift.end_ x))
          as [Hold| ->].
        { destruct (existsb _ today); [by left|].
          apply elem_of_app in Hin as [?|?%list_elem_of_singleton]; [by left|by right]. }
        -- destruct (Htoday e interval Hold) as (s & Hs & He & Hi).
           exists s. split; [apply elem_of_app; by left|done].
        -- by exists x.
      * rewrite lookup_insert_ne by done. intros Hin.
        destruct (Htoday e' interval Hin) as (s & Hs & He & Hi).
        exists s. split; [apply elem_of_app; by left|done].
  - rewrite scanShift_unknown in Hstep by (by rewrite Hemps). injection Hstep as <-. simpl.
    split.
    + apply logError_errorsFrom. by apply unknownEmployee.
    + unfold todayFrom. simpl. intros e' interval Hin.
      destruct (Htoday e' interval Hin) as (s & Hs & He & Hi).
      exists s. split; [apply elem_of_app; by left|done].
Qed.

Lemma scanDay_errorsFrom this dayId day shifts sc :
  RepValidator.scanDay this dayId day shifts = Some sc →
  errorsFrom (violation this dayId day shifts) this (RepValidator.scanThis sc).
Proof.
  unfold RepValidator.scanDay. intros Hscan.
  cut (errorsFrom (violation this dayId day shifts) this (RepValidator.scanThis sc)
       ∧ todayFrom this shifts sc ∧ sameModel this (RepValidator.scanThis sc)).
  { tauto. }
  revert Hscan.
  apply (foldM_prefix_invariant
           (λ pre sc, errorsFrom (violation this dayId day pre) this (RepValidator.scanThis sc)
                      ∧ todayFrom this pre sc
                      ∧ sameModel this (RepValidator.scanThis sc))).
  - split_and!; [apply errorsFrom_refl| |apply sameModel_refl].
    intros e interval Hin. simpl in Hin. rewrite lookup_empty in Hin.
    by apply elem_of_nil in Hin.
  - intros pre x sc0 sc1 (Herr & Htoday & Hsame) Hstep.
    destruct (scanShift_errorsFrom this dayId day pre sc0 x sc1 Hsame Htoday Hstep)
      as [Herr1 Htoday1].
    split_and!; [|done|].
    + eapply errorsFrom_trans; [|exact Herr1].
      eapply errorsFrom_weaken; [|exact Herr]. intros m. apply violation_mono.
    + eapply sameModel_trans; [done|]. by apply scanShift_sameModel in Hstep as [? _].
Qed.

Lemma scoreDay_errorsFrom this t dayId t' :
  sameInput this t →
  RepValidator.scoreDay t dayId = Some t' →
  errorsFrom (violated this) t t'.
Proof.
  intros Hin Hstep. apply scoreDay_inv in Hstep as (day & Hday & _ & Herr).
  destruct (RepValidator.Day.isClosed day) eqn:Hclosed.
  - destruct Herr as [He Hv]. split; [rewrite He; by left|rewrite Hv; by left].
  - destruct Herr as (sc & Hscan & He & Hv).
    destruct (weeklyReset_frame t dayId) as (Hsame & Herr0 & Hval0).
    apply scanDay_errorsFrom in Hscan as [H1 H2].
    assert (∀ m, violation (RepValidator.weeklyReset t dayId) dayId day
                   (default [] (RepValidator.schedule t !! dayId)) m → violated this m) as Hviol.
    { intros m Hm. exists dayId, day.
      assert (sameInput (RepValidator.weeklyReset t dayId) this) as Hback.
      { destruct Hin as (I1 & I2 & I3 & I4), Hsame as (S1 & S2 & S3 & S4 & _).
        unfold sameInput. rewrite <-S1, <-S2, <-S3, <-S4. by split_and!. }
      destruct Hin as (_ & Hdays & Hemps & Hsched).
      split_and!; [by rewrite Hdays|done|]. rewrite Hsched.
      by eapply violation_sameInput. }
    split.
    + intros m. rewrite He. intros Hm. destruct (H1 m Hm) as [?|?].
      * left. by rewrite <-Herr0.
      * right. by apply Hviol.
    + rewrite Hv. intros Hf. destruct (H2 Hf) as [?|[m ?]].
      * left. by rewrite <-Hval0.
      * right. exists m. by apply Hviol.
Qed.

Lemma scoreDays_errorsFrom this l this' :
  foldM RepValidator.scoreDay this l = Some this' → errorsFrom (violated this) this this'.
Proof.
  intros Hfold.
  cut (sameInput this this' ∧ errorsFrom (violated this) this this'); [tauto|].
  revert Hfold.
  apply (foldM_invariant (λ t, sameInput this t ∧ errorsFrom (violated this) this t)).
  - intros t d t' _ [Hin Herr] Hstep. split.
    + eapply sameInput_trans; [done|]. by apply scoreDay_errorsGrow in Hstep as [? _].
    + eapply errorsFrom_trans; [done|]. by eapply scoreDay_errorsFrom.
  - split; [apply sameInput_refl|apply errorsFrom_refl].
Qed.

(** X4.  No false alarm.  On a schedule that parsed without an error and
    names existing employees only, on skills none of which is named like
    a member of [Object.prototype], every error [validateAndScore] has
    collected at the end is the message of a violation on an open day (or
    was in the list before), and the scorecard is the one of an invalid
    schedule exactly when there is such a violation; without one the list
    of errors is unchanged and the scorecard shows the accumulated
    profit, payroll and revenue potential. *)
Theorem errors_are_violations (this : RepValidator.t) :
  RepValidator.isValid this = true →
  RepValidator_scheduleStaffed this →
  RepValidator_scheduleOrdinary this →
  ∃ this' report,
    RepValidator.validateAndScore this = Some (this', Some report)
    ∧ (∀ m, m ∈ RepValidator.validationErrors this' →
            m ∈ RepValidator.validationErrors this ∨ violated this m)
    ∧ (report = RepValidator.InvalidSchedule (RepValidator.validationErrors this')
       ↔ ∃ m, violated this m)
    ∧ ((∀ m, ¬ violated this m) →
       RepValidator.validationErrors this' = RepValidator.validationErrors this
       ∧ report = RepValidator.ValidSchedule (RepValidator.totalProfit this')
                    (RepValidator.totalPayroll this')
                    (RepValidator.totalRevenuePotential this')
                    (Z.of_nat (length (RepValidator.dayIds this'))
                     * RepValidator.fixedCost (RepValidator.organization this'))).
Proof.
  intros Hvalid Hst Hord.
  destruct (validateAndScore_total this Hvalid Hst Hord) as (this' & report & Hrun).
  exists this', report. split; [done|].
  unfold RepValidator.validateAndScore in Hrun. rewrite Hvalid in Hrun. simpl in Hrun.
  destruct (foldM _ this _) as [t|] eqn:Hfold; [|done]. injection Hrun as <- <-.
  pose proof (scoreDays_errorsFrom _ _ _ Hfold) as [Hfrom Hflag].
  pose proof (scoreDays_errorsGrow _ _ _ Hfold) as [_ (_ & _ & Hkeep)].
  split; [exact Hfrom|]. split.
  - split.
    + destruct (RepValidator.isValid t) eqn:Ht; [done|]. intros _.
      destruct (Hflag eq_refl) as [?|?]; [congruence|done].
    + intros (m & dayId & day & Hday & Hopen & Hv).
      destruct (scoreDays_logged this t dayId day m Hday Hopen Hv Hfold) as [_ Hf].
      by rewrite Hf.
  - intros Hnone. destruct (RepValidator.isValid t) eqn:Ht.
    + split; [by apply Hkeep|done].
    + destruct (Hflag eq_refl) as [?|[m Hm]]; [congruence|]. by destruct (Hnone m).
Qed.

Lemma errors_are_violations_witness :
  ∃ this' report,
    RepValidator.validateAndScore (ScenarioA.validator 1 1) = Some (this', Some report)
    ∧ ∀ m, m ∈ RepValidator.validationErrors this' → violated (ScenarioA.validator 1 1) m.
Proof.
  destruct (errors_are_violations (ScenarioA.validator 1 1)) as (t & r & Hrun & Herr & _).
  - reflexivity.
  - intros dayId shifts Hsched.
    destruct (decide (dayId = 1)) as [->|Hne].
    + vm_compute in Hsched. injection Hsched as <-.
      constructor; [vm_compute; eexists; reflexivity|constructor].
    + unfold ScenarioA.validator in Hsched. simpl in Hsched.
      rewrite lookup_singleton_ne in Hsched by done. discriminate Hsched.
  - intros dayId shifts Hsched.
    destruct (decide (dayId = 1)) as [->|Hne].
    + vm_compute in Hsched. injection Hsched as <-.
      constructor; [reflexivity|constructor].
    + unfold ScenarioA.validator in Hsched. simpl in Hsched.
      rewrite lookup_singleton_ne in Hsched by done. discriminate Hsched.
  - exists t, r. split; [exact Hrun|]. intros m Hm.
    destruct (Herr m Hm) as [Hin|Hv]; [|exact Hv]. by apply elem_of_nil in Hin.
Defined.










(** ** [mergeShifts] of bah3.js on shifts of any length *)
Lemma groupStarts_firstHour shifts :
  Bah3.groupStarts (firstHour <$> shifts) = Bah3.groupStarts shifts.
Proof.
  unfold Bah3.groupStarts. generalize (@nil (string * list Z)).
  induction shifts as [|s l IH]; intros acc; simpl; [done|]. apply IH.
Qed.

(** X6.  [mergeShifts] of bah3.js reads only the start hour of a shift:
    on shifts of any length (with non-negative employee ids and skill
    names without hyphen) it returns what it returns on the shifts cut to
    their first hour, so the result covers exactly the slots
    (employee, start hour, skill) of the shifts; a longer shift loses its
    later hours. *)
Theorem Bah3_mergeShifts_first_hours (shifts : list Bah3.Shift.t) :
  Forall keyable shifts →
  Bah3.mergeShifts shifts = Bah3.mergeShifts (firstHour <$> shifts)
  ∧ ∃ merged,
      Bah3.mergeShifts shifts = Some merged
      ∧ ∀ e h sk, covers merged e h sk
                  ↔ ∃ s, s ∈ shifts ∧ Bah3.Shift.employeeId s = e
                         ∧ Bah3.Shift.skill s = sk ∧ Bah3.Shift.start s = h.
Proof.
  intros Hkey.
  assert (Bah3.mergeShifts shifts = Bah3.mergeShifts (firstHour <$> shifts)) as Heq.
  { unfold Bah3.mergeShifts. by rewrite groupStarts_firstHour. }
  split; [exact Heq|].
  destruct (Bah3_mergeShifts_spec (firstHour <$> shifts)) as (merged & Hm & Hcov).
  - apply Forall_fmap, Forall_forall. intros s _. reflexivity.
  - apply Forall_fmap. eapply Forall_impl; [exact Hkey|]. intros s Hs. exact Hs.
  - exists merged. split; [by rewrite Heq|]. intros e h sk. rewrite Hcov.
    unfold covers. split.
    + intros (s' & Hs' & He & Hact & Hsk).
      apply list_elem_of_fmap in Hs' as (s & -> & Hs).
      exists s. unfold activeAt in Hact. simpl in He, Hact, Hsk.
      split_and!; try done. lia.
    + intros (s & Hs & He & Hsk & Hh). exists (firstHour s).
      split; [apply list_elem_of_fmap; by exists s|].
      unfold worksOn, activeAt. simpl. split_and!; try done; lia.
Qed.

Lemma Bah3_mergeShifts_first_hours_witness :
  Bah3.mergeShifts [Bah3.Shift.mk 1 8 10 "Register"]
  = Bah3.mergeShifts [Bah3.Shift.mk 1 8 9 "Register"]
  ∧ ∃ merged, Bah3.mergeShifts [Bah3.Shift.mk 1 8 10 "Register"] = Some merged
              ∧ ¬ covers merged 1 9 "Register".
Proof.
  destruct (Bah3_mergeShifts_first_hours [Bah3.Shift.mk 1 8 10 "Register"])
    as (Heq & merged & Hm & Hcov).
  - constructor; [|constructor]. split; [simpl; lia|].
    simpl. repeat split; intros Hc; discriminate Hc.
  - split; [exact Heq|]. exists merged. split; [exact Hm|].
    intros Hc. apply Hcov in Hc as (s & Hs & _ & _ & Hstart).
    apply list_elem_of_singleton in Hs. subst s. simpl in Hstart. discriminate Hstart.
Defined.

(** ** Sums over lists and grouping maps *)
Lemma total_cons {X} (w : X → Z) (x : X) (l : list X) : total w (x :: l) = w x + total w l.
Proof. done. Qed.

Lemma total_app {X} (w : X → Z) (l1 l2 : list X) : total w (l1 ++ l2) = total w l1 + total w l2.
Proof. induction l1 as [|x l1 IH]; simpl; [done|]. rewrite IH. lia. Qed.

Lemma total_Permutation {X} (w : X → Z) (l1 l2 : list X) : l1 ≡ₚ l2 → total w l1 = total w l2.
Proof. induction 1; simpl; lia. Qed.

Lemma total_ext {X} (w1 w2 : X → Z) (l : list X) :
  (∀ x, x ∈ l → w1 x = w2 x) → total w1 l = total w2 l.
Proof.
  induction l as [|x l IH]; intros Hw; simpl; [done|].
  rewrite (Hw x) by left. rewrite IH; [done|]. intros y Hy. apply Hw. by right.
Qed.

Lemma total_fmap {X Y} (f : X → Y) (w : Y → Z) (l : list X) :
  total w (f <$> l) = total (w ∘ f) l.
Proof. induction l as [|x l IH]; csimpl; [done|]. by rewrite IH. Qed.

Lemma total_concat {X} (w : X → Z) (ls : list (list X)) :
  total w (concat ls) = total (total w) ls.
Proof. induction ls as [|l ls IH]; simpl; [done|]. by rewrite total_app, IH. Qed.

Lemma total_scale {X} (c : Z) (w : X → Z) (l : list X) :
  total (λ x, c * w x) l = c * total w l.
Proof. induction l as [|x l IH]; simpl; [lia|]. rewrite IH. lia. Qed.

Lemma total_length {X} (l : list X) : total (λ _, 1) l = Z.of_nat (length l).
Proof. induction l as [|x l IH]; simpl; [done|]. lia. Qed.

Lemma Map_replace_fresh {K V} `{EqDecision K} (k : K) (v : V) (m : list (K * V)) :
  k ∉ m.*1 → (λ kv : K * V, if decide (kv.1 = k) then (k, v) else kv) <$> m = m.
Proof.
  induction m as [|[k2 v2] m IH]; [done|]. rewrite !fmap_cons. cbn [fst].
  intros Hk. rewrite decide_False.
  - f_equal. apply IH. intros Hin. apply Hk. by right.
  - intros ->. apply Hk. by left.
Qed.

(** Replacing the value of a key that occurs once. *)
Lemma Map_set_total {K V} `{EqDecision K} (F : K * V → Z) (k : K) (v old : V)
    (m : list (K * V)) :
  NoDup m.*1 → (k, old) ∈ m →
  total F (Map_set k v m) = total F m - F (k, old) + F (k, v)
  ∧ (Map_set k v m).*1 = m.*1.
Proof.
  intros Hnd Hin. unfold Map_set. rewrite decide_True.
  2: { apply list_elem_of_fmap. by exists (k, old). }
  induction m as [|[k' v'] m IH]; [by apply elem_of_nil in Hin|].
  rewrite !fmap_cons in *. cbn beta iota delta [fst] in *.
  apply NoDup_cons in Hnd as [Hk' Hnd].
  destruct (decide (k' = k)) as [->|Hne].
  - assert (v' = old) as ->.
    { apply elem_of_cons in Hin as [[= ->]|Hin]; [done|].
      destruct Hk'. apply list_elem_of_fmap. by exists (k, old). }
    rewrite Map_replace_fresh by done. rewrite !total_cons. split; [lia|done].
  - apply elem_of_cons in Hin as [[= -> _]|Hin]; [done|].
    destruct (IH Hnd Hin) as [IH1 IH2]. rewrite !total_cons, IH1, IH2. split; [lia|done].
Qed.

Section GroupedTotal.
Context {A V : Type} (key : A → string) (val : A → V) (w : string → V → Z).

(** The sum over the entries of a grouping map is the sum over the items
    it was built from. *)
Lemma grouped_total (l : list A) :
  total (λ entry, total (w entry.1) entry.2) (grouped key val l)
  = total (λ s, w (key s) (val s)) l
  ∧ NoDup (grouped key val l).*1.
Proof.
  induction l as [|x l [IH Hnd]] using rev_ind; [split; [done|constructor]|].
  rewrite grouped_snoc, total_app. simpl.
  destruct (Map_get (key x) (grouped key val l)) as [old|] eqn:Hget; simpl.
  - apply Map_get_elem_of in Hget.
    destruct (Map_set_total (λ entry, total (w entry.1) entry.2) (key x) (old ++ [val x]) old
                (grouped key val l) Hnd Hget) as [Ht Hk].
    rewrite Ht, Hk. split; [|done]. simpl. rewrite total_app, IH. simpl. lia.
  - assert (key x ∉ (grouped key val l).*1) as Hfresh.
    { intros Hin. apply list_elem_of_fmap in Hin as ([k vs] & Hk & Hin). simpl in Hk. subst k.
      unfold Map_get in Hget. apply fmap_None in Hget.
      apply list_elem_of_In in Hin.
      pose proof (find_none _ _ Hget (key x, vs) Hin) as Hf.
      simpl in Hf. by rewrite bool_decide_true in Hf. }
    rewrite Map_set_fresh by done. rewrite total_app, fmap_app. simpl.
    split; [rewrite IH; lia|].
    apply NoDup_app. split_and!; [done| |apply NoDup_singleton].
    intros k Hk Hk'%list_elem_of_singleton. by subst.
Qed.
End GroupedTotal.

(** ** Merging keeps the hours *)
Section MergeTotal.
Context {A B : Type} (step : list B * B → A → list B * B) (wB : B → Z) (wA : A → Z).
Hypothesis step_total : ∀ merged current x,
  total wB (step (merged, current) x).1 + wB (step (merged, current) x).2
  = total wB merged + wB current + wA x.

Lemma mergeFold_total (l : list A) (first : B) :
  let '(merged, current) := fold_left step l ([], first) in
  total wB (merged ++ [current]) = wB first + total wA l.
Proof.
  cut (∀ st, total wB (fold_left step l st).1 + wB (fold_left step l st).2
             = total wB st.1 + wB st.2 + total wA l).
  { intros Hgen. specialize (Hgen ([], first)).
    destruct (fold_left step l ([], first)) as [merged current]. simpl in Hgen.
    rewrite total_app. simpl. lia. }
  induction l as [|x l IH]; intros [merged current]; simpl; [lia|].
  rewrite IH. pose proof (step_total merged current x) as Hstep.
  destruct (step (merged, current) x) as [m' c']. simpl in *. lia.
Qed.
End MergeTotal.

Lemma runsOf_total (starts : list Z) :
  total (λ run : Z * Z, run.2 - run.1) (Bah3.runsOf starts) = Z.of_nat (length starts).
Proof.
  unfold Bah3.runsOf.
  rewrite <-(Permutation_length (Array_sort_Permutation (λ a b, a - b) starts)).
  destruct (Array_sort _ starts) as [|first rest]; [done|].
  pose proof (mergeFold_total Bah3.runStep (λ run : Z * Z, run.2 - run.1) (λ _, 1)) as Hres.
  specialize (Hres ltac:(intros merged [cs ce] x; unfold Bah3.runStep;
                         destruct (decide (x = ce)); simpl; rewrite ?total_app; simpl; lia)
                   rest (first, first + 1)).
  destruct (fold_left Bah3.runStep rest ([], (first, first + 1))) as [runs current].
  rewrite Hres, total_length. simpl. lia.
Qed.

Lemma mergeBlocks_total (blocks : list (Z * Z)) :
  total (λ b : Z * Z, b.2 - b.1) (Bah2.mergeBlocks blocks)
  = total (λ b : Z * Z, b.2 - b.1) blocks.
Proof.
  unfold Bah2.mergeBlocks.
  rewrite <-(total_Permutation _ _ _ (Array_sort_Permutation (λ a b : Z * Z, a.1 - b.1) blocks)).
  destruct (Array_sort _ blocks) as [|first rest]; [done|].
  pose proof (mergeFold_total Bah2.mergeStep (λ b : Z * Z, b.2 - b.1)
                (λ b : Z * Z, b.2 - b.1)) as Hres.
  specialize (Hres ltac:(intros merged [cs ce] [ns ne]; unfold Bah2.mergeStep; simpl;
                         destruct (decide (ns = ce)); simpl; rewrite ?total_app; simpl; lia)
                   rest first).
  destruct (fold_left Bah2.mergeStep rest ([], first)) as [merged current].
  rewrite Hres. simpl. lia.
Qed.

Lemma Bah_mergeStep_total (rate : Z → string → Z) (merged : list Bah.Shift.t)
    (current next : Bah.Shift.t) :
  total (ratedHours rate) (Bah.mergeStep (merged, current) next).1
  + ratedHours rate (Bah.mergeStep (merged, current) next).2
  = total (ratedHours rate) merged + ratedHours rate current + ratedHours rate next.
Proof.
  unfold Bah.mergeStep.
  destruct (bool_decide (Bah.Shift.employeeId current = Bah.Shift.employeeId next)
            && bool_decide (Bah.Shift.skill current = Bah.Shift.skill next)
            && bool_decide (Bah.Shift.end_ current = Bah.Shift.start next)) eqn:Hmerge.
  - apply andb_true_iff in Hmerge as [Hmerge He%bool_decide_eq_true].
    apply andb_true_iff in Hmerge as [Hid%bool_decide_eq_true Hsk%bool_decide_eq_true].
    unfold ratedHours. simpl. rewrite <-Hid, <-Hsk, He. lia.
  - simpl. rewrite total_app. simpl. lia.
Qed.

Lemma Bah_mergeShifts_total (localeCompare : string → string → Z) (rate : Z → string → Z)
    (shifts : list Bah.Shift.t) :
  total (ratedHours rate) (Bah.mergeShifts localeCompare shifts)
  = total (ratedHours rate) shifts.
Proof.
  unfold Bah.mergeShifts.
  rewrite <-(total_Permutation _ _ _
               (Array_sort_Permutation (Bah.compareShifts localeCompare) shifts)).
  destruct (Array_sort _ shifts) as [|first rest]; [done|].
  pose proof (mergeFold_total Bah.mergeStep (ratedHours rate) (ratedHours rate)
                (Bah_mergeStep_total rate) rest first) as Hres.
  destruct (fold_left Bah.mergeStep rest ([], first)) as [merged current].
  rewrite Hres. simpl. lia.
Qed.

Lemma foldM_concat_total {A B} (f : A → option (list B)) (w : B → Z) (l : list A)
    (acc r : list B) :
  foldM (λ merged entry, let? l := f entry in Some (merged ++ l)) acc l = Some r →
  total w r = total w acc + total (λ x, total w (default [] (f x))) l.
Proof.
  revert acc. induction l as [|x l IH]; intros acc; simpl.
  - intros [= ->]. lia.
  - destruct (f x) as [ys|]; [|done]. simpl. intros Hr.
    rewrite (IH _ Hr), total_app. lia.
Qed.

Lemma mapM_total {A B} (f : A → option B) (w : B → Z) (l : list A) (r : list B) :
  mapM f l = Some r →
  total w r = total (λ x, from_option w 0 (f x)) l.
Proof.
  intros HF%mapM_Some. induction HF as [|x y l r Hxy HF IH]; [done|].
  simpl. rewrite Hxy, IH. done.
Qed.

Lemma Bah3_mergeShifts_total (rate : Z → string → Z) (shifts merged : list Bah3.Shift.t) :
  Forall keyable shifts → Bah3.mergeShifts shifts = Some merged →
  total (ratedHours rate) merged
  = total (λ s, rate (Bah3.Shift.employeeId s) (Bah3.Shift.skill s)) shifts.
Proof.
  intros Hkey Hm. rewrite Forall_forall in Hkey.
  set (key := λ s, groupKey (Bah3.Shift.employeeId s) (Bah3.Shift.skill s)).
  set (W := λ (k : string) (_ : Z),
              match splitKey k with
              | Some (id, skill) => from_option (λ e, rate e skill) 0 (Number id)
              | None => 0
              end).
  apply (foldM_concat_total _ (ratedHours rate)) in Hm. rewrite Hm. simpl.
  rewrite groupStarts_grouped.
  destruct (grouped_total key Bah3.Shift.start W shifts) as [Hsum _].
  assert (∀ s, s ∈ shifts → ∀ v, W (key s) v = rate (Bah3.Shift.employeeId s) (Bah3.Shift.skill s))
    as HW.
  { intros s Hs v. destruct (Hkey s Hs) as [He Hsk]. simpl in He, Hsk.
    unfold W, key. rewrite splitKey_groupKey by done.
    destruct (Number_pretty _ He) as [-> _]. done. }
  rewrite <-(total_ext (λ s, W (key s) (Bah3.Shift.start s))) by (intros s Hs; by apply HW).
  rewrite <-Hsum. apply total_ext. intros [k starts] Hel.
  apply grouped_sound in Hel as [(s & Hs & Hk) _]. simpl in Hk. subst k.
  destruct (Hkey s Hs) as [He Hsk]. simpl in He, Hsk.
  unfold Bah3.mergeEntry. cbn [fst snd]. fold (key s).
  unfold key at 1. rewrite splitKey_groupKey by done.
  destruct (Number_pretty _ He) as [-> _]. simpl.
  rewrite total_fmap.
  rewrite (total_ext _ (λ _, rate (Bah3.Shift.employeeId s) (Bah3.Shift.skill s)) starts)
    by (intros v _; by apply HW).
  transitivity (rate (Bah3.Shift.employeeId s) (Bah3.Shift.skill s)
                * total (λ run : Z * Z, run.2 - run.1) (Bah3.runsOf starts)).
  - generalize (Bah3.runsOf starts). intros runs.
    induction runs as [|run runs IH]; simpl; [lia|]. rewrite IH.
    unfold ratedHours. simpl. lia.
  - rewrite runsOf_total. induction starts as [|v starts IH]; [simpl; lia|].
    rewrite total_cons, <-IH. cbn [length]. lia.
Qed.

Lemma Bah2_mergedEntry_keyable (shifts : list Bah2.Shift.t) (k : string) (blocks : list (Z * Z)) :
  Forall keyable shifts → (k, blocks) ∈ Bah2.groupedShifts shifts →
  ∃ s, s ∈ shifts ∧ k = groupKey (Bah2.Shift.employeeId s) (Bah2.Shift.skill s)
       ∧ 0 ≤ Bah2.Shift.employeeId s
       ∧ Bah2.mergedEntry (k, blocks)
         = Some (pretty (Bah2.Shift.employeeId s), Bah2.Shift.skill s, Bah2.mergeBlocks blocks).
Proof.
  intros Hkey Hel. rewrite Forall_forall in Hkey. rewrite groupedShifts_grouped in Hel.
  apply grouped_sound in Hel as [(s & Hs & Hk) _]. exists s.
  destruct (Hkey s Hs) as [He Hsk]. simpl in He, Hsk.
  split; [done|]. split; [done|]. split; [done|].
  unfold Bah2.mergedEntry. simpl. rewrite <-Hk. by rewrite splitKey_groupKey by done.
Qed.

Lemma Bah2_mergedEntries_total (rate : Z → string → Z) (shifts : list Bah2.Shift.t) :
  Forall keyable shifts →
  ∃ entries, Bah2.mergedEntries shifts = Some entries
             ∧ total (Bah2_ratedHours rate) entries = total (ratedHours rate) shifts.
Proof.
  intros Hkey. pose proof Hkey as Hkey'. rewrite Forall_forall in Hkey'.
  destruct (Bah2.mergedEntries shifts) as [entries|] eqn:Hmap.
  2: { exfalso. unfold Bah2.mergedEntries in Hmap.
       assert (is_Some (mapM Bah2.mergedEntry (Bah2.groupedShifts shifts))) as [? Hsome];
         [|congruence].
       apply mapM_is_Some, Forall_forall. intros [k blocks] Hel.
       destruct (Bah2_mergedEntry_keyable shifts k blocks Hkey Hel) as (s & _ & _ & _ & Hme).
       unfold compose. rewrite Hme. by eexists. }
  exists entries. split; [done|]. unfold Bah2.mergedEntries in Hmap.
  rewrite (mapM_total _ _ _ _ Hmap).
  set (key := λ s, groupKey (Bah2.Shift.employeeId s) (Bah2.Shift.skill s)).
  set (val := λ s, (Bah2.Shift.start s, Bah2.Shift.end_ s)).
  set (W := λ (k : string) (b : Z * Z),
              match splitKey k with
              | Some (id, skill) => from_option (λ e, rate e skill * (b.2 - b.1)) 0 (Number id)
              | None => 0
              end).
  destruct (grouped_total key val W shifts) as [Hsum _].
  rewrite (total_ext (ratedHours rate) (λ s, W (key s) (val s))).
  2: { intros s Hs. destruct (Hkey' s Hs) as [He Hsk]. simpl in He, Hsk.
       unfold W, key. rewrite splitKey_groupKey by done.
       destruct (Number_pretty _ He) as [-> _]. done. }
  rewrite <-Hsum. apply total_ext. intros [k blocks] Hel.
  destruct (Bah2_mergedEntry_keyable shifts k blocks Hkey Hel) as (s & Hs & Hk & He & Hme).
  rewrite Hme. subst k. destruct (Hkey' s Hs) as [_ Hsk]. simpl in Hsk.
  unfold Bah2_ratedHours. cbn [from_option fst snd].
  destruct (Number_pretty _ He) as [-> _].
  rewrite mergeBlocks_total.
  rewrite (total_ext (W (groupKey (Bah2.Shift.employeeId s) (Bah2.Shift.skill s)))
             (λ b, rate (Bah2.Shift.employeeId s) (Bah2.Shift.skill s) * (b.2 - b.1))).
  2: { intros b _. unfold W. rewrite splitKey_groupKey by done.
       destruct (Number_pretty _ He) as [-> _]. done. }
  by rewrite total_scale.
Qed.

(** X7.  Merging leaves the hours unchanged, at any rate per hour that
    depends on the employee and the skill (a salary; or 1 for one employee
    and 0 for the others, which gives the hours of that employee):
    [mergeShifts] of bah.js on any shifts and for any [localeCompare], the
    merging at the end of [generateSchedule] of bah2.js on shifts of any
    length whose keys can be split again (employee ids that are not
    negative, skill names without a hyphen), and [mergeShifts] of bah3.js
    on one-hour shifts whose keys can be split again. *)
Theorem merge_preserves_hours
    (localeCompare : string → string → Z) (rate : Z → string → Z)
    (shifts : list Bah.Shift.t) (shiftsForDay : list Bah2.Shift.t)
    (hourShifts : list Bah3.Shift.t) :
  Forall keyable shiftsForDay →
  Forall singleHour hourShifts → Forall keyable hourShifts →
  total (ratedHours rate) (Bah.mergeShifts localeCompare shifts)
  = total (ratedHours rate) shifts
  ∧ (∃ entries, Bah2.mergedEntries shiftsForDay = Some entries
                ∧ total (Bah2_ratedHours rate) entries
                  = total (ratedHours rate) shiftsForDay)
  ∧ (∃ merged, Bah3.mergeShifts hourShifts = Some merged
               ∧ total (ratedHours rate) merged = total (ratedHours rate) hourShifts).
Proof.
  intros K2 H3 K3. split_and!.
  - apply Bah_mergeShifts_total.
  - by apply Bah2_mergedEntries_total.
  - destruct (Bah3_mergeShifts_spec hourShifts H3 K3) as (merged & Hm & _).
    exists merged. split; [done|].
    rewrite (Bah3_mergeShifts_total rate hourShifts merged K3 Hm).
    apply total_ext. intros s Hs. rewrite Forall_forall in H3.
    pose proof (H3 s Hs) as Hone. unfold singleHour in Hone. unfold ratedHours.
    cbn [employeeOf startOf endOf skillOf Bah3_ShiftLike] in *. lia.
Qed.

Lemma merge_preserves_hours_witness :
  total (ratedHours (λ e _, if decide (e = 1) then 1 else 0))
        (Bah.mergeShifts (λ a b, if decide (a = b) then 0 else 1)
           [Bah.Shift.mk 1 9 12 "Register" 1; Bah.Shift.mk 2 8 9 "Stock" 1;
            Bah.Shift.mk 1 8 9 "Register" 1]) = 4
  ∧ (∃ entries,
       Bah2.mergedEntries [Bah2.Shift.mk 1 8 10 "Register" 1; Bah2.Shift.mk 2 8 9 "Stock" 1;
                           Bah2.Shift.mk 1 10 11 "Register" 1]
       = Some entries
       ∧ total (Bah2_ratedHours (λ e _, if decide (e = 1) then 1 else 0)) entries = 3)
  ∧ (∃ merged,
       Bah3.mergeShifts [Bah3.Shift.mk 1 8 9 "Register"; Bah3.Shift.mk 2 8 9 "Stock";
                         Bah3.Shift.mk 1 9 10 "Register"]
       = Some merged
       ∧ total (ratedHours (λ e _, if decide (e = 1) then 1 else 0)) merged = 2).
Proof.
  assert (noDash "Register") as Hr.
  { simpl. repeat split; intros Heq; discriminate Heq. }
  assert (noDash "Stock") as Hs.
  { simpl. repeat split; intros Heq; discriminate Heq. }
  destruct (merge_preserves_hours (λ a b, if decide (a = b) then 0 else 1)
              (λ e _, if decide (e = 1) then 1 else 0)
              [Bah.Shift.mk 1 9 12 "Register" 1; Bah.Shift.mk 2 8 9 "Stock" 1;
               Bah.Shift.mk 1 8 9 "Register" 1]
              [Bah2.Shift.mk 1 8 10 "Register" 1; Bah2.Shift.mk 2 8 9 "Stock" 1;
               Bah2.Shift.mk 1 10 11 "Register" 1]
              [Bah3.Shift.mk 1 8 9 "Register"; Bah3.Shift.mk 2 8 9 "Stock";
               Bah3.Shift.mk 1 9 10 "Register"])
    as (H1 & (entries & He & H2) & (merged & Hm & H3)).
  - constructor; [split; [simpl; lia|exact Hr]|].
    constructor; [split; [simpl; lia|exact Hs]|].
    constructor; [split; [simpl; lia|exact Hr]|constructor].
  - constructor; [reflexivity|]. constructor; [reflexivity|].
    constructor; [reflexivity|constructor].
  - constructor; [split; [simpl; lia|exact Hr]|].
    constructor; [split; [simpl; lia|exact Hs]|].
    constructor; [split; [simpl; lia|exact Hr]|constructor].
  - split; [|split].
    + rewrite H1. reflexivity.
    + exists entries. split; [exact He|]. rewrite H2. reflexivity.
    + exists merged. split; [exact Hm|]. rewrite H3. reflexivity.
Defined.

(** ** sonnet.js: advancedSchedule *)
Lemma Sonnet_initialTracking_tracked input : Sonnet_tracked input (Sonnet.initialTracking input).
Proof.
  unfold Sonnet_tracked, Sonnet.initialTracking. simpl.
  generalize (∅ : gmap Z Sonnet.EmpSkills).
  induction (Sonnet.employees input) as [|e l IH] using rev_ind; intros m emp Hemp.
  - by apply elem_of_nil in Hemp.
  - rewrite fold_left_app. simpl. apply elem_of_app in Hemp as [Hemp|Hemp].
    + destruct (decide (Sonnet.Employee.id e = Sonnet.Employee.id emp)) as [->|Hne].
      * rewrite lookup_insert_eq. by eexists.
      * rewrite lookup_insert_ne by done. by apply IH.
    + apply list_elem_of_singleton in Hemp. subst. rewrite lookup_insert_eq. by eexists.
Qed.

Lemma Sonnet_find_employee input emp :
  emp ∈ Sonnet.employees input →
  is_Some (Sonnet.find_employee input (Sonnet.Employee.id emp)).
Proof.
  intros Hemp. unfold Sonnet.find_employee.
  destruct (List.find _ _) eqn:Hfind; [by eexists|].
  apply list_elem_of_In in Hemp. pose proof (find_none _ _ Hfind _ Hemp) as Hf.
  simpl in Hf. by rewrite bool_decide_true in Hf.
Qed.

Lemma Sonnet_candidates_total input day skill tr :
  Sonnet_tracked input tr →
  ∃ cs, Sonnet.candidates input day skill tr = Some cs
        ∧ Sonnet.emp <$> cs = Sonnet_available input day.
Proof.
  intros Htr. unfold Sonnet.candidates. fold (Sonnet_available input day).
  assert (∀ emp, emp ∈ Sonnet_available input day → emp ∈ Sonnet.employees input) as Hsub.
  { intros emp Hemp. unfold Sonnet_available in Hemp.
    by apply list_elem_of_filter in Hemp as [_ ?]. }
  induction (Sonnet_available input day) as [|emp l IH]; [by exists []|].
  destruct IH as (cs & Hcs & Hemps); [intros e He; apply Hsub; by right|].
  destruct (Htr emp) as [empSkills Hsk]; [apply Hsub; left|].
  assert (∃ c, Sonnet.candidateOf input day skill tr emp = Some c ∧ Sonnet.emp c = emp)
    as (c & Hc & Hce).
  { unfold Sonnet.candidateOf. rewrite Hsk. eexists. split; done. }
  cbn [mapM]. rewrite Hc. simpl. rewrite Hcs. simpl.
  eexists. split; [done|]. by rewrite fmap_cons, Hemps, Hce.
Qed.

Lemma Sonnet_assignSkill_spec input day shifts tr skill :
  Sonnet_tracked input tr →
  ∃ shifts' tr',
    Sonnet.assignSkill input day (shifts, tr) skill = Some (shifts', tr')
    ∧ Sonnet_tracked input tr'
    ∧ match Sonnet_available input day with
      | [] => shifts' = shifts
      | _ => ∃ emp, emp ∈ Sonnet_available input day
                    ∧ shifts' = shifts ++ [Sonnet.Shift.mk (Sonnet.Employee.id emp)
                                             (Sonnet.Day.start day) (Sonnet.Day.end_ day) skill]
      end.
Proof.
  intros Htr. unfold Sonnet.assignSkill.
  destruct (Sonnet_candidates_total input day skill tr Htr) as (cs & -> & Hemps).
  pose proof (Array_sort_Permutation (λ a b, Sonnet.score b - Sonnet.score a) cs) as Hperm.
  destruct (Array_sort _ cs) as [|best sorted].
  - apply Permutation_nil_l in Hperm. subst cs. simpl in Hemps. rewrite <-Hemps.
    by exists shifts, tr.
  - eexists _, _. split; [done|]. split; [exact Htr|].
    assert (Sonnet.emp best ∈ Sonnet_available input day) as Hbest.
    { rewrite <-Hemps. apply list_elem_of_fmap. exists best. split; [done|].
      rewrite <-Hperm. left. }
    destruct (Sonnet_available input day) as [|e l]; [by apply elem_of_nil in Hbest|].
    by exists (Sonnet.emp best).
Qed.

Lemma Sonnet_assignSkills_spec input day tr skills shifts0 :
  Sonnet_tracked input tr →
  ∃ new tr',
    foldM (Sonnet.assignSkill input day) (shifts0, tr) skills = Some (shifts0 ++ new, tr')
    ∧ Sonnet_tracked input tr'
    ∧ Sonnet.Shift.skill <$> new
      = match Sonnet_available input day with [] => [] | _ => skills end
    ∧ Forall (λ s, Sonnet.Shift.start s = Sonnet.Day.start day
                   ∧ Sonnet.Shift.end_ s = Sonnet.Day.end_ day
                   ∧ ∃ emp, emp ∈ Sonnet_available input day
                            ∧ Sonnet.Shift.employeeId s = Sonnet.Employee.id emp) new.
Proof.
  revert tr shifts0. induction skills as [|skill skills IH]; intros tr shifts0 Htr.
  - exists [], tr. rewrite app_nil_r. split_and!; [done..| |constructor].
    by destruct (Sonnet_available input day).
  - cbn [foldM].
    destruct (Sonnet_assignSkill_spec input day shifts0 tr skill Htr)
      as (shifts1 & tr1 & -> & Htr1 & Hstep).
    destruct (IH tr1 shifts1 Htr1) as (new & tr' & Hfold & Htr' & Hskills & Hgood).
    destruct (Sonnet_available input day) as [|e l] eqn:Hav.
    + subst shifts1. exists new, tr'. done.
    + destruct Hstep as (emp & Hemp & ->).
      eexists (_ :: new), tr'. split_and!.
      * rewrite Hfold. f_equal. f_equal. by rewrite <-app_assoc.
      * done.
      * rewrite fmap_cons, Hskills. done.
      * constructor; [|done]. split_and!; [done..|]. by exists emp.
Qed.

Lemma Sonnet_teacher_total input tr shift shifts :
  Sonnet_tracked input tr →
  Forall (λ s, ∃ emp, emp ∈ Sonnet.employees input
                      ∧ Sonnet.Shift.employeeId s = Sonnet.Employee.id emp) shifts →
  is_Some (foldM (Sonnet.teacherOf input tr shift) 1 shifts).
Proof.
  intros Htr Hemps. rewrite Forall_forall in Hemps.
  destruct (foldM_total (λ _, True) (Sonnet.teacherOf input tr shift) shifts 1)
    as (rate & Hrate & _); [|done|by eexists].
  intros rate other Hother _. destruct (Hemps other Hother) as (emp & Hemp & Hid).
  unfold Sonnet.teacherOf. destruct (_ && _); [|by eexists].
  rewrite Hid. destruct (Htr emp Hemp) as [sk ->]. simpl.
  destruct (decide _); [|by eexists].
  destruct (Sonnet_find_employee input emp Hemp) as [teacher ->]. by eexists.
Qed.

Lemma Sonnet_trainShift_total input day shifts tr shift :
  Sonnet_tracked input tr →
  Forall (λ s, ∃ emp, emp ∈ Sonnet.employees input
                      ∧ Sonnet.Shift.employeeId s = Sonnet.Employee.id emp) (shift :: shifts) →
  ∃ tr', Sonnet.trainShift input day shifts tr shift = Some tr' ∧ Sonnet_tracked input tr'.
Proof.
  intros Htr Hemps. apply Forall_cons in Hemps as [(emp & Hemp & Hid) Hemps].
  unfold Sonnet.trainShift. rewrite Hid.
  destruct (Htr emp Hemp) as [empSkills ->]. simpl.
  destruct (decide _); [by exists tr|].
  destruct (Sonnet_find_employee input emp Hemp) as [emp' ->]. simpl.
  destruct (Sonnet_teacher_total input tr shift shifts Htr Hemps) as [rate ->]. simpl.
  eexists. split; [done|]. intros e He. simpl.
  destruct (decide (Sonnet.Employee.id emp = Sonnet.Employee.id e)) as [->|Hne].
  - rewrite lookup_insert_eq. by eexists.
  - rewrite lookup_insert_ne by done. by apply Htr.
Qed.

Lemma Sonnet_scheduleDay_spec input schedule tr day :
  Sonnet_tracked input tr →
  ∃ daySchedule tr',
    Sonnet.scheduleDay input (schedule, tr) day = Some (schedule ++ [daySchedule], tr')
    ∧ Sonnet_tracked input tr'
    ∧ Sonnet_scheduled input day daySchedule.
Proof.
  intros Htr. unfold Sonnet.scheduleDay, Sonnet_scheduled.
  destruct (Sonnet.Day.closed day).
  { eexists _, tr. split; [done|]. split; [done|]. simpl. split_and!; [done..|constructor]. }
  destruct (Sonnet_assignSkills_spec input day tr (Sonnet.Day.skills day) [] Htr)
    as (shifts & tr1 & -> & Htr1 & Hskills & Hgood).
  cbn [app]. simpl.
  assert (Forall (λ s, ∃ emp, emp ∈ Sonnet.employees input
                       ∧ Sonnet.Shift.employeeId s = Sonnet.Employee.id emp) shifts) as Hemps.
  { eapply Forall_impl; [exact Hgood|]. intros s (_ & _ & emp & Hemp & Hid).
    exists emp. split; [|done]. unfold Sonnet_available in Hemp.
    by apply list_elem_of_filter in Hemp as [_ ?]. }
  destruct (foldM_total (Sonnet_tracked input) (Sonnet.trainShift input day shifts) shifts tr1)
    as (tr' & -> & Htr'); [|done|].
  { intros tr2 shift Hshift Htr2. apply Sonnet_trainShift_total; [done|].
    constructor; [|done]. rewrite Forall_forall in Hemps. by apply Hemps. }
  eexists _, tr'. split; [done|]. split; [done|]. simpl. done.
Qed.

Lemma Sonnet_scheduleDays_spec input days schedule tr :
  Sonnet_tracked input tr →
  ∃ new tr',
    foldM (Sonnet.scheduleDay input) (schedule, tr) days = Some (schedule ++ new, tr')
    ∧ Forall2 (Sonnet_scheduled input) days new.
Proof.
  revert schedule tr. induction days as [|day days IH]; intros schedule tr Htr.
  - exists [], tr. rewrite app_nil_r. split; [done|constructor].
  - cbn [foldM].
    destruct (Sonnet_scheduleDay_spec input schedule tr day Htr)
      as (daySchedule & tr1 & -> & Htr1 & Hday).
    destruct (IH (schedule ++ [daySchedule]) tr1 Htr1) as (new & tr' & -> & Hnew).
    exists (daySchedule :: new), tr'. split; [by rewrite <-app_assoc|by constructor].
Qed.

(** X8.  [advancedSchedule] of sonnet.js returns a schedule for every
    input, with one entry per day of the calendar, in order and under the
    id of the day.  The entry of a closed day, or of a day on which every
    employee is on vacation, has no shift; the entry of another day has
    one shift per required skill, in the order of the skills, each over
    the whole opening window and by an employee of the input who is not
    on vacation that day. *)
Theorem advancedSchedule_spec (input : Sonnet.Input) :
  ∃ schedule, Sonnet.advancedSchedule input = Some schedule
              ∧ Forall2 (Sonnet_scheduled input) (Sonnet.days input) schedule.
Proof.
  unfold Sonnet.advancedSchedule.
  destruct (Sonnet_scheduleDays_spec input (Sonnet.days input) []
              (Sonnet.initialTracking input) (Sonnet_initialTracking_tracked input))
    as (schedule & tr & Hfold & Hdays).
  rewrite Hfold. exists schedule. split; [done|exact Hdays].
Qed.

(** ** part_000: scheduleDay *)
Lemma Part000_candidateOf_spec this dayIdx idx emp :
  Part000_shaped this → (dayIdx < length (Part000.days this))%nat →
  Part000.employees this !! idx = Some emp →
  ∃ oc, Part000.candidateOf this dayIdx idx emp = Some oc
        ∧ ∀ c, oc = Some c → Part000.candidateIdx c = idx ∧ Part000_candidate this dayIdx c.
Proof.
  intros [Hlen Hcells] Hday Hemp. unfold Part000.candidateOf.
  destruct (decide _) as [Hvac|Hvac]; [by exists None|].
  destruct (lookup_lt_is_Some_2 (Part000.employeeStates this) idx) as [state Hstate].
  { rewrite Hlen. by eapply lookup_lt_Some. }
  rewrite Hstate. simpl.
  destruct (lookup_lt_is_Some_2 (Part000.hoursThisWeek state) dayIdx) as [weekHours Hweek].
  { rewrite Forall_forall in Hcells. rewrite (Hcells state); [done|].
    by eapply list_elem_of_lookup_2. }
  rewrite Hweek. simpl. eexists. split; [done|]. intros c [= <-]. simpl. done.
Qed.

Lemma Part000_candidates_spec this dayIdx :
  Part000_shaped this → (dayIdx < length (Part000.days this))%nat →
  ∃ cs, Part000.candidates this dayIdx = Some cs
        ∧ Forall (Part000_candidate this dayIdx) cs
        ∧ NoDup (Part000.candidateIdx <$> cs).
Proof.
  intros Hshape Hday. unfold Part000.candidates.
  cut (∀ (l : list Part000.Employee.t) (n : nat),
         (∀ i emp, l !! i = Some emp → Part000.employees this !! (n + i)%nat = Some emp) →
         ∃ ocs, mapM (λ '(idx, emp), Part000.candidateOf this dayIdx idx emp)
                     (imap (λ idx emp, ((n + idx)%nat, emp)) l) = Some ocs
                ∧ Forall (Part000_candidate this dayIdx) (omap id ocs)
                ∧ Forall (λ c, (n ≤ Part000.candidateIdx c)%nat) (omap id ocs)
                ∧ NoDup (Part000.candidateIdx <$> omap id ocs)).
  { intros Hgen. destruct (Hgen (Part000.employees this) 0%nat) as (ocs & Hocs & Hc & _ & Hnd).
    { intros i emp Hi. done. }
    simpl in Hocs. rewrite Hocs. simpl. by exists (omap id ocs). }
  induction l as [|emp l IH]; intros n Hl.
  - exists []. split; [done|]. simpl. split_and!; constructor.
  - rewrite imap_cons. cbn [mapM].
    destruct (Part000_candidateOf_spec this dayIdx (n + 0) emp Hshape Hday (Hl 0%nat emp eq_refl))
      as (oc & Hoc & Hspec).
    rewrite Hoc. simpl.
    destruct (IH (S n)) as (ocs & Hocs & Hc & Hge & Hnd).
    { intros i e Hi. replace (S n + i)%nat with (n + S i)%nat by lia. by apply Hl. }
    rewrite (imap_ext _ (λ idx emp0, ((S n + idx)%nat, emp0)) l)
      by (intros i x _; unfold compose; f_equal; lia).
    rewrite Hocs. simpl. exists (oc :: ocs). split; [done|].
    destruct oc as [c|]; simpl; [|split_and!; [done| |done]].
    + destruct (Hspec c eq_refl) as [Hidx Hcand]. split_and!.
      * by constructor.
      * constructor; [lia|]. eapply Forall_impl; [exact Hge|]. simpl. lia.
      * constructor; [|done]. intros Hin. apply list_elem_of_fmap in Hin as (c' & Heq & Hc').
        rewrite Forall_forall in Hge. specialize (Hge c' Hc'). lia.
    + eapply Forall_impl; [exact Hge|]. simpl. lia.
Qed.

Lemma Part000_uniqueSkills_spec (skills : list string) :
  NoDup (Part000.uniqueSkills skills)
  ∧ ∀ x, x ∈ Part000.uniqueSkills skills ↔ x ∈ skills.
Proof.
  unfold Part000.uniqueSkills.
  cut (∀ acc, NoDup acc →
         NoDup (fold_left (λ acc x, if decide (x ∈ acc) then acc else acc ++ [x]) skills acc)
         ∧ ∀ x, x ∈ fold_left (λ acc x, if decide (x ∈ acc) then acc else acc ++ [x]) skills acc
                ↔ x ∈ acc ∨ x ∈ skills).
  { intros Hgen. destruct (Hgen [] (NoDup_nil_2)) as [Hnd Hel]. split; [done|].
    intros x. rewrite Hel, elem_of_nil. tauto. }
  induction skills as [|y l IH]; intros acc Hacc; simpl.
  - split; [done|]. intros x. rewrite elem_of_nil. tauto.
  - case_decide as Hy.
    + destruct (IH acc Hacc) as [Hnd Hel]. split; [done|]. intros x.
      rewrite Hel, elem_of_cons. split; [tauto|]. intros [?|[->|?]]; auto.
    + destruct (IH (acc ++ [y])) as [Hnd Hel].
      { apply NoDup_app. split_and!; [done| |apply NoDup_singleton].
        intros x Hx ->%list_elem_of_singleton. done. }
      split; [done|]. intros x.
      rewrite Hel, elem_of_app, list_elem_of_singleton, elem_of_cons. tauto.
Qed.

(** The shift [assign] pushes for a candidate. *)
Lemma Part000_assign_fold day hoursNeeded skill (rs : list Part000.Ranked) shifts need :
  ∃ picked need',
    fold_left (Part000.assign day hoursNeeded skill) rs (shifts, need)
    = (shifts ++ ((λ c, Part000.Shift.mk
                          (Part000.Employee.id (Part000.emp (Part000.candidate c)))
                          (Part000.candidateIdx (Part000.candidate c))
                          (Part000.Day.start day)
                          (Part000.Day.start day + Z.min hoursNeeded (Part000.effectiveHours c))
                          skill) <$> picked), need')
    ∧ sublist picked rs
    ∧ Forall (λ c, 0 < Z.min hoursNeeded (Part000.effectiveHours c)) picked.
Proof.
  revert shifts need. induction rs as [|c rs IH]; intros shifts need.
  - exists [], need. simpl. rewrite app_nil_r. split_and!; [done..|constructor].
  - cbn [fold_left]. unfold Part000.assign at 2.
    destruct (Qle_bool need 0).
    { destruct (IH shifts need) as (picked & need' & -> & Hsub & Hpos).
      exists picked, need'. split_and!; [done| |done]. by apply sublist_cons. }
    cbv zeta. destruct (decide _) as [Hassign|_].
    + destruct (IH (shifts ++ [Part000.Shift.mk
                          (Part000.Employee.id (Part000.emp (Part000.candidate c)))
                          (Part000.candidateIdx (Part000.candidate c))
                          (Part000.Day.start day)
                          (Part000.Day.start day + Z.min hoursNeeded (Part000.effectiveHours c))
                          skill])
                   (need - (if Part000.hasSkill c then 1 else 1 # 2))%Q)
        as (picked & need' & -> & Hsub & Hpos).
      exists (c :: picked), need'. split_and!.
      * by rewrite <-app_assoc.
      * by apply sublist_skip.
      * by constructor.
    + destruct (IH shifts need) as (picked & need' & -> & Hsub & Hpos).
      exists picked, need'. split_and!; [done| |done]. by apply sublist_cons.
Qed.

Lemma Part000_sorted_spec (cs : list Part000.Candidate) hoursNeeded skill :
  NoDup (Part000.candidateIdx <$> cs) →
  NoDup ((λ c, Part000.candidateIdx (Part000.candidate c)) <$> Part000.sorted cs hoursNeeded skill)
  ∧ Forall (λ c, Part000.candidate c ∈ cs
                 ∧ Part000.effectiveHours c
                   = Z.min hoursNeeded (40 - Part000.weekHours (Part000.candidate c)))
           (Part000.sorted cs hoursNeeded skill).
Proof.
  intros Hnd. unfold Part000.sorted.
  set (ranked := (λ c, Part000.mkRanked c _ _) <$> cs).
  pose proof (Array_sort_Permutation Part000.compareRanked
                (filter (λ c, 0 < Part000.effectiveHours c) ranked)) as Hperm.
  split.
  - rewrite Hperm. eapply sublist_NoDup.
    2: { apply fmap_sublist, sublist_filter. }
    unfold ranked. rewrite <-list_fmap_compose. done.
  - rewrite Hperm. apply Forall_forall. intros c Hc.
    apply list_elem_of_filter in Hc as [_ Hc]. unfold ranked in Hc.
    apply list_elem_of_fmap in Hc as (c0 & -> & Hc0). done.
Qed.

Lemma Part000_assignSkill_spec this dayIdx day cs skill shifts need :
  Forall (Part000_candidate this dayIdx) cs → NoDup (Part000.candidateIdx <$> cs) →
  skill ∈ Part000.Day.skills day →
  ∃ new,
    (fold_left (Part000.assign day (Part000.Day.end_ day - Part000.Day.start day) skill)
               (Part000.sorted cs (Part000.Day.end_ day - Part000.Day.start day) skill)
               (shifts, need)).1 = shifts ++ new
    ∧ Forall (λ s, Part000_slot this dayIdx day s ∧ Part000_capped this dayIdx s) new
    ∧ Forall (λ s, Part000.Shift.skill s = skill) new
    ∧ NoDup (Part000.Shift.empIdx <$> new).
Proof.
  intros Hcs Hnd Hskill. set (hoursNeeded := Part000.Day.end_ day - Part000.Day.start day).
  destruct (Part000_sorted_spec cs hoursNeeded skill Hnd) as [Hidx Hsorted].
  destruct (Part000_assign_fold day hoursNeeded skill (Part000.sorted cs hoursNeeded skill)
              shifts need) as (picked & need' & -> & Hsub & Hpos).
  eexists. split; [done|].
  rewrite Forall_forall in Hcs. rewrite Forall_forall in Hsorted.
  rewrite Forall_forall in Hpos. split_and!.
  - apply Forall_forall. intros s Hs. apply list_elem_of_fmap in Hs as (c & -> & Hc).
    destruct (Hsorted c) as [Hin Heff]; [by eapply elem_of_sublist|].
    destruct (Hcs _ Hin) as (Hemp & Hvac & Hstate & Hweek).
    specialize (Hpos c Hc).
    split.
    + exists (Part000.emp (Part000.candidate c)).
      simpl. split_and!; try done; unfold hoursNeeded in *; lia.
    + exists (Part000.state (Part000.candidate c)), (Part000.weekHours (Part000.candidate c)).
      simpl. split_and!; try done; unfold hoursNeeded in *; lia.
  - apply Forall_forall. intros s Hs. by apply list_elem_of_fmap in Hs as (c & -> & Hc).
  - rewrite <-list_fmap_compose. eapply sublist_NoDup; [exact Hidx|].
    by apply fmap_sublist.
Qed.

Lemma Part000_assignSkills_spec this dayIdx day cs skills shifts :
  Forall (Part000_candidate this dayIdx) cs → NoDup (Part000.candidateIdx <$> cs) →
  NoDup skills → (∀ skill, skill ∈ skills → skill ∈ Part000.Day.skills day) →
  ∃ new,
    fold_left
      (λ shifts skill,
         let skillCount := length (filter (λ s, s = skill) (Part000.Day.skills day)) in
         (fold_left (Part000.assign day (Part000.Day.end_ day - Part000.Day.start day) skill)
                    (Part000.sorted cs (Part000.Day.end_ day - Part000.Day.start day) skill)
                    (shifts, inject_Z (Z.of_nat skillCount))).1)
      skills shifts = shifts ++ new
    ∧ Forall (λ s, Part000_slot this dayIdx day s ∧ Part000_capped this dayIdx s) new
    ∧ Forall (λ s, Part000.Shift.skill s ∈ skills) new
    ∧ Part000_onePerSkill new.
Proof.
  intros Hcs Hnd. revert shifts. unfold Part000_onePerSkill.
  match goal with |- context [fold_left ?f skills _] => set (step := f) end.
  induction skills as [|skill skills IH]; intros shifts Hskills Hsub.
  - exists []. rewrite app_nil_r. split_and!; [done|constructor..].
  - apply NoDup_cons in Hskills as [Hfresh Hskills]. cbn [fold_left].
    destruct (Part000_assignSkill_spec this dayIdx day cs skill shifts
                (inject_Z (Z.of_nat (length (filter (λ s, s = skill) (Part000.Day.skills day)))))
                Hcs Hnd) as (new1 & Hnew1 & Hplaced1 & Hskill1 & Hidx1); [apply Hsub; left|].
    change (step shifts skill = shifts ++ new1) in Hnew1. rewrite Hnew1.
    destruct (IH (shifts ++ new1) Hskills) as (new2 & -> & Hplaced2 & Hskill2 & Hkeys2).
    { intros k Hk. apply Hsub. by right. }
    exists (new1 ++ new2). rewrite Forall_forall in Hskill1.
    rewrite Forall_forall in Hskill2. split_and!.
    + by rewrite app_assoc.
    + by apply Forall_app.
    + apply Forall_app. split; apply Forall_forall; intros s Hs.
      * rewrite (Hskill1 s Hs). left.
      * right. by apply Hskill2.
    + rewrite fmap_app. apply NoDup_app. split_and!; [|intros key Hk1 Hk2|done].
      * apply (NoDup_fmap_1 snd). rewrite <-list_fmap_compose. exact Hidx1.
      * apply list_elem_of_fmap in Hk1 as (s1 & -> & Hs1).
        apply list_elem_of_fmap in Hk2 as (s2 & [= Hk _] & Hs2).
        apply Hfresh. rewrite <-(Hskill1 s1 Hs1), Hk. by apply Hskill2.
Qed.

Lemma Part000_scheduleDay_spec this dayIdx day :
  Part000_shaped this → (dayIdx < length (Part000.days this))%nat →
  ∃ shifts,
    Part000.scheduleDay this dayIdx day = Some shifts
    ∧ Forall (λ s, Part000_slot this dayIdx day s ∧ Part000_capped this dayIdx s) shifts
    ∧ Part000_onePerSkill shifts.
Proof.
  intros Hshape Hday. unfold Part000.scheduleDay.
  destruct (Part000_candidates_spec this dayIdx Hshape Hday) as (cs & -> & Hcs & Hnd).
  destruct (Part000_uniqueSkills_spec (Part000.Day.skills day)) as [Huniq Hel].
  destruct (Part000_assignSkills_spec this dayIdx day cs
              (Part000.uniqueSkills (Part000.Day.skills day)) [] Hcs Hnd Huniq)
    as (new & Hfold & Hplaced & _ & Hkeys); [intros k; apply Hel|].
  exists new. split; [|done]. simpl. f_equal. exact Hfold.
Qed.

(** ** part_000: applyShifts and generateSchedule *)
Lemma Part000_addHours_total hours cells (ds : list nat) :
  Forall (λ d, (d < length cells)%nat) ds →
  ∃ cells', foldM (Part000.addHours hours) cells ds = Some cells'
            ∧ length cells' = length cells.
Proof.
  intros Hds.
  destruct (foldM_total (λ cells', length cells' = length cells)
              (Part000.addHours hours) ds cells) as (cells' & Hfold & Hlen); [|done|by eauto].
  intros cells1 d Hd Hlen. rewrite Forall_forall in Hds.
  destruct (lookup_lt_is_Some_2 cells1 d) as [old Hold]; [rewrite Hlen; by apply Hds|].
  unfold Part000.addHours. rewrite Hold. simpl. eexists. split; [done|].
  by rewrite length_insert.
Qed.

Lemma Part000_restOfWeek_lt this dayIdx :
  Forall (λ d, (d < length (Part000.days this))%nat) (Part000.restOfWeek this dayIdx).
Proof.
  apply Forall_forall. intros d Hd. unfold Part000.restOfWeek in Hd.
  apply elem_of_seq in Hd. lia.
Qed.

Lemma Part000_hasTeacher_total states shifts shift :
  Forall (λ s, (Part000.Shift.empIdx s < length states)%nat) shifts →
  ∃ teacher, Part000.hasTeacher states shifts shift = Some teacher
             ∧ (teacher = true →
                ∃ s, s ∈ shifts ∧ Part000.Shift.skill s = Part000.Shift.skill shift
                     ∧ Part000.Shift.empIdx s ≠ Part000.Shift.empIdx shift).
Proof.
  unfold Part000.hasTeacher. induction shifts as [|s shifts IH]; intros Hidx.
  - exists false. split; [done|]. discriminate.
  - apply Forall_cons in Hidx as [Hs Hidx]. cbn [Part000.Array_some].
    destruct (IH Hidx) as (teacher & Hrest & Hspec).
    destruct (bool_decide (Part000.Shift.skill s = Part000.Shift.skill shift)
              && bool_decide (Part000.Shift.empIdx s ≠ Part000.Shift.empIdx shift)) eqn:Hcond.
    + apply andb_true_iff in Hcond as [Hsk%bool_decide_eq_true Hne%bool_decide_eq_true].
      destruct (lookup_lt_is_Some_2 states _ Hs) as [state ->]. simpl.
      destruct (_ && _).
      * exists true. split; [done|]. intros _. exists s. split; [left|done].
      * exists teacher. split; [done|]. intros Ht.
        destruct (Hspec Ht) as (s' & Hs' & Hrest'). exists s'. split; [by right|done].
    + simpl. exists teacher. split; [done|]. intros Ht.
      destruct (Hspec Ht) as (s' & Hs' & Hrest'). exists s'. split; [by right|done].
Qed.

Lemma Part000_teacherRate_total this states shifts shift :
  Forall (λ s, (Part000.Shift.empIdx s < length states)%nat) shifts →
  Forall (λ s, (Part000.Shift.empIdx s < length (Part000.employees this))%nat) shifts →
  is_Some (Part000.teacherRate this states shifts shift).
Proof.
  intros Hstates Hemps. unfold Part000.teacherRate.
  destruct (Part000_hasTeacher_total states shifts shift Hstates) as (teacher & -> & Hspec).
  simpl. destruct teacher; [|by eexists].
  destruct (Hspec eq_refl) as (s & Hs & Hsk & Hne).
  set (others := filter _ shifts).
  assert (s ∈ others) as Hother by (apply list_elem_of_filter; done).
  assert (is_Some (mapM (λ s, Part000.Employee.teachingRate
                               <$> Part000.employees this !! Part000.Shift.empIdx s) others))
    as [rates Hrates].
  { apply mapM_is_Some, Forall_forall. intros s' Hs'.
    apply list_elem_of_filter in Hs' as [_ Hs']. rewrite Forall_forall in Hemps.
    destruct (lookup_lt_is_Some_2 _ _ (Hemps s' Hs')) as [emp Hemp].
    unfold compose. rewrite Hemp. by eexists. }
  rewrite Hrates. simpl. apply mapM_Some, Forall2_length in Hrates.
  destruct rates as [|rate rates]; [|by eexists].
  destruct others; [by apply elem_of_nil in Hother|done].
Qed.

Lemma Part000_grown_refl states : Part000_grown states states.
Proof. apply Forall_Forall2_diag, Forall_forall. done. Qed.

Lemma Part000_grown_trans a b c : Part000_grown a b → Part000_grown b c → Part000_grown a c.
Proof.
  unfold Part000_grown. intros Hab. revert c.
  induction Hab as [|x y a b Hxy Hab IH]; intros c Hbc; inversion Hbc; subst; [constructor|].
  constructor; [set_solver|by apply IH].
Qed.

Lemma Part000_grown_insert states idx state state' :
  states !! idx = Some state →
  Part000.stateSkills state ⊆ Part000.stateSkills state' →
  Part000_grown states (<[idx := state']> states).
Proof.
  intros Hstate Hsub. unfold Part000_grown.
  rewrite <-(list_insert_id states idx state Hstate) at 1.
  apply Forall2_insert; [|done]. apply Part000_grown_refl.
Qed.

Lemma Part000_shaped_insert this states idx state :
  Part000_statesShaped this states →
  length (Part000.hoursThisWeek state) = length (Part000.days this) →
  Part000_statesShaped this (<[idx := state]> states).
Proof.
  intros [Hlen Hcells] Hstate. split; [by rewrite length_insert|].
  apply Forall_insert; done.
Qed.

Lemma Part000_applyShift_spec this dayIdx shifts states shift :
  Part000_statesShaped this states →
  Forall (λ s, (Part000.Shift.empIdx s < length (Part000.employees this))%nat)
         (shift :: shifts) →
  ∃ states', Part000.applyShift this dayIdx shifts states shift = Some states'
             ∧ Part000_statesShaped this states'
             ∧ Part000_grown states states'.
Proof.
  intros Hshape Hidx. pose proof Hshape as [Hlen Hcells].
  apply Forall_cons in Hidx as [Hshift Hidx].
  unfold Part000.applyShift.
  destruct (lookup_lt_is_Some_2 states (Part000.Shift.empIdx shift)) as [state Hstate];
    [by rewrite Hlen|].
  rewrite Hstate. simpl.
  assert (length (Part000.hoursThisWeek state) = length (Part000.days this)) as Hstatelen.
  { rewrite Forall_forall in Hcells. apply Hcells. by eapply list_elem_of_lookup_2. }
  destruct (Part000_addHours_total (Part000.Shift.end_ shift - Part000.Shift.start shift)
              (Part000.hoursThisWeek state) (Part000.restOfWeek this dayIdx))
    as (cells & -> & Hcellslen).
  { rewrite Hstatelen. apply Part000_restOfWeek_lt. }
  simpl.
  set (state1 := Part000.mkState _ _ cells).
  assert (Part000_statesShaped this (<[Part000.Shift.empIdx shift := state1]> states)) as Hshape1.
  { apply Part000_shaped_insert; [done|]. simpl. congruence. }
  assert (Part000_grown states (<[Part000.Shift.empIdx shift := state1]> states)) as Hgrown1.
  { by apply (Part000_grown_insert states _ state). }
  destruct (decide _); [by eexists|].
  destruct (Part000_teacherRate_total this (<[Part000.Shift.empIdx shift := state1]> states)
              shifts shift) as [rate ->]; [|done|].
  { rewrite length_insert, Hlen. done. }
  simpl. destruct (lookup_lt_is_Some_2 _ _ Hshift) as [emp ->]. simpl.
  eexists. split; [done|]. split.
  - apply Part000_shaped_insert; [done|]. simpl. congruence.
  - rewrite list_insert_insert_eq. apply (Part000_grown_insert states _ state); [done|].
    simpl. destruct (Number_ge _ _); set_solver.
Qed.

Lemma Part000_applyShifts_spec this dayIdx shifts :
  Part000_shaped this →
  Forall (λ s, (Part000.Shift.empIdx s < length (Part000.employees this))%nat) shifts →
  ∃ states', Part000.applyShifts this dayIdx shifts = Some states'
             ∧ Part000_statesShaped this states'
             ∧ Part000_grown (Part000.employeeStates this) states'.
Proof.
  intros Hshape Hidx. unfold Part000.applyShifts.
  destruct (foldM_total (λ states, Part000_statesShaped this states
                                   ∧ Part000_grown (Part000.employeeStates this) states)
              (Part000.applyShift this dayIdx shifts) shifts (Part000.employeeStates this))
    as (states' & Hfold & Hshape' & Hgrown'); [| |by eauto].
  - intros states shift Hshift [Hsh Hgr].
    destruct (Part000_applyShift_spec this dayIdx shifts states shift Hsh)
      as (states' & Happly & Hsh' & Hgr').
    { constructor; [|done]. rewrite Forall_forall in Hidx. by apply Hidx. }
    exists states'. split; [done|]. split; [done|]. by eapply Part000_grown_trans.
  - split; [done|apply Part000_grown_refl].
Qed.

Lemma Part000_slot_sameInput this that dayIdx day s :
  Part000_sameInput this that → Part000_slot that dayIdx day s → Part000_slot this dayIdx day s.
Proof. intros (_ & _ & _ & Hemps). unfold Part000_slot. by rewrite Hemps. Qed.

Lemma Part000_generateDay_spec this0 schedule this dayIdx day :
  Part000_shaped this → Part000_sameInput this0 this →
  Part000_grown (Part000.employeeStates this0) (Part000.employeeStates this) →
  (dayIdx < length (Part000.days this0))%nat →
  ∃ shifts that,
    Part000.generateDay (schedule, this) (dayIdx, day) = Some (schedule ++ [shifts], that)
    ∧ Part000_shaped that ∧ Part000_sameInput this0 that
    ∧ Part000_grown (Part000.employeeStates this0) (Part000.employeeStates that)
    ∧ Part000_line this0 dayIdx day shifts.
Proof.
  intros Hshape Hsame Hgrown Hday. unfold Part000.generateDay.
  destruct (Part000.Day.closed day) eqn:Hclosed.
  { exists [], this. split_and!; try done. split_and!; [done|constructor|constructor]. }
  pose proof Hsame as (Hom & Hfc & Hdays & Hemps).
  destruct (Part000_scheduleDay_spec this dayIdx day Hshape) as (shifts & -> & Hplaced & Hone);
    [by rewrite Hdays|].
  simpl.
  destruct (Part000_applyShifts_spec this dayIdx shifts Hshape) as (states & -> & Hsh & Hgr).
  { eapply Forall_impl; [exact Hplaced|]. intros s [(emp & Hemp & _) _].
    by eapply lookup_lt_Some. }
  simpl. eexists _, _. split; [done|]. split_and!.
  - exact Hsh.
  - done.
  - simpl. by eapply Part000_grown_trans.
  - split_and!; [intros; congruence| |done].
    eapply Forall_impl; [exact Hplaced|]. intros s [Hslot _].
    by eapply Part000_slot_sameInput.
Qed.

Lemma Part000_generateDays_spec this0 (entries : list (nat * Part000.Day.t)) schedule this :
  Part000_shaped this → Part000_sameInput this0 this →
  Part000_grown (Part000.employeeStates this0) (Part000.employeeStates this) →
  Forall (λ entry, (entry.1 < length (Part000.days this0))%nat) entries →
  ∃ lines that,
    foldM Part000.generateDay (schedule, this) entries = Some (schedule ++ lines, that)
    ∧ Part000_shaped that ∧ Part000_sameInput this0 that
    ∧ Part000_grown (Part000.employeeStates this0) (Part000.employeeStates that)
    ∧ Forall2 (λ entry, Part000_line this0 entry.1 entry.2) entries lines.
Proof.
  revert schedule this.
  induction entries as [|[dayIdx day] entries IH]; intros schedule this Hshape Hsame Hgrown Hidx.
  - exists [], this. rewrite app_nil_r. split_and!; [done..|constructor].
  - apply Forall_cons in Hidx as [Hday Hidx]. cbn [foldM].
    destruct (Part000_generateDay_spec this0 schedule this dayIdx day Hshape Hsame Hgrown Hday)
      as (shifts & this1 & -> & Hshape1 & Hsame1 & Hgrown1 & Hline).
    destruct (IH (schedule ++ [shifts]) this1 Hshape1 Hsame1 Hgrown1 Hidx)
      as (lines & that & -> & Hshape' & Hsame' & Hgrown' & Hlines).
    exists (shifts :: lines), that. rewrite <-app_assoc. split_and!; [done..|].
    by constructor.
Qed.

Lemma Part000_initialStates_shaped overtimeModifier fixedDailyCost days employees :
  Part000_shaped (Part000.mk overtimeModifier fixedDailyCost days employees
                    (Part000.initialStates days employees)).
Proof.
  split; simpl.
  - unfold Part000.initialStates. by rewrite length_fmap.
  - apply Forall_forall. intros state Hstate. unfold Part000.initialStates in Hstate.
    apply list_elem_of_fmap in Hstate as (emp & -> & _). simpl. by rewrite length_replicate.
Qed.

(** X9.  With one state per employee and one cell of weekly hours per
    day, [scheduleDay] of part_000 returns for every day index of the
    calendar.  Each shift is held by the employee at its index, whose
    vacation set does not hold the index of the day; it starts when the
    day opens, is not empty, ends by the time the day closes, takes no
    more than the weekly hours of the employee leave of 40, and is on a
    required skill.  No employee has two shifts on one skill, and a day
    that does not open before it closes gets no shift. *)
Theorem scheduleDay_places (this : Part000.t) (dayIdx : nat) (day : Part000.Day.t) :
  Part000_shaped this → (dayIdx < length (Part000.days this))%nat →
  ∃ shifts,
    Part000.scheduleDay this dayIdx day = Some shifts
    ∧ Forall (λ s, Part000_slot this dayIdx day s ∧ Part000_capped this dayIdx s) shifts
    ∧ Part000_onePerSkill shifts
    ∧ (Part000.Day.end_ day ≤ Part000.Day.start day → shifts = []).
Proof.
  intros Hshape Hday.
  destruct (Part000_scheduleDay_spec this dayIdx day Hshape Hday) as (shifts & Hs & Hplaced & Hone).
  exists shifts. split_and!; [done..|].
  intros Hempty. destruct shifts as [|s shifts]; [done|].
  apply Forall_cons in Hplaced as [[(emp & _ & _ & _ & Hstart & Hlt & Hend & _) _] _]. lia.
Qed.

Lemma scheduleDay_places_witness :
  ∃ shifts,
    Part000.scheduleDay ScenarioHoliday.scheduler 0 ScenarioTwoSkills.day = Some shifts
    ∧ Forall (λ s, Part000_slot ScenarioHoliday.scheduler 0 ScenarioTwoSkills.day s
                   ∧ Part000_capped ScenarioHoliday.scheduler 0 s) shifts.
Proof.
  destruct (scheduleDay_places ScenarioHoliday.scheduler 0 ScenarioTwoSkills.day)
    as (shifts & Hs & Hplaced & _).
  - apply Part000_initialStates_shaped.
  - simpl. lia.
  - exists shifts. split; [exact Hs|exact Hplaced].
Defined.

(** X10.  With one state per employee and one cell of weekly hours per
    day, as [parseInput] creates them, [generateSchedule] of part_000
    returns: no lookup of a state, of an employee or of a cell fails and
    the teaching rate is never taken over no shift.  The schedule has one
    line per day; the line of a closed day is empty, and every shift of a
    line is held by the employee at its index, whose vacation set does not
    hold the index of the day, lies in the opening window from its start,
    and is on a required skill, with no employee twice on one skill.  The
    scheduler keeps its input and the shape of its states, and no state
    loses a skill. *)
Theorem generateSchedule_spec (this : Part000.t) :
  Part000_shaped this →
  ∃ schedule that,
    Part000.generateSchedule this = Some (schedule, that)
    ∧ length schedule = length (Part000.days this)
    ∧ (∀ dayIdx day, Part000.days this !! dayIdx = Some day →
         ∃ shifts, schedule !! dayIdx = Some shifts ∧ Part000_line this dayIdx day shifts)
    ∧ Part000_shaped that ∧ Part000_sameInput this that
    ∧ Part000_grown (Part000.employeeStates this) (Part000.employeeStates that).
Proof.
  intros Hshape. unfold Part000.generateSchedule.
  destruct (Part000_generateDays_spec this
              (imap (λ dayIdx day, (dayIdx, day)) (Part000.days this)) [] this Hshape)
    as (schedule & that & Hfold & Hshape' & Hsame' & Hgrown' & Hlines).
  - done.
  - apply Part000_grown_refl.
  - apply Forall_forall. intros [dayIdx day] Hentry.
    apply list_elem_of_lookup in Hentry as [i Hentry].
    rewrite list_lookup_imap in Hentry.
    destruct (Part000.days this !! i) as [d|] eqn:Hd; [|done].
    injection Hentry as <- _. simpl. by eapply lookup_lt_Some.
  - exists schedule, that. split_and!; [done| | |done..].
    + apply Forall2_length in Hlines. by rewrite length_imap in Hlines.
    + intros dayIdx day Hday.
      destruct (Forall2_lookup_l _ _ _ dayIdx (dayIdx, day) Hlines) as (shifts & Hs & Hline).
      { by rewrite list_lookup_imap, Hday. }
      by exists shifts.
Qed.

Lemma generateSchedule_spec_witness :
  ∃ schedule that,
    Part000.generateSchedule ScenarioHoliday.scheduler = Some (schedule, that)
    ∧ length schedule = 1%nat.
Proof.
  destruct (generateSchedule_spec ScenarioHoliday.scheduler) as (schedule & that & Hs & Hlen & _).
  - apply Part000_initialStates_shaped.
  - exists schedule, that. split; [exact Hs|exact Hlen].
Defined.

(** ** Capacity lies between 0 and 1 *)
Lemma Solver_skillCoverage_bounds known activeShifts skill c :
  Solver.skillCoverage known activeShifts skill = Some c → (0 <= c <= 1)%Q.
Proof.
  unfold Solver.skillCoverage. destruct (decide _); [intros [= <-]; lra|].
  destruct (filterM _ _); [|done]. simpl. destruct (filterM _ _); [|done]. simpl.
  intros [= <-]. repeat case_decide; lra.
Qed.

Lemma Solver_capacityStep_bounds requiredSkills activeShifts sim sim' :
  Solver.capacityStep requiredSkills activeShifts sim = Some sim' →
  (Solver.achievedSkillHours sim <= Solver.achievedSkillHours sim'
   <= Solver.achievedSkillHours sim + inject_Z (Z.of_nat (length requiredSkills)))%Q.
Proof.
  unfold Solver.capacityStep.
  destruct (foldM _ _ _) as [achieved|] eqn:Hfold; [|done]. simpl. intros [= <-]. simpl.
  revert Hfold. generalize (Solver.achievedSkillHours sim).
  induction requiredSkills as [|skill skills IH]; intros a; simpl.
  - intros [= <-]. change (inject_Z (Z.of_nat 0)) with 0%Q. lra.
  - destruct (Solver.skillCoverage _ _ _) as [c|] eqn:Hc; [|done]. simpl. intros Hfold.
    apply Solver_skillCoverage_bounds in Hc. apply IH in Hfold.
    rewrite Nat2Z.inj_succ. unfold Z.succ. rewrite inject_Z_plus.
    change (inject_Z 1) with 1%Q. lra.
Qed.

Lemma Solver_promote_achieved sim sim' :
  Solver.promote sim = Some sim' →
  Solver.achievedSkillHours sim' = Solver.achievedSkillHours sim.
Proof.
  unfold Solver.promote. destruct (foldM _ _ _); [|done]. simpl. by intros [= <-].
Qed.

Lemma Solver_payrollStep_achieved this dayId activeEmployees sim sim' :
  Solver.payrollStep this dayId activeEmployees sim = Some sim' →
  Solver.achievedSkillHours sim' = Solver.achievedSkillHours sim.
Proof.
  unfold Solver.payrollStep.
  apply (foldM_invariant (λ s, Solver.achievedSkillHours s = Solver.achievedSkillHours sim));
    [|done].
  intros s e s' _ Hs. unfold Solver.payEmployee.
  destruct (Solver.employees_get _ _); [|done]. simpl.
  destruct (_ !! _); [|done]. simpl. by intros [= <-].
Qed.

Lemma Solver_trainingStep_achieved this activeShifts sim sim' :
  Solver.trainingStep this activeShifts sim = Some sim' →
  Solver.achievedSkillHours sim' = Solver.achievedSkillHours sim.
Proof.
  unfold Solver.trainingStep.
  destruct (foldM _ _ activeShifts) as [[T L]|]; [|done]. simpl.
  apply (foldM_invariant (λ s, Solver.achievedSkillHours s = Solver.achievedSkillHours sim));
    [|done].
  intros s x s' _ Hs. unfold Solver.teach.
  destruct (Solver.employees_get _ _); [|done]. simpl.
  destruct (_ !! _); [|done]. simpl.
  destruct (Solver.knows _ _ _) as [[]|]; [| |done]; simpl; by intros [= <-].
Qed.

Lemma Solver_simulateHour_bounds this day shifts sim h sim' :
  Solver.simulateHour this day shifts sim h = Some sim' →
  (Solver.achievedSkillHours sim <= Solver.achievedSkillHours sim'
   <= Solver.achievedSkillHours sim
      + inject_Z (Z.of_nat (length (Solver.Day.requiredSkills day))))%Q.
Proof.
  unfold Solver.simulateHour.
  destruct (Solver.promote sim) as [sim0|] eqn:H0; [|done]. simpl.
  destruct (Solver.capacityStep _ _ sim0) as [sim1|] eqn:H1; [|done]. simpl.
  destruct (Solver.payrollStep _ _ _ sim1) as [sim2|] eqn:H2; [|done]. simpl.
  intros H3. apply Solver_promote_achieved in H0. apply Solver_capacityStep_bounds in H1.
  apply Solver_payrollStep_achieved in H2. apply Solver_trainingStep_achieved in H3.
  rewrite H3, H2, <-H0. exact H1.
Qed.

Lemma Solver_simulateHours_bounds this day shifts (hs : list Z) sim sim' :
  foldM (Solver.simulateHour this day shifts) sim hs = Some sim' →
  (Solver.achievedSkillHours sim <= Solver.achievedSkillHours sim'
   <= Solver.achievedSkillHours sim
      + inject_Z (Z.of_nat (length hs) * Z.of_nat (length (Solver.Day.requiredSkills day))))%Q.
Proof.
  revert sim. induction hs as [|h hs IH]; intros sim; simpl.
  - intros [= <-]. change (inject_Z _) with 0%Q. lra.
  - destruct (Solver.simulateHour _ _ _ _ _) as [sim1|] eqn:H1; [|done]. intros Hfold.
    apply Solver_simulateHour_bounds in H1. apply IH in Hfold.
    rewrite Nat2Z.inj_succ. unfold Z.succ.
    rewrite Z.mul_add_distr_r, Z.mul_1_l, inject_Z_plus. lra.
Qed.

Lemma capacity_fraction (achieved : Q) (need : Z) :
  (0 <= achieved)%Q → (0 < need → (achieved <= inject_Z need)%Q) →
  (0 <= (if decide (0 < need)%Z then achieved / inject_Z need else 0) <= 1)%Q.
Proof.
  intros H0 H1. destruct (decide _) as [Hpos|_]; [|lra].
  specialize (H1 Hpos).
  assert (0 < inject_Z need)%Q as Hq.
  { change 0%Q with (inject_Z 0). by rewrite <-Zlt_Qlt. }
  split.
  - apply Qle_shift_div_l; [done|]. lra.
  - apply Qle_shift_div_r; [done|]. lra.
Qed.

Lemma hours_length (a b : Z) : Z.of_nat (length (hours a b)) = Z.max 0 (b - a).
Proof. unfold hours. rewrite length_seqZ. lia. Qed.

Lemma revenue_bound (revenue : Z) (capacity : Q) :
  0 ≤ revenue → (0 <= capacity <= 1)%Q →
  (0 <= inject_Z revenue * capacity ^ 2 <= inject_Z revenue)%Q.
Proof.
  intros Hrev [H0 H1].
  assert (0 <= inject_Z revenue)%Q as Hq.
  { change 0%Q with (inject_Z 0). by rewrite <-Zle_Qle. }
  change (capacity ^ 2)%Q with (capacity * capacity)%Q.
  assert (0 <= capacity * capacity <= 1)%Q as [Hc0 Hc1] by nra.
  split; nra.
Qed.

(** X11.  In [calculateScore] of bah3.js the capacity of a day lies
    between 0 and 1, whatever the schedule: every required skill adds 0,
    1/2 or 1 to [achievedSkillHours] in every hour of the day, however
    many shifts staff it.  So a day with a non-negative revenue earns
    between nothing and its revenue, and its profit is at most the revenue
    less the payroll and the fixed cost. *)
Theorem capacity_bounds (this : Solver.t) (day : Solver.Day.t)
    (shifts : list Solver.Shift.t) (run : Solver.Run) (sim : Solver.Sim) :
  Solver.simulateHours this day shifts run = Some sim →
  0 ≤ Solver.Day.dailyRevenue day →
  (0 <= Solver.capacityPercent day (Solver.achievedSkillHours sim) <= 1)%Q
  ∧ (Solver.dailyProfit this day sim
     <= inject_Z (Solver.Day.dailyRevenue day) - inject_Z (Solver.dailyPayroll sim)
        - inject_Z (Solver.fixedDailyCost (Solver.organization this)))%Q.
Proof.
  intros Hsim Hrev. unfold Solver.simulateHours in Hsim.
  apply Solver_simulateHours_bounds in Hsim. simpl in Hsim.
  assert (0 <= Solver.capacityPercent day (Solver.achievedSkillHours sim) <= 1)%Q as Hcap.
  { unfold Solver.capacityPercent. apply capacity_fraction; [lra|].
    intros Hneed. destruct Hsim as [_ Hsim]. rewrite Qplus_0_l in Hsim.
    eapply Qle_trans; [exact Hsim|]. rewrite <-Zle_Qle. rewrite hours_length.
    unfold Solver.Day.totalRequiredSkillHours, Solver.Day.duration in *.
    destruct (Solver.Day.isOpen day); [|lia]. nia. }
  split; [exact Hcap|]. unfold Solver.dailyProfit.
  pose proof (revenue_bound _ _ Hrev Hcap) as [_ Hle]. lra.
Qed.

Lemma capacity_bounds_witness :
  ∃ sim, Solver.simulateHours (ScenarioA.solver 1 1) ScenarioA.day [ScenarioA.shift]
           (Solver.initialRun (ScenarioA.solver 1 1)) = Some sim
         ∧ (0 <= Solver.capacityPercent ScenarioA.day (Solver.achievedSkillHours sim) <= 1)%Q.
Proof.
  destruct (Solver.simulateHours (ScenarioA.solver 1 1) ScenarioA.day [ScenarioA.shift]
              (Solver.initialRun (ScenarioA.solver 1 1))) as [sim|] eqn:Hsim.
  - exists sim. split; [reflexivity|].
    apply (capacity_bounds (ScenarioA.solver 1 1) ScenarioA.day [ScenarioA.shift]
             (Solver.initialRun (ScenarioA.solver 1 1)) sim Hsim).
    simpl. lia.
  - vm_compute in Hsim. discriminate Hsim.
Defined.

Lemma RepValidator_coverageAt_bounds cm h skill :
  (0 <= RepValidator.coverageAt cm h skill <= 1)%Q.
Proof.
  unfold RepValidator.coverageAt, RepValidator.hourlyCoverage. repeat case_decide; lra.
Qed.

Lemma RepValidator_coverHours_bounds this shifts cm skill (hs : list Z) acc acc' :
  foldM (RepValidator.coverHour this shifts cm skill) acc hs = Some acc' →
  (acc.1 <= acc'.1 <= acc.1 + inject_Z (Z.of_nat (length hs)))%Q.
Proof.
  revert acc. induction hs as [|h hs IH]; intros [a T]; simpl.
  - intros [= <-]. cbn [fst length]. change (inject_Z (Z.of_nat 0)) with 0%Q. lra.
  - destruct (decide _).
    + destruct (RepValidator.maxTeachingRate _ _ _ _); [|done]. simpl. intros Hfold.
      apply IH in Hfold. simpl in Hfold.
      pose proof (RepValidator_coverageAt_bounds cm h skill).
      cbn [length]. rewrite Nat2Z.inj_succ. unfold Z.succ. rewrite inject_Z_plus.
      change (inject_Z 1) with 1%Q. lra.
    + simpl. intros Hfold. apply IH in Hfold. simpl in Hfold.
      pose proof (RepValidator_coverageAt_bounds cm h skill).
      cbn [length]. rewrite Nat2Z.inj_succ. unfold Z.succ. rewrite inject_Z_plus.
      change (inject_Z 1) with 1%Q. lra.
Qed.

Lemma RepValidator_coverDay_bounds this day shifts cm achieved T :
  RepValidator.coverDay this day shifts cm = Some (achieved, T) →
  (0 <= achieved
   <= inject_Z (Z.of_nat (length (RepValidator.Day.requiredSkills day))
                * Z.max 0 (RepValidator.Day.end_ day - RepValidator.Day.start day)))%Q.
Proof.
  unfold RepValidator.coverDay. rewrite <-hours_length.
  generalize (hours (RepValidator.Day.start day) (RepValidator.Day.end_ day)). intros hs.
  cut (∀ acc acc',
         foldM (λ acc skill, foldM (RepValidator.coverHour this shifts cm skill) acc hs)
               acc (RepValidator.Day.requiredSkills day) = Some acc' →
         (acc.1 <= acc'.1
          <= acc.1 + inject_Z (Z.of_nat (length (RepValidator.Day.requiredSkills day))
                               * Z.of_nat (length hs)))%Q).
  { intros Hgen Hfold. apply Hgen in Hfold. simpl in Hfold. lra. }
  induction (RepValidator.Day.requiredSkills day) as [|skill skills IH]; intros acc acc'.
  - cbn [foldM]. intros [= <-]. change (inject_Z _) with 0%Q. lra.
  - cbn [foldM].
    destruct (foldM (RepValidator.coverHour this shifts cm skill) acc hs) as [acc1|] eqn:H1;
      [|done].
    intros Hfold. apply RepValidator_coverHours_bounds in H1. apply IH in Hfold.
    cbn [length]. rewrite Nat2Z.inj_succ. unfold Z.succ.
    rewrite Z.mul_add_distr_r, Z.mul_1_l, inject_Z_plus. lra.
Qed.

(** X12.  In rep_validator.js the capacity [calculateCapacity] returns
    for a day lies between 0 and 1, whatever the shifts of the day. *)
Theorem validator_capacity_bounds (this this' : RepValidator.t) (dayId : Z)
    (shifts : list RepValidator.Shift.t) (metrics : RepValidator.Metrics) :
  RepValidator.calculateCapacity this dayId shifts = Some (metrics, this') →
  (0 <= RepValidator.capacityD metrics <= 1)%Q.
Proof.
  unfold RepValidator.calculateCapacity.
  destruct (RepValidator.days this !! dayId) as [day|]; [|done]. simpl.
  destruct (RepValidator.scanDay this dayId day shifts) as [sc|]; [|done]. simpl.
  destruct (RepValidator.coverDay _ _ _ _) as [[achieved T]|] eqn:Hcover; [|done]. simpl.
  intros [= <- _]. simpl. apply RepValidator_coverDay_bounds in Hcover as [H0 H1].
  apply capacity_fraction; [done|]. intros Hneed.
  eapply Qle_trans; [exact H1|]. rewrite <-Zle_Qle.
  unfold RepValidator.Day.totalSkillHours, RepValidator.Day.duration in *.
  destruct (RepValidator.Day.isClosed day); [lia|]. nia.
Qed.

Lemma validator_capacity_bounds_witness :
  ∃ metrics this',
    RepValidator.calculateCapacity (ScenarioA.validator 1 1) 1 [ScenarioA.vShift]
    = Some (metrics, this')
    ∧ (0 <= RepValidator.capacityD metrics <= 1)%Q.
Proof.
  destruct (RepValidator.calculateCapacity (ScenarioA.validator 1 1) 1 [ScenarioA.vShift])
    as [[metrics this']|] eqn:Hcap.
  - exists metrics, this'. split; [reflexivity|].
    exact (validator_capacity_bounds (ScenarioA.validator 1 1) this' 1 [ScenarioA.vShift]
             metrics Hcap).
  - vm_compute in Hcap. discriminate Hcap.
Defined.

(** ** Tokens written by the schedulers and read by the validator *)
Lemma Number_go_digits (s : string) (acc n : Z) :
  Number_go s acc = Some n → ParseOutput.digits digit 10 s (Some acc) = Some n.
Proof.
  revert acc. induction s as [|c s IH]; intros acc; simpl; [done|].
  destruct (digit c) as [d|]; [|done]. apply IH.
Qed.

Lemma digit_code (c : ascii) (d : Z) : digit c = Some d → 48 ≤ ParseOutput.code c ≤ 57.
Proof. unfold digit, ParseOutput.code. by destruct (decide _). Qed.

Lemma Number_go_all_digits (s : string) (acc n : Z) (c : ascii) (s1 s2 : string) :
  Number_go s acc = Some n → s = s1 +:+ String c s2 → is_Some (digit c).
Proof.
  revert acc s1. induction s as [|c' s IH]; intros acc s1 Hn Hs.
  - destruct s1; discriminate Hs.
  - simpl in Hn. destruct (digit c') as [d|] eqn:Hd; [|done].
    destruct s1 as [|c1 s1].
    + injection Hs as -> ->. by eexists.
    + injection Hs as -> Hs. by eapply IH.
Qed.

(** On a non-empty string of decimal digits [parseInt] reads the number. *)
Lemma parseInt_Number (s : string) (n : Z) :
  s ≠ EmptyString → Number s = Some n → ParseOutput.parseInt s = Some n.
Proof.
  intros Hne Hn. destruct s as [|c s]; [done|]. clear Hne.
  destruct (Number_go_all_digits _ _ _ c "" s Hn eq_refl) as [d Hd].
  pose proof (digit_code c d Hd) as Hc.
  unfold ParseOutput.parseInt. cbn [ParseOutput.trimStart].
  assert (ParseOutput.isWhiteSpace c = false) as ->.
  { unfold ParseOutput.isWhiteSpace. rewrite !orb_false_iff, !bool_decide_eq_false. lia. }
  rewrite !decide_False by lia.
  assert (ParseOutput.digits digit 10 (String c s) None = Some n) as Hdigits.
  { unfold Number in Hn. simpl in *. rewrite Hd in *. simpl.
    by apply Number_go_digits. }
  destruct s as [|c1 s].
  - rewrite Hdigits. simpl. f_equal. lia.
  - destruct (Number_go_all_digits _ _ _ c1 (String c "") s Hn eq_refl) as [d1 Hd1].
    pose proof (digit_code c1 d1 Hd1) as Hc1.
    assert (bool_decide (ParseOutput.code c = 48)
            && (bool_decide (ParseOutput.code c1 = 120) || bool_decide (ParseOutput.code c1 = 88))
            = false) as ->.
    { rewrite andb_false_iff, orb_false_iff, !bool_decide_eq_false. right. lia. }
    rewrite Hdigits. simpl. f_equal. lia.
Qed.

Lemma parseInt_pretty (e : Z) : 0 ≤ e → ParseOutput.parseInt (pretty e) = Some e.
Proof.
  intros He. destruct (Number_pretty e He) as [Hn _].
  apply parseInt_Number; [|done].
  intros Hempty. rewrite Hempty in Hn. injection Hn as <-. done.
Qed.

Lemma split_nonempty (s : string) : ∃ x r, split "-" s = x :: r.
Proof.
  induction s as [|c s (x & r & IH)]; [by eexists _, _|].
  cbn [split]. destruct (decide _); [by eexists _, _|]. rewrite IH. by eexists _, _.
Qed.

Lemma split_token (a b c skill : string) :
  noDash a → noDash b → noDash c →
  split "-" (a +:+ "-" +:+ b +:+ "-" +:+ c +:+ "-" +:+ skill)
  = a :: b :: c :: split "-" skill.
Proof.
  intros Ha Hb Hc.
  change (a +:+ "-" +:+ b +:+ "-" +:+ c +:+ "-" +:+ skill)
    with (a +:+ String "-" (b +:+ String "-" (c +:+ String "-" skill))).
  by rewrite !split_app.
Qed.

(** X13.  A token that [Shift.toString] of bah3.js writes for a shift
    with a non-negative employee id and non-negative hours, all three
    below 10^21 (from where on a number is printed in exponent form), is
    read by the constructor of [Shift] in rep_validator.js as follows.
    When the shift
    does not start before it ends, the constructor throws.  Otherwise it
    returns the employee id, the start and the end of the shift, and for
    the skill the part of the skill name before its first hyphen: the
    skill itself when its name has no hyphen. *)
Theorem token_round_trip (s : Solver.Shift.t) :
  0 ≤ Solver.Shift.employeeId s < 10 ^ 21 →
  0 ≤ Solver.Shift.start s < 10 ^ 21 →
  0 ≤ Solver.Shift.end_ s < 10 ^ 21 →
  ParseOutput.Shift_new (Solver.Shift.toString s)
  = (if decide (Solver.Shift.end_ s ≤ Solver.Shift.start s) then None
     else Some (ParseOutput.mkShift (Some (Solver.Shift.employeeId s))
                  (Some (Solver.Shift.start s)) (Some (Solver.Shift.end_ s))
                  (head (split "-" (Solver.Shift.skill s)))))
  ∧ (noDash (Solver.Shift.skill s) →
     head (split "-" (Solver.Shift.skill s)) = Some (Solver.Shift.skill s)).
Proof.
  intros [He He'] [Hs Hs'] [Hn Hn']. split; [|intros Hnd; by rewrite split_noDash].
  destruct (Number_pretty _ He) as [_ Hde]. destruct (Number_pretty _ Hs) as [_ Hds].
  destruct (Number_pretty _ Hn) as [_ Hdn].
  unfold ParseOutput.Shift_new, Solver.Shift.toString, Number_toString.
  rewrite !decide_True by (rewrite Z.abs_eq; done).
  rewrite split_token by done.
  destruct (split_nonempty (Solver.Shift.skill s)) as (x & r & ->).
  cbn [lookup list_lookup head]. cbn [mbind option_bind].
  rewrite !parseInt_pretty by done.
  destruct (decide (Solver.Shift.end_ s - Solver.Shift.start s ≤ 0)),
           (decide (Solver.Shift.end_ s ≤ Solver.Shift.start s)); try lia; done.
Qed.

Lemma token_round_trip_witness :
  ParseOutput.Shift_new (Solver.Shift.toString ScenarioA.shift)
  = Some (ParseOutput.mkShift (Some 1) (Some 8) (Some 10) (Some "Register")).
Proof.
  destruct (token_round_trip ScenarioA.shift) as [Hnew _]; [simpl; lia..|].
  rewrite Hnew. reflexivity.
Defined.

(** ** bah3.js, first script: generateSimpleSchedule *)
Lemma Bah3_isScheduledThisHour_spec shifts employee hour :
  Bah3.isScheduledThisHour shifts employee hour = true
  ↔ ∃ s, s ∈ shifts ∧ Bah3.Shift.employeeId s = Bah3.Employee.id employee ∧ activeAt hour s.
Proof.
  unfold Bah3.isScheduledThisHour. rewrite existsb_exists. split.
  - intros (s & Hs%list_elem_of_In & Hc). exists s. split; [done|].
    rewrite !andb_true_iff, !bool_decide_eq_true in Hc. unfold activeAt. simpl. lia.
  - intros (s & Hs%list_elem_of_In & He & Hact). exists s. split; [done|].
    rewrite !andb_true_iff, !bool_decide_eq_true. unfold activeAt in Hact. simpl in Hact. lia.
Qed.

Lemma covers_mono {A} `{ShiftLike A} (shifts shifts' : list A) e h sk :
  shifts ⊆ shifts' → covers shifts e h sk → covers shifts' e h sk.
Proof. intros Hsub (s & Hs & Hrest). exists s. split; [by apply Hsub|done]. Qed.

Lemma Bah3_settled_mono day employees shifts shifts' h sk :
  shifts ⊆ shifts' → Bah3_settled day employees shifts h sk →
  Bah3_settled day employees shifts' h sk.
Proof.
  intros Hsub [[e Hc]|Hall]; [left; exists e; by eapply covers_mono|right].
  intros emp Hemp Hq. destruct (Hall emp Hemp Hq) as [sk' Hc]. exists sk'.
  by eapply covers_mono.
Qed.

Lemma Bah3_staffSkill_spec day employees hour shifts skill :
  Bah3.Day.start day ≤ hour < Bah3.Day.end_ day →
  skill ∈ Bah3.Day.requiredSkills day →
  Forall singleHour shifts → NoOverlap shifts → Forall (Bah3_placed day employees) shifts →
  let shifts' := Bah3.staffSkill day employees hour shifts skill in
  Forall singleHour shifts' ∧ NoOverlap shifts' ∧ Forall (Bah3_placed day employees) shifts'
  ∧ shifts ⊆ shifts' ∧ Bah3_settled day employees shifts' hour skill.
Proof.
  intros Hhour Hskill Hsingle Hno Hplaced. unfold Bah3.staffSkill, Bah3.findWorker.
  destruct (List.find _ employees) as [employee|] eqn:Hfind; cbv zeta.
  - apply find_some in Hfind as [Hemp%list_elem_of_In Hc].
    rewrite !andb_true_iff, !negb_true_iff, bool_decide_eq_false, bool_decide_eq_true in Hc.
    destruct Hc as [[Hvac Htrained] Hfree].
    split_and!.
    + apply Forall_app. split; [done|]. constructor; [reflexivity|constructor].
    + apply NoOverlap_snoc. split; [done|]. apply Forall_forall. intros s Hs He Hov.
      assert (Bah3.isScheduledThisHour shifts employee hour = true) as Habs; [|congruence].
      apply Bah3_isScheduledThisHour_spec. exists s. split; [done|]. split; [done|].
      unfold overlap, activeAt in *. simpl in *. lia.
    + apply Forall_app. split; [done|]. constructor; [|constructor].
      split; [done|]. split; [done|]. by exists employee.
    + intros s Hs. apply elem_of_app. by left.
    + left. exists (Bah3.Employee.id employee). eexists. split; [apply elem_of_app; right; left|].
      split; [done|]. split; [|done]. unfold activeAt. simpl. lia.
  - split_and!; [done..|]. right. intros employee Hemp [Hvac Htrained].
    apply list_elem_of_In in Hemp. pose proof (find_none _ _ Hfind _ Hemp) as Hc. simpl in Hc.
    rewrite (bool_decide_false _ Hvac), (bool_decide_true _ Htrained) in Hc. simpl in Hc.
    apply negb_false_iff, Bah3_isScheduledThisHour_spec in Hc as (s & Hs & He & Hact).
    exists (Bah3.Shift.skill s), s. split; [done|]. split; [done|]. split; done.
Qed.

Lemma Bah3_staffSkills_spec day employees hour (skills : list string) shifts :
  Bah3.Day.start day ≤ hour < Bah3.Day.end_ day →
  (∀ skill, skill ∈ skills → skill ∈ Bah3.Day.requiredSkills day) →
  Forall singleHour shifts → NoOverlap shifts → Forall (Bah3_placed day employees) shifts →
  let shifts' := fold_left (Bah3.staffSkill day employees hour) skills shifts in
  Forall singleHour shifts' ∧ NoOverlap shifts' ∧ Forall (Bah3_placed day employees) shifts'
  ∧ shifts ⊆ shifts'
  ∧ ∀ skill, skill ∈ skills → Bah3_settled day employees shifts' hour skill.
Proof.
  intros Hhour. revert shifts.
  induction skills as [|skill skills IH]; intros shifts Hsub Hsingle Hno Hplaced; simpl.
  - split_and!; [done..|]. intros skill Hin. by apply elem_of_nil in Hin.
  - destruct (Bah3_staffSkill_spec day employees hour shifts skill Hhour)
      as (Hs1 & Hn1 & Hp1 & Hsub1 & Hset1); [apply Hsub; left|done..|].
    destruct (IH (Bah3.staffSkill day employees hour shifts skill))
      as (Hs2 & Hn2 & Hp2 & Hsub2 & Hset2); [intros k Hk; apply Hsub; by right|done..|].
    split_and!; [done..|by etransitivity|].
    intros k [->|Hk]%elem_of_cons; [|by apply Hset2].
    by eapply Bah3_settled_mono.
Qed.

Lemma Bah3_hourShifts_fold day employees (hs : list Z) shifts :
  (∀ h, h ∈ hs → Bah3.Day.start day ≤ h < Bah3.Day.end_ day) →
  Forall singleHour shifts → NoOverlap shifts → Forall (Bah3_placed day employees) shifts →
  let shifts' :=
    fold_left (λ shifts hour,
                 fold_left (Bah3.staffSkill day employees hour) (Bah3.Day.requiredSkills day)
                           shifts) hs shifts in
  Forall singleHour shifts' ∧ NoOverlap shifts' ∧ Forall (Bah3_placed day employees) shifts'
  ∧ shifts ⊆ shifts'
  ∧ ∀ h skill, h ∈ hs → skill ∈ Bah3.Day.requiredSkills day →
               Bah3_settled day employees shifts' h skill.
Proof.
  revert shifts. induction hs as [|hour hs IH]; intros shifts Hhs Hsingle Hno Hplaced; simpl.
  - split_and!; [done..|]. intros h skill Hin. by apply elem_of_nil in Hin.
  - destruct (Bah3_staffSkills_spec day employees hour (Bah3.Day.requiredSkills day) shifts)
      as (Hs1 & Hn1 & Hp1 & Hsub1 & Hset1); [apply Hhs; left|done..|].
    destruct (IH (fold_left (Bah3.staffSkill day employees hour)
                            (Bah3.Day.requiredSkills day) shifts))
      as (Hs2 & Hn2 & Hp2 & Hsub2 & Hset2); [intros h Hh; apply Hhs; by right|done..|].
    split_and!; [done..|by etransitivity|].
    intros h skill [->|Hh]%elem_of_cons Hskill; [|by apply Hset2].
    eapply Bah3_settled_mono; [exact Hsub2|]. by apply Hset1.
Qed.

Lemma Bah3_hourShifts_spec day employees :
  Forall singleHour (Bah3.hourShifts day employees)
  ∧ NoOverlap (Bah3.hourShifts day employees)
  ∧ Forall (Bah3_placed day employees) (Bah3.hourShifts day employees)
  ∧ ∀ h skill, Bah3.Day.start day ≤ h < Bah3.Day.end_ day →
               skill ∈ Bah3.Day.requiredSkills day →
               Bah3_settled day employees (Bah3.hourShifts day employees) h skill.
Proof.
  destruct (Bah3_hourShifts_fold day employees
              (hours (Bah3.Day.start day) (Bah3.Day.end_ day)) [])
    as (Hs & Hn & Hp & _ & Hset); [|constructor|done|constructor|].
  - intros h Hh. unfold hours in Hh. apply elem_of_seqZ in Hh. lia.
  - split_and!; [done..|]. intros h skill Hh Hskill. apply Hset; [|done].
    unfold hours. apply elem_of_seqZ. lia.
Qed.

Lemma NoOverlap_same_shift {A} `{ShiftLike A} (shifts : list A) (s1 s2 : A) h :
  NoOverlap shifts → s1 ∈ shifts → s2 ∈ shifts →
  employeeOf s1 = employeeOf s2 → activeAt h s1 → activeAt h s2 → s1 = s2.
Proof.
  intros Hno H1 H2 He Ha1 Ha2.
  induction shifts as [|s l IH]; [by apply elem_of_nil in H1|].
  destruct Hno as [Hs Hl]. rewrite Forall_forall in Hs.
  apply elem_of_cons in H1 as [->|H1]; apply elem_of_cons in H2 as [->|H2].
  - done.
  - destruct (Hs s2 H2); [done|]. by eapply activeAt_overlap.
  - destruct (Hs s1 H1); [done|]. by eapply activeAt_overlap.
  - by apply IH.
Qed.

Lemma Bah3_scheduleOf_spec (day : Bah3.Day.t) (employees : list Bah3.Employee.t) :
  Forall (λ employee, 0 ≤ Bah3.Employee.id employee) employees →
  Forall noDash (Bah3.Day.requiredSkills day) →
  ∃ shifts, Bah3.scheduleOf day employees = Some shifts
            ∧ Bah3_daySchedule day employees shifts.
Proof.
  intros Hids Hskills. unfold Bah3.scheduleOf, Bah3_daySchedule.
  assert (∀ e h sk, ¬ covers ([] : list Bah3.Shift.t) e h sk) as Hnone.
  { intros e h sk (s & Hs & _). by apply elem_of_nil in Hs. }
  destruct (Bah3.Day.closed day) eqn:Hclosed.
  { exists []. split_and!; [done|..]; intros; try done; exfalso; by eapply Hnone. }
  destruct (decide _) as [Hempty|_].
  { exists []. split_and!; [done|..]; intros; try lia; exfalso; by eapply Hnone. }
  destruct (Bah3_hourShifts_spec day employees) as (Hsingle & Hno & Hplaced & Hsettled).
  rewrite Forall_forall in Hids. rewrite Forall_forall in Hskills.
  rewrite Forall_forall in Hplaced. rewrite Forall_forall in Hsingle.
  destruct (Bah3_mergeShifts_spec (Bah3.hourShifts day employees)) as (merged & Hm & Hcov).
  { by apply Forall_forall. }
  { apply Forall_forall. intros s Hs.
    destruct (Hplaced s Hs) as (_ & Hsk & emp & Hemp & Hid & _).
    split; simpl; [rewrite <-Hid; by apply Hids|by apply Hskills]. }
  exists merged. split; [done|]. split_and!.
  - intros e h skill (s & Hs & He & Hact & Hsk)%Hcov.
    destruct (Hplaced s Hs) as (Hwin & Hreq & emp & Hemp & Hid & Hq).
    pose proof (Hsingle s Hs) as Hone. unfold singleHour in Hone.
    unfold activeAt in Hact. simpl in *. subst skill.
    split_and!; [done|lia|lia|done|]. exists emp. split; [done|]. split; [congruence|done].
  - intros e h sk1 sk2 (s1 & Hs1 & He1 & Hact1 & Hsk1)%Hcov (s2 & Hs2 & He2 & Hact2 & Hsk2)%Hcov.
    assert (s1 = s2) as ->; [|congruence].
    apply (NoOverlap_same_shift (Bah3.hourShifts day employees) s1 s2 h); try done.
    congruence.
  - intros h skill _ Hh Hskill.
    destruct (Hsettled h skill Hh Hskill) as [[e Hc]|Hall].
    + left. exists e. by apply Hcov.
    + right. intros emp Hemp Hq. destruct (Hall emp Hemp Hq) as [sk' Hc].
      exists sk'. by apply Hcov.
Qed.

(** X14.  [generateSimpleSchedule] of bah3.js, for employees with
    non-negative ids and required skills whose names have no hyphen,
    returns a schedule with an entry under the id of every day, and every
    entry is what the loop leaves for a day with that id.  The shifts of
    an entry cover an (employee, hour, skill) slot only on an open day,
    inside its opening window, for a required skill and an employee of
    the input who is initially trained in the skill and not on vacation
    that day; they put no employee on two skills in one hour; and every
    required skill is covered in every opening hour unless all the
    employees who are trained in it and not on vacation are at work in
    that hour. *)
Theorem generateSimpleSchedule_spec (days : list Bah3.Day.t)
    (employees : list Bah3.Employee.t) :
  Forall (λ employee, 0 ≤ Bah3.Employee.id employee) employees →
  Forall (λ day, Forall noDash (Bah3.Day.requiredSkills day)) days →
  ∃ schedule,
    Bah3.generateSimpleSchedule days employees = Some schedule
    ∧ (∀ day, day ∈ days → is_Some (schedule !! Bah3.Day.dayId day))
    ∧ (∀ dayId shifts, schedule !! dayId = Some shifts →
         ∃ day, day ∈ days ∧ Bah3.Day.dayId day = dayId
                ∧ Bah3_daySchedule day employees shifts).
Proof.
  intros Hids Hskills. unfold Bah3.generateSimpleSchedule.
  cut (∀ schedule0 : gmap Z (list Bah3.Shift.t),
         ∃ schedule,
           foldM (λ schedule day,
                    let? shifts := Bah3.scheduleOf day employees in
                    Some (<[Bah3.Day.dayId day := shifts]> schedule)) schedule0 days
           = Some schedule
           ∧ (∀ day, day ∈ days → is_Some (schedule !! Bah3.Day.dayId day))
           ∧ (∀ dayId shifts, schedule !! dayId = Some shifts →
                schedule0 !! dayId = Some shifts
                ∨ ∃ day, day ∈ days ∧ Bah3.Day.dayId day = dayId
                         ∧ Bah3_daySchedule day employees shifts)
           ∧ (∀ dayId, is_Some (schedule0 !! dayId) → is_Some (schedule !! dayId))).
  { intros Hgen. destruct (Hgen ∅) as (schedule & Hs & Hdays & Hentries & _).
    exists schedule. split; [done|]. split; [done|]. intros dayId shifts Hget.
    destruct (Hentries dayId shifts Hget) as [Hempty|?]; [|done].
    by rewrite lookup_empty in Hempty. }
  induction days as [|day days IH]; intros schedule0.
  - exists schedule0. split; [done|]. split_and!.
    + intros day Hday. by apply elem_of_nil in Hday.
    + intros dayId shifts Hget. by left.
    + done.
  - apply Forall_cons in Hskills as [Hday Hskills]. cbn [foldM].
    destruct (Bah3_scheduleOf_spec day employees Hids Hday) as (shifts & -> & Hspec).
    destruct (IH Hskills (<[Bah3.Day.dayId day := shifts]> schedule0))
      as (schedule & Hs & Hdays & Hentries & Hkeep).
    exists schedule. split; [done|]. split_and!.
    + intros d [->|Hd]%elem_of_cons; [|by apply Hdays].
      apply Hkeep. rewrite lookup_insert_eq. by eexists.
    + intros dayId shifts' Hget.
      destruct (Hentries dayId shifts' Hget) as [Hold|(d & Hd & Hid & Hsp)].
      * destruct (decide (Bah3.Day.dayId day = dayId)) as [<-|Hne].
        -- rewrite lookup_insert_eq in Hold. injection Hold as <-.
           right. exists day. split; [left|done].
        -- rewrite lookup_insert_ne in Hold by done. by left.
      * right. exists d. split; [by right|done].
    + intros dayId Hsome. apply Hkeep.
      destruct (decide (Bah3.Day.dayId day = dayId)) as [<-|Hne].
      * rewrite lookup_insert_eq. by eexists.
      * by rewrite lookup_insert_ne by done.
Qed.

Lemma generateSimpleSchedule_spec_witness :
  ∃ schedule,
    Bah3.generateSimpleSchedule
      [Bah3.Day.mk 1 false 8 10 1000 ["Register"]]
      [Bah3.Employee.mk 1 40 10 1 1 {["Register"]} ∅] = Some schedule
    ∧ is_Some (schedule !! 1).
Proof.
  destruct (generateSimpleSchedule_spec
              [Bah3.Day.mk 1 false 8 10 1000 ["Register"]]
              [Bah3.Employee.mk 1 40 10 1 1 {["Register"]} ∅])
    as (schedule & Hs & Hdays & _).
  - constructor; [simpl; lia|constructor].
  - constructor; [|constructor]. constructor; [|constructor].
    simpl. repeat split; intros Heq; discriminate Heq.
  - exists schedule. split; [exact Hs|]. apply (Hdays (Bah3.Day.mk 1 false 8 10 1000 ["Register"])).
    left.
Defined.

(** ** bah2.js: the greedy loop of generateSchedule *)
Lemma Bah2_employees_get_elem_of this e :
  e ∈ Bah2.employees this →
  ∃ e', Bah2.employees_get this (Bah2.Employee.id e) = Some e'
        ∧ Bah2.Employee.id e' = Bah2.Employee.id e ∧ e' ∈ Bah2.employees this.
Proof.
  intros He. unfold Bah2.employees_get.
  destruct (List.find _ _) as [e'|] eqn:Hfind.
  - apply find_some in Hfind as [Hin%list_elem_of_In Hid%bool_decide_eq_true]. by exists e'.
  - apply list_elem_of_In in He. pose proof (find_none _ _ Hfind _ He) as Hf.
    simpl in Hf. by rewrite bool_decide_true in Hf.
Qed.

Lemma Bah2_employees_get_Some this employeeId e :
  Bah2.employees_get this employeeId = Some e →
  e ∈ Bah2.employees this ∧ Bah2.Employee.id e = employeeId.
Proof.
  unfold Bah2.employees_get. intros Hfind.
  apply find_some in Hfind as [Hin%list_elem_of_In Hid%bool_decide_eq_true]. done.
Qed.

Lemma Bah2_isTrained_total this st e skill :
  Bah2_shaped this st → e ∈ Bah2.employees this →
  is_Some (Bah2.isTrained st (Bah2.Employee.id e) skill).
Proof.
  intros Hsh He. destruct (Hsh e He) as [_ [pm Hpm]].
  unfold Bah2.isTrained. rewrite Hpm. by eexists.
Qed.

(** The coverage counted for a slot is at least 1 as soon as one of its
    shifts is held by a trained employee. *)
Lemma Bah2_currentCoverage_fold st skill (hourShifts : list Bah2.Shift.t) (acc c : Q) :
  foldM (λ (coverage : Q) shift,
           let? isEmpTrained := Bah2.isTrained st (Bah2.Shift.employeeId shift) skill in
           Some (coverage + (if isEmpTrained : bool then 1 else 1 # 2))%Q)
        acc hourShifts = Some c →
  (acc <= c)%Q
  ∧ ((acc + 1 <= c)%Q
     ∨ Forall (λ s, Bah2.isTrained st (Bah2.Shift.employeeId s) skill = Some false) hourShifts).
Proof.
  revert acc. induction hourShifts as [|s l IH]; intros acc; simpl.
  - intros [= <-]. split; [lra|]. right. constructor.
  - destruct (Bah2.isTrained st (Bah2.Shift.employeeId s) skill) as [[]|] eqn:Ht; [| |done];
      simpl; intros Hfold; apply IH in Hfold as [Hle Hcases].
    + split; [lra|]. left. lra.
    + split; [lra|]. destruct Hcases as [Hc|Hall]; [left; lra|right; by constructor].
Qed.

Lemma Bah2_currentCoverage_total this st skill (hourShifts : list Bah2.Shift.t) :
  Bah2_shaped this st →
  Forall (λ s, ∃ e, e ∈ Bah2.employees this ∧ Bah2.Employee.id e = Bah2.Shift.employeeId s)
         hourShifts →
  is_Some (Bah2.currentCoverage st skill hourShifts).
Proof.
  intros Hsh Hemps. unfold Bah2.currentCoverage. rewrite Forall_forall in Hemps.
  destruct (foldM_total (λ _ : Q, True)
              (λ (coverage : Q) shift,
                 let? isEmpTrained := Bah2.isTrained st (Bah2.Shift.employeeId shift) skill in
                 Some (coverage + (if isEmpTrained : bool then 1 else 1 # 2))%Q)
              hourShifts 0%Q) as (c & Hc & _); [|done|by eexists].
  intros q s Hs _. destruct (Hemps s Hs) as (e & He & Hid). rewrite <-Hid.
  destruct (Bah2_isTrained_total this st e skill Hsh He) as [t ->]. by eexists.
Qed.

Lemma Bah2_isEmployeeAvailable_spec this st e dayId hour :
  e ∈ Bah2.employees this →
  ∃ b, Bah2.isEmployeeAvailable this st (Bah2.Employee.id e) dayId hour (hour + 1) = Some b
       ∧ (b = true → Bah2_free this st dayId hour e).
Proof.
  intros He. destruct (Bah2_employees_get_elem_of this e He) as (e' & Hget & Hid & He').
  unfold Bah2.isEmployeeAvailable. rewrite Hget. simpl.
  destruct (decide _) as [Hvac|Hvac]; [by exists false|].
  eexists. split; [done|]. intros Hfree%negb_true_iff. split; [by exists e'|].
  intros s Hs Hday Hact.
  assert (existsb (λ shift, bool_decide (hour < Bah2.Shift.end_ shift)
                            && bool_decide (Bah2.Shift.start shift < hour + 1))
                  (filter (λ s, Bah2.Shift.dayId s = dayId)
                          (Bah2.shiftsOf st (Bah2.Employee.id e))) = true) as Habs;
    [|congruence].
  apply existsb_exists. exists s. split.
  - apply list_elem_of_In, list_elem_of_filter. done.
  - rewrite andb_true_iff, !bool_decide_eq_true. lia.
Qed.

Lemma Bah2_calculateHourlyCost_total this st e :
  e ∈ Bah2.employees this →
  is_Some (Bah2.calculateHourlyCost this st (Bah2.Employee.id e)).
Proof.
  intros He. destruct (Bah2_employees_get_elem_of this e He) as (e' & Hget & _).
  unfold Bah2.calculateHourlyCost. rewrite Hget. simpl.
  destruct (_ !! _); [destruct (decide _)|]; by eexists.
Qed.

Lemma Bah2_availableEmployees_spec this st dayId hour skill :
  Bah2_shaped this st →
  ∃ cs, Bah2.availableEmployees this st dayId hour skill = Some cs
        ∧ Forall (λ c, Bah2.emp c ∈ Bah2.employees this
                       ∧ Bah2_free this st dayId hour (Bah2.emp c)
                       ∧ Bah2.isTrained st (Bah2.Employee.id (Bah2.emp c)) skill
                         = Some (Bah2.trained c)) cs.
Proof.
  intros Hsh. unfold Bah2.availableEmployees.
  set (q := λ e, default false
                   (Bah2.isEmployeeAvailable this st (Bah2.Employee.id e) dayId hour (hour + 1))).
  rewrite (filterM_Some _ q).
  2: { intros e He. unfold q.
       destruct (Bah2_isEmployeeAvailable_spec this st e dayId hour He) as (b & -> & _). done. }
  simpl.
  assert (∀ e, e ∈ filter (λ x, q x = true) (Bah2.employees this) →
               e ∈ Bah2.employees this ∧ Bah2_free this st dayId hour e) as Hav.
  { intros e [Hq He]%list_elem_of_filter. split; [done|]. unfold q in Hq.
    destruct (Bah2_isEmployeeAvailable_spec this st e dayId hour He) as (b & Hb & Hfree).
    rewrite Hb in Hq. simpl in Hq. by apply Hfree. }
  destruct (mapM (Bah2.candidateOf this st skill) _) as [cs|] eqn:Hmap.
  2: { exfalso.
       assert (is_Some (mapM (Bah2.candidateOf this st skill)
                             (filter (λ x, q x = true) (Bah2.employees this))))
         as [? Hsome]; [|congruence].
       apply mapM_is_Some, Forall_forall. intros e [_ He]%list_elem_of_filter.
       unfold compose, Bah2.candidateOf.
       destruct (Bah2_isTrained_total this st e skill Hsh He) as [t ->]. simpl.
       destruct (Bah2_calculateHourlyCost_total this st e He) as [c ->]. by eexists. }
  simpl. eexists. split; [done|].
  rewrite Array_sort_Permutation. apply mapM_Some in Hmap.
  apply Forall_forall. intros c Hc.
  destruct (Forall2_elem_of_r _ _ _ c Hmap Hc) as (e & He & Hcand).
  unfold Bah2.candidateOf in Hcand.
  destruct (Bah2.isTrained st (Bah2.Employee.id e) skill) as [t|] eqn:Ht; [|done].
  simpl in Hcand. destruct (Bah2.calculateHourlyCost _ _ _); [|done].
  injection Hcand as <-. simpl. destruct (Hav e He). done.
Qed.

Lemma Bah2_hasTeacher_none st skill (hourShifts : list Bah2.Shift.t) :
  Forall (λ s, Bah2.isTrained st (Bah2.Shift.employeeId s) skill = Some false) hourShifts →
  foldM (λ (found : bool) s,
           if found then Some true else Bah2.isTrained st (Bah2.Shift.employeeId s) skill)
        false hourShifts = Some false.
Proof.
  induction 1 as [|s l Hs Hl IH]; simpl; [done|]. by rewrite Hs.
Qed.

Lemma Bah2_train_spec this st best skill hourShifts :
  Bah2_shaped this st → best ∈ Bah2.employees this →
  Forall (λ s, Bah2.isTrained st (Bah2.Shift.employeeId s) skill = Some false) hourShifts →
  ∃ st' trained,
    Bah2.isTrained st (Bah2.Employee.id best) skill = Some trained
    ∧ Bah2.train this st best skill hourShifts = Some st'
    ∧ Bah2_shaped this st'
    ∧ Bah2.employeeShifts st' = Bah2.employeeShifts st
    ∧ Bah2.employeeHoursWorked st' = Bah2.employeeHoursWorked st
    ∧ Bah2_points st' (Bah2.Employee.id best) skill
      = Bah2_points st (Bah2.Employee.id best) skill
        + (if trained : bool then 0 else Bah2.Employee.learning_rate best)
    ∧ ∀ e k, (e, k) ≠ (Bah2.Employee.id best, skill) →
             Bah2_points st' e k = Bah2_points st e k.
Proof.
  intros Hsh Hbest Hnone. unfold Bah2.train.
  destruct (Hsh best Hbest) as [_ [pointsMap Hpm]].
  destruct (Bah2.isTrained st (Bah2.Employee.id best) skill) as [trained|] eqn:Ht.
  2: { unfold Bah2.isTrained in Ht. by rewrite Hpm in Ht. }
  simpl. destruct trained.
  { exists st, true. split_and!; try done. lia. }
  rewrite Hpm. simpl. rewrite Bah2_hasTeacher_none by done. simpl.
  eexists _, false. split; [done|]. split; [done|]. split_and!; try done.
  - intros e He. destruct (Hsh e He) as [Hh Hp]. split; [done|]. simpl.
    destruct (decide (Bah2.Employee.id best = Bah2.Employee.id e)) as [->|Hne].
    + rewrite lookup_insert_eq. by eexists.
    + by rewrite lookup_insert_ne by done.
  - unfold Bah2_points. simpl. rewrite lookup_insert_eq, Hpm. simpl.
    by rewrite lookup_insert_eq.
  - intros e k Hne. unfold Bah2_points. simpl.
    destruct (decide (Bah2.Employee.id best = e)) as [<-|Hne'].
    + rewrite lookup_insert_eq, Hpm. simpl. rewrite lookup_insert_ne; [done|]. congruence.
    + by rewrite lookup_insert_ne by done.
Qed.

Lemma Bah2_booked_mono this day st st' s :
  (∀ e, Bah2.shiftsOf st e ⊆ Bah2.shiftsOf st' e) →
  Bah2_booked this day st s → Bah2_booked this day st' s.
Proof.
  intros Hsub (H1 & H2 & H3 & H4 & H5 & H6).
  do 5 (split; [done|]). by apply Hsub.
Qed.

Lemma Bah2_cover_spec this day shifts st hour skill :
  Bah2_shaped this st → Forall (Bah2_booked this day st) shifts → NoOverlap shifts →
  Bah2.Day.start day ≤ hour < Bah2.Day.end_ day →
  skill ∈ Bah2.Day.required_skills day →
  ∃ shifts' st',
    Bah2.cover this day (shifts, st) (hour, skill) = Some (shifts', st')
    ∧ Bah2_shaped this st' ∧ Forall (Bah2_booked this day st') shifts' ∧ NoOverlap shifts'
    ∧ Bah2_step this day hour skill shifts st shifts' st'.
Proof.
  intros Hsh Hbooked Hno Hhour Hskill. unfold Bah2.cover.
  set (hourShifts := filter _ shifts).
  assert (Forall (λ s, ∃ e, e ∈ Bah2.employees this
                           ∧ Bah2.Employee.id e = Bah2.Shift.employeeId s) hourShifts) as Hemps.
  { apply Forall_forall. intros s [_ Hs]%list_elem_of_filter.
    rewrite Forall_forall in Hbooked.
    destruct (Hbooked s Hs) as (_ & _ & _ & _ & (e & He & _ & Hid & _) & _). by exists e. }
  destruct (Bah2_currentCoverage_total this st skill hourShifts Hsh Hemps) as [c Hc].
  rewrite Hc. simpl.
  destruct (Qle_bool 1 c) eqn:Hfull; simpl.
  { exists shifts, st. split_and!; try done. by left. }
  destruct (Bah2_availableEmployees_spec this st (Bah2.Day.id day) hour skill Hsh)
    as (cs & -> & Hcs).
  simpl. destruct cs as [|best cs].
  { exists shifts, st. split_and!; try done. by left. }
  apply Forall_cons in Hcs as [(Hbest & [(e' & Hget & Hvac) Hfree] & Htrained) _].
  destruct (Hsh _ Hbest) as [[hoursWorked Hhours] _]. rewrite Hhours. simpl.
  set (newShift := Bah2.Shift.mk _ hour (hour + 1) skill _).
  set (st1 := Bah2.mkState _ _ _ _).
  assert (Bah2_shaped this st1) as Hsh1.
  { intros e He. destruct (Hsh e He) as [Hh Hp]. split; [|done]. simpl.
    destruct (decide (Bah2.Employee.id (Bah2.emp best) = Bah2.Employee.id e)) as [->|Hne].
    - rewrite lookup_insert_eq. by eexists.
    - by rewrite lookup_insert_ne by done. }
  assert (Forall (λ s, Bah2.isTrained st1 (Bah2.Shift.employeeId s) skill = Some false)
                 hourShifts) as Hnone.
  { unfold Bah2.currentCoverage in Hc.
    apply Bah2_currentCoverage_fold in Hc as [_ [Hge|Hall]]; [|exact Hall].
    assert (Qle_bool 1 c = true) as Habs by (apply Qle_bool_iff; lra). congruence. }
  destruct (Bah2_train_spec this st1 (Bah2.emp best) skill hourShifts Hsh1 Hbest Hnone)
    as (st' & trained & Ht & -> & Hsh' & Hshifts' & Hhours' & Hpts & Hframe).
  simpl. eexists _, st'. split; [done|].
  assert (∀ e, Bah2.shiftsOf st e ⊆ Bah2.shiftsOf st' e) as Hsub.
  { intros e s Hs. unfold Bah2.shiftsOf. rewrite Hshifts'. simpl.
    destruct (decide (Bah2.Employee.id (Bah2.emp best) = e)) as [<-|Hne].
    - rewrite lookup_insert_eq. simpl. apply elem_of_app. by left.
    - by rewrite lookup_insert_ne by done. }
  destruct (Bah2_employees_get_Some this _ e' Hget) as [He' Hid'].
  split_and!.
  - done.
  - apply Forall_app. split.
    + eapply Forall_impl; [exact Hbooked|]. intros s. by apply Bah2_booked_mono.
    + constructor; [|constructor].
      split; [reflexivity|]. split; [done|]. split; [done|]. split; [done|]. split.
      * exists e'. done.
      * unfold Bah2.shiftsOf. rewrite Hshifts'. simpl. rewrite lookup_insert_eq. simpl.
        apply elem_of_app. right. left.
  - apply NoOverlap_snoc. split; [done|]. apply Forall_forall. intros s Hs He Hov.
    rewrite Forall_forall in Hbooked.
    destruct (Hbooked s Hs) as (_ & Hday & _ & _ & _ & Hin).
    simpl in He. rewrite He in Hin. apply (Hfree s Hin Hday).
    unfold overlap in Hov. simpl in Hov. lia.
  - right. exists (Bah2.emp best), trained. split_and!; try done.
Qed.

Lemma Bah2_requiredSkillHours_spec day hour skill :
  (hour, skill) ∈ Bah2.requiredSkillHours day
  → Bah2.Day.start day ≤ hour < Bah2.Day.end_ day ∧ skill ∈ Bah2.Day.required_skills day.
Proof.
  unfold Bah2.requiredSkillHours. intros (h & Hin & Hh)%list_elem_of_bind.
  apply list_elem_of_fmap in Hin as (k & [= -> ->] & Hk).
  unfold hours in Hh. apply elem_of_seqZ in Hh. split; [lia|done].
Qed.

Lemma Bah2_shiftsForDay_spec this day st :
  Bah2_shaped this st →
  ∃ shifts st',
    Bah2.shiftsForDay this day st = Some (shifts, st')
    ∧ Bah2_shaped this st' ∧ Forall (Bah2_booked this day st') shifts ∧ NoOverlap shifts.
Proof.
  intros Hsh. unfold Bah2.shiftsForDay.
  destruct (foldM_total
              (λ acc : list Bah2.Shift.t * Bah2.State,
                 Bah2_shaped this acc.2 ∧ Forall (Bah2_booked this day acc.2) acc.1
                 ∧ NoOverlap acc.1)
              (Bah2.cover this day) (Bah2.requiredSkillHours day) ([], st))
    as ([shifts st'] & Hfold & Hsh' & Hb' & Hno').
  - intros [shifts0 st0] [hour skill] Hreq (Hsh0 & Hb0 & Hno0). simpl in *.
    apply Bah2_requiredSkillHours_spec in Hreq as [Hhour Hskill].
    destruct (Bah2_cover_spec this day shifts0 st0 hour skill Hsh0 Hb0 Hno0 Hhour Hskill)
      as (shifts1 & st1 & Hc & Hsh1 & Hb1 & Hno1 & _).
    exists (shifts1, st1). done.
  - simpl. split; [done|]. split; [constructor|done].
  - exists shifts, st'. done.
Qed.

Lemma Bah2_weeklyReset_shaped this dayId st :
  Bah2_shaped this st → Bah2_shaped this (Bah2.weeklyReset this dayId st).
Proof.
  intros Hsh. unfold Bah2.weeklyReset. destruct (_ && _); [|done].
  revert st Hsh. induction (Bah2.Employee.id <$> Bah2.employees this) as [|empId l IH];
    intros st Hsh; [done|].
  simpl. apply IH. intros e He. destruct (Hsh e He) as [Hh Hp]. split; [|done]. simpl.
  destruct (decide (empId = Bah2.Employee.id e)) as [->|Hne].
  - rewrite lookup_insert_eq. by eexists.
  - by rewrite lookup_insert_ne by done.
Qed.

Lemma Bah2_initialState_shaped this : Bah2_shaped this (Bah2.initialState this).
Proof.
  unfold Bah2.initialState, Bah2_shaped.
  generalize (Bah2.mkState ∅ ∅ ∅ ∅).
  induction (Bah2.employees this) as [|e l IH] using rev_ind; intros st0 emp Hemp.
  - by apply elem_of_nil in Hemp.
  - rewrite fold_left_app. simpl.
    destruct (decide (Bah2.Employee.id e = Bah2.Employee.id emp)) as [->|Hne].
    + rewrite !lookup_insert_eq. split; by eexists.
    + rewrite !lookup_insert_ne by done. apply IH.
      apply elem_of_app in Hemp as [?|Hemp]; [done|].
      apply list_elem_of_singleton in Hemp. congruence.
Qed.

Lemma Bah2_booked_keyable this day st (shifts : list Bah2.Shift.t) :
  Forall (λ e, 0 ≤ Bah2.Employee.id e) (Bah2.employees this) →
  Forall noDash (Bah2.Day.required_skills day) →
  Forall (Bah2_booked this day st) shifts →
  Forall singleHour shifts ∧ Forall keyable shifts.
Proof.
  intros Hids Hskills Hb. rewrite Forall_forall in Hids. rewrite Forall_forall in Hskills.
  split; (eapply Forall_impl; [exact Hb|]); intros s (H1 & _ & _ & H4 & (e & He & _ & Hid & _) & _).
  - done.
  - split; simpl; [rewrite <-Hid; by apply Hids|by apply Hskills].
Qed.

Lemma Bah2_day_spec (this : Bah2.t) (day : Bah2.Day.t) (st : Bah2.State) :
  Bah2_shaped this st →
  Forall (λ e, 0 ≤ Bah2.Employee.id e) (Bah2.employees this) →
  Forall noDash (Bah2.Day.required_skills day) →
  ∃ shifts st' entries,
    Bah2.shiftsForDay this day st = Some (shifts, st')
    ∧ Bah2_shaped this st'
    ∧ Forall (Bah2_booked this day st') shifts
    ∧ NoOverlap shifts
    ∧ Bah2.mergedEntries shifts = Some entries
    ∧ ∀ e h skill, Bah2_covers entries e h skill ↔ covers shifts e h skill.
Proof.
  intros Hsh Hids Hskills.
  destruct (Bah2_shiftsForDay_spec this day st Hsh) as (shifts & st' & Hs & Hsh' & Hb & Hno).
  destruct (Bah2_booked_keyable this day st' shifts Hids Hskills Hb) as [Hsingle Hkey].
  destruct (Bah2_mergedEntries_spec shifts Hsingle Hkey) as (entries & He & Hcov).
  exists shifts, st', entries. done.
Qed.

Lemma Bah2_scheduleDay_total this outputLines st day :
  Bah2_shaped this st →
  Forall (λ e, 0 ≤ Bah2.Employee.id e) (Bah2.employees this) →
  Forall noDash (Bah2.Day.required_skills day) →
  ∃ line st', Bah2.scheduleDay this (outputLines, st) day = Some (outputLines ++ [line], st')
              ∧ Bah2_shaped this st'.
Proof.
  intros Hsh Hids Hskills. unfold Bah2.scheduleDay.
  pose proof (Bah2_weeklyReset_shaped this (Bah2.Day.id day) st Hsh) as Hsh0.
  destruct (Bah2.Day.is_open day); simpl; [|by eexists _, _].
  destruct (Bah2_day_spec this day _ Hsh0 Hids Hskills)
    as (shifts & st' & entries & -> & Hsh' & _ & _ & Hm & _).
  simpl. unfold Bah2.finalTokens. rewrite Hm. simpl. by eexists _, _.
Qed.

(** X15.  [generateSchedule] of bah2.js, from a state in which every
    employee has an hours counter and a points map, with employee ids that
    are not negative and required skills without a hyphen, returns one
    output line per day.  On every day the greedy loop returns: every
    shift it books takes one hour inside the opening window, on a required
    skill, for an employee of the input who is not on vacation that day,
    and no two shifts of one employee overlap; the merging that follows
    returns, and its entries cover exactly the (employee, hour, skill)
    slots of the booked shifts. *)
Theorem generateSchedule_runs (this : Bah2.t) (st : Bah2.State) :
  Bah2_shaped this st →
  Forall (λ e, 0 ≤ Bah2.Employee.id e) (Bah2.employees this) →
  Forall (λ day, Forall noDash (Bah2.Day.required_skills day)) (Bah2.calendarDays this) →
  (∃ outputLines st',
     Bah2.generateSchedule this st = Some (outputLines, st')
     ∧ length outputLines = length (Bah2.calendarDays this)
     ∧ Bah2_shaped this st')
  ∧ ∀ day st0, day ∈ Bah2.calendarDays this → Bah2_shaped this st0 →
      ∃ shifts st' entries,
        Bah2.shiftsForDay this day st0 = Some (shifts, st')
        ∧ Bah2_shaped this st'
        ∧ Forall (Bah2_booked this day st') shifts
        ∧ NoOverlap shifts
        ∧ Bah2.mergedEntries shifts = Some entries
        ∧ ∀ e h skill, Bah2_covers entries e h skill ↔ covers shifts e h skill.
Proof.
  intros Hsh Hids Hskills. split.
  - unfold Bah2.generateSchedule.
    cut (∀ outputLines st0, Bah2_shaped this st0 →
           ∃ new st', foldM (Bah2.scheduleDay this) (outputLines, st0) (Bah2.calendarDays this)
                      = Some (outputLines ++ new, st')
                      ∧ length new = length (Bah2.calendarDays this)
                      ∧ Bah2_shaped this st').
    { intros Hgen. destruct (Hgen [] st Hsh) as (new & st' & Hfold & Hlen & Hsh').
      by exists new, st'. }
    induction (Bah2.calendarDays this) as [|day days IH]; intros outputLines st0 Hsh0.
    + exists [], st0. by rewrite app_nil_r.
    + apply Forall_cons in Hskills as [Hday Hskills]. cbn [foldM].
      destruct (Bah2_scheduleDay_total this outputLines st0 day Hsh0 Hids Hday)
        as (line & st1 & -> & Hsh1).
      destruct (IH Hskills (outputLines ++ [line]) st1 Hsh1) as (new & st' & -> & Hlen & Hsh').
      exists (line :: new), st'. rewrite <-app_assoc. simpl. split; [done|]. split; [lia|done].
  - intros day st0 Hday Hsh0. apply Bah2_day_spec; [done..|].
    rewrite Forall_forall in Hskills. by apply Hskills.
Qed.

Lemma generateSchedule_runs_witness :
  let this := Bah2.mk 150 [Bah2.Day.mk 1 true 8 10 1000 ["Register"]]
                [Bah2.Employee.mk 1 40 10 1 1 {["Register"]} ∅;
                 Bah2.Employee.mk 2 40 10 1 1 ∅ ∅] in
  ∃ outputLines st',
    Bah2.generateSchedule this (Bah2.initialState this) = Some (outputLines, st')
    ∧ length outputLines = 1%nat.
Proof.
  intros this.
  destruct (generateSchedule_runs this (Bah2.initialState this))
    as [(outputLines & st' & Hs & Hlen & _) _].
  - apply Bah2_initialState_shaped.
  - constructor; [simpl; lia|]. constructor; [simpl; lia|constructor].
  - constructor; [|constructor]. constructor; [|constructor].
    simpl. repeat split; intros Heq; discriminate Heq.
  - exists outputLines, st'. split; [exact Hs|exact Hlen].
Defined.

(** X16.  The teaching rates are never applied in [generateSchedule] of
    bah2.js.  A pass of the loop over the required skill-hours books
    nothing, or it books one employee of the input for that hour on that
    skill; the points of that employee for that skill then grow by the
    learning rate alone when the employee is not trained, and no other
    points change.  An employee is booked only while the coverage counted
    for the slot is below 1, which it is only when no shift on the slot is
    held by a trained employee: so there is never a teacher. *)
Theorem teaching_rate_never_applied (this : Bah2.t) (day : Bah2.Day.t)
    (shifts : list Bah2.Shift.t) (st : Bah2.State) (hour : Z) (skill : string) :
  Bah2_shaped this st → Forall (Bah2_booked this day st) shifts → NoOverlap shifts →
  Bah2.Day.start day ≤ hour < Bah2.Day.end_ day →
  skill ∈ Bah2.Day.required_skills day →
  ∃ shifts' st',
    Bah2.cover this day (shifts, st) (hour, skill) = Some (shifts', st')
    ∧ Bah2_step this day hour skill shifts st shifts' st'.
Proof.
  intros Hsh Hb Hno Hhour Hskill.
  destruct (Bah2_cover_spec this day shifts st hour skill Hsh Hb Hno Hhour Hskill)
    as (shifts' & st' & Hc & _ & _ & _ & Hstep).
  exists shifts', st'. split; [exact Hc|exact Hstep].
Qed.

Lemma teaching_rate_never_applied_witness :
  let this := Bah2.mk 150 [Bah2.Day.mk 1 true 8 10 1000 ["Register"]]
                [Bah2.Employee.mk 1 40 10 1 1 {["Register"]} ∅;
                 Bah2.Employee.mk 2 40 10 1 1 ∅ ∅] in
  let day := Bah2.Day.mk 1 true 8 10 1000 ["Register"] in
  ∃ shifts' st',
    Bah2.cover this day ([], Bah2.initialState this) (8, "Register") = Some (shifts', st')
    ∧ Bah2_step this day 8 "Register" [] (Bah2.initialState this) shifts' st'.
Proof.
  intros this day.
  apply (teaching_rate_never_applied this day [] (Bah2.initialState this) 8 "Register").
  - apply Bah2_initialState_shaped.
  - constructor.
  - exact I.
  - simpl. lia.
  - left.
Defined.

(** ** sonnet.js: calculateScore on the schedule of advancedSchedule *)
Lemma Sonnet_hourCoverage_total input shifts skill hour :
  Forall (λ s, ∃ emp, emp ∈ Sonnet.employees input
                      ∧ Sonnet.Shift.employeeId s = Sonnet.Employee.id emp) shifts →
  is_Some (Sonnet.hourCoverage input shifts skill hour).
Proof.
  intros Hemps. unfold Sonnet.hourCoverage. rewrite Forall_forall in Hemps.
  set (workers := filter _ shifts).
  destruct (foldM_total (λ _ : Q, True)
              (λ (hourCoverage : Q) shift,
                 let? emp := Sonnet.find_employee input (Sonnet.Shift.employeeId shift) in
                 Some (hourCoverage
                       + (if decide (skill ∈ Sonnet.Employee.skills emp) then 1 else 1 # 2))%Q)
              workers 0%Q) as (c & Hc & _); [|done|by eexists].
  intros q s [_ Hs]%list_elem_of_filter _. destruct (Hemps s Hs) as (emp & Hemp & ->).
  destruct (Sonnet_find_employee input emp Hemp) as [e ->]. by eexists.
Qed.

Lemma Sonnet_coveredSkillHours_total input day shifts :
  Forall (λ s, ∃ emp, emp ∈ Sonnet.employees input
                      ∧ Sonnet.Shift.employeeId s = Sonnet.Employee.id emp) shifts →
  is_Some (Sonnet.coveredSkillHours input day shifts).
Proof.
  intros Hemps. unfold Sonnet.coveredSkillHours.
  destruct (foldM_total (λ _ : Q, True)
              (λ covered skill,
                 foldM (λ (covered : Q) hour,
                          let? hourCoverage := Sonnet.hourCoverage input shifts skill hour in
                          Some (covered + (if Qle_bool 1 hourCoverage then 1 else hourCoverage))%Q)
                       covered (hours (Sonnet.Day.start day) (Sonnet.Day.end_ day)))
              (Sonnet.Day.skills day) 0%Q) as (c & Hc & _); [|done|by eexists].
  intros q skill _ _.
  destruct (foldM_total (λ _ : Q, True)
              (λ (covered : Q) hour,
                 let? hourCoverage := Sonnet.hourCoverage input shifts skill hour in
                 Some (covered + (if Qle_bool 1 hourCoverage then 1 else hourCoverage))%Q)
              (hours (Sonnet.Day.start day) (Sonnet.Day.end_ day)) q) as (c & Hc & _);
    [|done|by exists c].
  intros q' hour _ _.
  destruct (Sonnet_hourCoverage_total input shifts skill hour Hemps) as [hc ->]. by eexists.
Qed.

Lemma Sonnet_payroll_total input day shifts weeklyHours :
  Forall (λ s, ∃ emp, emp ∈ Sonnet.employees input
                      ∧ Sonnet.Shift.employeeId s = Sonnet.Employee.id emp) shifts →
  is_Some (foldM (Sonnet.payShift input day) (0, weeklyHours) shifts).
Proof.
  intros Hemps. rewrite Forall_forall in Hemps.
  destruct (foldM_total (λ _, True) (Sonnet.payShift input day) shifts (0, weeklyHours))
    as (r & Hr & _); [|done|by eexists].
  intros [payroll wh] s Hs _. destruct (Hemps s Hs) as (emp & Hemp & Hid).
  unfold Sonnet.payShift. rewrite Hid.
  destruct (Sonnet_find_employee input emp Hemp) as [e ->]. by eexists.
Qed.

Lemma Sonnet_scoreDay_spec input day daySchedule totalScore weeklyHours :
  Sonnet_scheduled input day daySchedule →
  ∃ totalScore' weeklyHours',
    Sonnet.scoreDay input (totalScore, weeklyHours) (Some day, daySchedule)
    = Some (totalScore', weeklyHours')
    ∧ (totalScore' = Sonnet.NaN ↔ totalScore = Sonnet.NaN ∨ Sonnet_idle day).
Proof.
  intros (_ & _ & Hshifts). unfold Sonnet.scoreDay, Sonnet_idle. simpl.
  destruct (Sonnet.Day.closed day).
  { eexists _, _. split; [done|]. destruct totalScore; simpl; split; try done.
    - intros [?|[? _]]; done.
    - by left. }
  assert (Forall (λ s, ∃ emp, emp ∈ Sonnet.employees input
                         ∧ Sonnet.Shift.employeeId s = Sonnet.Employee.id emp)
                 (Sonnet.shifts daySchedule)) as Hemps.
  { eapply Forall_impl; [exact Hshifts|]. intros s (_ & _ & emp & Hemp & Hid).
    exists emp. split; [|done]. unfold Sonnet_available in Hemp.
    by apply list_elem_of_filter in Hemp as [_ ?]. }
  destruct (Sonnet_coveredSkillHours_total input day _ Hemps) as [covered ->]. simpl.
  destruct (Sonnet_payroll_total input day _ weeklyHours Hemps) as [[payroll wh] ->]. simpl.
  eexists _, _. split; [done|].
  destruct (decide _) as [Hzero|Hpos]; destruct totalScore; simpl; split; try done.
  - by right.
  - by right.
  - intros [?|[_ ?]]; done.
  - by left.
Qed.

Lemma Sonnet_imap_days {R : Sonnet.Day.t → Sonnet.DaySchedule → Prop} days schedule :
  Forall2 R days schedule →
  imap (λ i daySchedule, (days !! i, daySchedule)) schedule
  = zip_with (λ day daySchedule, (Some day, daySchedule)) days schedule.
Proof.
  induction 1 as [|day ds days schedule _ _ IH]; [done|].
  rewrite imap_cons. simpl. f_equal. rewrite <-IH. by apply imap_ext.
Qed.

(** X17.  [calculateScore] of sonnet.js never throws on the schedule
    [advancedSchedule] returns for the same input: the employee of every
    shift is found.  The score it returns is [NaN] exactly when the
    calendar has an open day on which no skill-hour is required (no skill,
    or an opening window of no hours): the capacity of that day is 0 / 0. *)
Theorem score_of_own_schedule (input : Sonnet.Input) :
  ∃ schedule score,
    Sonnet.advancedSchedule input = Some schedule
    ∧ Sonnet.calculateScore input schedule = Some score
    ∧ (score = Sonnet.NaN ↔ ∃ day, day ∈ Sonnet.days input ∧ Sonnet_idle day).
Proof.
  unfold Sonnet.advancedSchedule.
  destruct (Sonnet_scheduleDays_spec input (Sonnet.days input) []
              (Sonnet.initialTracking input) (Sonnet_initialTracking_tracked input))
    as (schedule & tr & Hfold & Hdays).
  rewrite Hfold. simpl. exists schedule. clear Hfold.
  unfold Sonnet.calculateScore. rewrite (Sonnet_imap_days _ _ Hdays).
  cut (∀ totalScore weeklyHours,
         ∃ score weeklyHours',
           foldM (Sonnet.scoreDay input) (totalScore, weeklyHours)
                 (zip_with (λ day daySchedule, (Some day, daySchedule))
                           (Sonnet.days input) schedule)
           = Some (score, weeklyHours')
           ∧ (score = Sonnet.NaN
              ↔ totalScore = Sonnet.NaN ∨ ∃ day, day ∈ Sonnet.days input ∧ Sonnet_idle day)).
  { intros Hgen. destruct (Hgen (Sonnet.Finite 0) ∅) as (score & wh & -> & Hnan).
    exists score. split; [done|]. split; [done|]. rewrite Hnan. split; [|by right].
    intros [?|?]; done. }
  induction Hdays as [|day ds days schedule Hday Hdays IH]; intros totalScore weeklyHours.
  - exists totalScore, weeklyHours. split; [done|]. split; [by left|].
    intros [?|(day & Hin & _)]; [done|]. by apply elem_of_nil in Hin.
  - cbn [foldM zip_with].
    destruct (Sonnet_scoreDay_spec input day ds totalScore weeklyHours Hday)
      as (score1 & wh1 & -> & Hnan1).
    destruct (IH score1 wh1) as (score & wh & -> & Hnan).
    exists score, wh. split; [done|]. rewrite Hnan, Hnan1. split.
    + intros [[?|?]|(d & Hd & Hidle)]; [by left|right; exists day|right; exists d].
      * split; [left|done].
      * split; [by right|done].
    + intros [?|(d & [->|Hd]%elem_of_cons & Hidle)]; [by left; left|by left; right|].
      right. by exists d.
Qed.

(** ** bah3.js, second script: the greedy assignment of runScheduler *)
Lemma extendLast_Some P f l l' :
  RunScheduler.extendLast P f l = Some l' →
  ∃ i s, l !! i = Some s ∧ P s = true ∧ l' = <[i := f s]> l.
Proof.
  revert l'. induction l as [|s l IH]; intros l'; simpl; [done|].
  destruct (RunScheduler.extendLast P f l) as [l''|].
  - intros [= <-]. destruct (IH l'' eq_refl) as (i & x & Hi & HP & ->).
    by exists (S i), x.
  - destruct (P s) eqn:HP; [|done]. intros [= <-]. by exists 0%nat, s.
Qed.

Lemma NoOverlap_lookup {A} `{ShiftLike A} (shifts : list A) :
  NoOverlap shifts
  ↔ ∀ i j s s', i ≠ j → shifts !! i = Some s → shifts !! j = Some s' →
                employeeOf s = employeeOf s' → ¬ overlap s s'.
Proof.
  induction shifts as [|x l IH]; simpl.
  - split; [|done]. intros _ i j s s' _ Hi. by rewrite lookup_nil in Hi.
  - rewrite IH, Forall_forall. split.
    + intros [Hx Hl] i j s s' Hij Hi Hj He.
      destruct i as [|i], j as [|j]; simpl in *; try done.
      * injection Hi as <-. apply (Hx s'); [by eapply list_elem_of_lookup_2|done].
      * injection Hj as <-. intros Hov. apply (Hx s); [by eapply list_elem_of_lookup_2|done|].
        unfold overlap in *. lia.
      * apply (Hl i j); congruence.
    + intros Hall. split.
      * intros s' [j Hj]%list_elem_of_lookup He.
        apply (Hall 0%nat (S j) x s'); done.
      * intros i j s s' Hij Hi Hj. apply (Hall (S i) (S j)); [congruence|done..].
Qed.

Lemma total_insert {X} (w : X → Z) (l : list X) (i : nat) (x y : X) :
  l !! i = Some x → total w (<[i := y]> l) = total w l - w x + w y.
Proof.
  revert i. induction l as [|z l IH]; intros i Hi; [by rewrite lookup_nil in Hi|].
  destruct i as [|i]; simpl in *.
  - injection Hi as ->. lia.
  - rewrite (IH i Hi). lia.
Qed.

Lemma parseInt10_pretty (e : Z) : 0 ≤ e → RunScheduler.parseInt10 (pretty e) = Some e.
Proof.
  intros He. destruct (Number_pretty e He) as [Hn _].
  assert (pretty e ≠ EmptyString) as Hne.
  { intros Hempty. rewrite Hempty in Hn. injection Hn as <-. done. }
  destruct (pretty e) as [|c s] eqn:Hp; [done|].
  destruct (Number_go_all_digits _ _ _ c "" s Hn eq_refl) as [d Hd].
  pose proof (digit_code c d Hd) as Hc.
  unfold RunScheduler.parseInt10. cbn [ParseOutput.trimStart].
  assert (ParseOutput.isWhiteSpace c = false) as ->.
  { unfold ParseOutput.isWhiteSpace. rewrite !orb_false_iff, !bool_decide_eq_false. lia. }
  rewrite !decide_False by lia.
  assert (ParseOutput.digits digit 10 (String c s) None = Some e) as ->.
  { unfold Number in Hn. simpl in *. rewrite Hd in *. simpl. by apply Number_go_digits. }
  simpl. f_equal. lia.
Qed.

Lemma RunScheduler_requiredShifts_spec day :
  RunScheduler_keyed day →
  ∃ required, RunScheduler.requiredShifts day = Some required
              ∧ ∀ hour skill, (hour, skill) ∈ required → RunScheduler_required day hour skill.
Proof.
  intros Hkeyed. unfold RunScheduler.requiredShifts, RunScheduler_keyed, RunScheduler_required in *.
  induction (RunScheduler.Day.requiredSlots day) as [|[key count] slots IH].
  - exists []. split; [done|]. intros hour skill Hin. by apply elem_of_nil in Hin.
  - apply Forall_cons in Hkeyed as [(hour & skill & Hkey & Hhour & Hskill) Hkeyed].
    destruct (IH Hkeyed) as (required & Hreq & Hspec). simpl in Hkey. subst key.
    cbn [mapM]. rewrite splitKey_groupKey by done. simpl.
    rewrite parseInt10_pretty by done. simpl.
    destruct (mapM _ slots) as [rest|] eqn:Hmap; [|done]. simpl in *.
    injection Hreq as <-. eexists. split; [done|]. intros h sk Hin.
    rewrite Array_sort_Permutation in Hin. apply elem_of_app in Hin as [Hin|Hin].
    + apply elem_of_replicate in Hin as [[= -> ->] Hcount].
      exists count. split; [left|lia].
    + destruct (Hspec h sk) as (c & Hc & Hpos); [by rewrite Array_sort_Permutation|].
      exists c. split; [by right|done].
Qed.

Lemma RunScheduler_isAlreadyScheduled_spec shifts employee hour :
  RunScheduler.isAlreadyScheduled shifts employee hour = true
  ↔ ∃ s, s ∈ shifts ∧ RunScheduler.Shift.employee_id s = RunScheduler.Employee.id employee
         ∧ activeAt hour s.
Proof.
  unfold RunScheduler.isAlreadyScheduled. rewrite existsb_exists. split.
  - intros (s & Hs%list_elem_of_In & Hc). exists s. split; [done|].
    rewrite !andb_true_iff, !bool_decide_eq_true in Hc. unfold activeAt. simpl. lia.
  - intros (s & Hs%list_elem_of_In & He & Hact). exists s. split; [done|].
    rewrite !andb_true_iff, !bool_decide_eq_true. unfold activeAt in Hact. simpl in Hact. lia.
Qed.

Lemma RunScheduler_bestEmployee_spec data dayId employeeHours shifts hour skill best :
  RunScheduler.bestEmployee data dayId employeeHours shifts hour skill = Some best →
  best ∈ RunScheduler.employees data
  ∧ RunScheduler.eligible dayId employeeHours shifts hour skill best = true.
Proof.
  unfold RunScheduler.bestEmployee.
  cut (∀ acc : option RunScheduler.Employee.t,
         (∀ b, acc = Some b →
               b ∈ RunScheduler.employees data
               ∧ RunScheduler.eligible dayId employeeHours shifts hour skill b = true) →
         fold_left (λ best employee,
                      if RunScheduler.eligible dayId employeeHours shifts hour skill employee
                      then match best with
                           | Some b => if decide (RunScheduler.Employee.salaryPerHour employee
                                                   < RunScheduler.Employee.salaryPerHour b)
                                       then Some employee else best
                           | None => Some employee
                           end
                      else best) (RunScheduler.employees data) acc = Some best →
         best ∈ RunScheduler.employees data
         ∧ RunScheduler.eligible dayId employeeHours shifts hour skill best = true).
  { intros Hgen. apply Hgen. intros b Hb. discriminate Hb. }
  assert (∀ e, e ∈ RunScheduler.employees data → e ∈ RunScheduler.employees data) as Hsub
    by done.
  revert Hsub. generalize (RunScheduler.employees data) at 1 4. intros l.
  induction l as [|e l IH]; intros Hsub acc Hacc; simpl.
  - intros Hbest. by apply Hacc.
  - apply IH; [intros x Hx; apply Hsub; by right|].
    intros b. destruct (RunScheduler.eligible _ _ _ _ _ e) eqn:Hel; [|apply Hacc].
    destruct acc as [b0|].
    + destruct (decide _); [|apply Hacc]. intros [= <-]. split; [apply Hsub; left|done].
    + intros [= <-]. split; [apply Hsub; left|done].
Qed.

Lemma workedHours_snoc {A} `{ShiftLike A} (e : Z) (shifts : list A) (s : A) :
  workedHours e (shifts ++ [s])
  = workedHours e shifts + (if decide (employeeOf s = e) then endOf s - startOf s else 0).
Proof.
  unfold workedHours. rewrite total_app. simpl. unfold ratedHours.
  destruct (decide _); lia.
Qed.

Lemma workedHours_insert {A} `{ShiftLike A} (e : Z) (shifts : list A) (i : nat) (s s' : A) :
  shifts !! i = Some s → employeeOf s' = employeeOf s →
  workedHours e (<[i := s']> shifts)
  = workedHours e shifts
    + (if decide (employeeOf s = e) then (endOf s' - startOf s') - (endOf s - startOf s) else 0).
Proof.
  intros Hi He. unfold workedHours. rewrite (total_insert _ _ _ s) by done.
  unfold ratedHours. rewrite He. destruct (decide _); lia.
Qed.

Lemma RunScheduler_assign_spec data day dayId hours0 shifts hours hour skill :
  NoDup (RunScheduler.Employee.id <$> RunScheduler.employees data) →
  RunScheduler_required day hour skill →
  RunScheduler_inv data day dayId hours0 (shifts, hours) →
  ∃ acc', RunScheduler.assign data dayId (shifts, hours) (hour, skill) = Some acc'
          ∧ RunScheduler_inv data day dayId hours0 acc'.
Proof.
  intros Hnd Hreq Hinv. unfold RunScheduler.assign.
  destruct (RunScheduler.bestEmployee _ _ _ _ _ _) as [best|] eqn:Hbest; [|by eexists].
  apply RunScheduler_bestEmployee_spec in Hbest as [Hbest Hel].
  destruct Hinv as (Hno & Hlt & Hplaced & Hhours). simpl in *.
  destruct (Hhours best Hbest) as (h0 & Hh0 & Hnow & Hcap).
  rewrite Hnow. simpl.
  unfold RunScheduler.eligible in Hel. rewrite Hnow in Hel.
  rewrite !andb_true_iff, !negb_true_iff, !bool_decide_eq_false, bool_decide_eq_true in Hel.
  destruct Hel as [[[Hskill Hvac] Hroom] Hfree].
  assert (∀ s, s ∈ shifts →
               RunScheduler.Shift.employee_id s = RunScheduler.Employee.id best →
               ¬ activeAt hour s) as Hidle.
  { intros s Hs He Hact.
    assert (RunScheduler.isAlreadyScheduled shifts best hour = true) as Habs; [|congruence].
    apply RunScheduler_isAlreadyScheduled_spec. by exists s. }
  assert (∀ emp, emp ∈ RunScheduler.employees data →
                 RunScheduler.Employee.id emp = RunScheduler.Employee.id best → emp = best)
    as Hsame.
  { intros emp Hemp Hid.
    apply list_elem_of_lookup in Hemp as [i Hi]. apply list_elem_of_lookup in Hbest as [j Hj].
    assert (i = j) as ->; [|congruence].
    apply (NoDup_lookup _ i j (RunScheduler.Employee.id best) Hnd);
      rewrite list_lookup_fmap; [rewrite Hi|rewrite Hj]; simpl; congruence. }
  set (new := default _ _).
  cut (NoOverlap new
       ∧ Forall (λ s, RunScheduler.Shift.start s < RunScheduler.Shift.end_ s) new
       ∧ (∀ s, s ∈ new →
            (∃ emp, emp ∈ RunScheduler.employees data
                    ∧ RunScheduler.Employee.id emp = RunScheduler.Shift.employee_id s
                    ∧ RunScheduler_qualified dayId (RunScheduler.Shift.skill s) emp)
            ∧ ∀ h, activeAt h s → RunScheduler_required day h (RunScheduler.Shift.skill s))
       ∧ ∀ e, workedHours e new
              = workedHours e shifts
                + (if decide (RunScheduler.Employee.id best = e) then 1 else 0)).
  { intros (Hno' & Hlt' & Hplaced' & Hworked). eexists. split; [done|].
    split; [done|]. split; [done|]. split; [done|]. simpl.
    intros emp Hemp. destruct (Hhours emp Hemp) as (e0 & He0 & Hnow' & Hcap').
    exists e0. split; [done|]. rewrite Hworked.
    destruct (decide (RunScheduler.Employee.id best = RunScheduler.Employee.id emp)) as [Heq|Hne].
    - rewrite <-Heq, lookup_insert_eq. rewrite <-Heq in He0, Hnow', Hcap'.
      assert (e0 = h0) as -> by congruence.
      rewrite (Hsame emp Hemp (eq_sym Heq)). split; [f_equal; lia|lia].
    - rewrite lookup_insert_ne by done. rewrite Z.add_0_r. done. }
  unfold new. clear new.
  destruct (RunScheduler.extendLast _ _ shifts) as [merged|] eqn:Hext; simpl.
  - apply extendLast_Some in Hext as (i & s & Hi & HP & ->).
    rewrite !andb_true_iff, !bool_decide_eq_true in HP. destruct HP as [[He Hend] Hsk].
    set (s' := RunScheduler.Shift.mk _ _ _ _).
    pose proof (proj1 (Forall_forall _ _) Hlt s (list_elem_of_lookup_2 _ _ _ Hi)) as Hs_lt.
    simpl in Hs_lt.
    split_and!.
    + apply NoOverlap_lookup. intros a b x y Hab Ha Hb Hxy.
      pose proof (proj1 (NoOverlap_lookup shifts) Hno) as Hold.
      apply list_lookup_insert_Some in Ha as [(<- & <- & _)|[Hai Ha]];
        apply list_lookup_insert_Some in Hb as [(<- & <- & _)|[Hbi Hb]]; try done.
      * intros Hov. simpl in Hxy.
        pose proof (Hold i b s y Hab Hi Hb Hxy) as Hnov.
        apply (Hidle y (list_elem_of_lookup_2 _ _ _ Hb)); [congruence|].
        pose proof (proj1 (Forall_forall _ _) Hlt y (list_elem_of_lookup_2 _ _ _ Hb)).
        unfold overlap, activeAt in *. subst s'. simpl in *. lia.
      * intros Hov. simpl in Hxy.
        pose proof (Hold a i x s Hab Ha Hi Hxy) as Hnov.
        apply (Hidle x (list_elem_of_lookup_2 _ _ _ Ha)); [congruence|].
        pose proof (proj1 (Forall_forall _ _) Hlt x (list_elem_of_lookup_2 _ _ _ Ha)).
        unfold overlap, activeAt in *. subst s'. simpl in *. lia.
      * by apply (Hold a b).
    + apply Forall_insert; [done|]. subst s'. simpl. lia.
    + intros x [j Hj]%list_elem_of_lookup.
      apply list_lookup_insert_Some in Hj as [(-> & <- & _)|[_ Hj]].
      * destruct (Hplaced s (list_elem_of_lookup_2 _ _ _ Hi)) as [Hemp Hact].
        split; [exact Hemp|]. intros h Hh. unfold activeAt in Hh. subst s'. simpl in Hh |- *.
        destruct (decide (h = hour)) as [->|Hne]; [by rewrite Hsk|].
        apply Hact. unfold activeAt. simpl. lia.
      * apply Hplaced. by eapply list_elem_of_lookup_2.
    + intros e. rewrite (workedHours_insert e shifts i s s' Hi) by done.
      simpl. rewrite He. destruct (decide _); lia.
  - split_and!.
    + apply NoOverlap_snoc. split; [done|]. apply Forall_forall. intros s Hs He Hov.
      apply (Hidle s Hs); [done|].
      pose proof (proj1 (Forall_forall _ _) Hlt s Hs).
      unfold overlap, activeAt in *. simpl in *. lia.
    + apply Forall_app. split; [done|]. constructor; [simpl; lia|constructor].
    + intros s [Hs|Heq%list_elem_of_singleton]%elem_of_app; [by apply Hplaced|]. subst s.
      split; [by exists best|]. intros h Hh. unfold activeAt in Hh. simpl in *.
      by assert (h = hour) as -> by lia.
    + intros e. rewrite workedHours_snoc. simpl. destruct (decide _); lia.
Qed.

Lemma RunScheduler_dailyShifts_spec data day dayId hours0 :
  NoDup (RunScheduler.Employee.id <$> RunScheduler.employees data) →
  RunScheduler_keyed day →
  (∀ emp, emp ∈ RunScheduler.employees data →
          is_Some (hours0 !! RunScheduler.Employee.id emp)) →
  ∃ acc, RunScheduler.dailyShifts data day dayId hours0 = Some acc
         ∧ RunScheduler_inv data day dayId hours0 acc.
Proof.
  intros Hnd Hkeyed Hdom. unfold RunScheduler.dailyShifts.
  destruct (RunScheduler_requiredShifts_spec day Hkeyed) as (required & -> & Hreq). simpl.
  apply (foldM_total (RunScheduler_inv data day dayId hours0)).
  - intros [shifts hours] [hour skill] Hin Hinv.
    apply RunScheduler_assign_spec; [done| |done]. by apply Hreq.
  - split; [done|]. split; [constructor|]. split.
    + intros s Hs. by apply elem_of_nil in Hs.
    + intros emp Hemp. destruct (Hdom emp Hemp) as [h0 Hh0]. exists h0. simpl.
      unfold workedHours. simpl. rewrite Z.add_0_r. split; [done|]. split; [done|lia].
Qed.

(** X18.  The greedy assignment of [runScheduler] (second script of
    bah3.js) on an open day, for employees with distinct ids who each have
    an hours counter, and slot keys with hours that are not negative and
    skills without a hyphen.  It returns.  No two shifts of one employee
    overlap, although shifts are extended in place; the shifts cover an
    (employee, hour, skill) slot only when the slot is required and the
    employee has the skill and is not on vacation.  The counter of every
    employee grows by the hours the employee works that day, and never
    beyond [maxHoursPerWeek] unless it was beyond before. *)
Theorem runScheduler_day (data : RunScheduler.Data) (day : RunScheduler.Day.t) (dayId : Z)
    (hours0 : gmap Z Z) :
  NoDup (RunScheduler.Employee.id <$> RunScheduler.employees data) →
  RunScheduler_keyed day →
  (∀ emp, emp ∈ RunScheduler.employees data →
          is_Some (hours0 !! RunScheduler.Employee.id emp)) →
  ∃ shifts hours,
    RunScheduler.dailyShifts data day dayId hours0 = Some (shifts, hours)
    ∧ NoOverlap shifts
    ∧ (∀ e h skill, covers shifts e h skill →
         RunScheduler_required day h skill
         ∧ ∃ emp, emp ∈ RunScheduler.employees data ∧ RunScheduler.Employee.id emp = e
                  ∧ RunScheduler_qualified dayId skill emp)
    ∧ ∀ emp, emp ∈ RunScheduler.employees data →
        ∃ h0, hours0 !! RunScheduler.Employee.id emp = Some h0
              ∧ hours !! RunScheduler.Employee.id emp
                = Some (h0 + workedHours (RunScheduler.Employee.id emp) shifts)
              ∧ h0 + workedHours (RunScheduler.Employee.id emp) shifts
                ≤ Z.max h0 (RunScheduler.Employee.maxHoursPerWeek emp).
Proof.
  intros Hnd Hkeyed Hdom.
  destruct (RunScheduler_dailyShifts_spec data day dayId hours0 Hnd Hkeyed Hdom)
    as ([shifts hours] & Hs & Hno & _ & Hplaced & Hhours).
  exists shifts, hours. split; [done|]. split; [done|]. split; [|done].
  intros e h skill (s & Hs' & He & Hact & Hsk). simpl in *.
  destruct (Hplaced s Hs') as [(emp & Hemp & Hid & Hq) Hreq]. subst skill. split.
  - by apply Hreq.
  - exists emp. split; [done|]. split; [congruence|done].
Qed.

Lemma runScheduler_day_witness :
  let data := RunScheduler.mkData ∅
                [RunScheduler.Employee.mk 1 1 10 {["Register"]} ∅;
                 RunScheduler.Employee.mk 2 40 12 {["Register"]} ∅] in
  let day := RunScheduler.Day.mk 1 true 8 10 [("8-Register", 1); ("9-Register", 1)] in
  ∃ shifts hours,
    RunScheduler.dailyShifts data day 1 {[1 := 0; 2 := 0]} = Some (shifts, hours)
    ∧ NoOverlap shifts.
Proof.
  intros data day.
  destruct (runScheduler_day data day 1 {[1 := 0; 2 := 0]})
    as (shifts & hours & Hs & Hno & _).
  - simpl. apply NoDup_cons. split; [|apply NoDup_singleton].
    intros Hin%list_elem_of_singleton. discriminate Hin.
  - constructor; [|constructor; [|constructor]].
    + exists 8, "Register". split; [reflexivity|]. split; [lia|].
      simpl. repeat split; intros Heq; discriminate Heq.
    + exists 9, "Register". split; [reflexivity|]. split; [lia|].
      simpl. repeat split; intros Heq; discriminate Heq.
  - intros emp [->|[->|Hemp%elem_of_nil]%elem_of_cons]%elem_of_cons; [by eexists..|done].
  - exists shifts, hours. split; [exact Hs|exact Hno].
Defined.

Lemma workedHours_nonneg {A} `{ShiftLike A} (e : Z) (shifts : list A) :
  Forall (λ s, startOf s < endOf s) shifts → 0 ≤ workedHours e shifts.
Proof.
  unfold workedHours. induction 1 as [|s l Hs Hl IH]; simpl; [done|].
  unfold ratedHours at 1. destruct (decide _); lia.
Qed.

Lemma RunScheduler_scheduleDay_spec data lines hours dayId :
  NoDup (RunScheduler.Employee.id <$> RunScheduler.employees data) →
  (∀ day, RunScheduler.days data !! dayId = Some day → RunScheduler_keyed day) →
  is_Some (RunScheduler.days data !! dayId) →
  RunScheduler_capped data hours →
  ∃ line hours', RunScheduler.scheduleDay data (lines, hours) dayId = Some (lines ++ [line], hours')
                 ∧ RunScheduler_capped data hours'.
Proof.
  intros Hnd Hkeyed [day Hday] Hcap. unfold RunScheduler.scheduleDay. rewrite Hday. simpl.
  assert (RunScheduler_capped data (RunScheduler.weeklyReset dayId hours)) as Hcap0.
  { unfold RunScheduler.weeklyReset. destruct (decide _); [|done].
    intros emp Hemp. destruct (Hcap emp Hemp) as (h & Hh & _). exists 0.
    rewrite lookup_fmap, Hh. split; [done|lia]. }
  destruct (RunScheduler.Day.open day); simpl; [|by eexists _, _].
  destruct (RunScheduler_dailyShifts_spec data day dayId (RunScheduler.weeklyReset dayId hours))
    as ([shifts hours'] & -> & _ & Hlt & _ & Hhours); [done|by apply Hkeyed| |].
  { intros emp Hemp. destruct (Hcap0 emp Hemp) as (h & Hh & _). by eexists. }
  simpl. eexists _, _. split; [done|]. intros emp Hemp.
  destruct (Hhours emp Hemp) as (h0 & Hh0 & Hnow & Hle).
  destruct (Hcap0 emp Hemp) as (h & Hh & Hrange). simpl in *.
  assert (h = h0) as -> by congruence.
  eexists. split; [done|].
  pose proof (workedHours_nonneg (RunScheduler.Employee.id emp) shifts Hlt). lia.
Qed.

(** X19.  [runScheduler] (second script of bah3.js), for employees with
    distinct ids and days whose slot keys have hours that are not negative
    and skills without a hyphen, returns one output line per day, and at
    its end the hours counter of every employee lies between 0 and
    [maxHoursPerWeek] (0 when that is negative).  The counters are set to
    0 on every day whose id is a multiple of 7 and grow by the hours
    worked: so nobody is given more than [maxHoursPerWeek] hours between
    two resets. *)
Theorem runScheduler_runs (data : RunScheduler.Data) :
  NoDup (RunScheduler.Employee.id <$> RunScheduler.employees data) →
  (∀ dayId day, RunScheduler.days data !! dayId = Some day → RunScheduler_keyed day) →
  ∃ lines hours,
    RunScheduler.runScheduler data = Some (lines, hours)
    ∧ length lines = size (RunScheduler.days data)
    ∧ RunScheduler_capped data hours.
Proof.
  intros Hnd Hkeyed. unfold RunScheduler.runScheduler.
  set (hours0 := fold_left _ _ ∅).
  assert (RunScheduler_capped data hours0) as Hcap0.
  { unfold hours0, RunScheduler_capped. clear Hnd hours0. generalize (∅ : gmap Z Z).
    induction (RunScheduler.employees data) as [|e l IH] using rev_ind; intros m emp Hemp.
    - by apply elem_of_nil in Hemp.
    - rewrite fold_left_app. simpl.
      destruct (decide (RunScheduler.Employee.id e = RunScheduler.Employee.id emp))
        as [->|Hne].
      + exists 0. rewrite lookup_insert_eq. split; [done|lia].
      + rewrite lookup_insert_ne by done. apply IH.
        apply elem_of_app in Hemp as [?|Hemp]; [done|].
        apply list_elem_of_singleton in Hemp. congruence. }
  assert (length (RunScheduler.sortedDayIds data) = size (RunScheduler.days data)) as <-.
  { unfold RunScheduler.sortedDayIds.
    rewrite (Permutation_length (Array_sort_Permutation _ _)).
    by rewrite <-size_dom. }
  assert (∀ dayId, dayId ∈ RunScheduler.sortedDayIds data →
                   is_Some (RunScheduler.days data !! dayId)) as Hids.
  { intros dayId Hin. unfold RunScheduler.sortedDayIds in Hin.
    rewrite Array_sort_Permutation in Hin. by apply elem_of_elements, elem_of_dom in Hin. }
  revert Hids. generalize (RunScheduler.sortedDayIds data). intros ids Hids.
  cut (∀ lines hours, RunScheduler_capped data hours →
         ∃ new hours', foldM (RunScheduler.scheduleDay data) (lines, hours) ids
                       = Some (lines ++ new, hours')
                       ∧ length new = length ids ∧ RunScheduler_capped data hours').
  { intros Hgen. destruct (Hgen [] hours0 Hcap0) as (new & hours' & Hfold & Hlen & Hcap').
    by exists new, hours'. }
  induction ids as [|dayId ids IH]; intros lines hours Hcap.
  - exists [], hours. by rewrite app_nil_r.
  - cbn [foldM].
    destruct (RunScheduler_scheduleDay_spec data lines hours dayId Hnd (Hkeyed dayId))
      as (line & hours1 & -> & Hcap1); [apply Hids; left|done|].
    destruct (IH ltac:(intros d Hd; apply Hids; by right) (lines ++ [line]) hours1 Hcap1)
      as (new & hours' & -> & Hlen & Hcap').
    exists (line :: new), hours'. rewrite <-app_assoc. simpl. split; [done|]. split; [lia|done].
Qed.

Lemma runScheduler_runs_witness :
  let data :=
    RunScheduler.mkData
      {[1 := RunScheduler.Day.mk 1 true 8 10 [("8-Register", 1); ("9-Register", 1)]]}
      [RunScheduler.Employee.mk 1 1 10 {["Register"]} ∅;
       RunScheduler.Employee.mk 2 40 12 {["Register"]} ∅] in
  ∃ lines hours, RunScheduler.runScheduler data = Some (lines, hours)
                 ∧ length lines = 1%nat.
Proof.
  intros data.
  destruct (runScheduler_runs data) as (lines & hours & Hs & Hlen & _).
  - simpl. apply NoDup_cons. split; [|apply NoDup_singleton].
    intros Hin%list_elem_of_singleton. discriminate Hin.
  - intros dayId day Hday. unfold data in Hday. simpl in Hday.
    apply lookup_singleton_Some in Hday as [_ <-].
    constructor; [|constructor; [|constructor]].
    + exists 8, "Register". split; [reflexivity|]. split; [lia|].
      simpl. repeat split; intros Heq; discriminate Heq.
    + exists 9, "Register". split; [reflexivity|]. split; [lia|].
      simpl. repeat split; intros Heq; discriminate Heq.
  - exists lines, hours. split; [exact Hs|]. rewrite Hlen. reflexivity.
Defined.

(** ** bah.js: the while loop of createSchedule *)
Lemma fold_left_inv {A B} (P : A → Prop) (f : A → B → A) (l : list B) (a : A) :
  P a → (∀ a x, x ∈ l → P a → P (f a x)) → P (fold_left f l a).
Proof.
  revert a. induction l as [|x l IH]; intros a Ha Hstep; simpl; [done|].
  apply IH; [apply Hstep; [left|done]|].
  intros a' y Hy. apply Hstep. by right.
Qed.

Lemma Bah_slots_spec day h skill :
  (h, skill) ∈ Bah.slots day
  ↔ Bah.Day.start day ≤ h < Bah.Day.end_ day ∧ skill ∈ Bah.Day.requiredSkills day.
Proof.
  unfold Bah.slots. rewrite list_elem_of_bind. split.
  - intros (h' & Hin & Hh). apply list_elem_of_fmap in Hin as (k & [= -> ->] & Hk).
    unfold hours in Hh. apply elem_of_seqZ in Hh. split; [lia|done].
  - intros [Hh Hk]. exists h. split; [apply list_elem_of_fmap; by exists skill|].
    unfold hours. apply elem_of_seqZ. lia.
Qed.

Lemma Bah_currentCoverage (n : nat) (c := ((if decide (0 < n)%nat then 1 # 2 else 0)
                                           + (if decide (2 ≤ n)%nat then 1 # 2 else 0))%Q) :
  (c < 1 → c == 0 ∨ c == 1 # 2)%Q ∧ (1 <= c → 2 ≤ n)%Q%nat.
Proof.
  subst c. destruct (decide (0 < n)%nat), (decide (2 ≤ n)%nat); split; intros Hc;
    try lia; try (left; reflexivity); try (right; reflexivity); try lra.
Qed.

(** The slot chosen in a pass: none (hour [-1]), or a slot of the day
    whose coverage is 0 or 0.5. *)
Lemma Bah_leastCoveredSlot_spec day g (least := Bah.leastCoveredSlot day g) :
  least = Bah.mkSlot (-1) None 1
  ∨ ∃ skill, Bah.slotSkill least = Some skill ∧ (Bah.hour least, skill) ∈ Bah.slots day
             ∧ (Bah.slotCoverage least == 0 ∨ Bah.slotCoverage least == 1 # 2)%Q.
Proof.
  subst least. unfold Bah.leastCoveredSlot.
  apply (fold_left_inv
           (λ least, least = Bah.mkSlot (-1) None 1
                     ∨ ∃ skill, Bah.slotSkill least = Some skill
                                ∧ (Bah.hour least, skill) ∈ Bah.slots day
                                ∧ (Bah.slotCoverage least == 0
                                   ∨ Bah.slotCoverage least == 1 # 2)%Q)); [by left|].
  intros least [h skill] Hin Hleast.
  destruct (Bah.coverage g !! (h, skill)) as [[[] ids]|]; try done.
  cbv zeta. destruct (Qle_bool _ _) eqn:Hle; simpl; [done|].
  right. exists skill. split; [done|]. split; [done|].
  apply (Bah_currentCoverage (size ids)).
  assert (¬ (Bah.slotCoverage least <= (if decide (0 < size ids)%nat then 1 # 2 else 0)
                                       + (if decide (2 ≤ size ids)%nat then 1 # 2 else 0))%Q)
    as Hlt by (rewrite <-Qle_bool_iff; congruence).
  destruct Hleast as [->|(_ & _ & _ & [Hc|Hc])]; simpl in *; lra.
Qed.

(** With hours from 0 on, no slot is chosen only if every cell that is
    not marked fully covered holds two employees. *)
Lemma Bah_leastCoveredSlot_none day g :
  0 ≤ Bah.Day.start day →
  Bah.hour (Bah.leastCoveredSlot day g) = -1 →
  ∀ slot ids, slot ∈ Bah.slots day → Bah.coverage g !! slot = Some (false, ids) →
              (2 ≤ size ids)%nat.
Proof.
  intros Hstart. unfold Bah.leastCoveredSlot.
  match goal with |- context [fold_left ?f _ _] => set (step := f) end.
  assert (∀ l least0,
            (∀ h skill, (h, skill) ∈ l → h ≠ -1) →
            Bah.hour (fold_left step l least0) = -1 →
            Bah.hour least0 = -1
            ∧ ∀ slot ids, slot ∈ l → Bah.coverage g !! slot = Some (false, ids) →
                Qle_bool (Bah.slotCoverage least0)
                  ((if decide (0 < size ids)%nat then 1 # 2 else 0)
                   + (if decide (2 ≤ size ids)%nat then 1 # 2 else 0)) = true) as Hgen.
  { induction l as [|[h skill] l IH]; intros least0 Hl Hend.
    { split; [done|]. by intros ? ? ?%elem_of_nil. }
    change (Bah.hour (fold_left step l (step least0 (h, skill))) = -1) in Hend.
    apply IH in Hend as [Hhour Hrest]; [|intros h' k' Hin; apply (Hl h' k'); by right].
    assert (h ≠ -1) as Hh by (apply (Hl h skill); left).
    assert (step least0 (h, skill) = least0
            ∧ ∀ ids, Bah.coverage g !! (h, skill) = Some (false, ids) →
                Qle_bool (Bah.slotCoverage least0)
                  ((if decide (0 < size ids)%nat then 1 # 2 else 0)
                   + (if decide (2 ≤ size ids)%nat then 1 # 2 else 0)) = true) as [Heq Hcell].
    { unfold step in Hhour |- *.
      destruct (Bah.coverage g !! (h, skill)) as [[[] ids]|]; try done.
      cbv zeta in Hhour |- *. destruct (Qle_bool _ _) eqn:Hle; simpl in Hhour |- *; [|done].
      split; [done|]. by intros ? [= <-]. }
    rewrite Heq in Hhour. split; [done|].
    intros slot ids [->|Hin]%elem_of_cons Hcov; [by apply Hcell|].
    specialize (Hrest slot ids Hin Hcov). by rewrite Heq in Hrest. }
  intros Hend slot ids Hin Hcov.
  destruct (Hgen (Bah.slots day) (Bah.mkSlot (-1) None 1)) as [_ Hall]; [|done|].
  { intros h skill [Hh _]%Bah_slots_spec. lia. }
  specialize (Hall slot ids Hin Hcov). simpl in Hall.
  apply Qle_bool_iff in Hall. by apply (Bah_currentCoverage (size ids)).
Qed.

(** The employee chosen for the slot is an employee of the input who is
    not on vacation and not scheduled in that hour; the score is the
    value of that employee on the slot. *)
Lemma Bah_bestShift_spec day employees g least :
  Bah.bestShift day employees g least = (None, None)
  ∨ ∃ emp isTrained,
      Bah.bestShift day employees g least
      = (Some (emp, isTrained), Some (Bah.coverageValue least isTrained))
      ∧ emp ∈ employees
      ∧ (Bah.Day.id day ∉ Bah.Employee.vacationDays emp)
      ∧ Bah.isEmployeeScheduledAtHour (Bah.scheduledHours g) (Bah.Employee.id emp)
          (Bah.hour least) = false.
Proof.
  unfold Bah.bestShift.
  apply (fold_left_inv
           (λ best, best = (None, None)
                    ∨ ∃ emp isTrained,
                        best = (Some (emp, isTrained),
                                Some (Bah.coverageValue least isTrained))
                        ∧ emp ∈ employees
                        ∧ (Bah.Day.id day ∉ Bah.Employee.vacationDays emp)
                        ∧ Bah.isEmployeeScheduledAtHour (Bah.scheduledHours g)
                            (Bah.Employee.id emp) (Bah.hour least) = false)); [by left|].
  intros best emp Hin Hbest.
  destruct (bool_decide _) eqn:Hvac; [done|]. apply bool_decide_eq_false in Hvac.
  destruct (Bah.isEmployeeScheduledAtHour _ _ _) eqn:Hsched; [done|].
  cbv zeta. destruct best.2; [destruct (negb _); [|done]|]; right; by eexists _, _.
Qed.

(** No employee is chosen only if none can take the hour. *)
Lemma Bah_bestShift_none day employees g least :
  (Bah.bestShift day employees g least).1 = None →
  ∀ emp, emp ∈ employees →
    Bah.Day.id day ∈ Bah.Employee.vacationDays emp
    ∨ Bah.isEmployeeScheduledAtHour (Bah.scheduledHours g) (Bah.Employee.id emp)
        (Bah.hour least) = true.
Proof.
  unfold Bah.bestShift.
  match goal with |- context [fold_left ?f _ _] => set (step := f) end.
  assert (∀ l (best : option (Bah.Employee.t * bool) * option Q),
            (best.1 = None → best.2 = None) →
            (fold_left step l best).1 = None →
            ∀ emp, emp ∈ l →
              Bah.Day.id day ∈ Bah.Employee.vacationDays emp
              ∨ Bah.isEmployeeScheduledAtHour (Bah.scheduledHours g) (Bah.Employee.id emp)
                  (Bah.hour least) = true) as Hgen.
  { induction l as [|x l IH]; intros best Hbest Hend emp Hin; [by apply elem_of_nil in Hin|].
    change ((fold_left step l (step best x)).1 = None) in Hend.
    assert ((step best x).1 = None → (step best x).2 = None) as Hnext.
    { unfold step. destruct (bool_decide _); [done|].
      destruct (Bah.isEmployeeScheduledAtHour _ _ _); [done|].
      cbv zeta. destruct best as [chosen [score|]]; simpl in *; [|done].
      destruct (negb _); [done|]. intros Hnone. by specialize (Hbest Hnone). }
    apply elem_of_cons in Hin as [->|Hin]; [|by apply (IH (step best x))].
    assert ((step best x).1 = None) as Hx.
    { destruct (step best x).1 as [chosen|] eqn:Hsome; [|done]. exfalso.
      clear -Hsome Hend.
      assert (∀ l0 (best0 : option (Bah.Employee.t * bool) * option Q),
                is_Some best0.1 → is_Some (fold_left step l0 best0).1) as Hkeep.
      { induction l0 as [|y l0 IH]; intros best0 Hbest0; [done|].
        change (is_Some (fold_left step l0 (step best0 y)).1). apply IH.
        unfold step. destruct (bool_decide _); [done|].
        destruct (Bah.isEmployeeScheduledAtHour _ _ _); [done|].
        cbv zeta. destruct best0.2; [destruct (negb _); [|done]|]; done. }
      destruct (Hkeep l (step best x)) as [? Heq]; [by rewrite Hsome|]. congruence. }
    revert Hx. unfold step.
    destruct (bool_decide _) eqn:Hvac; [intros _; left; by apply bool_decide_eq_true in Hvac|].
    destruct (Bah.isEmployeeScheduledAtHour _ _ _) eqn:Hsched; [by right|].
    cbv zeta. destruct best.2 eqn:Hscore; [|done].
    destruct (negb _); [done|]. intros Hnone. specialize (Hbest Hnone). congruence. }
  intros Hend emp Hin. by apply (Hgen employees (None, None)).
Qed.

Lemma Bah_singleHour_overlap (s1 s2 : Bah.Shift.t) :
  singleHour s1 → singleHour s2 → overlap s1 s2 → Bah.Shift.start s1 = Bah.Shift.start s2.
Proof. unfold singleHour, overlap. simpl. lia. Qed.

(** Booking the chosen employee on the chosen slot keeps what holds at
    the head of the loop, and adds one shift. *)
Lemma Bah_book_spec day employees g least emp isTrained skill :
  Bah_inv day employees g →
  Bah.slotSkill least = Some skill →
  (Bah.hour least, skill) ∈ Bah.slots day →
  emp ∈ employees →
  Bah.Day.id day ∉ Bah.Employee.vacationDays emp →
  Bah.isEmployeeScheduledAtHour (Bah.scheduledHours g) (Bah.Employee.id emp) (Bah.hour least)
  = false →
  ∃ g', Bah.book day g least emp isTrained = Bah.Again g'
        ∧ Bah_inv day employees g' ∧ Bah.attempts g' = 0
        ∧ length (Bah.shifts g') = S (length (Bah.shifts g)).
Proof.
  intros (Hbooked & Hno & Hdup & Hsched & Hcells) Hskill Hslot Hemp Hvac Hfree.
  destruct (Hcells _ Hslot) as (full & ids & Hcell & Hids & Hsize & Hfull).
  unfold Bah.book. rewrite Hskill, Hcell. cbv zeta. eexists. split; [reflexivity|].
  set (new := Bah.Shift.mk (Bah.Employee.id emp) (Bah.hour least) (Bah.hour least + 1)
                skill (Bah.Day.id day)).
  assert (∀ s, s ∈ Bah.shifts g → Bah.Shift.employeeId s = Bah.Employee.id emp →
               Bah.Shift.start s ≠ Bah.hour least) as Hfresh.
  { intros s Hs He Hh.
    assert (Bah.isEmployeeScheduledAtHour (Bah.scheduledHours g) (Bah.Employee.id emp)
              (Bah.hour least) = true) as Htrue by (apply Hsched; by exists s).
    congruence. }
  assert (∀ e h k, covers (Bah.shifts g ++ [new]) e h k
                   ↔ covers (Bah.shifts g) e h k
                     ∨ (e = Bah.Employee.id emp ∧ h = Bah.hour least ∧ k = skill)) as Hcovers.
  { intros e h k. unfold covers. split.
    - intros (s & [Hs|Hs%list_elem_of_singleton]%elem_of_app & He & Hact & Hk).
      + left. by exists s.
      + subst s. right. unfold activeAt in Hact. simpl in *. split_and!; [done|lia|done].
    - intros [(s & Hs & H)|(-> & -> & ->)].
      + exists s. split; [apply elem_of_app; by left|done].
      + exists new. split; [apply elem_of_app; right; by left|].
        unfold worksOn, activeAt. simpl. split_and!; [done|lia..|done]. }
  unfold Bah_inv. cbn [Bah.shifts Bah.scheduledHours Bah.coverage Bah.attempts].
  split; [|split; [done|by rewrite length_app, Nat.add_1_r]].
  fold new. split_and!.
  - apply Forall_app. split; [done|]. apply Forall_singleton.
    apply Bah_slots_spec in Hslot as [Hh Hk].
    unfold Bah_booked, singleHour, new. simpl.
    split; [done|]. split; [done|]. split; [lia|]. split; [done|]. by exists emp.
  - apply NoOverlap_snoc. split; [done|]. apply Forall_forall. intros s Hs He Hov.
    apply (Hfresh s Hs He). symmetry. apply (Bah_singleHour_overlap new s); [done| |done].
    by destruct (proj1 (Forall_forall _ _) Hbooked s Hs) as (Hsingle & _).
  - rewrite fmap_app. apply NoDup_app. split; [done|]. split; [|apply NoDup_singleton].
    intros pair (s & -> & Hs)%list_elem_of_fmap [= He Hh]%list_elem_of_singleton.
    by apply (Hfresh s Hs).
  - intros e h. unfold Bah.isEmployeeScheduledAtHour.
    destruct (decide (e = Bah.Employee.id emp)) as [->|Hne].
    + rewrite lookup_insert_eq, bool_decide_eq_true, elem_of_union, elem_of_singleton.
      specialize (Hsched (Bah.Employee.id emp) h).
      unfold Bah.isEmployeeScheduledAtHour in Hsched. split.
      * intros [Hold| ->].
        -- destruct (Bah.scheduledHours g !! Bah.Employee.id emp) as [hs|]; simpl in Hold;
             [|set_solver].
           destruct (proj1 Hsched) as (s & Hs & H); [by apply bool_decide_eq_true|].
           exists s. split; [apply elem_of_app; by left|done].
        -- exists new. split; [apply elem_of_app; right; by left|done].
      * intros (s & [Hs|Hs%list_elem_of_singleton]%elem_of_app & He & Hh);
          [|subst s; by right].
        left. pose proof (proj2 Hsched (ex_intro _ s (conj Hs (conj He Hh)))) as Htrue.
        destruct (Bah.scheduledHours g !! Bah.Employee.id emp) as [hs|]; [|done].
        simpl. by apply bool_decide_eq_true in Htrue.
    + rewrite lookup_insert_ne by done. rewrite (Hsched e h). split.
      * intros (s & Hs & H). exists s. split; [apply elem_of_app; by left|done].
      * intros (s & [Hs|Hs%list_elem_of_singleton]%elem_of_app & He & Hh); [by exists s|].
        subst s. simpl in He. congruence.
  - intros [h k] Hin. unfold Bah_cell. simpl.
    destruct (decide ((Bah.hour least, skill) = (h, k))) as [[= <- <-]|Hne].
    + rewrite lookup_insert_eq. eexists _, _. split; [reflexivity|]. split_and!.
      * intros e. rewrite Hcovers, elem_of_union, elem_of_singleton, (Hids e). simpl.
        split; [intros [?| ->]; [by left|by right]|intros [?|(-> & _)]; [by left|by right]].
      * destruct isTrained; simpl; [done|].
        destruct (bool_decide _) eqn:Hsz; [done|]. apply bool_decide_eq_false in Hsz.
        intros _. lia.
      * intros _. exists (Bah.Employee.id emp). apply elem_of_union. right.
        by apply elem_of_singleton.
    + rewrite lookup_insert_ne by done.
      destruct (Hcells _ Hin) as (full' & ids' & Hcell' & Hids' & Hsize' & Hfull').
      exists full', ids'. split_and!; try done.
      intros e. rewrite Hcovers, (Hids' e). simpl. split; [by left|].
      intros [?|(_ & -> & ->)]; [done|by destruct Hne].
Qed.

(** One pass of the loop: it breaks in an exit state, or books a shift;
    it never throws. *)
Lemma Bah_pass_spec day employees g :
  0 ≤ Bah.Day.start day →
  Bah_inv day employees g →
  match Bah.pass day employees g with
  | Bah.Break => Bah_exit day employees (Bah.shifts g)
  | Bah.Thrown => False
  | Bah.Again g' =>
      Bah_inv day employees g' ∧ Bah.attempts g' = 0
      ∧ length (Bah.shifts g') = S (length (Bah.shifts g))
  end.
Proof.
  intros Hstart Hinv. unfold Bah.pass. cbv zeta.
  destruct (decide (Bah.hour (Bah.leastCoveredSlot day g) = -1)) as [Hnone|Hsome].
  { left. intros h skill Hin.
    destruct Hinv as (_ & _ & _ & _ & Hcells).
    destruct (Hcells _ Hin) as (full & ids & Hcell & Hids & Hsize & Hfull).
    destruct full.
    - destruct Hfull as [e He]; [done|]. exists e. by apply (Hids e).
    - pose proof (Bah_leastCoveredSlot_none day g Hstart Hnone _ _ Hin Hcell).
      specialize (Hsize eq_refl). lia. }
  destruct (Bah_leastCoveredSlot_spec day g) as [Heq|(skill & Hskill & Hslot & Hcov)].
  { by rewrite Heq in Hsome. }
  destruct (Bah_bestShift_spec day employees g (Bah.leastCoveredSlot day g))
    as [Hbest|(emp & isTrained & Hbest & Hemp & Hvac & Hfree)].
  - rewrite Hbest. right. exists (Bah.hour (Bah.leastCoveredSlot day g)), skill.
    split; [done|]. intros emp Hemp.
    destruct (Bah_bestShift_none day employees g (Bah.leastCoveredSlot day g)
                ltac:(by rewrite Hbest) emp Hemp) as [Hvac|Hsched]; [by left|right].
    destruct Hinv as (_ & _ & _ & Hiff & _). by apply Hiff.
  - rewrite Hbest.
    assert (Qle_bool (Bah.coverageValue (Bah.leastCoveredSlot day g) isTrained) 0 = false)
      as ->.
    { apply not_true_is_false. rewrite Qle_bool_iff. unfold Bah.coverageValue.
      destruct isTrained; [destruct Hcov; lra|].
      destruct (Qeq_bool _ (1 # 2)) eqn:Hhalf; [lra|].
      destruct (Qeq_bool _ 0) eqn:Hzero; [lra|].
      destruct Hcov as [Hc|Hc]; apply Qeq_bool_iff in Hc; congruence. }
    simpl.
    destruct (Bah_book_spec day employees g _ emp isTrained skill Hinv Hskill Hslot Hemp
                Hvac Hfree) as (g' & -> & Hg').
    exact Hg'.
Qed.

(** The shifts of a state of the loop are at most one per employee of
    the input and hour of the day. *)
Lemma Bah_inv_length day employees g :
  Bah_inv day employees g →
  (length (Bah.shifts g)
   ≤ length employees * length (hours (Bah.Day.start day) (Bah.Day.end_ day)))%nat.
Proof.
  intros (Hbooked & _ & Hdup & _).
  rewrite <-(length_fmap (λ s, (Bah.Shift.employeeId s, Bah.Shift.start s))).
  rewrite <-(length_fmap Bah.Employee.id employees).
  rewrite <-(length_fmap (λ p : Z * Z, p) _).
  rewrite <-length_prod. rewrite list_fmap_id.
  apply submseteq_length, NoDup_submseteq; [done|].
  intros [e h] (s & [= -> ->] & Hs)%list_elem_of_fmap.
  destruct (proj1 (Forall_forall _ _) Hbooked s Hs) as (_ & _ & Hh & _ & emp & Hemp & Hid & _).
  apply list_elem_of_In, in_prod_iff. rewrite <-!list_elem_of_In. split.
  - apply list_elem_of_fmap. by exists emp.
  - unfold hours. apply elem_of_seqZ. lia.
Qed.

Lemma Bah_initialGreedy_inv day employees : Bah_inv day employees (Bah.initialGreedy day).
Proof.
  unfold Bah_inv, Bah.initialGreedy. simpl. split_and!; try done.
  - constructor.
  - intros e h. unfold Bah.isEmployeeScheduledAtHour. rewrite lookup_empty.
    split; [done|]. by intros (s & ?%elem_of_nil & _).
  - intros slot Hin. unfold Bah_cell. simpl. exists false, ∅.
    split_and!;
      [|intros e; split; [by intros ?%elem_of_empty|by intros (s & ?%elem_of_nil & _)]
       |intros _; rewrite size_empty; lia|done].
    revert Hin. generalize (Bah.slots day).
      cut (∀ (l : list (Z * string)) (m : gmap (Z * string) (bool * gset Z)),
             slot ∈ l ∨ m !! slot = Some (false, ∅) →
             fold_left (λ m slot, <[slot := (false, ∅)]> m) l m !! slot = Some (false, ∅)).
      { intros Hgen l Hin. apply Hgen. by left. }
      induction l as [|x l IH]; intros m Hm; simpl.
      * destruct Hm as [?%elem_of_nil|?]; done.
      * apply IH. destruct (decide (x = slot)) as [->|Hne].
        -- right. by rewrite lookup_insert_eq.
        -- destruct Hm as [[?|?]%elem_of_cons|?]; [congruence|by left|right].
           by rewrite lookup_insert_ne.
Qed.

(** From a state at the head of the loop with [attempts = 0], the loop
    ends by a break, within as many passes as there are pairs of an
    employee and an hour left, plus one. *)
Lemma Bah_while_spec day employees (k : nat) : ∀ g,
  0 ≤ Bah.Day.start day →
  Bah_inv day employees g → Bah.attempts g = 0 →
  (length employees * length (hours (Bah.Day.start day) (Bah.Day.end_ day))
   ≤ k + length (Bah.shifts g))%nat →
  ∃ g', (∀ fuel, (k < fuel)%nat → Bah.while fuel day employees g = Bah.Done g')
        ∧ Bah.attempts g' = 1
        ∧ Bah_inv day employees g'
        ∧ Bah_exit day employees (Bah.shifts g').
Proof.
  induction k as [|k IH]; intros g Hstart Hinv Hatt Hk.
  - set (g1 := Bah.mkGreedy (Bah.shifts g) (Bah.scheduledHours g) (Bah.coverage g)
                 (Bah.attempts g + 1)).
    pose proof (Bah_pass_spec day employees g1 Hstart Hinv) as Hpass.
    destruct (Bah.pass day employees g1) as [| |g'] eqn:Hp; [|done|].
    + exists g1. split_and!; [|simpl; lia|done|done].
      intros [|fuel] Hfuel; [lia|]. simpl. fold g1. rewrite Hp.
      destruct (decide _) as [|Hge]; [done|]. unfold Bah.MAX_SCHEDULE_ATTEMPTS in Hge. lia.
    + destruct Hpass as (Hinv' & _ & Hlen).
      pose proof (Bah_inv_length day employees g' Hinv'). simpl in Hlen. lia.
  - set (g1 := Bah.mkGreedy (Bah.shifts g) (Bah.scheduledHours g) (Bah.coverage g)
                 (Bah.attempts g + 1)).
    pose proof (Bah_pass_spec day employees g1 Hstart Hinv) as Hpass.
    destruct (Bah.pass day employees g1) as [| |g'] eqn:Hp; [|done|].
    + exists g1. split_and!; [|simpl; lia|done|done].
      intros [|fuel] Hfuel; [lia|]. simpl. fold g1. rewrite Hp.
      destruct (decide _) as [|Hge]; [done|]. unfold Bah.MAX_SCHEDULE_ATTEMPTS in Hge. lia.
    + destruct Hpass as (Hinv' & Hatt' & Hlen). simpl in Hlen.
      destruct (IH g' Hstart Hinv' Hatt') as (g'' & Hrun & Hg''); [lia|].
      exists g''. split; [|done].
      intros [|fuel] Hfuel; [lia|]. simpl. fold g1. rewrite Hp.
      destruct (decide _) as [|Hge]; [apply Hrun; lia|].
      unfold Bah.MAX_SCHEDULE_ATTEMPTS in Hge. lia.
Qed.

(** X20. createSchedule of bah.js, the while loop of an open day whose
    hours start at 0 or later.  Run from the initial variables of the
    day, the loop is left by one of its two [break]s ([attempts] is 1 at
    the exit, so the limit of 50000 attempts is never what ends it)
    after at most one pass per pair of an employee and an hour of the
    day, plus one, and no pass throws.  The shifts pushed are one-hour
    shifts of the day, inside the opening window, on a required skill,
    for an employee of the input who is not on vacation; no two shifts
    of an employee overlap.  When the loop is left, every slot of the
    day has a worker, or there is a slot in an hour that no employee
    can take (each is on vacation or already holds a shift starting at
    that hour), whatever is free in other hours.  [mergeShifts] then
    covers exactly the (employee, hour, skill) slots these shifts
    cover. *)
Theorem createSchedule_day_ends (localeCompare : string → string → Z) (day : Bah.Day.t)
    (employees : list Bah.Employee.t) :
  0 ≤ Bah.Day.start day →
  ∃ g, (∀ fuel,
          (length employees * length (hours (Bah.Day.start day) (Bah.Day.end_ day)) < fuel)%nat →
          Bah.while fuel day employees (Bah.initialGreedy day) = Bah.Done g)
       ∧ Bah.attempts g = 1
       ∧ Forall (Bah_booked day employees) (Bah.shifts g)
       ∧ NoOverlap (Bah.shifts g)
       ∧ Bah_exit day employees (Bah.shifts g)
       ∧ ∀ e h sk, covers (Bah.mergeShifts localeCompare (Bah.shifts g)) e h sk
                   ↔ covers (Bah.shifts g) e h sk.
Proof.
  intros Hstart.
  destruct (Bah_while_spec day employees
              (length employees * length (hours (Bah.Day.start day) (Bah.Day.end_ day)))
              (Bah.initialGreedy day) Hstart (Bah_initialGreedy_inv day employees) eq_refl)
    as (g & Hrun & Hatt & (Hbooked & Hno & _) & Hexit); [simpl; lia|].
  exists g. split_and!; try done.
  intros e h sk. apply Bah_mergeShifts_spec.
  eapply Forall_impl; [exact Hbooked|]. intros s (Hsingle & _).
  unfold singleHour in Hsingle. simpl in Hsingle. lia.
Qed.

Lemma createSchedule_day_ends_witness :
  let day := Bah.Day.mk 1 true 8 10 1000 ["Register"; "Stock"] in
  let employees := [Bah.Employee.mk 1 40 10 0 0 {["Register"]} ∅] in
  0 ≤ Bah.Day.start day
  ∧ ∃ g, (∀ fuel,
            (length employees * length (hours (Bah.Day.start day) (Bah.Day.end_ day)) < fuel)%nat →
            Bah.while fuel day employees (Bah.initialGreedy day) = Bah.Done g)
         ∧ Bah.attempts g = 1
         ∧ Forall (Bah_booked day employees) (Bah.shifts g)
         ∧ NoOverlap (Bah.shifts g)
         ∧ Bah_exit day employees (Bah.shifts g)
         ∧ ∀ e h sk, covers (Bah.mergeShifts (λ a b, if decide (a = b) then 0 else 1)
                               (Bah.shifts g)) e h sk
                     ↔ covers (Bah.shifts g) e h sk.
Proof.
  intros day employees. split; [simpl; lia|].
  apply (createSchedule_day_ends (λ a b, if decide (a = b) then 0 else 1) day employees).
  simpl. lia.
Defined.

(** ** The accounts of an hour of [Solver.calculateScore] *)

Lemma Set_of_NoDup (l : list Z) : NoDup (Set_of l).
Proof.
  unfold Set_of.
  cut (∀ acc, NoDup acc →
         NoDup (fold_left (λ acc x, if decide (x ∈ acc) then acc else acc ++ [x]) l acc)).
  { intros Hgen. apply Hgen. constructor. }
  induction l as [|x l IH]; intros acc Hacc; simpl; [done|].
  apply IH. case_decide as Hin; [done|].
  apply NoDup_app. split_and!; [done| |apply NoDup_singleton].
  intros y Hy Hy'%list_elem_of_singleton. by subst.
Qed.

(** The capacity loop of an hour adds, for every required skill, the
    coverage of the skill. *)
Lemma capacityStep_sum this requiredSkills shifts h sim :
  Solver_wf this sim → Solver_staffed this shifts → NoOverlap shifts →
  Solver.capacityStep requiredSkills (filter (λ s, Solver.isActive h s) shifts) sim
  = Some (Solver.mkSim (Solver.simEmployees sim) (Solver.employeeStates sim)
            (Solver.newSkillsLearned sim) (Solver.dailyPayroll sim)
            (Qsum (Solver_cover (Solver.simEmployees sim) shifts h) requiredSkills
                  (Solver.achievedSkillHours sim))).
Proof.
  intros [Hwf _] Hst Hno. unfold Solver.capacityStep, Qsum.
  unfold Solver_staffed in Hst. rewrite Forall_forall in Hst.
  generalize (Solver.achievedSkillHours sim) as a.
  induction requiredSkills as [|skill l IH]; intros a; [done|]. cbn [foldM fold_left].
  rewrite (Solver_skillCoverage_spec (Solver.simEmployees sim) shifts h skill); [|by intros s Hs; apply Hwf, Hst|done].
  apply IH.
Qed.

Lemma Solver_counter_addHour states e state d1 d2 e' :
  states !! e = Some state →
  Solver_counter (<[e := Solver.EmployeeState.addHour state d1]> states) d2 e'
  = Solver_counter states d2 e'
    + (if decide (e' = e ∧ Solver.EmployeeState.getWeekIndex d2
                           = Solver.EmployeeState.getWeekIndex d1) then 1 else 0).
Proof.
  intros Hstate. unfold Solver_counter.
  destruct (decide (e' = e)) as [->|Hne].
  - rewrite lookup_insert_eq, Hstate.
    unfold Solver.EmployeeState.getHoursThisWeek, Solver.EmployeeState.addHour. simpl.
    destruct (decide (Solver.EmployeeState.getWeekIndex d2
                      = Solver.EmployeeState.getWeekIndex d1)) as [Hw|Hw].
    + rewrite decide_True by done. rewrite Hw. by rewrite lookup_insert_eq.
    + rewrite decide_False by tauto. rewrite lookup_insert_ne by done. lia.
  - rewrite lookup_insert_ne by done. rewrite decide_False by tauto. lia.
Qed.

(** The payroll loop of an hour bills every active employee one hour at
    the weekly counter the employee has before the hour, and the counter
    of the block of the day grows by one. *)
Lemma payrollStep_bill this dayId (ids : list Z) sim :
  NoDup ids →
  (∀ e, e ∈ ids → is_Some (Solver.employees_get this e)
                  ∧ is_Some (Solver.employeeStates sim !! e)) →
  ∃ sim', Solver.payrollStep this dayId ids sim = Some sim'
    ∧ Solver.dailyPayroll sim'
      = Solver.dailyPayroll sim
        + total (λ e, Solver_bill this e (Solver_counter (Solver.employeeStates sim) dayId e))
                ids
    ∧ ∀ e d, Solver_counter (Solver.employeeStates sim') d e
             = Solver_counter (Solver.employeeStates sim) d e
               + (if decide (e ∈ ids ∧ Solver.EmployeeState.getWeekIndex d
                                       = Solver.EmployeeState.getWeekIndex dayId)
                  then 1 else 0).
Proof.
  unfold Solver.payrollStep. revert sim.
  induction ids as [|e ids IH]; intros sim Hnd Hids.
  - exists sim. split; [done|]. split; [simpl; lia|]. intros e d.
    rewrite decide_False; [lia|]. intros [?%elem_of_nil _]. done.
  - apply NoDup_cons in Hnd as [Hfresh Hnd].
    destruct (Hids e) as [[employee Hemp] [state Hstate]]; [by left|].
    destruct (Solver_payEmployee_spec this dayId sim e employee state Hemp Hstate)
      as (sim1 & Hpay & Hbill & Hstates & _).
    destruct (IH sim1 Hnd) as (sim' & Hfold & Hsum & Hcnt).
    { intros e' He'. destruct (Hids e') as [? [st Hst]]; [by right|]. split; [done|].
      rewrite Hstates. destruct (decide (e' = e)) as [->|Hne].
      - rewrite lookup_insert_eq. by eexists.
      - rewrite lookup_insert_ne by done. by eexists. }
    exists sim'. cbn [foldM]. rewrite Hpay. split; [done|]. split.
    + rewrite Hsum, Hbill, total_cons. unfold Solver_bill at 2. rewrite Hemp.
      unfold Solver_counter at 2. rewrite Hstate.
      rewrite (total_ext _ (λ e0, Solver_bill this e0
                                   (Solver_counter (Solver.employeeStates sim) dayId e0))).
      * lia.
      * intros e' He'. f_equal. rewrite Hstates, (Solver_counter_addHour _ _ state) by done.
        rewrite decide_False; [lia|]. intros [-> _]. done.
    + intros e' d. rewrite Hcnt, Hstates, (Solver_counter_addHour _ _ state) by done.
      destruct (decide (e' = e)) as [->|Hne].
      * rewrite (decide_False (P := e ∈ ids ∧ _)) by (by intros [? _]).
        destruct (decide (Solver.EmployeeState.getWeekIndex d
                          = Solver.EmployeeState.getWeekIndex dayId)) as [Hw|Hw].
        -- rewrite !decide_True; [lia| |done]. split; [by left|done].
        -- rewrite !decide_False by (by intros [_ ?]). lia.
      * rewrite (decide_False (P := e' = e ∧ _)) by tauto.
        destruct (decide (e' ∈ ids ∧ Solver.EmployeeState.getWeekIndex d
                                     = Solver.EmployeeState.getWeekIndex dayId)) as [[Hi Hw]|Hn].
        -- rewrite decide_True; [lia|]. split; [by right|done].
        -- rewrite decide_False; [lia|]. intros [[?|?]%elem_of_cons ?]; [done|tauto].
Qed.

Lemma teach_counter this T sim ls sim' :
  Solver.teach this T sim ls = Some sim' →
  Solver.dailyPayroll sim' = Solver.dailyPayroll sim
  ∧ ∀ d e, Solver_counter (Solver.employeeStates sim') d e
           = Solver_counter (Solver.employeeStates sim) d e.
Proof.
  unfold Solver.teach.
  destruct (Solver.employees_get this (Solver.Shift.employeeId ls)) as [learner|]; [|done].
  destruct (Solver.employeeStates sim !! Solver.Shift.employeeId ls) as [st|] eqn:Hst; [|done].
  destruct (Solver.knows _ _ _) as [[|]|]; [by intros [= <-]| |done].
  intros [= <-]. simpl. split; [done|]. intros d e. unfold Solver_counter.
  destruct (decide (e = Solver.Shift.employeeId ls)) as [->|Hne].
  - by rewrite lookup_insert_eq, Hst.
  - by rewrite lookup_insert_ne.
Qed.

Lemma trainingStep_counter this active sim sim' :
  Solver.trainingStep this active sim = Some sim' →
  Solver.dailyPayroll sim' = Solver.dailyPayroll sim
  ∧ ∀ d e, Solver_counter (Solver.employeeStates sim') d e
           = Solver_counter (Solver.employeeStates sim) d e.
Proof.
  unfold Solver.trainingStep.
  destruct (foldM _ (∅, []) active) as [[T L]|]; [|done].
  apply (foldM_invariant
           (λ t, Solver.dailyPayroll t = Solver.dailyPayroll sim
                 ∧ ∀ d e, Solver_counter (Solver.employeeStates t) d e
                          = Solver_counter (Solver.employeeStates sim) d e)); [|done].
  intros t ls t' _ [Hp Hc] Hstep. apply teach_counter in Hstep as [Hp' Hc'].
  split; [congruence|]. intros d e. by rewrite Hc', Hc.
Qed.

(** One hour of the simulation on the shifts of a validated schedule:
    the coverage added for every required skill, the bill of every active
    employee, and the weekly counters. *)
Lemma simulateHour_accounts this day shifts sim h :
  Solver_wf this sim → Solver_staffed this shifts → NoOverlap shifts →
  ∃ sim0 sim1 ids,
    Solver.promote sim = Some sim0
    ∧ Solver.simulateHour this day shifts sim h = Some sim1
    ∧ NoDup ids
    ∧ (∀ e, e ∈ ids ↔ ∃ s, s ∈ shifts ∧ activeAt h s ∧ Solver.Shift.employeeId s = e)
    ∧ Solver.achievedSkillHours sim1
      = Qsum (Solver_cover (Solver.simEmployees sim0) shifts h) (Solver.Day.requiredSkills day)
             (Solver.achievedSkillHours sim)
    ∧ Solver.dailyPayroll sim1
      = Solver.dailyPayroll sim
        + total (λ e, Solver_bill this e
                        (Solver_counter (Solver.employeeStates sim) (Solver.Day.id day) e)) ids
    ∧ ∀ e d, Solver_counter (Solver.employeeStates sim1) d e
             = Solver_counter (Solver.employeeStates sim) d e
               + (if decide (e ∈ ids ∧ Solver.EmployeeState.getWeekIndex d
                                       = Solver.EmployeeState.getWeekIndex (Solver.Day.id day))
                  then 1 else 0).
Proof.
  intros Hwf Hstaffed Hno.
  destruct (simulateHour_spec this day shifts sim h Hwf Hstaffed Hno)
    as (sim0 & sim1 & Hprom & Hsim & _ & _ & _ & _ & simA & HcapA & Hach).
  destruct (promote_spec this sim Hwf) as (sim0' & Hprom' & Hwf0 & Hst0 & _ & Hp0 & Ha0 & _).
  assert (sim0' = sim0) as -> by congruence.
  set (active := filter (λ s, Solver.isActive h s) shifts) in *.
  set (ids := Set_of (Solver.Shift.employeeId <$> active)).
  exists sim0, sim1, ids. split; [done|]. split; [done|].
  split; [apply Set_of_NoDup|]. split.
  { intros e. unfold ids, active. rewrite elem_of_Set_of, list_elem_of_fmap. split.
    - intros (s & -> & [Ha Hs]%list_elem_of_filter). exists s. split; [done|]. split; [|done].
      apply Solver_isActive_activeAt. by apply Is_true_true.
    - intros (s & Hs & Ha & <-). exists s. split; [done|]. apply list_elem_of_filter.
      split; [|done]. apply Is_true_true. by apply Solver_isActive_activeAt. }
  pose proof (capacityStep_sum this (Solver.Day.requiredSkills day) shifts h sim0
                Hwf0 Hstaffed Hno) as Hcap.
  fold active in Hcap. rewrite Hcap in HcapA. injection HcapA as <-.
  split; [by rewrite Hach, Ha0|].
  unfold Solver.simulateHour in Hsim. rewrite Hprom in Hsim. fold active in Hsim.
  rewrite Hcap in Hsim. cbn beta iota in Hsim. fold ids in Hsim.
  set (simA := Solver.mkSim _ _ _ _ _) in *.
  pose proof Hstaffed as Hstaffed'. unfold Solver_staffed in Hstaffed'.
  rewrite Forall_forall in Hstaffed'.
  destruct (payrollStep_bill this (Solver.Day.id day) ids simA (Set_of_NoDup _))
    as (simB & Hpay & Hbill & Hcnt).
  { intros e He. unfold ids in He.
    apply elem_of_Set_of, list_elem_of_fmap in He as (s & -> & [_ Hs]%list_elem_of_filter).
    split; [by apply Hstaffed'|]. by apply Hwf0, Hstaffed'. }
  rewrite Hpay in Hsim. apply trainingStep_counter in Hsim as [Hp1 Hc1].
  split.
  - rewrite Hp1, Hbill. simpl. by rewrite Hp0, Hst0.
  - intros e d. rewrite Hc1, Hcnt. simpl. by rewrite Hst0.
Qed.

(** The capacity loop does not throw on shifts whose employees exist. *)
Lemma capacityStep_total requiredSkills (active : list Solver.Shift.t) sim :
  (∀ s, s ∈ active → is_Some (Solver.simEmployees sim !! Solver.Shift.employeeId s)) →
  ∃ achieved,
    Solver.capacityStep requiredSkills active sim
    = Some (Solver.mkSim (Solver.simEmployees sim) (Solver.employeeStates sim)
              (Solver.newSkillsLearned sim) (Solver.dailyPayroll sim) achieved).
Proof.
  intros Hknown. unfold Solver.capacityStep.
  destruct (foldM_total (λ _, True)
              (λ (achieved : Q) skill,
                 match Solver.skillCoverage (Solver.simEmployees sim) active skill with
                 | Some c => Some (achieved + c)%Q
                 | None => None
                 end) requiredSkills (Solver.achievedSkillHours sim))
    as (achieved & -> & _); [|done|by eexists].
  intros achieved skill _ _. unfold Solver.skillCoverage.
  case_decide; [by eexists|].
  rewrite (filterM_Some _ (λ s, Solver_trained (Solver.simEmployees sim) skill
                                  (Solver.Shift.employeeId s))).
  2: { intros s [_ Hs]%list_elem_of_filter. by apply Solver_knows_trained, Hknown. }
  rewrite (filterM_Some _ (λ s, negb (Solver_trained (Solver.simEmployees sim) skill
                                        (Solver.Shift.employeeId s)))).
  2: { intros s [_ Hs]%list_elem_of_filter.
       by rewrite Solver_knows_trained by (by apply Hknown). }
  by eexists.
Qed.

(** The training loop does not throw on shifts whose employees exist. *)
Lemma trainingStep_total this (active : list Solver.Shift.t) sim :
  (∀ s, s ∈ active →
     is_Some (Solver.employees_get this (Solver.Shift.employeeId s))
     ∧ is_Some (Solver.simEmployees sim !! Solver.Shift.employeeId s)
     ∧ is_Some (Solver.employeeStates sim !! Solver.Shift.employeeId s)) →
  is_Some (Solver.trainingStep this active sim).
Proof.
  intros Hok. unfold Solver.trainingStep.
  destruct (classify_fold this (Solver.simEmployees sim) active [] (∅, []))
    as ([T L] & Hcl & HL & _).
  { apply Forall_forall. intros s Hs. destruct (Hok s Hs) as (? & ? & _). done. }
  { split; [done|]. intros skill. left. split; [apply lookup_empty|done]. }
  rewrite Hcl. simpl in HL.
  destruct (foldM_total
              (λ t, Solver.simEmployees t = Solver.simEmployees sim
                    ∧ ∀ e, is_Some (Solver.employeeStates sim !! e)
                           → is_Some (Solver.employeeStates t !! e))
              (Solver.teach this T) L sim) as (sim' & -> & _); [|done|by eexists].
  intros t s Hs [Hk Hdom].
  assert (s ∈ active) as Hs'.
  { rewrite HL in Hs. unfold untrainedShifts in Hs.
    by apply list_elem_of_filter in Hs as [_ ?]. }
  destruct (Hok s Hs') as ([learner Hemp] & Hclone & Hstate).
  destruct (Hdom _ Hstate) as [st Hst].
  unfold Solver.teach. rewrite Hemp, Hst. rewrite (Solver_employees_get_id _ _ _ Hemp).
  rewrite Hk, (Solver_knows_trained _ _ _ Hclone).
  destruct (Solver_trained _ _ _); [by eexists|].
  eexists. split; [done|]. simpl. split; [done|]. intros e He.
  destruct (decide (e = Solver.Shift.employeeId s)) as [->|Hne].
  - rewrite lookup_insert_eq. by eexists.
  - rewrite lookup_insert_ne by done. by apply Hdom.
Qed.

(** The payroll of one hour of the simulation, on shifts whose employees
    exist: every employee active in the hour is billed once, at the
    weekly counter held before the hour, and that counter grows by one. *)
Lemma simulateHour_payroll this day shifts sim h :
  Solver_wf this sim → Solver_staffed this shifts →
  ∃ sim1 ids,
    Solver.simulateHour this day shifts sim h = Some sim1
    ∧ NoDup ids
    ∧ (∀ e, e ∈ ids ↔ ∃ s, s ∈ shifts ∧ activeAt h s ∧ Solver.Shift.employeeId s = e)
    ∧ Solver.dailyPayroll sim1
      = Solver.dailyPayroll sim
        + total (λ e, Solver_bill this e
                        (Solver_counter (Solver.employeeStates sim) (Solver.Day.id day) e)) ids
    ∧ ∀ e d, Solver_counter (Solver.employeeStates sim1) d e
             = Solver_counter (Solver.employeeStates sim) d e
               + (if decide (e ∈ ids ∧ Solver.EmployeeState.getWeekIndex d
                                       = Solver.EmployeeState.getWeekIndex (Solver.Day.id day))
                  then 1 else 0).
Proof.
  intros Hwf Hstaffed.
  destruct (promote_spec this sim Hwf) as (sim0 & Hprom & Hwf0 & Hst0 & _ & Hp0 & _ & _).
  unfold Solver.simulateHour. rewrite Hprom.
  set (active := filter (λ s, Solver.isActive h s) shifts).
  set (ids := Set_of (Solver.Shift.employeeId <$> active)).
  pose proof Hstaffed as Hstaffed'. unfold Solver_staffed in Hstaffed'.
  rewrite Forall_forall in Hstaffed'.
  assert (∀ s, s ∈ active → s ∈ shifts ∧ activeAt h s) as Hactive.
  { intros s Hs. unfold active in Hs. apply list_elem_of_filter in Hs as [Ha Hs].
    split; [done|]. apply Solver_isActive_activeAt. by apply Is_true_true. }
  destruct (capacityStep_total (Solver.Day.requiredSkills day) active sim0)
    as (achieved & Hcap).
  { intros s Hs. destruct (Hactive s Hs) as [Hs' _]. by apply Hwf0, Hstaffed'. }
  rewrite Hcap. cbn beta iota.
  set (simA := Solver.mkSim _ _ _ _ achieved).
  destruct (payrollStep_bill this (Solver.Day.id day) ids simA (Set_of_NoDup _))
    as (simB & Hpay & Hbill & Hcnt).
  { intros e He. unfold ids in He.
    apply elem_of_Set_of, list_elem_of_fmap in He as (s & -> & Hs).
    destruct (Hactive s Hs) as [Hs' _].
    split; [by apply Hstaffed'|]. by apply Hwf0, Hstaffed'. }
  rewrite Hpay.
  destruct (payrollStep_spec this (Solver.Day.id day) ids simA)
    as (simB' & Hpay' & Hk & _ & _ & _ & Hdom).
  { intros e He. unfold ids in He.
    apply elem_of_Set_of, list_elem_of_fmap in He as (s & -> & Hs).
    destruct (Hactive s Hs) as [Hs' _].
    split; [by apply Hstaffed'|]. by apply Hwf0, Hstaffed'. }
  assert (simB' = simB) as -> by congruence.
  destruct (trainingStep_total this active simB) as [sim1 Htrain].
  { intros s Hs. destruct (Hactive s Hs) as [Hs' _].
    pose proof (Hstaffed' s Hs') as Hemp. destruct Hwf0 as [Hwf0 _].
    destruct (Hwf0 _ Hemp) as [Hclone Hstate].
    split_and!; [done|by rewrite Hk|by apply Hdom]. }
  exists sim1, ids. split; [done|]. split; [apply Set_of_NoDup|]. split.
  { intros e. unfold ids, active. rewrite elem_of_Set_of, list_elem_of_fmap. split.
    - intros (s & -> & [Ha Hs]%list_elem_of_filter). exists s. split; [done|]. split; [|done].
      apply Solver_isActive_activeAt. by apply Is_true_true.
    - intros (s & Hs & Ha & <-). exists s. split; [done|]. apply list_elem_of_filter.
      split; [|done]. apply Is_true_true. by apply Solver_isActive_activeAt. }
  apply trainingStep_counter in Htrain as [Hp1 Hc1].
  split.
  - rewrite Hp1, Hbill. simpl. by rewrite Hp0, Hst0.
  - intros e d. rewrite Hc1, Hcnt. simpl. by rewrite Hst0.
Qed.

(** ** The accounts of a day of [RepValidator.validateAndScore] *)

Lemma billedHours_ext (bill1 bill2 : Z → Z → Z) (c1 c2 : Z → Z) (l : list Z) :
  (∀ e c, bill1 e c = bill2 e c) → (∀ e, c1 e = c2 e) →
  billedHours bill1 c1 l = billedHours bill2 c2 l.
Proof.
  intros Hbill. revert c1 c2. induction l as [|e l IH]; intros c1 c2 Hc; simpl; [done|].
  rewrite Hbill, (Hc e). f_equal. apply IH. intros e'. rewrite (Hc e'). done.
Qed.

Lemma billedHours_replicate (bill : Z → Z → Z) (c : Z → Z) (e : Z) (n : nat) (rest : list Z) :
  billedHours bill c (replicate n e ++ rest)
  = foldr (λ k acc, bill e k + acc) 0 (seqZ (c e) (Z.of_nat n))
    + billedHours bill (λ e', if decide (e' = e) then c e' + Z.of_nat n else c e') rest.
Proof.
  revert c. induction n as [|n IH]; intros c.
  - simpl. apply billedHours_ext; [done|]. intros e'. case_decide; lia.
  - rewrite Nat2Z.inj_succ, seqZ_cons by lia. cbn [replicate app billedHours foldr].
    rewrite IH. rewrite decide_True by done.
    replace (Z.pred (Z.succ (Z.of_nat n))) with (Z.of_nat n) by lia.
    replace (Z.succ (c e)) with (c e + 1) by lia.
    rewrite <-Z.add_assoc. f_equal. f_equal.
    apply billedHours_ext; [done|]. intros e'. repeat case_decide; lia.
Qed.

Lemma workedHours_cons (e : Z) (s : RepValidator.Shift.t) (l : list RepValidator.Shift.t) :
  workedHours e (s :: l)
  = (if decide (RepValidator.Shift.employeeId s = e) then RepValidator.Shift.duration s else 0)
    + workedHours e l.
Proof.
  unfold workedHours. rewrite total_cons. f_equal. unfold ratedHours. simpl.
  unfold RepValidator.Shift.duration. repeat case_decide; lia.
Qed.

(** The first loop of [calculateCapacity] bills the hours of the shifts
    in order, every hour at the counter the worker has before it. *)
Lemma scanDay_payroll this dayId day shifts :
  RepValidator_staffed this shifts →
  Forall (λ s, 0 ≤ RepValidator.Shift.duration s) shifts →
  ∃ sc, RepValidator.scanDay this dayId day shifts = Some sc
    ∧ RepValidator.payrollD sc
      = billedHours (RepValidator_bill this) (RepValidator_counter this) (workerHours shifts)
    ∧ ∀ e, RepValidator_counter (RepValidator.scanThis sc) e
           = RepValidator_counter this e + workedHours e shifts.
Proof.
  unfold RepValidator.scanDay.
  cut (∀ sc0,
         RepValidator_staffed (RepValidator.scanThis sc0) shifts →
         Forall (λ s, 0 ≤ RepValidator.Shift.duration s) shifts →
         ∃ sc, foldM (RepValidator.scanShift dayId day) sc0 shifts = Some sc
           ∧ RepValidator.payrollD sc
             = RepValidator.payrollD sc0
               + billedHours (RepValidator_bill (RepValidator.scanThis sc0))
                   (RepValidator_counter (RepValidator.scanThis sc0)) (workerHours shifts)
           ∧ ∀ e, RepValidator_counter (RepValidator.scanThis sc) e
                  = RepValidator_counter (RepValidator.scanThis sc0) e + workedHours e shifts).
  { intros Hgen Hst Hd. destruct (Hgen (RepValidator.mkScan this ∅ ∅ 0) Hst Hd)
      as (sc & Hfold & Hpay & Hcnt).
    exists sc. split; [done|]. split; [|done]. rewrite Hpay. simpl. lia. }
  induction shifts as [|s l IH]; intros sc0 Hst Hd.
  - exists sc0. split; [done|]. split; [simpl; lia|]. intros e. unfold workedHours. simpl. lia.
  - apply Forall_cons in Hst as [[emp Hemp] Hst]. apply Forall_cons in Hd as [Hds Hd].
    cbn [foldM]. rewrite (scanShift_known _ _ _ _ emp) by done.
    set (sc1 := RepValidator.mkScan _ _ _ _).
    assert (sameModel (RepValidator.scanThis sc0) (RepValidator.scanThis sc1)) as Hsame.
    { unfold sc1. simpl.
      eapply sameModel_trans; [apply (validityChecks_sameModel dayId day emp)|].
      by repeat split. }
    destruct (IH sc1) as (sc & Hfold & Hpay & Hcnt); [|done|].
    { unfold RepValidator_staffed in *. by destruct Hsame as (_ & _ & <- & _). }
    exists sc. split; [done|].
    assert (∀ e, RepValidator_counter (RepValidator.scanThis sc1) e
                 = if decide (e = RepValidator.Shift.employeeId s)
                   then RepValidator_counter (RepValidator.scanThis sc0) e
                        + Z.of_nat (Z.to_nat (RepValidator.Shift.duration s))
                   else RepValidator_counter (RepValidator.scanThis sc0) e) as Hc1.
    { intros e. unfold sc1, RepValidator_counter. simpl. case_decide as He.
      - subst e. rewrite lookup_insert_eq. simpl. lia.
      - by rewrite lookup_insert_ne. }
    split.
    + rewrite Hpay. unfold sc1 at 1. cbn [RepValidator.payrollD].
      unfold workerHours. rewrite bind_cons. fold (workerHours l).
      rewrite billedHours_replicate.
      rewrite (billedHours_ext (RepValidator_bill (RepValidator.scanThis sc1))
                 (RepValidator_bill (RepValidator.scanThis sc0))
                 (RepValidator_counter (RepValidator.scanThis sc1))
                 (λ e', if decide (e' = RepValidator.Shift.employeeId s)
                        then RepValidator_counter (RepValidator.scanThis sc0) e'
                             + Z.of_nat (Z.to_nat (RepValidator.Shift.duration s))
                        else RepValidator_counter (RepValidator.scanThis sc0) e')
                 (workerHours l)); [| |exact Hc1].
      2: { intros e c. unfold RepValidator_bill.
           destruct Hsame as (<- & _ & <- & _). done. }
      rewrite <-Z.add_assoc. f_equal. f_equal.
      unfold RepValidator_bill at 1. rewrite Hemp.
      rewrite hoursBill_closed_form. rewrite Z2Nat.id by done.
      unfold RepValidator.overtimeRate, RepValidator_counter. done.
    + intros e. rewrite Hcnt, Hc1, workedHours_cons. rewrite Z2Nat.id by done.
      repeat case_decide; subst; try done; lia.
Qed.

Lemma Qsum_app {A} (f : A → Q) (l1 l2 : list A) (a : Q) :
  Qsum f (l1 ++ l2) a = Qsum f l2 (Qsum f l1 a).
Proof. unfold Qsum. apply fold_left_app. Qed.

Lemma Qsum_ext {A} (f g : A → Q) (l : list A) (a : Q) :
  (∀ x, x ∈ l → f x = g x) → Qsum f l a = Qsum g l a.
Proof.
  revert a. induction l as [|x l IH]; intros a Hfg; [done|]. unfold Qsum. simpl.
  rewrite (Hfg x) by left. apply IH. intros y Hy. apply Hfg. by right.
Qed.

Lemma Qsum_fmap {A B} (g : A → B) (f : B → Q) (l : list A) (a : Q) :
  Qsum f (g <$> l) a = Qsum (f ∘ g) l a.
Proof. revert a. induction l as [|x l IH]; intros a; [done|]. unfold Qsum. simpl. apply IH. Qed.

(** The second loop of [calculateCapacity] adds the coverage of every
    cell of the day. *)
Lemma coverDay_sum this day shifts cm :
  RepValidator_staffed this shifts →
  ∃ T, RepValidator.coverDay this day shifts cm
       = Some (Qsum (λ cell, RepValidator.coverageAt cm cell.2 cell.1) (RepValidator_cells day) 0,
               T).
Proof.
  intros Hst. unfold RepValidator.coverDay, RepValidator_cells.
  generalize (hours (RepValidator.Day.start day) (RepValidator.Day.end_ day)) as hs.
  intros hs.
  cut (∀ skills acc, teachersOk this shifts cm acc.2 →
         ∃ T, foldM (λ acc skill, foldM (RepValidator.coverHour this shifts cm skill) acc hs)
                    acc skills
              = Some (Qsum (λ cell, RepValidator.coverageAt cm cell.2 cell.1)
                           (skills ≫= λ skill, (λ h, (skill, h)) <$> hs) acc.1, T)
              ∧ teachersOk this shifts cm T).
  { intros Hgen. destruct (Hgen (RepValidator.Day.requiredSkills day) (0%Q, ∅)) as (T & -> & _).
    - intros h skill v Hv. simpl in Hv. by rewrite lookup_empty in Hv.
    - by exists T. }
  assert (∀ skill l acc, teachersOk this shifts cm acc.2 →
            ∃ T, foldM (RepValidator.coverHour this shifts cm skill) acc l
                 = Some (Qsum (λ h, RepValidator.coverageAt cm h skill) l acc.1, T)
                 ∧ teachersOk this shifts cm T) as Hinner.
  { intros skill l. induction l as [|h l IH]; intros acc Hok.
    - exists acc.2. by destruct acc.
    - destruct (coverHour_spec this shifts cm skill acc h Hst Hok)
        as (acc' & Hstep & Hsum & Hok' & _).
      destruct (IH acc' Hok') as (T & Hfold & HT). exists T. cbn [foldM]. rewrite Hstep.
      split; [|done]. rewrite Hfold, Hsum. done. }
  induction skills as [|skill skills IH]; intros acc Hok.
  - exists acc.2. by destruct acc.
  - destruct (Hinner skill hs acc Hok) as (T1 & Hfold1 & HT1).
    destruct (IH (Qsum (λ h, RepValidator.coverageAt cm h skill) hs acc.1, T1) HT1)
      as (T & Hfold & HT).
    exists T. cbn [foldM]. rewrite Hfold1.
    split; [|done]. rewrite Hfold. rewrite bind_cons, Qsum_app, Qsum_fmap. done.
Qed.

Lemma filter_none {A} (P : A → Prop) `{∀ x, Decision (P x)} (l : list A) :
  (∀ x, x ∈ l → ¬ P x) → filter P l = [].
Proof.
  induction l as [|x l IH]; intros Hl; [done|]. rewrite filter_cons.
  rewrite decide_False by (apply Hl; by left). apply IH. intros y Hy. apply Hl. by right.
Qed.

(** The coverage the second loop reads off the map of the first, on
    shifts of a validated schedule that are on ordinary skills. *)
Lemma RepValidator_cover_spec this dayId day shifts sc h skill :
  RepValidator.scanDay this dayId day shifts = Some sc →
  RepValidator_staffed this shifts → NoOverlap shifts → ordinarySkills shifts →
  RepValidator.coverageAt (RepValidator.coverageMap sc) h skill
  = RepValidator_cover this shifts h skill.
Proof.
  intros Hscan Hst Hno Hord. destruct (inherited skill) eqn:Hinh.
  - unfold RepValidator.coverageAt, RepValidator.hourCoverage. rewrite Hinh. simpl.
    unfold RepValidator_cover, workers.
    assert (∀ status,
              filter (λ s : RepValidator.Shift.t,
                        worksOn h skill s
                        ∧ RepValidator.isTrained this (employeeOf s) skill = status) shifts
              = []) as Hnone.
    { intros status. apply filter_none. intros s Hs [[_ Hsk] _].
      unfold ordinarySkills in Hord. rewrite Forall_forall in Hord.
      specialize (Hord s Hs). simpl in Hsk. congruence. }
    rewrite !Hnone. done.
  - apply (RepValidator_coverage_spec this dayId day shifts sc h skill Hinh Hscan); [|done].
    unfold RepValidator_staffed in Hst. by rewrite Forall_forall in Hst.
Qed.

Lemma RepValidator_cover_sameModel a b shifts h skill :
  sameModel a b → RepValidator_cover b shifts h skill = RepValidator_cover a shifts h skill.
Proof.
  intros Hsame. unfold RepValidator_cover, workers.
  assert (∀ status,
            filter (λ s : RepValidator.Shift.t,
                      worksOn h skill s
                      ∧ RepValidator.isTrained b (employeeOf s) skill = status) shifts
            = filter (λ s : RepValidator.Shift.t,
                        worksOn h skill s
                        ∧ RepValidator.isTrained a (employeeOf s) skill = status) shifts)
    as Heq.
  { intros status. apply list_filter_iff. intros s.
    by rewrite (isTrained_sameModel a b). }
  by rewrite !Heq.
Qed.

Lemma RepValidator_capacity_sameModel a b day shifts :
  sameModel a b → RepValidator_capacity b day shifts = RepValidator_capacity a day shifts.
Proof.
  intros Hsame. unfold RepValidator_capacity. case_decide; [|done]. f_equal.
  apply Qsum_ext. intros cell _. by apply RepValidator_cover_sameModel.
Qed.

Lemma RepValidator_bill_sameModel a b e c :
  sameModel a b → RepValidator_bill b e c = RepValidator_bill a e c.
Proof. intros (Horg & _ & Hemps & _). unfold RepValidator_bill. by rewrite Horg, Hemps. Qed.

(** The capacity [calculateCapacity] returns for a day, on the shifts of
    a validated schedule that are on ordinary skills. *)
Lemma calculateCapacity_coverage this dayId day shifts :
  RepValidator.days this !! dayId = Some day →
  RepValidator_staffed this shifts → NoOverlap shifts → ordinarySkills shifts →
  ∃ metrics this',
    RepValidator.calculateCapacity this dayId shifts = Some (metrics, this')
    ∧ RepValidator.capacityD metrics = RepValidator_capacity this day shifts.
Proof.
  intros Hday Hst Hno Hord.
  destruct (calculateCapacity_spec this dayId day shifts Hday Hst)
    as (metrics & this' & sc & Hcap & Hscan & -> & _ & Hsame & _).
  exists metrics, (RepValidator.scanThis sc). split; [done|].
  unfold RepValidator.calculateCapacity in Hcap.
  rewrite Hday, Hscan in Hcap. cbn beta iota in Hcap.
  destruct (coverDay_sum (RepValidator.scanThis sc) day shifts (RepValidator.coverageMap sc))
    as (T & Hcover).
  { unfold RepValidator_staffed in *. by destruct Hsame as (_ & _ & <- & _). }
  rewrite Hcover in Hcap. injection Hcap as <-. simpl.
  unfold RepValidator_capacity. case_decide; [|done]. f_equal.
  apply Qsum_ext. intros cell _.
  by apply (RepValidator_cover_spec this dayId day shifts sc).
Qed.

(** [calculateCapacity] on the shifts of a day: the payroll, the weekly
    counters it leaves, the capacity and the teaching rates. *)
Lemma calculateCapacity_accounts this dayId day shifts :
  RepValidator.days this !! dayId = Some day →
  RepValidator_staffed this shifts →
  Forall (λ s, 0 ≤ RepValidator.Shift.duration s) shifts →
  ∃ metrics this',
    RepValidator.calculateCapacity this dayId shifts = Some (metrics, this')
    ∧ sameModel this this'
    ∧ RepValidator.metricsPayrollD metrics
      = billedHours (RepValidator_bill this) (RepValidator_counter this) (workerHours shifts)
    ∧ (∀ e, RepValidator_counter this' e = RepValidator_counter this e + workedHours e shifts)
    ∧ (NoOverlap shifts → ordinarySkills shifts →
       RepValidator.capacityD metrics = RepValidator_capacity this day shifts)
    ∧ ∀ skill h, skill ∈ RepValidator.Day.requiredSkills day →
                 RepValidator.Day.start day ≤ h < RepValidator.Day.end_ day →
                 inherited skill = false →
                 default 0 (RepValidator.hourlyTeachers metrics !! (h, skill))
                 = RepValidator_maxRate this shifts skill h.
Proof.
  intros Hday Hst Hd.
  destruct (calculateCapacity_spec this dayId day shifts Hday Hst)
    as (metrics & this' & sc & Hcap & Hscan & -> & Hpay & Hsame & _ & HT).
  destruct (scanDay_payroll this dayId day shifts Hst Hd) as (sc' & Hscan' & Hbill & Hcnt).
  assert (sc' = sc) as -> by congruence.
  exists metrics, (RepValidator.scanThis sc). split; [done|]. split; [done|].
  split; [by rewrite Hpay|]. split; [done|]. split; [|done].
  intros Hno Hord.
  destruct (calculateCapacity_coverage this dayId day shifts Hday Hst Hno Hord)
    as (metrics' & this' & Hcap' & Hcapac).
  rewrite Hcap in Hcap'. by injection Hcap' as <- _.
Qed.

Lemma sameTotals_trans a b c : sameTotals a b → sameTotals b c → sameTotals a c.
Proof. unfold sameTotals. intuition congruence. Qed.

Lemma validityChecks_sameTotals dayId day emp today shift this :
  sameTotals this (RepValidator.validityChecks dayId day emp today shift this).
Proof.
  unfold RepValidator.validityChecks.
  repeat case_decide; destruct (existsb _ today); by repeat split.
Qed.

Lemma scanDay_sameTotals this dayId day shifts sc :
  RepValidator.scanDay this dayId day shifts = Some sc →
  sameTotals this (RepValidator.scanThis sc).
Proof.
  unfold RepValidator.scanDay.
  apply (foldM_invariant (λ sc, sameTotals this (RepValidator.scanThis sc)));
    [|by repeat split].
  intros sc0 shift sc1 _ Htot.
  destruct (RepValidator.employees (RepValidator.scanThis sc0)
              !! RepValidator.Shift.employeeId shift) as [emp|] eqn:Hemp.
  - rewrite (scanShift_known _ _ _ _ emp) by done. intros [= <-]. simpl.
    eapply sameTotals_trans; [done|].
    eapply sameTotals_trans; [apply (validityChecks_sameTotals dayId day emp)|].
    by repeat split.
  - rewrite scanShift_unknown by done. intros [= <-].
    eapply sameTotals_trans; [done|]. by repeat split.
Qed.

Lemma calculateCapacity_sameTotals this dayId shifts metrics this' :
  RepValidator.calculateCapacity this dayId shifts = Some (metrics, this') →
  sameTotals this this'.
Proof.
  unfold RepValidator.calculateCapacity.
  destruct (RepValidator.days this !! dayId) as [day|]; [|done].
  destruct (RepValidator.scanDay this dayId day shifts) as [sc|] eqn:Hscan; [|done].
  destruct (RepValidator.coverDay _ day shifts _) as [[achieved T]|]; [|done].
  intros [= _ <-]. by eapply scanDay_sameTotals.
Qed.

Lemma updateTraining_sameTotals this dayId shifts T this' :
  RepValidator.updateTraining this dayId shifts T = Some this' → sameTotals this this'.
Proof.
  unfold RepValidator.updateTraining.
  destruct (RepValidator.empSkillHours shifts) as [cells|]; [simpl|done].
  apply (foldM_invariant (λ t, sameTotals this t)); [|by repeat split].
  intros t cell t' _ Ht Hstep. eapply sameTotals_trans; [done|]. revert Hstep.
  destruct cell as [[empId skill] [hoursWorked|]]; unfold RepValidator.trainCell;
    (destruct (RepValidator.isTrained t empId skill); [by intros [= <-]|]); [|done].
  simpl. destruct (foldM _ 0 hoursWorked) as [totalGain|]; [|done].
  by intros [= <-].
Qed.

Lemma weeklyReset_sameTotals this dayId : sameTotals this (RepValidator.weeklyReset this dayId).
Proof. unfold RepValidator.weeklyReset. case_decide; by repeat split. Qed.

Lemma weeklyReset_counter this dayId e :
  RepValidator_counter (RepValidator.weeklyReset this dayId) e
  = if decide (dayId `mod` 7 = 0) then 0 else RepValidator_counter this e.
Proof.
  unfold RepValidator.weeklyReset, RepValidator_counter.
  assert (Z.rem dayId 7 = 0 ↔ dayId `mod` 7 = 0) as Hrem.
  { rewrite Z.rem_divide, Z.mod_divide by done. done. }
  repeat case_decide; try tauto; try done.
Qed.

(** One open day of [validateAndScore], on shifts that name existing
    employees and ordinary skills: the capacity and the payroll of the
    day come from the skill points and the weekly counters the day starts
    with (the counters cleared before a day whose id is a multiple of 7);
    the training of the day is applied after them. *)
Lemma scoreDay_accounts this dayId day :
  RepValidator.days this !! dayId = Some day →
  RepValidator.Day.isClosed day = false →
  let shifts := default [] (RepValidator.schedule this !! dayId) in
  RepValidator_staffed this shifts → ordinarySkills shifts →
  Forall (λ s, 0 ≤ RepValidator.Shift.duration s) shifts →
  ∃ metrics this1 this',
    RepValidator.calculateCapacity (RepValidator.weeklyReset this dayId) dayId shifts
    = Some (metrics, this1)
    ∧ RepValidator.scoreDay this dayId = Some this'
    ∧ RepValidator.metricsPayrollD metrics
      = billedHours (RepValidator_bill this)
          (λ e, if decide (dayId `mod` 7 = 0) then 0 else RepValidator_counter this e)
          (workerHours shifts)
    ∧ (∀ e, RepValidator_counter this' e
            = (if decide (dayId `mod` 7 = 0) then 0 else RepValidator_counter this e)
              + workedHours e shifts)
    ∧ (NoOverlap shifts →
       RepValidator.capacityD metrics = RepValidator_capacity this day shifts)
    ∧ RepValidator.totalProfit this'
      = (RepValidator.totalProfit this
         + (inject_Z (RepValidator.Day.revenue day) * RepValidator.capacityD metrics ^ 2
            - inject_Z (RepValidator.metricsPayrollD metrics)
            - inject_Z (RepValidator.fixedCost (RepValidator.organization this))))%Q
    ∧ RepValidator.totalPayroll this'
      = RepValidator.totalPayroll this + RepValidator.metricsPayrollD metrics
    ∧ (∀ e sk,
         RepValidator.points this' e sk
         = if RepValidator.isTrained this e sk then RepValidator.points this e sk
           else RepValidator.points this e sk
                + total (RepValidator_gain this (RepValidator.hourlyTeachers metrics) e sk)
                        (skillHours shifts e sk))
    ∧ ∀ skill h, skill ∈ RepValidator.Day.requiredSkills day →
                 RepValidator.Day.start day ≤ h < RepValidator.Day.end_ day →
                 inherited skill = false →
                 default 0 (RepValidator.hourlyTeachers metrics !! (h, skill))
                 = RepValidator_maxRate this shifts skill h.
Proof.
  intros Hday Hopen shifts Hst Hord Hd.
  destruct (weeklyReset_frame this dayId) as (Hsame & _).
  set (this0 := RepValidator.weeklyReset this dayId) in *.
  destruct (calculateCapacity_accounts this0 dayId day shifts)
    as (metrics & this1 & Hcap & Hsame1 & Hpay & Hcnt & Hcapac & HT); [| |done|].
  { by destruct Hsame as (_ & <- & _). }
  { unfold RepValidator_staffed in *. by destruct Hsame as (_ & _ & <- & _). }
  pose proof (sameModel_trans _ _ _ Hsame Hsame1) as Hsame01.
  destruct (updateTraining_spec this1 dayId shifts (RepValidator.hourlyTeachers metrics))
    as (this2 & Hup & Hpts); [|done|].
  { unfold RepValidator_staffed in *. by destruct Hsame01 as (_ & _ & <- & _). }
  exists metrics, this1. eexists. split; [done|].
  split.
  { unfold RepValidator.scoreDay. rewrite Hday. fold shifts. fold this0. rewrite Hopen, Hcap.
    cbn beta iota. rewrite Hup. done. }
  pose proof (updateTraining_weeklyHours _ _ _ _ _ Hup) as Hwh.
  assert (sameTotals this this2) as Htot.
  { eapply sameTotals_trans; [apply (weeklyReset_sameTotals this dayId)|].
    eapply sameTotals_trans; [by eapply calculateCapacity_sameTotals|].
    by eapply updateTraining_sameTotals. }
  pose proof (updateTraining_frame _ _ _ _ _ Hup) as [(Horg & _) _].
  split_and!.
  - rewrite Hpay. apply billedHours_ext.
    + intros e c. by apply RepValidator_bill_sameModel.
    + intros e. apply weeklyReset_counter.
  - intros e. unfold RepValidator_counter at 1. simpl. rewrite Hwh.
    fold (RepValidator_counter this1 e). rewrite Hcnt. unfold this0.
    by rewrite weeklyReset_counter.
  - intros Hno. rewrite (Hcapac Hno Hord). by apply RepValidator_capacity_sameModel.
  - simpl. destruct Htot as (<- & _). by destruct Hsame01 as (<- & _).
  - simpl. by destruct Htot as (_ & <- & _).
  - intros e sk. unfold RepValidator.points at 1. simpl. fold (RepValidator.points this2 e sk).
    rewrite Hpts. rewrite (isTrained_sameModel this this1) by done.
    assert (RepValidator.points this1 e sk = RepValidator.points this e sk) as ->.
    { unfold RepValidator.points. by destruct Hsame01 as (_ & _ & _ & _ & <-). }
    destruct (RepValidator.isTrained this e sk); [done|]. f_equal.
    apply total_ext. intros h _. unfold RepValidator_gain.
    by destruct Hsame01 as (_ & _ & <- & _).
  - intros skill h Hskill Hh Hinh. rewrite (HT skill h Hskill Hh Hinh).
    by apply maxRate_sameModel.
Qed.

(** ** Coverage, payroll, weekly blocks and training in the two scorers *)

(** C1.  The coverage rule fails in the validator on a skill that is
    named like a member of [Object.prototype].  In [ScenarioConstructor]
    the one employee is trained in the required skill "constructor" and
    works both hours on it, so the coverage of either hour is 1 by the
    rule and the capacity of the day is 1.  [calculateCapacity] of
    rep_validator.js finds no counts for the skill (the cell of its
    coverage map is the inherited member), covers neither hour and
    returns capacity 0, and [validateAndScore] then throws in
    [updateTraining] and prints no scorecard.  [calculateScore] of bah3.js
    covers both hours in full on the same input and scores 880. *)
Theorem coverage_rule :
  RepValidator.isTrained ScenarioConstructor.validator 1 "constructor" = true
  ∧ RepValidator_cover ScenarioConstructor.validator [ScenarioConstructor.vShift] 8 "constructor"
    = 1%Q
  ∧ RepValidator_cover ScenarioConstructor.validator [ScenarioConstructor.vShift] 9 "constructor"
    = 1%Q
  ∧ (RepValidator_capacity ScenarioConstructor.validator ScenarioConstructor.vDay
       [ScenarioConstructor.vShift] == 1)%Q
  ∧ (∃ sc metrics validator',
       RepValidator.scanDay ScenarioConstructor.validator 1 ScenarioConstructor.vDay
         [ScenarioConstructor.vShift] = Some sc
       ∧ RepValidator.coverageAt (RepValidator.coverageMap sc) 8 "constructor" = 0%Q
       ∧ RepValidator.coverageAt (RepValidator.coverageMap sc) 9 "constructor" = 0%Q
       ∧ RepValidator.calculateCapacity ScenarioConstructor.validator 1
           [ScenarioConstructor.vShift] = Some (metrics, validator')
       ∧ (RepValidator.capacityD metrics == 0)%Q)
  ∧ RepValidator.validateAndScore ScenarioConstructor.validator = None
  ∧ (∃ sim1 sim2 score,
       Solver.simulateHour ScenarioConstructor.solver ScenarioConstructor.day
         [ScenarioConstructor.shift]
         (Solver_dayStart (Solver.initialRun ScenarioConstructor.solver)) 8 = Some sim1
       ∧ (Solver.achievedSkillHours sim1 == 1)%Q
       ∧ Solver.simulateHour ScenarioConstructor.solver ScenarioConstructor.day
           [ScenarioConstructor.shift] sim1 9 = Some sim2
       ∧ (Solver.achievedSkillHours sim2 == 2)%Q
       ∧ Solver.calculateScore ScenarioConstructor.solver ScenarioConstructor.schedule
         = Some score
       ∧ (score == 880)%Q).
Proof.
  split; [vm_compute; reflexivity|].
  split; [vm_compute; reflexivity|].
  split; [vm_compute; reflexivity|].
  split; [vm_compute; reflexivity|].
  split.
  { eexists _, _, _. split; [vm_compute; reflexivity|].
    split; [vm_compute; reflexivity|]. split; [vm_compute; reflexivity|].
    split; [vm_compute; reflexivity|]. vm_compute. reflexivity. }
  split; [vm_compute; reflexivity|].
  eexists _, _, _. split; [vm_compute; reflexivity|].
  split; [vm_compute; reflexivity|]. split; [vm_compute; reflexivity|].
  split; [vm_compute; reflexivity|]. split; [vm_compute; reflexivity|].
  vm_compute. reflexivity.
Qed.

(** X21.  On the shifts of a validated schedule (their employees exist,
    each with a clone and a state in the simulation, and no employee has
    two overlapping shifts) both scorers add the coverage of the rule of
    the specification for every required skill and hour.  An hour of
    [calculateScore] adds to the achieved skill-hours, for every required
    skill of the day, the coverage of the skill in the hour, computed from
    the known skills the promotions at the start of the hour leave.
    [calculateCapacity] of the validator, on
    shifts whose skills are not named like a member of [Object.prototype],
    returns as capacity the coverage of all cells of the day (required
    skill and opening hour), computed from the skill points at the start
    of the day, over their number.  The coverage of a cell is 1 with a
    trained worker, else 1 with two untrained workers, else 1/2 with one,
    else 0; it is one of 0, 1/2 and 1 and never exceeds 1. *)
Theorem coverage_loops
    (solver : Solver.t) (day : Solver.Day.t) (shifts : list Solver.Shift.t)
    (sim : Solver.Sim) (h : Z)
    (validator : RepValidator.t) (dayId : Z) (vDay : RepValidator.Day.t)
    (vShifts : list RepValidator.Shift.t) :
  Solver_wf solver sim → Solver_staffed solver shifts → NoOverlap shifts →
  RepValidator.days validator !! dayId = Some vDay →
  RepValidator_staffed validator vShifts → NoOverlap vShifts → ordinarySkills vShifts →
  (∃ sim0 sim1,
     Solver.promote sim = Some sim0
     ∧ Solver.simulateHour solver day shifts sim h = Some sim1
     ∧ Solver.achievedSkillHours sim1
       = Qsum (Solver_cover (Solver.simEmployees sim0) shifts h)
              (Solver.Day.requiredSkills day) (Solver.achievedSkillHours sim))
  ∧ (∃ metrics validator',
       RepValidator.calculateCapacity validator dayId vShifts = Some (metrics, validator')
       ∧ RepValidator.capacityD metrics = RepValidator_capacity validator vDay vShifts)
  ∧ (∀ trainedWorkers untrainedWorkers : nat,
       Coverage trainedWorkers untrainedWorkers
       = (if decide (1 ≤ trainedWorkers)%nat then 1%Q
          else if decide (2 ≤ untrainedWorkers)%nat then 1%Q
          else if decide (untrainedWorkers = 1%nat) then (1 # 2)%Q else 0%Q)
       ∧ (Coverage trainedWorkers untrainedWorkers = 0%Q
          ∨ Coverage trainedWorkers untrainedWorkers = (1 # 2)%Q
          ∨ Coverage trainedWorkers untrainedWorkers = 1%Q)
       ∧ (Coverage trainedWorkers untrainedWorkers <= 1)%Q).
Proof.
  intros Hwf Hstaffed Hno Hday Hvst Hvno Hord. split_and!.
  - destruct (simulateHour_accounts solver day shifts sim h Hwf Hstaffed Hno)
      as (sim0 & sim1 & ids & Hprom & Hsim & _ & _ & Hach & _).
    by exists sim0, sim1.
  - by apply calculateCapacity_coverage.
  - intros t u. split; [done|]. apply Coverage_values.
Qed.

Lemma coverage_loops_witness :
  (∃ sim1,
     Solver.simulateHour (ScenarioA.solver 1 1) ScenarioA.day [ScenarioA.shift]
       (Solver_dayStart (Solver.initialRun (ScenarioA.solver 1 1))) 8 = Some sim1
     ∧ (Solver.achievedSkillHours sim1 == 1)%Q)
  ∧ (∃ metrics validator',
       RepValidator.calculateCapacity (ScenarioA.validator 1 1) 1 [ScenarioA.vShift]
       = Some (metrics, validator')
       ∧ (RepValidator.capacityD metrics == 1)%Q).
Proof.
  destruct (coverage_loops (ScenarioA.solver 1 1) ScenarioA.day [ScenarioA.shift]
              (Solver_dayStart (Solver.initialRun (ScenarioA.solver 1 1))) 8
              (ScenarioA.validator 1 1) 1 ScenarioA.vDay [ScenarioA.vShift])
    as ((sim0 & sim1 & _ & Hsim & Hach) & (metrics & v' & Hcap & Hcapac) & _).
  - apply initial_wf.
  - constructor; [vm_compute; eexists; reflexivity|constructor].
  - split; [constructor|exact I].
  - reflexivity.
  - constructor; [vm_compute; eexists; reflexivity|constructor].
  - split; [constructor|exact I].
  - constructor; [reflexivity|constructor].
  - split.
    + exists sim1. split; [exact Hsim|].
      pose proof Hsim as Hsim'. vm_compute in Hsim'. injection Hsim' as <-.
      vm_compute. reflexivity.
    + exists metrics, v'. split; [exact Hcap|]. rewrite Hcapac. vm_compute. reflexivity.
Defined.

(** C4.  Every hour worked is billed by the weekly counter the worker
    has before it: the base salary while the counter is below
    [maxHoursPerWeek], [floor (salaryPerHour * overtimeModifierPercent /
    100)] from then on, and the counter grows by one with every hour,
    billed at the base or at the overtime rate.  In [calculateScore] the
    payroll loop of an hour bills every employee active in the hour once
    and adds one to the employee's counter of the week.  In the validator
    the loop of [calculateCapacity] over the shifts of a day bills the
    hours of the shifts one after the other, each at the counter left by
    the hours before it, and leaves every counter grown by the hours the
    employee worked.  The employees of the shifts exist (every one has a
    clone and a state in the simulation, as [calculateScore] sets them
    up), and no shift of the validator ends before it starts (the
    constructor of [Shift] refuses such a token). *)
Theorem payroll_hour_rule
    (solver : Solver.t) (day : Solver.Day.t) (shifts : list Solver.Shift.t)
    (sim : Solver.Sim) (h : Z)
    (validator : RepValidator.t) (dayId : Z) (vDay : RepValidator.Day.t)
    (vShifts : list RepValidator.Shift.t) :
  Solver_wf solver sim → Solver_staffed solver shifts →
  RepValidator.days validator !! dayId = Some vDay →
  RepValidator_staffed validator vShifts →
  Forall (λ s, 0 ≤ RepValidator.Shift.duration s) vShifts →
  (∃ sim1 ids,
     Solver.simulateHour solver day shifts sim h = Some sim1
     ∧ NoDup ids
     ∧ (∀ e, e ∈ ids ↔ ∃ s, s ∈ shifts ∧ activeAt h s ∧ Solver.Shift.employeeId s = e)
     ∧ Solver.dailyPayroll sim1
       = Solver.dailyPayroll sim
         + total (λ e, Solver_bill solver e
                         (Solver_counter (Solver.employeeStates sim) (Solver.Day.id day) e))
                 ids
     ∧ ∀ e, Solver_counter (Solver.employeeStates sim1) (Solver.Day.id day) e
            = Solver_counter (Solver.employeeStates sim) (Solver.Day.id day) e
              + (if decide (e ∈ ids) then 1 else 0))
  ∧ (∃ metrics validator',
       RepValidator.calculateCapacity validator dayId vShifts = Some (metrics, validator')
       ∧ RepValidator.metricsPayrollD metrics
         = billedHours (RepValidator_bill validator) (RepValidator_counter validator)
                       (workerHours vShifts)
       ∧ ∀ e, RepValidator_counter validator' e
              = RepValidator_counter validator e + workedHours e vShifts)
  ∧ (∀ maxHoursPerWeek salaryPerHour overtimeModifierPercent counter,
       (counter < maxHoursPerWeek →
        hourBill maxHoursPerWeek salaryPerHour overtimeModifierPercent counter = salaryPerHour)
       ∧ (maxHoursPerWeek ≤ counter →
          100 * hourBill maxHoursPerWeek salaryPerHour overtimeModifierPercent counter
          ≤ salaryPerHour * overtimeModifierPercent
          < 100 * (hourBill maxHoursPerWeek salaryPerHour overtimeModifierPercent counter + 1))).
Proof.
  intros Hwf Hstaffed Hday Hvst Hd. split_and!.
  - destruct (simulateHour_payroll solver day shifts sim h Hwf Hstaffed)
      as (sim1 & ids & Hsim & Hnd & Hids & Hpay & Hcnt).
    exists sim1, ids. split_and!; [done..|].
    intros e. rewrite Hcnt. repeat case_decide; try done; tauto.
  - destruct (calculateCapacity_accounts validator dayId vDay vShifts Hday Hvst Hd)
      as (metrics & validator' & Hcap & _ & Hpay & Hcnt & _).
    by exists metrics, validator'.
  - intros m sal ot c. unfold hourBill. split.
    + intros Hlt. by rewrite decide_True.
    + intros Hge. rewrite decide_False by lia.
      pose proof (Z.div_mod (sal * ot) 100). pose proof (Z.mod_pos_bound (sal * ot) 100). lia.
Qed.

Lemma payroll_hour_rule_witness :
  (∃ sim1,
     Solver.simulateHour (ScenarioA.solver 1 1) ScenarioA.day [ScenarioA.shift]
       (Solver_dayStart (Solver.initialRun (ScenarioA.solver 1 1))) 8 = Some sim1
     ∧ Solver.dailyPayroll sim1 = 10
     ∧ Solver_counter (Solver.employeeStates sim1) 1 1 = 1)
  ∧ (∃ metrics validator',
       RepValidator.calculateCapacity (ScenarioA.validator 1 1) 1 [ScenarioA.vShift]
       = Some (metrics, validator')
       ∧ RepValidator.metricsPayrollD metrics = 20
       ∧ RepValidator_counter validator' 1 = 2).
Proof.
  destruct (payroll_hour_rule (ScenarioA.solver 1 1) ScenarioA.day [ScenarioA.shift]
              (Solver_dayStart (Solver.initialRun (ScenarioA.solver 1 1))) 8
              (ScenarioA.validator 1 1) 1 ScenarioA.vDay [ScenarioA.vShift])
    as ((sim1 & ids & Hsim & _ & Hids & Hpay & Hcnt) & (metrics & v' & Hcap & Hbill & Hc) & _).
  - apply initial_wf.
  - constructor; [vm_compute; eexists; reflexivity|constructor].
  - reflexivity.
  - constructor; [vm_compute; eexists; reflexivity|constructor].
  - constructor; [vm_compute; discriminate|constructor].
  - split.
    + exists sim1. split; [exact Hsim|].
      pose proof Hsim as Hsim'. vm_compute in Hsim'. injection Hsim' as <-.
      split; vm_compute; reflexivity.
    + exists metrics, v'. split; [exact Hcap|]. split.
      * rewrite Hbill. vm_compute. reflexivity.
      * rewrite Hc. vm_compute. reflexivity.
Defined.

Lemma initial_counter this d e :
  Solver_counter (Solver.runStates (Solver.initialRun this)) d e = 0.
Proof.
  unfold Solver_counter, Solver.initialRun. simpl.
  induction (Solver.employees this) as [|x l IH]; simpl; [by rewrite lookup_empty|].
  destruct (decide (e = Solver.Employee.id x)) as [->|Hne].
  - by rewrite lookup_insert_eq.
  - by rewrite lookup_insert_ne.
Qed.

Lemma scoreDay_closed this dayId day :
  RepValidator.days this !! dayId = Some day →
  RepValidator.Day.isClosed day = true →
  ∃ this', RepValidator.scoreDay this dayId = Some this'
    ∧ ∀ e, RepValidator_counter this' e
           = if decide (dayId `mod` 7 = 0) then 0 else RepValidator_counter this e.
Proof.
  intros Hday Hclosed. unfold RepValidator.scoreDay. rewrite Hday, Hclosed.
  eexists. split; [done|]. intros e. unfold RepValidator_counter at 1. simpl.
  apply weeklyReset_counter.
Qed.

(** C3, as the code has it.  [calculateScore] files the hours under the
    week index [floor ((dayId - 1) / 7)], so its blocks are the day ids
    1-7, 8-14, 15-21, ...: every counter starts at 0, and an hour of the
    simulation adds one to the counter of every employee active in it, in
    the block of its day and in no other block.  [validateAndScore]
    keeps one counter per employee: when it scores a day it first clears
    the counters if the day id is a multiple of 7, and on no other day,
    and then, on an open day, adds the hours of the employee's shifts of
    the day.  The employees of the shifts exist (every one has a clone
    and a state in the simulation, as [calculateScore] sets them up), no
    shift of the validator ends before it starts, and the skills of the
    validator's shifts are not named like a member of [Object.prototype]. *)
Theorem weekly_blocks
    (solver : Solver.t) (day : Solver.Day.t) (shifts : list Solver.Shift.t)
    (sim : Solver.Sim) (h : Z)
    (validator : RepValidator.t) (dayId : Z) (vDay : RepValidator.Day.t) :
  Solver_wf solver sim → Solver_staffed solver shifts →
  RepValidator.days validator !! dayId = Some vDay →
  RepValidator_staffed validator (default [] (RepValidator.schedule validator !! dayId)) →
  ordinarySkills (default [] (RepValidator.schedule validator !! dayId)) →
  Forall (λ s, 0 ≤ RepValidator.Shift.duration s)
         (default [] (RepValidator.schedule validator !! dayId)) →
  (∀ d k, Solver.EmployeeState.getWeekIndex d = k ↔ 7 * k + 1 ≤ d ≤ 7 * k + 7)
  ∧ (∀ e d, Solver_counter (Solver.runStates (Solver.initialRun solver)) d e = 0)
  ∧ (∃ sim1 ids,
       Solver.simulateHour solver day shifts sim h = Some sim1
       ∧ NoDup ids
       ∧ (∀ e, e ∈ ids ↔ ∃ s, s ∈ shifts ∧ activeAt h s ∧ Solver.Shift.employeeId s = e)
       ∧ ∀ e d, Solver_counter (Solver.employeeStates sim1) d e
                = Solver_counter (Solver.employeeStates sim) d e
                  + (if decide (e ∈ ids
                                ∧ Solver.EmployeeState.getWeekIndex d
                                  = Solver.EmployeeState.getWeekIndex (Solver.Day.id day))
                     then 1 else 0))
  ∧ (∃ validator',
       RepValidator.scoreDay validator dayId = Some validator'
       ∧ ∀ e, RepValidator_counter validator' e
              = (if decide (dayId `mod` 7 = 0) then 0 else RepValidator_counter validator e)
                + (if RepValidator.Day.isClosed vDay then 0
                   else workedHours e (default [] (RepValidator.schedule validator !! dayId)))).
Proof.
  intros Hwf Hstaffed Hday Hvst Hord Hd. split_and!.
  - intros d k. unfold Solver.EmployeeState.getWeekIndex.
    pose proof (Z.div_mod (d - 1) 7). pose proof (Z.mod_pos_bound (d - 1) 7). lia.
  - intros e d. apply initial_counter.
  - destruct (simulateHour_payroll solver day shifts sim h Hwf Hstaffed)
      as (sim1 & ids & Hsim & Hnd & Hids & _ & Hcnt).
    by exists sim1, ids.
  - destruct (RepValidator.Day.isClosed vDay) eqn:Hclosed.
    + destruct (scoreDay_closed validator dayId vDay Hday Hclosed) as (v' & Hscore & Hcnt).
      exists v'. split; [done|]. intros e. rewrite Hcnt. lia.
    + destruct (scoreDay_accounts validator dayId vDay Hday Hclosed Hvst Hord Hd)
        as (metrics & v1 & v' & _ & Hscore & _ & Hcnt & _).
      by exists v'.
Qed.

Lemma weekly_blocks_witness :
  (∃ sim1,
     Solver.simulateHour ScenarioWeek.solver (Solver.Day.mk 8 true 8 9 1000 ["Register"])
       [Solver.Shift.mk 1 8 9 "Register"]
       (Solver_dayStart (Solver.initialRun ScenarioWeek.solver)) 8 = Some sim1
     ∧ Solver_counter (Solver.employeeStates sim1) 8 1 = 1
     ∧ Solver_counter (Solver.employeeStates sim1) 7 1 = 0)
  ∧ (∃ validator',
       RepValidator.scoreDay ScenarioWeek.validator 7 = Some validator'
       ∧ RepValidator_counter validator' 1 = 1).
Proof.
  destruct (weekly_blocks ScenarioWeek.solver (Solver.Day.mk 8 true 8 9 1000 ["Register"])
              [Solver.Shift.mk 1 8 9 "Register"]
              (Solver_dayStart (Solver.initialRun ScenarioWeek.solver)) 8
              ScenarioWeek.validator 7 (ScenarioWeek.vDay 7))
    as (_ & _ & (sim1 & ids & Hsim & _ & _ & _) & (v' & Hscore & Hcnt)).
  - apply initial_wf.
  - constructor; [vm_compute; eexists; reflexivity|constructor].
  - reflexivity.
  - constructor; [vm_compute; eexists; reflexivity|constructor].
  - constructor; [reflexivity|constructor].
  - constructor; [vm_compute; discriminate|constructor].
  - split.
    + exists sim1. split; [exact Hsim|].
      pose proof Hsim as Hsim'. vm_compute in Hsim'. injection Hsim' as <-.
      split; vm_compute; reflexivity.
    + exists v'. split; [exact Hscore|]. rewrite Hcnt. vm_compute. reflexivity.
Defined.






(** On a skill the day does not require the validator records no
    teacher: the learner of this scenario (learning rate 5) works the
    hour 8-9 on "Stock" next to a worker trained in it whose teaching rate
    is 3, on a day that requires "Register" only, and gains 5 points in
    the validator and 15 in [calculateScore]. *)
Lemma unrequired_skill_gain :
  let validator :=
    RepValidator.mk (RepValidator.mkOrganization 50 100)
      {[1 := RepValidator.Day.mk 1 false 8 9 1000 ["Register"]]}
      {[1 := RepValidator.Employee.mk 1 40 10 1 3 {["Stock"]} ∅;
        2 := RepValidator.Employee.mk 2 40 10 5 1 ∅ ∅]}
      {[1 := [RepValidator.Shift.mk 1 8 9 "Stock"; RepValidator.Shift.mk 2 8 9 "Stock"]]}
      {[1 := {["Stock" := 1000]}]} ∅ 0 0 0 true [] in
  let solver :=
    Solver.mk (Solver.mkOrganization 50 100) [Solver.Day.mk 1 true 8 9 1000 ["Register"]]
      [Solver.Employee.mk 1 40 10 1 3 {["Stock"]} ∅; Solver.Employee.mk 2 40 10 5 1 ∅ ∅] in
  (∃ validator',
     RepValidator.scoreDay validator 1 = Some validator'
     ∧ RepValidator.points validator' 2 "Stock" = 5)
  ∧ (∃ sim1,
       Solver.simulateHour solver (Solver.Day.mk 1 true 8 9 1000 ["Register"])
         [Solver.Shift.mk 1 8 9 "Stock"; Solver.Shift.mk 2 8 9 "Stock"]
         (Solver_dayStart (Solver.initialRun solver)) 8 = Some sim1
       ∧ Solver_points (Solver.employeeStates sim1) 2 "Stock" = 15).
Proof.
  split.
  - eexists. split; [vm_compute; reflexivity|]. vm_compute. reflexivity.
  - eexists. split; [vm_compute; reflexivity|]. vm_compute. reflexivity.
Qed.
